(** * Stride dictionary bot: a shallow embedding of [telegram_dictionary_bot.py]

    The development follows the source file top-down:

    - Python strings ([str]) as lists of Unicode code points, with the
      string methods the handlers call ([strip], [split], [join],
      [replace], [startswith], [lower]);
    - the values [json.load] produces and [json.dump] consumes, the
      dictionary operations the handlers perform on them, and their run-time
      type errors;
    - [json.dump(..., indent=2, ensure_ascii=False)] as a printer to text,
      written to the file chunk by chunk as [json.dump] does, so that a
      chunk the UTF-8 codec rejects (one that holds a surrogate) stops the
      write with [UnicodeEncodeError] and leaves the file cut short, and
      [json.load] as a parser of that text;
    - the handlers, written in a state-and-exception monad over the file
      [dictionary.json], the per-user [context.user_data] and the replies
      sent so far;
    - the transition table of the [ConversationHandler] declared in [main];
    - the handlers [start], [list_words] and [backup], the handlers of
      [main] in the order it adds them, with [error_handler], and the
      reading of the environment by [main].

    The conversion of a float literal to the text [json.dump] writes for
    its float is a parameter, [float_text]; the statements that read back
    what was written assume of it that this text is read as the same
    float ([float_round_trip]).

    What is outside the model: the bytes on disk (the file is the text
    they decode to; a file that does not decode is not considered), I/O
    failures of [open], the calls to the Telegram API (every reply is
    taken to be delivered) and the rendering of reply texts (replies are
    kept as data, but for the text whose length [list_words] tests),
    arithmetic on non-integer JSON numbers, Python's recursion limit and
    its limit on the digits of an [int], updates other than new messages
    and button presses of one user in one chat, the health check server
    and what [main] prints. *)

From Stdlib Require Import String Ascii.
From Stdlib Require Import List ZArith NArith Lia Bool QArith.
From Stdlib Require Import DecimalZ DecimalPos DecimalFacts.
From Stdlib Require Import Permutation Sorted.
Import ListNotations.
Close Scope Q_scope.

(* ================================================================== *)
(** ** Python strings *)

Module Str.

Local Open Scope N_scope.

(** A character is a Unicode code point, a [str] a sequence of them. *)
Definition char := N.
Definition str := list char.

(** String literals of the source are written through [lit]. *)
Definition lit (s : string) : str := List.map N_of_ascii (list_ascii_of_string s).

Fixpoint str_eqb (a b : str) : bool :=
  match a, b with
  | [], [] => true
  | x :: a', y :: b' => (x =? y) && str_eqb a' b'
  | _, _ => false
  end.

(** [str.isspace] on one character: the code points Python treats as
    whitespace, which are those [str.strip()] removes. *)
Definition isspace (c : char) : bool :=
  ((9 <=? c) && (c <=? 13)) || ((28 <=? c) && (c <=? 32))
  || (c =? 133) || (c =? 160) || (c =? 5760)
  || ((8192 <=? c) && (c <=? 8202))
  || (c =? 8232) || (c =? 8233) || (c =? 8239) || (c =? 8287) || (c =? 12288).

Fixpoint lstrip (s : str) : str :=
  match s with
  | [] => []
  | c :: r => if isspace c then lstrip r else s
  end.

Fixpoint rstrip (s : str) : str :=
  match s with
  | [] => []
  | c :: r =>
      match rstrip r with
      | [] => if isspace c then [] else [c]
      | r' => c :: r'
      end
  end.

(** [s.strip()] *)
Definition strip (s : str) : str := rstrip (lstrip s).

(** [s.split(sep)] for a one-character separator. *)
Fixpoint split (sep : char) (s : str) : list str :=
  match s with
  | [] => [[]]
  | c :: r =>
      if c =? sep then [] :: split sep r
      else match split sep r with
           | w :: ws => (c :: w) :: ws
           | [] => [[c]]
           end
  end.

(** [sep.join(l)] *)
Fixpoint join (sep : str) (l : list str) : str :=
  match l with
  | [] => []
  | [w] => w
  | w :: ws => w ++ sep ++ join sep ws
  end.

(** [s.startswith(p)] *)
Fixpoint startswith (s p : str) {struct p} : bool :=
  match p, s with
  | [], _ => true
  | x :: p', y :: s' => (x =? y) && startswith s' p'
  | _ :: _, [] => false
  end.

(** [p in s] for strings: [p] occurs as a substring of [s]. *)
Fixpoint contains (s p : str) : bool :=
  startswith s p ||
  match s with
  | [] => false
  | _ :: r => contains r p
  end.

(** [s.replace(old, new)]: every non-overlapping occurrence, scanning from
    the left.  [skip] counts the characters of a matched occurrence still
    to be passed over. *)
Fixpoint replace_from (old new : str) (skip : nat) (s : str) : str :=
  match s with
  | [] => match old with [] => new | _ => [] end
  | c :: r =>
      match skip with
      | S k => replace_from old new k r
      | O =>
          if startswith s old
          then new ++ match old with
                      | [] => c :: replace_from old new 0 r
                      | _ => replace_from old new (length old - 1) r
                      end
          else c :: replace_from old new 0 r
      end
  end.

Definition replace (s old new : str) : str := replace_from old new 0 s.

(** [str.lower] restricted to code points below 256, where it acts on each
    character separately.  The handlers are parametric in [lower]; this
    instance serves to run them on concrete inputs. *)
Definition lower_cp (c : char) : char :=
  if ((65 <=? c) && (c <=? 90))
     || ((192 <=? c) && (c <=? 222) && negb (c =? 215))
  then c + 32 else c.

Definition lower_latin1 (s : str) : str := List.map lower_cp s.

End Str.

Export Str.

(* ================================================================== *)
(** ** Python values and the exceptions the handlers can meet *)

Module Py.

(** The objects [json.load] builds: [None], [bool], [int], [float], [str],
    [list] and [dict] with string keys.  A [dict] keeps its items in
    insertion order, which is the order [json.dump] writes them in.  A
    [float] is held as the text [json.dump] writes for it, which tells
    floats apart. *)
Unset Elimination Schemes.
Inductive pyval : Type :=
| PNone
| PBool (b : bool)
| PInt (z : Z)
| PFloat (text : str)
| PStr (s : str)
| PList (l : list pyval)
| PDict (d : list (str * pyval)).
Set Elimination Schemes.

(** Induction over values, with the hypothesis for every element of a list
    and every value of a dict. *)
Fixpoint pyval_ind (P : pyval -> Prop)
  (HNone : P PNone) (HBool : forall b, P (PBool b))
  (HInt : forall z, P (PInt z)) (HFloat : forall l, P (PFloat l))
  (HStr : forall s, P (PStr s))
  (HList : forall l, Forall P l -> P (PList l))
  (HDict : forall d, Forall (fun kv => P (snd kv)) d -> P (PDict d))
  (v : pyval) {struct v} : P v :=
  let rec := pyval_ind P HNone HBool HInt HFloat HStr HList HDict in
  match v with
  | PNone => HNone
  | PBool b => HBool b
  | PInt z => HInt z
  | PFloat l => HFloat l
  | PStr s => HStr s
  | PList l =>
      HList l ((fix all (l : list pyval) : Forall P l :=
                  match l with
                  | [] => Forall_nil P
                  | x :: r => Forall_cons x (rec x) (all r)
                  end) l)
  | PDict d =>
      HDict d ((fix all (d : list (str * pyval))
                  : Forall (fun kv => P (snd kv)) d :=
                  match d with
                  | [] => Forall_nil _
                  | kv :: r => Forall_cons kv (rec (snd kv)) (all r)
                  end) d)
  end.

Inductive exn : Type :=
| JSONDecodeError
| TypeError
| KeyError
| AttributeError
| UnicodeEncodeError.

(** The outcome of evaluating an expression: a value or a raised
    exception. *)
Inductive res (A : Type) : Type :=
| Val (a : A)
| Exn (e : exn).
Arguments Val {A} a.
Arguments Exn {A} e.

Definition items := list (str * pyval).

Fixpoint dict_get (d : items) (k : str) : option pyval :=
  match d with
  | [] => None
  | (k', v) :: r => if str_eqb k' k then Some v else dict_get r k
  end.

Definition dict_mem (d : items) (k : str) : bool :=
  match dict_get d k with Some _ => true | None => false end.

(** [d[k] = v] on a [dict]: an existing key keeps its position. *)
Fixpoint dict_set (d : items) (k : str) (v : pyval) : items :=
  match d with
  | [] => [(k, v)]
  | (k', v') :: r =>
      if str_eqb k' k then (k', v) :: r else (k', v') :: dict_set r k v
  end.

(** [del d[k]] on a [dict] that holds [k]. *)
Fixpoint dict_del (d : items) (k : str) : items :=
  match d with
  | [] => []
  | (k', v') :: r => if str_eqb k' k then r else (k', v') :: dict_del r k
  end.

(** [dict(pairs)]: later pairs overwrite earlier ones. *)
Definition dict_of_pairs (pairs : items) : items :=
  fold_left (fun d kv => dict_set d (fst kv) (snd kv)) pairs [].

(** Equality [==] of a string with an arbitrary value. *)
Definition eq_str (w : str) (v : pyval) : bool :=
  match v with
  | PStr s => str_eqb s w
  | _ => false
  end.

(** [w in x] for a string [w]. *)
Definition py_contains (x : pyval) (w : str) : res bool :=
  match x with
  | PDict d => Val (dict_mem d w)
  | PList l => Val (existsb (eq_str w) l)
  | PStr s => Val (contains s w)
  | _ => Exn TypeError
  end.

(** [x[k]] for a string [k]. *)
Definition py_getitem (x : pyval) (k : str) : res pyval :=
  match x with
  | PDict d => match dict_get d k with
               | Some v => Val v
               | None => Exn KeyError
               end
  | _ => Exn TypeError
  end.

(** [x[k] = v] for a string [k]. *)
Definition py_setitem (x : pyval) (k : str) (v : pyval) : res pyval :=
  match x with
  | PDict d => Val (PDict (dict_set d k v))
  | _ => Exn TypeError
  end.

(** [del x[k]] for a string [k]. *)
Definition py_delitem (x : pyval) (k : str) : res pyval :=
  match x with
  | PDict d => if dict_mem d k then Val (PDict (dict_del d k)) else Exn KeyError
  | _ => Exn TypeError
  end.

(** The text of a float is that of a zero when its mantissa has no
    non-zero digit. *)
Fixpoint mantissa_zero (l : str) : bool :=
  match l with
  | [] => true
  | c :: r =>
      if ((c =? 101) || (c =? 69))%N then true
      else if ((49 <=? c) && (c <=? 57))%N then false
      else if ((c =? 78) || (c =? 73))%N then false
      else mantissa_zero r
  end.

(** Truth value, as tested by [if not x]. *)
Definition py_truthy (x : pyval) : bool :=
  match x with
  | PNone => false
  | PBool b => b
  | PInt z => negb (z =? 0)%Z
  | PFloat l => negb (mantissa_zero l)
  | PStr s => match s with [] => false | _ => true end
  | PList l => match l with [] => false | _ => true end
  | PDict d => match d with [] => false | _ => true end
  end.

(** [len(x)] *)
Definition py_len (x : pyval) : res nat :=
  match x with
  | PStr s => Val (length s)
  | PList l => Val (length l)
  | PDict d => Val (length d)
  | _ => Exn TypeError
  end.

(** [x.values()] *)
Definition py_values (x : pyval) : res (list pyval) :=
  match x with
  | PDict d => Val (List.map snd d)
  | _ => Exn AttributeError
  end.

(** The elements a [for] loop over [x] visits. *)
Definition py_iter (x : pyval) : res (list pyval) :=
  match x with
  | PList l => Val l
  | PStr s => Val (List.map (fun c => PStr [c]) s)
  | PDict d => Val (List.map (fun kv => PStr (fst kv)) d)
  | _ => Exn TypeError
  end.

End Py.

Export Py.

(* ================================================================== *)
(** ** [json.dump] and [json.load] *)

Module Json.

Local Open Scope N_scope.

(** *** Printing: [json.dump(v, f, indent=2, ensure_ascii=False)] *)

Definition hexdigit (n : N) : char := if n <? 10 then 48 + n else 87 + n.

(** One character of a string, as [encode_basestring] writes it: the quote,
    the backslash and the control characters are escaped, anything else is
    written as it is. *)
Definition escape_char (c : char) : str :=
  if c =? 34 then [92; 34]
  else if c =? 92 then [92; 92]
  else if c =? 10 then [92; 110]
  else if c =? 13 then [92; 114]
  else if c =? 9 then [92; 116]
  else if c =? 8 then [92; 98]
  else if c =? 12 then [92; 102]
  else if c <? 32 then [92; 117; 48; 48; hexdigit (c / 16); hexdigit (c mod 16)]
  else [c].

Definition encode_basestring (s : str) : str :=
  34 :: flat_map escape_char s ++ [34].

Fixpoint uint_chars (d : Decimal.uint) : str :=
  match d with
  | Decimal.Nil => []
  | Decimal.D0 d' => 48 :: uint_chars d'
  | Decimal.D1 d' => 49 :: uint_chars d'
  | Decimal.D2 d' => 50 :: uint_chars d'
  | Decimal.D3 d' => 51 :: uint_chars d'
  | Decimal.D4 d' => 52 :: uint_chars d'
  | Decimal.D5 d' => 53 :: uint_chars d'
  | Decimal.D6 d' => 54 :: uint_chars d'
  | Decimal.D7 d' => 55 :: uint_chars d'
  | Decimal.D8 d' => 56 :: uint_chars d'
  | Decimal.D9 d' => 57 :: uint_chars d'
  end.

(** [int.__repr__] *)
Definition int_repr (z : Z) : str :=
  match Z.to_int z with
  | Decimal.Pos d => uint_chars d
  | Decimal.Neg d => 45 :: uint_chars d
  end.

(** A line break followed by the indentation of nesting level [lvl]. *)
Definition newline_indent (lvl : nat) : str := 10 :: repeat 32 (2 * lvl)%nat.

Definition NULL : str := Eval cbv in lit "null".
Definition TRUE : str := Eval cbv in lit "true".
Definition FALSE : str := Eval cbv in lit "false".

(** The items of a container after the first, each led by the item
    separator and the line break. *)
Fixpoint more_items {A} (lvl : nat) (item : A -> str) (l : list A) : str :=
  match l with
  | [] => []
  | y :: ys => 44 :: newline_indent lvl ++ item y ++ more_items lvl item ys
  end.

(** One item of a [dict]: the key, the key separator and the value. *)
Definition dict_item (value : pyval -> str) (kv : str * pyval) : str :=
  encode_basestring (fst kv) ++ [58; 32] ++ value (snd kv).

Fixpoint dumps (lvl : nat) (v : pyval) {struct v} : str :=
  match v with
  | PNone => NULL
  | PBool true => TRUE
  | PBool false => FALSE
  | PInt z => int_repr z
  | PFloat l => l
  | PStr s => encode_basestring s
  | PList [] => [91; 93]
  | PList (x :: xs) =>
      91 :: newline_indent (S lvl) ++ dumps (S lvl) x
      ++ more_items (S lvl) (dumps (S lvl)) xs
      ++ newline_indent lvl ++ [93]
  | PDict [] => [123; 125]
  | PDict (kv :: kvs) =>
      123 :: newline_indent (S lvl) ++ dict_item (dumps (S lvl)) kv
      ++ more_items (S lvl) (dict_item (dumps (S lvl))) kvs
      ++ newline_indent lvl ++ [125]
  end.

Definition json_dumps (v : pyval) : str := dumps 0 v.

(** The chunks [json.dump] passes to [f.write], one after the other: those
    of [_iterencode].  In a [list] the opening bracket or the separator
    comes in one chunk with the item that follows it, when this item is
    not itself a [list] or a [dict]. *)
Definition atom (v : pyval) : bool :=
  match v with
  | PList _ | PDict _ => false
  | _ => true
  end.

Fixpoint iterencode (lvl : nat) (v : pyval) {struct v} : list str :=
  match v with
  | PList [] => [[91; 93]]
  | PList (x :: xs) =>
      (if atom x then [91 :: newline_indent (S lvl) ++ dumps (S lvl) x]
       else (91 :: newline_indent (S lvl)) :: iterencode (S lvl) x)
      ++ flat_map (fun y =>
                     if atom y
                     then [44 :: newline_indent (S lvl) ++ dumps (S lvl) y]
                     else (44 :: newline_indent (S lvl)) :: iterencode (S lvl) y)
                  xs
      ++ [newline_indent lvl; [93]]
  | PDict [] => [[123; 125]]
  | PDict (kv :: kvs) =>
      [[123]; newline_indent (S lvl)]
      ++ [encode_basestring (fst kv); [58; 32]] ++ iterencode (S lvl) (snd kv)
      ++ flat_map (fun kv' =>
                     [44 :: newline_indent (S lvl);
                      encode_basestring (fst kv'); [58; 32]]
                     ++ iterencode (S lvl) (snd kv'))
                  kvs
      ++ [newline_indent lvl; [125]]
  | _ => [dumps lvl v]
  end.

(** A code point that UTF-8 does not encode: a surrogate.  A [str] holds
    one when it was read from an escape that is not part of a pair. *)
Definition surrogate (c : char) : bool := (55296 <=? c) && (c <=? 57343).

Definition encodable (s : str) : bool := forallb (fun c => negb (surrogate c)) s.

(** [for chunk in chunks: f.write(chunk)] on a file opened with
    [encoding='utf-8']: the text that reaches the file, and whether every
    chunk did.  A chunk that cannot be encoded raises [UnicodeEncodeError]
    and nothing of it is written. *)
Fixpoint write (chunks : list str) : str * bool :=
  match chunks with
  | [] => ([], true)
  | chunk :: rest =>
      if encodable chunk
      then let (text, ok) := write rest in (chunk ++ text, ok)
      else ([], false)
  end.

(** *** Parsing: [json.load(f)] *)

(** The whitespace of [json.decoder.WHITESPACE]. *)
Definition is_ws (c : char) : bool :=
  (c =? 32) || (c =? 9) || (c =? 10) || (c =? 13).

Fixpoint skip_ws (s : str) : str :=
  match s with
  | [] => []
  | c :: r => if is_ws c then skip_ws r else s
  end.

Definition hexval (c : char) : option N :=
  if (48 <=? c) && (c <=? 57) then Some (c - 48)
  else if (97 <=? c) && (c <=? 102) then Some (c - 87)
  else if (65 <=? c) && (c <=? 70) then Some (c - 55)
  else None.

Definition hex4 (a b c d : char) : option N :=
  match hexval a, hexval b, hexval c, hexval d with
  | Some x, Some y, Some z, Some w => Some (((x * 16 + y) * 16 + z) * 16 + w)
  | _, _, _, _ => None
  end.

(** The one-character escapes of [json.decoder.BACKSLASH]. *)
Definition backslash (e : char) : option char :=
  if e =? 34 then Some 34
  else if e =? 92 then Some 92
  else if e =? 47 then Some 47
  else if e =? 98 then Some 8
  else if e =? 102 then Some 12
  else if e =? 110 then Some 10
  else if e =? 114 then Some 13
  else if e =? 116 then Some 9
  else None.

Definition is_high_surrogate (u : N) : bool := (55296 <=? u) && (u <=? 56319).
Definition is_low_surrogate (u : N) : bool := (56320 <=? u) && (u <=? 57343).
Definition join_surrogates (hi lo : N) : N :=
  65536 + (hi - 55296) * 1024 + (lo - 56320).

Definition cons_char (c : char) (r : option (str * str)) : option (str * str) :=
  match r with
  | Some (x, rest) => Some (c :: x, rest)
  | None => None
  end.

(** [scanstring], started after the opening quote, in strict mode: returns
    the decoded string and the text after the closing quote. *)
Fixpoint scanstring (s : str) : option (str * str) :=
  match s with
  | [] => None
  | c :: r =>
      if c =? 34 then Some ([], r)
      else if c =? 92 then
        match r with
        | [] => None
        | e :: r1 =>
            if e =? 117 then
              match r1 with
              | h1 :: h2 :: h3 :: h4 :: r2 =>
                  match hex4 h1 h2 h3 h4 with
                  | None => None
                  | Some uni =>
                      if is_high_surrogate uni then
                        match r2 with
                        | b :: u :: r3 =>
                            if (b =? 92) && (u =? 117) then
                              match r3 with
                              | g1 :: g2 :: g3 :: g4 :: r4 =>
                                  match hex4 g1 g2 g3 g4 with
                                  | None => None
                                  | Some uni2 =>
                                      if is_low_surrogate uni2
                                      then cons_char (join_surrogates uni uni2)
                                                     (scanstring r4)
                                      else cons_char uni (scanstring r2)
                                  end
                              | _ => None
                              end
                            else cons_char uni (scanstring r2)
                        | _ => cons_char uni (scanstring r2)
                        end
                      else cons_char uni (scanstring r2)
                  end
              | _ => None
              end
            else match backslash e with
                 | Some ch => cons_char ch (scanstring r1)
                 | None => None
                 end
        end
      else if c <? 32 then None
      else cons_char c (scanstring r)
  end.

Definition is_digit (c : char) : bool := (48 <=? c) && (c <=? 57).

(** The longest run of digits at the head of [s], and what follows it. *)
Fixpoint take_digits (s : str) : str * str :=
  match s with
  | [] => ([], [])
  | c :: r =>
      if is_digit c
      then let (ds, r') := take_digits r in (c :: ds, r')
      else ([], s)
  end.

Fixpoint chars_uint (ds : str) : Decimal.uint :=
  match ds with
  | [] => Decimal.Nil
  | c :: r =>
      let d := chars_uint r in
      if c =? 48 then Decimal.D0 d else if c =? 49 then Decimal.D1 d
      else if c =? 50 then Decimal.D2 d else if c =? 51 then Decimal.D3 d
      else if c =? 52 then Decimal.D4 d else if c =? 53 then Decimal.D5 d
      else if c =? 54 then Decimal.D6 d else if c =? 55 then Decimal.D7 d
      else if c =? 56 then Decimal.D8 d else Decimal.D9 d
  end.

(** [int(lexeme)] for an optional minus sign followed by digits. *)
Definition int_of (neg : bool) (ds : str) : Z :=
  Z.of_int (if neg then Decimal.Neg (chars_uint ds) else Decimal.Pos (chars_uint ds)).

(** The pieces of [NUMBER_RE]: an optional minus sign; an integer part
    that is either a single zero or a non-zero digit followed by any
    digits; optionally a point and one or more digits; optionally an
    exponent mark, a sign and one or more digits.  An optional piece that
    does not match consumes nothing. *)
Definition scan_sign (s : str) : bool * str :=
  match s with
  | c :: r => if c =? 45 then (true, r) else (false, s)
  | [] => (false, s)
  end.

Definition scan_int_part (s : str) : option (str * str) :=
  match s with
  | [] => None
  | d :: r =>
      if is_digit d then
        if d =? 48 then Some ([d], r)
        else let (ds, r') := take_digits r in Some (d :: ds, r')
      else None
  end.

Definition scan_frac (s : str) : str * str :=
  match s with
  | p :: r =>
      if p =? 46 then
        match take_digits r with
        | ([], _) => ([], s)
        | (fs, r') => (p :: fs, r')
        end
      else ([], s)
  | [] => ([], s)
  end.

Definition scan_exp (s : str) : str * str :=
  match s with
  | e :: r =>
      if (e =? 101) || (e =? 69) then
        let (sg, r') := match r with
                        | g :: t => if (g =? 45) || (g =? 43)
                                    then ([g], t) else ([], r)
                        | [] => ([], r)
                        end in
        match take_digits r' with
        | ([], _) => ([], s)
        | (es, r'') => (e :: sg ++ es, r'')
        end
      else ([], s)
  | [] => ([], s)
  end.

End Json.

Export Json.

Section Bot.

(** [float.__repr__] of the float that a literal denotes, as [json.dump]
    writes it: [2.5] for [2.50], [1e+16] for [1e16], [0.0] for [1e-400],
    [Infinity] for [1e400].  The rounding of a literal to a double is the
    interpreter's and is not computed here. *)
Variable float_text : str -> str.

Local Open Scope N_scope.

(** [NUMBER_RE] matched at the head of [s].  Without fraction and exponent
    the number is an [int], otherwise a [float]. *)
Definition match_number (s : str) : option (pyval * str) :=
  let (neg, s1) := scan_sign s in
  match scan_int_part s1 with
  | None => None
  | Some (ip, r1) =>
      let (frac, r2) := scan_frac r1 in
      let (ex, r3) := scan_exp r2 in
      match frac, ex with
      | [], [] => Some (PInt (int_of neg ip), r3)
      | _, _ =>
          Some (PFloat (float_text ((if neg then [45] else []) ++ ip ++ frac ++ ex)),
                r3)
      end
  end.

Definition NAN : str := Eval cbv in lit "NaN".
Definition INFINITY : str := Eval cbv in lit "Infinity".
Definition NEG_INFINITY : str := Eval cbv in lit "-Infinity".

(** The constants and numbers of [scan_once]. *)
Definition scan_atom (s : str) : option (pyval * str) :=
  if startswith s NULL then Some (PNone, skipn 4 s)
  else if startswith s TRUE then Some (PBool true, skipn 4 s)
  else if startswith s FALSE then Some (PBool false, skipn 5 s)
  else match match_number s with
       | Some r => Some r
       | None =>
           if startswith s NAN then Some (PFloat NAN, skipn 3 s)
           else if startswith s INFINITY then Some (PFloat INFINITY, skipn 8 s)
           else if startswith s NEG_INFINITY
                then Some (PFloat NEG_INFINITY, skipn 9 s)
           else None
       end.

(** [scan_once], [JSONArray] and [JSONObject].  [fuel] bounds the nesting
    depth plus the number of items read; more than twice the length of the
    text is always enough (lemma [scan_once_fuel] below).  [JSONArray] and [JSONObject]
    start at the first item, after the look-ahead for an empty container. *)
Fixpoint scan_once (fuel : nat) (s : str) {struct fuel} : option (pyval * str) :=
  match fuel with
  | O => None
  | S f =>
      match s with
      | [] => None
      | c :: r =>
          if c =? 34 then
            match scanstring r with
            | Some (x, r') => Some (PStr x, r')
            | None => None
            end
          else if c =? 123 then
            match skip_ws r with
            | [] => None
            | c1 :: r1 =>
                if c1 =? 125 then Some (PDict [], r1)
                else match JSONObject f (c1 :: r1) with
                     | Some (pairs, r2) => Some (PDict (dict_of_pairs pairs), r2)
                     | None => None
                     end
            end
          else if c =? 91 then
            match skip_ws r with
            | [] => None
            | c1 :: r1 =>
                if c1 =? 93 then Some (PList [], r1)
                else match JSONArray f (c1 :: r1) with
                     | Some (vs, r2) => Some (PList vs, r2)
                     | None => None
                     end
            end
          else scan_atom s
      end
  end
with JSONArray (fuel : nat) (s : str) {struct fuel} : option (list pyval * str) :=
  match fuel with
  | O => None
  | S f =>
      match scan_once f s with
      | None => None
      | Some (v, r) =>
          match skip_ws r with
          | [] => None
          | c :: r1 =>
              if c =? 93 then Some ([v], r1)
              else if c =? 44 then
                match JSONArray f (skip_ws r1) with
                | Some (vs, r2) => Some (v :: vs, r2)
                | None => None
                end
              else None
          end
      end
  end
with JSONObject (fuel : nat) (s : str) {struct fuel} : option (items * str) :=
  match fuel with
  | O => None
  | S f =>
      match s with
      | [] => None
      | q :: r =>
          if q =? 34 then
            match scanstring r with
            | None => None
            | Some (key, r1) =>
                match skip_ws r1 with
                | [] => None
                | c :: r2 =>
                    if c =? 58 then
                      match scan_once f (skip_ws r2) with
                      | None => None
                      | Some (v, r3) =>
                          match skip_ws r3 with
                          | [] => None
                          | c' :: r4 =>
                              if c' =? 125 then Some ([(key, v)], r4)
                              else if c' =? 44 then
                                match JSONObject f (skip_ws r4) with
                                | Some (ps, r5) => Some ((key, v) :: ps, r5)
                                | None => None
                                end
                              else None
                          end
                      end
                    else None
                end
            end
          else None
      end
  end.

(** [json.loads]: one value, surrounded by optional whitespace, and nothing
    after it.  [None] stands for [JSONDecodeError]. *)
Definition json_loads (s : str) : option pyval :=
  match scan_once (2 * length s + 1) (skip_ws s) with
  | Some (v, r) => match skip_ws r with
                   | [] => Some v
                   | _ :: _ => None
                   end
  | None => None
  end.

Local Close Scope N_scope.

(* ================================================================== *)
(** ** The handlers *)

(** [WORD, MEANING, EXAMPLE = range(3)] *)
Inductive conv_state : Type := WORD | MEANING | EXAMPLE.

(** What a handler returns to the [ConversationHandler]: a state,
    [ConversationHandler.END], or nothing. *)
Inductive handler_ret : Type :=
| Goto (s : conv_state)
| END
| RetNone.

(** [context.user_data], restricted to the two keys the handlers use. *)
Record user_data : Type := {
  new_word : option str;
  meaning : option str
}.

Definition no_user_data : user_data := {| new_word := None; meaning := None |}.

(** The replies, as data.  Each constructor stands for one message text of
    the source and carries the values formatted into it; an inline keyboard
    is the list of the [callback_data] of its buttons.  [Results] stands
    for the results of a search, which the source sends joined in one
    message or, when that would be longer than 4000 characters, one by
    one. *)
Inductive reply : Type :=
| AdminOnly
| AskWord
| WordExists (word : str) (current_meaning : pyval) (keyboard : list str)
| AskMeaning (word : str)
| AskExamples
| WordAdded (word meaning : str) (examples : list str)
| Cancelled
| Updating (word : str)
| DeleteUsage
| Deleted (word : str)
| DeleteNotFound (word : str)
| DictionaryEmpty
| Results (results : list (str * pyval * list pyval))
| NotFound (words : list str)
| Stats (total_words total_examples : nat) (avg_examples : Q).

(** The state a handler runs in: the content of [dictionary.json] (or
    [None] when the file does not exist), the [user_data] of the user who
    sent the update, and the replies sent so far, oldest first. *)
Record world : Type := {
  file : option str;
  user : user_data;
  sent : list reply
}.

(** Handlers are computations that read and change the [world] and end in a
    value or in an exception; the changes made before an exception stay. *)
Definition M (A : Type) : Type := world -> res A * world.

Definition ret {A} (a : A) : M A := fun w => (Val a, w).

Definition bind {A B} (m : M A) (k : A -> M B) : M B :=
  fun w => match m w with
           | (Val a, w') => k a w'
           | (Exn e, w') => (Exn e, w')
           end.

Notation "x <- m ;; k" := (bind m (fun x => k))
  (at level 61, m at next level, right associativity).
Notation "m ;;; k" := (bind m (fun _ => k))
  (at level 61, right associativity).

(** An expression that may raise. *)
Definition eval {A} (r : res A) : M A := fun w => (r, w).

Definition reply_text (r : reply) : M unit :=
  fun w => (Val tt, {| file := file w; user := user w; sent := sent w ++ [r] |}).

Definition set_new_word (word : str) : M unit :=
  fun w => (Val tt, {| file := file w;
                       user := {| new_word := Some word; meaning := meaning (user w) |};
                       sent := sent w |}).

Definition set_meaning (m : str) : M unit :=
  fun w => (Val tt, {| file := file w;
                       user := {| new_word := new_word (user w); meaning := Some m |};
                       sent := sent w |}).

(** [context.user_data[key]] raises [KeyError] on a missing key. *)
Definition get_user_data (field : user_data -> option str) : M str :=
  fun w => match field (user w) with
           | Some v => (Val v, w)
           | None => (Exn KeyError, w)
           end.

(** [context.user_data.clear()] *)
Definition clear_user_data : M unit :=
  fun w => (Val tt, {| file := file w; user := no_user_data; sent := sent w |}).

(** [load_dictionary()] *)
Definition load_dictionary : M pyval :=
  fun w => match file w with
           | Some text => match json_loads text with
                          | Some v => (Val v, w)
                          | None => (Exn JSONDecodeError, w)
                          end
           | None => (Val (PDict []), w)
           end.

(** [save_dictionary(dictionary)]: [open(..., 'w')] empties the file, then
    [json.dump] writes its chunks.  When a chunk cannot be encoded the
    file is left with the chunks before it and [UnicodeEncodeError] is
    raised. *)
Definition save_dictionary (dictionary : pyval) : M unit :=
  fun w =>
    let (text, ok) := write (iterencode 0 dictionary) in
    (if ok then Val tt else Exn UnicodeEncodeError,
     {| file := Some text; user := user w; sent := sent w |}).

Definition MEANING_KEY : str := Eval cbv in lit "meaning".
Definition EXAMPLES_KEY : str := Eval cbv in lit "examples".
Definition UPDATE_ : str := Eval cbv in lit "update_".
Definition CANCEL_ADD : str := Eval cbv in lit "cancel_add".
Definition COMMA : char := 44%N.
Definition NEWLINE : char := 10%N.
Definition SPACE : str := [32%N].

Definition nonempty (s : str) : bool :=
  match s with [] => false | _ :: _ => true end.

(** [[ex.strip() for ex in examples_text.split('\n') if ex.strip()]] *)
Definition example_lines (examples_text : str) : list str :=
  List.map strip (filter (fun ex => nonempty (strip ex)) (split NEWLINE examples_text)).

(** [sum(len(data['examples']) for data in values)] *)
Fixpoint sum_examples (values : list pyval) : res nat :=
  match values with
  | [] => Val 0%nat
  | data :: rest =>
      match py_getitem data EXAMPLES_KEY with
      | Exn e => Exn e
      | Val ex =>
          match py_len ex with
          | Exn e => Exn e
          | Val n =>
              match sum_examples rest with
              | Exn e => Exn e
              | Val m => Val (n + m)%nat
              end
          end
      end
  end.

(** The loop of [search_words]: the entries found and the words not found,
    both in the order of [words]. *)
Fixpoint search_loop (dictionary : pyval) (words : list str)
  : res (list (str * pyval * list pyval) * list str) :=
  match words with
  | [] => Val ([], [])
  | word :: rest =>
      match py_contains dictionary word with
      | Exn e => Exn e
      | Val true =>
          match py_getitem dictionary word with
          | Exn e => Exn e
          | Val data =>
              match py_getitem data EXAMPLES_KEY with
              | Exn e => Exn e
              | Val exs =>
                  match py_iter exs with
                  | Exn e => Exn e
                  | Val examples =>
                      match py_getitem data MEANING_KEY with
                      | Exn e => Exn e
                      | Val m =>
                          match search_loop dictionary rest with
                          | Exn e => Exn e
                          | Val (results, not_found) =>
                              Val ((word, m, examples) :: results, not_found)
                          end
                      end
                  end
              end
          end
      | Val false =>
          match search_loop dictionary rest with
          | Exn e => Exn e
          | Val (results, not_found) => Val (results, word :: not_found)
          end
      end
  end.

Section Handlers.

(** [str.lower] *)
Variable lower : str -> str.

(** [ADMIN_IDS], as [main] sets it from the environment. *)
Variable ADMIN_IDS : list Z.

Definition is_admin (user_id : Z) : bool :=
  existsb (Z.eqb user_id) ADMIN_IDS.

Definition add_word_start (user_id : Z) : M handler_ret :=
  if negb (is_admin user_id) then
    reply_text AdminOnly ;;;
    ret END
  else
    reply_text AskWord ;;;
    ret (Goto WORD).

Definition receive_word (text : str) : M handler_ret :=
  let word := lower (strip text) in
  set_new_word word ;;;
  dictionary <- load_dictionary ;;
  found <- eval (py_contains dictionary word) ;;
  if found : bool then
    entry <- eval (py_getitem dictionary word) ;;
    current <- eval (py_getitem entry MEANING_KEY) ;;
    reply_text (WordExists word current [UPDATE_ ++ word; CANCEL_ADD]) ;;;
    ret (Goto WORD)
  else
    reply_text (AskMeaning word) ;;;
    ret (Goto MEANING).

Definition receive_meaning (text : str) : M handler_ret :=
  set_meaning (strip text) ;;;
  reply_text AskExamples ;;;
  ret (Goto EXAMPLE).

Definition receive_examples (text : str) : M handler_ret :=
  let examples_text := strip text in
  let examples := example_lines examples_text in
  word <- get_user_data new_word ;;
  meaning <- get_user_data meaning ;;
  dictionary <- load_dictionary ;;
  dictionary' <- eval (py_setitem dictionary word
                         (PDict [(MEANING_KEY, PStr meaning);
                                 (EXAMPLES_KEY, PList (List.map PStr examples))])) ;;
  save_dictionary dictionary' ;;;
  clear_user_data ;;;
  reply_text (WordAdded word meaning examples) ;;;
  ret END.

Definition cancel_add : M handler_ret :=
  clear_user_data ;;;
  reply_text Cancelled ;;;
  ret END.

Definition button_callback (data : str) : M handler_ret :=
  if startswith data UPDATE_ then
    let word := replace data UPDATE_ [] in
    set_new_word word ;;;
    reply_text (Updating word) ;;;
    ret (Goto MEANING)
  else if str_eqb data CANCEL_ADD then
    cancel_add
  else
    ret RetNone.

Definition delete_word (user_id : Z) (args : list str) : M unit :=
  if negb (is_admin user_id) then
    reply_text AdminOnly
  else
    match args with
    | [] => reply_text DeleteUsage
    | _ :: _ =>
        let word := lower (join SPACE args) in
        dictionary <- load_dictionary ;;
        found <- eval (py_contains dictionary word) ;;
        if found : bool then
          dictionary' <- eval (py_delitem dictionary word) ;;
          save_dictionary dictionary' ;;;
          reply_text (Deleted word)
        else
          reply_text (DeleteNotFound word)
    end.

Definition stats (user_id : Z) : M unit :=
  if negb (is_admin user_id) then
    reply_text AdminOnly
  else
    dictionary <- load_dictionary ;;
    total_words <- eval (py_len dictionary) ;;
    values <- eval (py_values dictionary) ;;
    total_examples <- eval (sum_examples values) ;;
    let avg_examples :=
      if (0 <? total_words)%nat
      then (Z.of_nat total_examples # Pos.of_nat total_words)%Q
      else 0%Q in
    reply_text (Stats total_words total_examples avg_examples).

Definition search_words (text : str) : M unit :=
  let query := strip text in
  let words := List.map (fun w => lower (strip w)) (split COMMA query) in
  dictionary <- load_dictionary ;;
  if negb (py_truthy dictionary) then
    reply_text DictionaryEmpty
  else
    found <- eval (search_loop dictionary words) ;;
    let (results, not_found) := found : list (str * pyval * list pyval) * list str in
    (match results with
     | [] => ret tt
     | _ :: _ => reply_text (Results results)
     end) ;;;
    (match not_found with
     | [] => ret tt
     | _ :: _ => reply_text (NotFound not_found)
     end).

(** *** The [ConversationHandler] of [main] *)

(** An update, as the handlers of [main] filter it: a command with its
    arguments, a text message that is not a command, or the press of an
    inline button. *)
Inductive update : Type :=
| Command (name : str) (args : list str)
| Text (text : str)
| Callback (data : str).

(** The state of the bot seen from one user: the world and that user's
    place in the conversation ([None] outside of it). *)
Record bot : Type := {
  state : world;
  conversation : option conv_state
}.

(** How the [ConversationHandler] takes a handler's outcome: a returned
    state is entered, [END] leaves the conversation, [None] or an exception
    leave the state as it is. *)
Definition next_state (current : option conv_state) (r : res handler_ret)
  : option conv_state :=
  match r with
  | Val (Goto s) => Some s
  | Val END => None
  | Val RetNone => current
  | Exn _ => current
  end.

Definition ADD : str := Eval cbv in lit "add".
Definition CANCEL : str := Eval cbv in lit "cancel".

(** The pattern [^cancel_add$] of the fallback button handler. *)
Definition matches_cancel_add (data : str) : bool :=
  str_eqb data CANCEL_ADD || str_eqb data (CANCEL_ADD ++ [NEWLINE]).

(** The handler the [ConversationHandler] picks for an update, if any:
    the entry point outside a conversation; inside, the handlers of the
    current state and then the fallbacks. *)
Definition conversation_handler (user_id : Z) (current : option conv_state)
  (u : update) : option (M handler_ret) :=
  match current, u with
  | None, Command name _ =>
      if str_eqb name ADD then Some (add_word_start user_id) else None
  | None, _ => None
  | Some WORD, Text text => Some (receive_word text)
  | Some WORD, Callback data => Some (button_callback data)
  | Some MEANING, Text text => Some (receive_meaning text)
  | Some EXAMPLE, Text text => Some (receive_examples text)
  | Some _, Command name _ =>
      if str_eqb name CANCEL then Some cancel_add else None
  | Some _, Callback data =>
      if matches_cancel_add data then Some (button_callback data) else None
  end.

(** One update offered to the [ConversationHandler]: [None] when it does
    not take the update, which then goes on to the other handlers of
    [main]. *)
Definition add_word_handler (user_id : Z) (u : update) (b : bot) : option bot :=
  match conversation_handler user_id (conversation b) u with
  | Some h =>
      let (r, w') := h (state b) in
      Some {| state := w'; conversation := next_state (conversation b) r |}
  | None => None
  end.

End Handlers.

(* ================================================================== *)
(** ** Vocabulary of the statements *)

Local Open Scope N_scope.

Fixpoint unique (ks : list str) : bool :=
  match ks with
  | [] => true
  | k :: r => negb (existsb (str_eqb k) r) && unique r
  end.

(** The text of a float that the parser reads as that same float:
    [Infinity], [-Infinity], [NaN], or a literal that is the text of its
    own float. *)
Definition float_lexeme (l : str) : bool :=
  match scan_atom l with
  | Some (PFloat l', []) => str_eqb l' l
  | _ => false
  end.

(** A literal of a [float]: a number with a fraction or an exponent. *)
Definition float_literal (l : str) : bool :=
  match match_number l with
  | Some (PFloat _, []) => true
  | _ => false
  end.

(** [float(repr(x)) == x] for the floats read from a literal: the text
    written for a float is read as the float it was written for.  This
    holds of the interpreter; the statements that read back what was
    written assume it of [float_text]. *)
Definition float_round_trip : Prop :=
  forall l, float_literal l = true -> float_lexeme (float_text l) = true.

(** The values [json.dump] writes so that [json.load] reads them back, which
    under [float_round_trip] are those [json.load] returns (lemma
    [json_loads_plain] below): every [dict] in them has pairwise different
    keys, as a Python [dict] has, and every [float] is held as a text that
    is read as itself. *)
Fixpoint plain (v : pyval) : bool :=
  match v with
  | PNone | PBool _ | PInt _ | PStr _ => true
  | PFloat l => float_lexeme l
  | PList l => forallb plain l
  | PDict d => unique (List.map fst d) && forallb (fun kv => plain (snd kv)) d
  end.

Definition all_digits (s : str) : Prop := Forall (fun c => is_digit c = true) s.

(** What may follow a value in the output of [dumps]: the end of the text,
    the item separator or a line break. *)
Definition delimited (rest : str) : Prop :=
  match rest with
  | [] => True
  | c :: _ => c = 44 \/ c = 10
  end.

(** The first character of a printed value is none of the characters the
    parser looks for around an item. *)
Definition opener (c : char) : Prop :=
  is_ws c = false /\ c <> 93 /\ c <> 125 /\ c <> 44.

(** What is left after an item of a container that the parser goes on
    from: whitespace, the item separator or a closing bracket. *)
Definition bounded (rest : str) : Prop :=
  match rest with
  | [] => False
  | c :: _ => is_ws c = true \/ c = 44 \/ c = 93 \/ c = 125
  end.

(** A text that does not go on with a digit. *)
Definition stops (tail : str) : Prop :=
  match tail with
  | [] => True
  | c :: _ => is_digit c = false
  end.

(** An induction hypothesis of the round trip, for one value. *)
Definition scans_back (v : pyval) : Prop :=
  plain v = true ->
  forall lvl rest, delimited rest ->
  exists f0, forall f, (f0 <= f)%nat ->
    scan_once f (dumps lvl v ++ rest) = Some (v, rest).

(** [s.split()]: the maximal runs of characters that are not whitespace. *)
Fixpoint split_ws (s : str) : list str :=
  match s with
  | [] => []
  | c :: r =>
      if isspace c then split_ws r
      else match r with
           | [] => [[c]]
           | c' :: _ =>
               if isspace c' then [c] :: split_ws r
               else match split_ws r with
                    | w :: ws => (c :: w) :: ws
                    | [] => [[c]]
                    end
           end
  end.

(** [context.args] as the [CommandHandler] sets it for a command message:
    [message.text.split()[1:]]. *)
Definition command_args (text : str) : list str := tl (split_ws text).

(** An entry of the glossary and the value the commit step stores for it. *)
Record entry : Type := {
  entry_meaning : str;
  entry_examples : list str
}.

Definition entry_value (e : entry) : pyval :=
  PDict [(MEANING_KEY, PStr (entry_meaning e));
         (EXAMPLES_KEY, PList (List.map PStr (entry_examples e)))].

(** A mapping from terms to entries and the [dict] that represents it. *)
Definition mapping := list (str * entry).

Definition mapping_value (m : mapping) : pyval :=
  PDict (List.map (fun te => (fst te, entry_value (snd te))) m).

(** What [search_words] reads of an entry: its meaning and the elements of
    its examples.  [None] when reading it raises. *)
Definition entry_view (data : pyval) : option (pyval * list pyval) :=
  match py_getitem data EXAMPLES_KEY with
  | Val exs =>
      match py_iter exs with
      | Val examples =>
          match py_getitem data MEANING_KEY with
          | Val m => Some (m, examples)
          | Exn _ => None
          end
      | Exn _ => None
      end
  | Exn _ => None
  end.

Definition readable (data : pyval) : bool :=
  match entry_view data with Some _ => true | None => false end.

(** A store: a [dict] whose entries can all be read. *)
Definition is_store (d : items) : bool :=
  forallb (fun kv => readable (snd kv)) d.

(** The world holds the store [d]: that is what [load_dictionary] returns. *)
Definition stored (w : world) (d : items) : Prop :=
  load_dictionary w = (Val (PDict d), w) /\ is_store d = true.

(** The world after one more reply. *)
Definition send (r : reply) (w : world) : world :=
  {| file := file w; user := user w; sent := sent w ++ [r] |}.

(** The world after [dictionary.json] is written with the whole of the
    value [v]. *)
Definition written (v : pyval) (w : world) : world :=
  {| file := Some (json_dumps v); user := user w; sent := sent w |}.

(** No text of the value holds a surrogate: [json.dump] can write all of
    it. *)
Fixpoint clean (v : pyval) : bool :=
  match v with
  | PNone | PBool _ | PInt _ => true
  | PFloat l => encodable l
  | PStr s => encodable s
  | PList l => forallb clean l
  | PDict d => forallb (fun kv => encodable (fst kv) && clean (snd kv)) d
  end.

(** [text] is the beginning of [whole] and not all of it. *)
Definition cut_short (text whole : str) : Prop :=
  exists rest, rest <> [] /\ whole = text ++ rest.

Definition comma_free (s : str) : Prop := ~ In COMMA s.

(** First occurrences only, in order. *)
Fixpoint dedup (seen : list str) (l : list str) : list str :=
  match l with
  | [] => []
  | w :: r =>
      if existsb (str_eqb w) seen then dedup seen r
      else w :: dedup (w :: seen) r
  end.

(** The examples a list of lines yields. *)
Definition lines_examples (lines : list str) : list str :=
  List.map strip (filter (fun ex => nonempty (strip ex)) lines).

(** The number of examples [stats] counts for an entry. *)
Definition examples_count (data : pyval) : nat :=
  match entry_view data with
  | Some (_, examples) => length examples
  | None => 0
  end.

Definition total_examples (d : items) : nat :=
  list_sum (List.map (fun kv => examples_count (snd kv)) d).

(** The world after [context.user_data.clear()]. *)
Definition cleared (w : world) : world :=
  {| file := file w; user := no_user_data; sent := sent w |}.

(** The world after [context.user_data['new_word'] = word]. *)
Definition with_new_word (word : str) (w : world) : world :=
  {| file := file w;
     user := {| new_word := Some word; meaning := meaning (user w) |};
     sent := sent w |}.

(** The entry the commit step writes. *)
Definition committed (m : str) (examples : list str) : pyval :=
  entry_value {| entry_meaning := m; entry_examples := examples |}.

(** The world after [context.user_data['meaning'] = m]. *)
Definition with_meaning (m : str) (w : world) : world :=
  {| file := file w;
     user := {| new_word := new_word (user w); meaning := Some m |};
     sent := sent w |}.

(** The entries a list of words finds in a [dict], and the words that find
    none, both in the order of the words. *)
Definition matches (d : items) (words : list str)
  : list (str * pyval * list pyval) :=
  flat_map (fun word =>
              match dict_get d word with
              | Some data =>
                  match entry_view data with
                  | Some (m, examples) => [(word, m, examples)]
                  | None => []
                  end
              | None => []
              end) words.

Definition unmatched (d : items) (words : list str) : list str :=
  filter (fun word => negb (dict_mem d word)) words.

(** A world with the given content of [dictionary.json], nothing pending
    and nothing sent. *)
Definition world_of_file (content : option str) : world :=
  {| file := content; user := no_user_data; sent := [] |}.

(** The replies of a search: the entries found, when there are any, then
    the words not found, when there are any. *)
Definition search_replies (d : items) (words : list str) : list reply :=
  match matches d words with
  | [] => []
  | _ :: _ => [Results (matches d words)]
  end
  ++ match unmatched d words with
     | [] => []
     | _ :: _ => [NotFound (unmatched d words)]
     end.

(** Outside a conversation no user data is pending. *)
Definition idle_clean (b : bot) : Prop :=
  conversation b = None -> user (state b) = no_user_data.

(** *** Concrete data for the examples *)

(** The runs read floats from literals that are already the text of their
    float, such as [2.5]: on these [float.__repr__] gives the literal
    back. *)
Definition repr_kept (l : str) : str := l.

Definition ADMINS : list Z := [42%Z].

Definition CAT : str := Eval cbv in lit "cat".
Definition DOG : str := Eval cbv in lit "dog".
Definition FOX : str := Eval cbv in lit "fox".

Definition cat_entry : pyval :=
  committed (lit "a small pet") [lit "The cat sleeps."].
Definition dog_entry : pyval :=
  committed (lit "a loyal pet") [lit "The dog barks."; lit "A dog runs."].

Definition cat_dog : items := [(CAT, cat_entry); (DOG, dog_entry)].

(** A string between quotes and a line break, to spell out JSON texts. *)
Definition quoted (s : str) : str := 34 :: s ++ [34].
Definition NL : str := [NEWLINE].

(** A world whose file holds the dict [d], as [save_dictionary] writes
    it. *)
Definition world_holding (d : items) : world :=
  world_of_file (Some (json_dumps (PDict d))).

(** A file in which the meaning of [cat] is written with the escape
    [\ud83d], one half of a surrogate pair, and the dict [json.load]
    returns for it: the meaning is the surrogate alone. *)
Definition HALF_PAIR : str := [55357].

Definition half_pair_file : str :=
  lit "{" ++ quoted CAT ++ lit ": {" ++ quoted MEANING_KEY ++ lit ": "
  ++ quoted (lit "\ud83d") ++ lit ", " ++ quoted EXAMPLES_KEY ++ lit ": []}, "
  ++ quoted DOG ++ lit ": {" ++ quoted MEANING_KEY ++ lit ": "
  ++ quoted (lit "a loyal pet") ++ lit ", " ++ quoted EXAMPLES_KEY ++ lit ": []}}".

Definition half_pair : items :=
  [(CAT, committed HALF_PAIR []); (DOG, committed (lit "a loyal pet") [])].

(** A bot in the state [WORD], right after the entry point. *)
Definition awaiting_word (w : world) : bot :=
  {| state := w; conversation := Some WORD |}.

(** A bot in the state [EXAMPLE] with the term [fox] and a meaning
    pending, over the store of [cat] and [dog]. *)
Definition fox_pending : bot :=
  {| state := {| file := Some (json_dumps (PDict cat_dog));
                 user := {| new_word := Some FOX; meaning := Some (lit "a wild animal") |};
                 sent := [] |};
     conversation := Some EXAMPLE |}.

(** The same over the file [half_pair_file]. *)
Definition fox_pending_half_pair : bot :=
  {| state := {| file := Some half_pair_file;
                 user := {| new_word := Some FOX; meaning := Some (lit "a wild animal") |};
                 sent := [] |};
     conversation := Some EXAMPLE |}.

Section Dialogue.

Variable lower : str -> str.
Variable ADMIN_IDS : list Z.

(** The words [search_words] looks up for a message. *)
Definition tokens (text : str) : list str :=
  List.map (fun w => lower (strip w)) (split COMMA (strip text)).

(** The tokens as the specification describes them: the pieces between
    commas, stripped and lower-cased, without the empty ones and without
    repetitions, in the order of their first occurrence. *)
Definition tokens_spec (rawQuery : str) : list str :=
  dedup [] (filter nonempty
              (List.map (fun w => lower (strip w)) (split COMMA rawQuery))).

(** A sequence of updates taken by the conversation handler, one after the
    other; [None] when one of them is not taken. *)
Fixpoint run (user_id : Z) (updates : list update) (b : bot) : option bot :=
  match updates with
  | [] => Some b
  | u :: rest =>
      match add_word_handler lower ADMIN_IDS user_id u b with
      | Some b' => run user_id rest b'
      | None => None
      end
  end.

(** The updates of an add dialogue for the term text [t] against the dict
    [d]: the term, the press of the update button when the term is already
    there, the meaning and the examples. *)
Definition dialogue (d : items) (t m e : str) : list update :=
  let word := lower (strip t) in
  if dict_mem d word
  then [Text t; Callback (UPDATE_ ++ word); Text m; Text e]
  else [Text t; Text m; Text e].

End Dialogue.

(* ================================================================== *)
(** ** The other handlers of [main] *)

(** [a < b] on strings: by code points, a proper prefix first. *)
Fixpoint str_ltb (a b : str) : bool :=
  match a, b with
  | _, [] => false
  | [], _ :: _ => true
  | x :: a', y :: b' => (x <? y) || ((x =? y) && str_ltb a' b')
  end.

(** [sorted(l)] for a list of strings: ascending, equal strings in the
    order they come in. *)
Fixpoint insort (w : str) (l : list str) : list str :=
  match l with
  | [] => [w]
  | x :: r => if str_ltb x w then x :: insort w r else w :: l
  end.

Definition sorted (l : list str) : list str := fold_right insort [] l.

(** [x.keys()] *)
Definition py_keys (x : pyval) : res (list str) :=
  match x with
  | PDict d => Val (List.map fst d)
  | _ => Exn AttributeError
  end.

(** [range(start, stop, step)] for a positive [step]; [n] bounds the number
    of elements. *)
Fixpoint range_from (n start stop step : nat) : list nat :=
  match n with
  | O => []
  | S n' =>
      if (start <? stop)%nat
      then start :: range_from n' (start + step) stop step
      else []
  end.

Definition range (start stop step : nat) : list nat :=
  range_from (stop - start) start stop step.

(** [l[i:j]] *)
Definition slice {A} (l : list A) (i j : nat) : list A :=
  firstn (j - i) (skipn i l).

(** [[words[i:i+50] for i in range(0, len(words), 50)]] *)
Definition chunks (words : list str) : list (list str) :=
  List.map (fun i => slice words i (i + 50)) (range 0 (length words) 50).

(** [enumerate(l)] *)
Definition enumerate {A} (l : list A) : list (nat * A) :=
  combine (seq 0 (length l)) l.

Definition BULLET : str := [8226; 32].

(** ['\n'.join([f"• {word}" for word in words])] *)
Definition bullets (words : list str) : str :=
  join [NEWLINE] (List.map (fun word => BULLET ++ word) words).

(** The text [list_words] measures: the book sign, the title with
    [len(words)], an empty line and the bullets. *)
Definition words_message (words : list str) : str :=
  [128218; 32; 42] ++ lit "Dictionary Words ("
  ++ int_repr (Z.of_nat (length words)) ++ lit " total)*"
  ++ [NEWLINE; NEWLINE] ++ bullets words.

(** What the bot sends.  [Plain] is a reply of the handlers above; the
    other constructors stand for the messages of [start], [list_words] and
    [backup], and carry the values formatted into them.  [Words] is the
    single list message, [WordsPart] the part [part] of [parts];
    [Document] is the file sent by [reply_document], with its content. *)
Inductive post : Type :=
| Plain (r : reply)
| Welcome (first_name : str) (admin : bool)
| NoWords
| Words (words : list str)
| WordsPart (part parts : nat) (chunk : list str)
| Document (content : str)
| NoFile.

(** The bot seen from one user in one chat: the content of
    [dictionary.json], the user's [user_data], and all that was sent,
    oldest first. *)
Record chat : Type := {
  disk : option str;
  data : user_data;
  log : list post
}.

Definition Chat (A : Type) : Type := chat -> res A * chat.

Definition bind_chat {A B} (m : Chat A) (k : A -> Chat B) : Chat B :=
  fun c => match m c with
           | (Val a, c') => k a c'
           | (Exn e, c') => (Exn e, c')
           end.

Declare Scope chat_scope.
Notation "x <- m ;; k" := (bind_chat m (fun x => k))
  (at level 61, m at next level, right associativity) : chat_scope.
Notation "m ;;; k" := (bind_chat m (fun _ => k))
  (at level 61, right associativity) : chat_scope.

(** The world a handler of the sections above runs in. *)
Definition as_world (c : chat) : world :=
  {| file := disk c; user := data c; sent := [] |}.

(** A computation of the sections above, run in the chat: what it sends
    goes to the log. *)
Definition lift {A} (m : M A) : Chat A :=
  fun c => let (r, w) := m (as_world c) in
           (r, {| disk := file w; data := user w;
                  log := log c ++ List.map Plain (sent w) |}).

Definition reply_post (p : post) : Chat unit :=
  fun c => (Val tt, {| disk := disk c; data := data c; log := log c ++ [p] |}).

(** [os.path.exists(DICTIONARY_FILE)] and, when it does, the content
    [open(DICTIONARY_FILE, 'rb')] gives. *)
Definition read_file : Chat (option str) :=
  fun c => (Val (disk c), c).

(** [for i, x in enumerate(l): body] *)
Fixpoint for_each {A} (body : nat * A -> Chat unit) (l : list (nat * A))
  : Chat unit :=
  match l with
  | [] => fun c => (Val tt, c)
  | x :: r => bind_chat (body x) (fun _ => for_each body r)
  end.

Definition START : str := Eval cbv in lit "start".
Definition DELETE : str := Eval cbv in lit "delete".
Definition LIST : str := Eval cbv in lit "list".
Definition STATS : str := Eval cbv in lit "stats".
Definition BACKUP : str := Eval cbv in lit "backup".

(** A handler of the application: what it makes of an update, or [None]
    when it does not take the update. *)
Record application : Type := {
  talk : chat;
  stage : option conv_state;
  logged : list exn
}.

Definition handler : Type := update -> application -> option application.

(** [error_handler]: an exception a callback raises is logged. *)
Definition error_handler {A} (r : res A) (errors : list exn) : list exn :=
  match r with
  | Val _ => errors
  | Exn e => errors ++ [e]
  end.

(** The application runs a callback: the chat moves on, the stage of the
    conversation is taken from the outcome by [next], and an exception
    goes to [error_handler]. *)
Definition serve {A} (next : res A -> option conv_state) (callback : Chat A)
  (a : application) : application :=
  let (r, c) := callback (talk a) in
  {| talk := c; stage := next r; logged := error_handler r (logged a) |}.

(** [CommandHandler(command, callback)] *)
Definition command_handler (command : str) (callback : list str -> Chat unit)
  : handler :=
  fun u a =>
    match u with
    | Command name args =>
        if str_eqb name command
        then Some (serve (fun _ => stage a) (callback args) a)
        else None
    | _ => None
    end.

(** [MessageHandler(filters.TEXT & ~filters.COMMAND, callback)] *)
Definition message_handler (callback : str -> Chat unit) : handler :=
  fun u a =>
    match u with
    | Text text => Some (serve (fun _ => stage a) (callback text) a)
    | _ => None
    end.

(** The application offers an update to its handlers in the order they
    were added; the first that takes it handles it. *)
Fixpoint process_update (handlers : list handler) (u : update) (a : application) : application :=
  match handlers with
  | [] => a
  | h :: rest =>
      match h u a with
      | Some a' => a'
      | None => process_update rest u a
      end
  end.

Section Application.

Local Open Scope chat_scope.

Variable lower : str -> str.
Variable ADMIN_IDS : list Z.

Definition start (user_id : Z) (first_name : str) : Chat unit :=
  reply_post (Welcome first_name (is_admin ADMIN_IDS user_id)).

Definition list_words (user_id : Z) : Chat unit :=
  if negb (is_admin ADMIN_IDS user_id) then
    lift (reply_text AdminOnly)
  else
    dictionary <- lift load_dictionary ;;
    if negb (py_truthy dictionary) then
      reply_post NoWords
    else
      keys <- lift (eval (py_keys dictionary)) ;;
      let words := sorted keys in
      let message := words_message words in
      if (4000 <? length message)%nat then
        let chunks := chunks words in
        for_each (fun ic => reply_post (WordsPart (fst ic + 1) (length chunks) (snd ic)))
                 (enumerate chunks)
      else
        reply_post (Words words).

Definition backup (user_id : Z) : Chat unit :=
  if negb (is_admin ADMIN_IDS user_id) then
    lift (reply_text AdminOnly)
  else
    content <- read_file ;;
    match content with
    | Some bytes => reply_post (Document bytes)
    | None => reply_post NoFile
    end.

(** The [ConversationHandler] of [main] as a handler of the application. *)
Definition conversation_of_main (user_id : Z) : handler :=
  fun u a =>
    match conversation_handler lower ADMIN_IDS user_id (stage a) u with
    | Some callback => Some (serve (next_state (stage a)) (lift callback) a)
    | None => None
    end.

(** The handlers [main] adds, in its order, for the updates of one user. *)
Definition handlers (user_id : Z) (first_name : str) : list handler :=
  [ command_handler START (fun _ => start user_id first_name);
    conversation_of_main user_id;
    command_handler DELETE (fun args => lift (delete_word lower ADMIN_IDS user_id args));
    command_handler LIST (fun _ => list_words user_id);
    command_handler STATS (fun _ => lift (stats ADMIN_IDS user_id));
    command_handler BACKUP (fun _ => backup user_id);
    message_handler (fun text => lift (search_words lower text)) ].

(** The updates of one user, handled one after the other. *)
Definition polling (user_id : Z) (first_name : str) (updates : list update)
  (a : application) : application :=
  fold_left (fun a u => process_update (handlers user_id first_name) u a) updates a.

End Application.

(** *** The environment read by [main] *)

(** The characters [int] skips around a number: the whitespace of
    [str.isspace] but the four separators below the space. *)
Definition int_space (c : char) : bool :=
  isspace c && negb ((28 <=? c) && (c <=? 31)).

Fixpoint int_lstrip (s : str) : str :=
  match s with
  | [] => []
  | c :: r => if int_space c then int_lstrip r else s
  end.

Fixpoint int_rstrip (s : str) : str :=
  match s with
  | [] => []
  | c :: r =>
      match int_rstrip r with
      | [] => if int_space c then [] else [c]
      | r' => c :: r'
      end
  end.

Section Int.

(** The decimal value of a character that is not ASCII, as the Unicode
    database gives it. *)
Variable todecimal : char -> option N.

Definition digit_value (c : char) : option N :=
  if c <? 128 then (if is_digit c then Some (c - 48) else None)
  else todecimal c.

(** The digits of a number, where single underscores may stand between
    digits.  [after_digit] tells that the character before is a digit. *)
Fixpoint digits_value (acc : Z) (after_digit : bool) (s : str) : option Z :=
  match s with
  | [] => if after_digit then Some acc else None
  | c :: r =>
      if c =? 95 then
        if after_digit then digits_value acc false r else None
      else
        match digit_value c with
        | Some d => digits_value (10 * acc + Z.of_N d) true r
        | None => None
        end
  end.

(** [int(s)] for a string; [None] stands for [ValueError]. *)
Definition py_int (s : str) : option Z :=
  match int_rstrip (int_lstrip s) with
  | [] => None
  | c :: r =>
      if c =? 45 then option_map Z.opp (digits_value 0 false r)
      else if c =? 43 then digits_value 0 false r
      else digits_value 0 false (c :: r)
  end.

(** [[int(id.strip()) for id in l]] *)
Fixpoint int_each (l : list str) : option (list Z) :=
  match l with
  | [] => Some []
  | id :: rest =>
      match py_int (strip id) with
      | None => None
      | Some z =>
          match int_each rest with
          | None => None
          | Some zs => Some (z :: zs)
          end
      end
  end.

(** [[int(id.strip()) for id in admin_ids_str.split(',') if id.strip()]] *)
Definition admin_ids (admin_ids_str : str) : option (list Z) :=
  int_each (filter (fun id => nonempty (strip id)) (split COMMA admin_ids_str)).

(** How [main] ends up: it returns because no token is set, it raises
    [ValueError] on the admin identifiers, or it runs the bot with the
    [ADMIN_IDS] it has set. *)
Inductive startup : Type :=
| NoToken
| ValueError
| Running (ADMIN_IDS : list Z).

(** [main], given the environment variables [BOT_TOKEN] and [ADMIN_IDS]
    ([None] when a variable is not set). *)
Definition main (BOT_TOKEN ADMIN_IDS : option str) : startup :=
  match BOT_TOKEN with
  | None | Some [] => NoToken
  | Some (_ :: _) =>
      let admin_ids_str := match ADMIN_IDS with Some s => s | None => [] end in
      match admin_ids_str with
      | [] => Running []
      | _ :: _ =>
          match admin_ids admin_ids_str with
          | Some ids => Running ids
          | None => ValueError
          end
      end
  end.

End Int.

(** *** Vocabulary of the statements about the application *)

(** A computation leaves an aspect of the world, or of the chat, as it
    is, whatever its outcome. *)
Definition preserves {X A} (f : world -> X) (m : M A) : Prop :=
  forall w, f (snd (m w)) = f w.

Definition keeps {X A} (f : chat -> X) (m : Chat A) : Prop :=
  forall c, f (snd (m c)) = f c.

(** The file of the chat loads as the dict [d]. *)
Definition holds (c : chat) (d : items) : Prop :=
  load_dictionary (as_world c) = (Val (PDict d), as_world c).

(** The chat after more posts. *)
Definition posting (posts : list post) (c : chat) : chat :=
  {| disk := disk c; data := data c; log := log c ++ posts |}.

(** The parts of a word list, numbered from one. *)
Definition numbered (parts : list (list str)) : list post :=
  List.map (fun ic => WordsPart (fst ic + 1) (length parts) (snd ic))
           (enumerate parts).

(** [a <= b] on strings. *)
Definition str_le (a b : str) : Prop := str_ltb b a = false.

(** The user data a stage of the dialogue relies on: none outside the
    dialogue, the term from [MEANING] on, the meaning in [EXAMPLE]. *)
Definition pending (current : option conv_state) (u : user_data) : Prop :=
  match current with
  | None => u = no_user_data
  | Some WORD => True
  | Some MEANING => new_word u <> None
  | Some EXAMPLE => new_word u <> None /\ meaning u <> None
  end.

Definition pending_ok (a : application) : Prop := pending (stage a) (data (talk a)).

(** An application that has handled nothing yet. *)
Definition fresh (content : option str) : application :=
  {| talk := {| disk := content; data := no_user_data; log := [] |};
     stage := None; logged := [] |}.

(** A piece of the variable [ADMIN_IDS]: an identifier or nothing, between
    two runs of whitespace. *)
Record piece : Type := {
  before : str;
  ident : option Z;
  after : str
}.

Definition piece_text (p : piece) : str :=
  before p ++ match ident p with Some z => int_repr z | None => [] end ++ after p.

Definition piece_ids (p : piece) : list Z :=
  match ident p with Some z => [z] | None => [] end.

Definition blank (s : str) : Prop := Forall (fun c => isspace c = true) s.

(** [str.lower] brings no surrogate into a text. *)
Definition lower_clean (lower : str -> str) : Prop :=
  forall s, encodable s = true -> encodable (lower s) = true.

(** The pending term and the pending meaning hold no surrogate. *)
Definition clean_data (u : user_data) : bool :=
  match new_word u with Some word => encodable word | None => true end
  && match meaning u with Some m => encodable m | None => true end.

(** The text of a message and the data of a button hold no surrogate. *)
Definition clean_update (u : update) : bool :=
  match u with
  | Command _ _ => true
  | Text text => encodable text
  | Callback pressed => encodable pressed
  end.

(** The file of the chat loads as a store none of whose texts holds a
    surrogate. *)
Definition sound (c : chat) : Prop :=
  exists d, stored (as_world c) d /\ clean (PDict d) = true.

(** A computation that ends without an exception, over such a store. *)
Definition calm {A} (m : M A) (w : world) : Prop :=
  exists x w' d', m w = (Val x, w') /\ stored w' d' /\ clean (PDict d') = true.

Definition quiet {A} (m : Chat A) (c : chat) : Prop :=
  exists x c', m c = (Val x, c') /\ sound c'.

(** The text of a file can be loaded, and what it loads to holds no
    surrogate. *)
Definition loadable (content : option str) : Prop :=
  match content with
  | None => True
  | Some text => exists v, json_loads text = Some v /\ clean v = true
  end.

(** The stages that may follow a stage of the dialogue. *)
Definition may_follow (current next : option conv_state) : bool :=
  match current, next with
  | None, None | None, Some WORD => true
  | Some WORD, Some WORD | Some WORD, Some MEANING | Some WORD, None => true
  | Some MEANING, Some MEANING | Some MEANING, Some EXAMPLE | Some MEANING, None => true
  | Some EXAMPLE, Some EXAMPLE | Some EXAMPLE, None => true
  | _, _ => false
  end.

(** The number of examples [stats] counts for the entry of a word, none
    when the word has no entry. *)
Definition examples_of (d : items) (word : str) : nat :=
  match dict_get d word with
  | Some data => examples_count data
  | None => 0
  end.

(** *** Concrete data for the examples of the application *)

(** A chat whose file holds the dict [d], with nothing pending and nothing
    sent. *)
Definition chat_holding (d : items) : chat :=
  {| disk := Some (json_dumps (PDict d)); data := no_user_data; log := [] |}.

(** A chat with the term [fox] and a meaning pending, over the store of
    [cat] and [dog]. *)
Definition fox_chat : chat :=
  {| disk := Some (json_dumps (PDict cat_dog));
     data := {| new_word := Some FOX; meaning := Some (lit "a wild animal") |};
     log := [] |}.

(** An application at a stage of the dialogue, with nothing logged. *)
Definition serving (c : chat) (current : option conv_state) : application :=
  {| talk := c; stage := current; logged := [] |}.

Definition ANN : str := Eval cbv in lit "Ann".

(** A Unicode database without decimal digits beyond ASCII, to run [int]
    on ASCII texts. *)
Definition no_other_digits : char -> option N := fun _ => None.

(** The pieces of the text [ 42, ,7]. *)
Definition pieces_42_7 : list piece :=
  [ {| before := [32]; ident := Some 42%Z; after := [] |};
    {| before := [32]; ident := None; after := [] |};
    {| before := []; ident := Some 7%Z; after := [] |} ].

(* ================================================================== *)
(** ** Facts about strings and about the JSON printer and parser *)

Lemma str_eqb_eq (a b : str) : str_eqb a b = true <-> a = b.
Proof.
  revert b; induction a as [|x a IH]; intros [|y b]; simpl; split; intro H;
    try reflexivity; try discriminate.
  - apply andb_true_iff in H as [Hx Hab]. apply N.eqb_eq in Hx.
    apply IH in Hab. now subst.
  - injection H as -> ->. rewrite N.eqb_refl. simpl. now apply IH.
Qed.

Lemma str_eqb_refl (a : str) : str_eqb a a = true.
Proof. now apply str_eqb_eq. Qed.

Lemma str_eqb_neq (a b : str) : str_eqb a b = false <-> a <> b.
Proof.
  split; intro H.
  - intros E. apply str_eqb_eq in E. congruence.
  - destruct (str_eqb a b) eqn:E; [apply str_eqb_eq in E; contradiction | reflexivity].
Qed.

Lemma small_cases (P : N -> Prop) :
  P 0 -> P 1 -> P 2 -> P 3 -> P 4 -> P 5 -> P 6 -> P 7 -> P 8 -> P 9 ->
  P 10 -> P 11 -> P 12 -> P 13 -> P 14 -> P 15 -> P 16 -> P 17 -> P 18 ->
  P 19 -> P 20 -> P 21 -> P 22 -> P 23 -> P 24 -> P 25 -> P 26 -> P 27 ->
  P 28 -> P 29 -> P 30 -> P 31 ->
  forall c, c < 32 -> P c.
Proof.
  intros. destruct c as [|p]; [assumption|].
  do 5 (try destruct p as [p|p|]); try assumption; exfalso; lia.
Qed.

Lemma scanstring_escape_char (c : char) (x : str) :
  scanstring (escape_char c ++ x) = cons_char c (scanstring x).
Proof.
  destruct (N.ltb_spec c 32) as [Hlt|Hge].
  - revert c Hlt. apply small_cases; reflexivity.
  - unfold escape_char.
    destruct (N.eqb_spec c 34) as [->|H34]; [reflexivity|].
    destruct (N.eqb_spec c 92) as [->|H92]; [reflexivity|].
    destruct (N.eqb_spec c 10) as [->|H10]; [reflexivity|].
    destruct (N.eqb_spec c 13) as [->|H13]; [reflexivity|].
    destruct (N.eqb_spec c 9) as [->|H9]; [reflexivity|].
    destruct (N.eqb_spec c 8) as [->|H8]; [reflexivity|].
    destruct (N.eqb_spec c 12) as [->|H12]; [reflexivity|].
    destruct (N.ltb_spec c 32) as [Hlt|_]; [lia|].
    simpl.
    destruct (N.eqb_spec c 34); [contradiction|].
    destruct (N.eqb_spec c 92); [contradiction|].
    destruct (N.ltb_spec c 32); [lia|]. reflexivity.
Qed.

Lemma scanstring_encode (s rest : str) :
  scanstring (flat_map escape_char s ++ 34 :: rest) = Some (s, rest).
Proof.
  induction s as [|c s IH]; [reflexivity|].
  simpl flat_map. rewrite <- List.app_assoc, scanstring_escape_char, IH. reflexivity.
Qed.

Lemma skip_ws_le (s : str) : (length (skip_ws s) <= length s)%nat.
Proof.
  induction s as [|c s IH]; simpl; [lia|]. destruct (is_ws c); simpl; lia.
Qed.

Lemma cons_char_some c r x rest :
  cons_char c r = Some (x, rest) ->
  exists x', r = Some (x', rest) /\ x = c :: x'.
Proof.
  destruct r as [[x' rest']|]; simpl; [|discriminate].
  intros [= <- <-]. eauto.
Qed.

Lemma scanstring_shorter (s x r : str) :
  scanstring s = Some (x, r) -> (length r < length s)%nat.
Proof.
  assert (G : forall n s, (length s <= n)%nat -> forall x r,
             scanstring s = Some (x, r) -> (length r < length s)%nat);
    [|now apply (G (length s))].
  clear s x r. intros n.
  induction n as [|n IH]; intros s Hle x r H.
  - destruct s; [discriminate | simpl in Hle; lia].
  - assert (IH' : forall s' c x r, (length s' <= n)%nat ->
              cons_char c (scanstring s') = Some (x, r) -> (length r < length s')%nat).
    { intros s' c x' r' Hs' Hc. apply cons_char_some in Hc as (x'' & Hc & _).
      eapply IH; eauto. }
    destruct s as [|c s]; [discriminate|]. simpl in Hle. simpl in H.
    destruct (c =? 34). { injection H as <- <-. simpl. lia. }
    destruct (c =? 92).
    + destruct s as [|e r1]; [discriminate|].
      destruct (e =? 117).
      * destruct r1 as [|h1 [|h2 [|h3 [|h4 r2]]]]; try discriminate.
        simpl in Hle.
        destruct (hex4 h1 h2 h3 h4) as [uni|]; [|discriminate].
        destruct (is_high_surrogate uni).
        -- destruct r2 as [|b [|u r3]];
             try (apply IH' in H; simpl in *; lia).
           destruct ((b =? 92) && (u =? 117)).
           ++ destruct r3 as [|g1 [|g2 [|g3 [|g4 r4]]]]; try discriminate.
              simpl in Hle.
              destruct (hex4 g1 g2 g3 g4) as [uni2|]; [|discriminate].
              destruct (is_low_surrogate uni2);
                apply IH' in H; simpl in *; lia.
           ++ apply IH' in H; simpl in *; lia.
        -- apply IH' in H; simpl in *; lia.
      * destruct (backslash e); [|discriminate].
        apply IH' in H; simpl in *; lia.
    + destruct (c <? 32); [discriminate|].
      apply IH' in H; simpl in *; lia.
Qed.

Lemma take_digits_app (s : str) :
  s = fst (take_digits s) ++ snd (take_digits s).
Proof.
  induction s as [|c s IH]; [reflexivity|]. simpl.
  destruct (is_digit c); [|reflexivity].
  destruct (take_digits s) as [ds r]. simpl in *. now f_equal.
Qed.

Lemma take_digits_le (s : str) :
  (length (snd (take_digits s)) <= length s)%nat.
Proof.
  rewrite (take_digits_app s) at 2. rewrite length_app. lia.
Qed.

Lemma scan_sign_le (s : str) : (length (snd (scan_sign s)) <= length s)%nat.
Proof.
  destruct s as [|c r]; simpl; [lia|]. destruct (c =? 45); simpl; lia.
Qed.

Lemma scan_int_part_shorter (s ip r : str) :
  scan_int_part s = Some (ip, r) -> (length r < length s)%nat.
Proof.
  destruct s as [|d r0]; [discriminate|]. simpl.
  destruct (is_digit d); [|discriminate].
  destruct (d =? 48). { intros [= <- <-]. lia. }
  pose proof (take_digits_le r0). destruct (take_digits r0).
  intros [= <- <-]. simpl in *. lia.
Qed.

Lemma scan_frac_le (s : str) : (length (snd (scan_frac s)) <= length s)%nat.
Proof.
  destruct s as [|p r]; simpl; [lia|]. destruct (p =? 46); simpl; [|lia].
  pose proof (take_digits_le r).
  destruct (take_digits r) as [[|? ?] ?]; simpl in *; lia.
Qed.

Lemma scan_exp_le (s : str) : (length (snd (scan_exp s)) <= length s)%nat.
Proof.
  destruct s as [|e r]; simpl; [lia|].
  destruct ((e =? 101) || (e =? 69)); simpl; [|lia].
  destruct r as [|g t]; simpl; [lia|].
  destruct ((g =? 45) || (g =? 43)).
  - pose proof (take_digits_le t).
    destruct (take_digits t) as [[|? ?] ?]; simpl in *; lia.
  - pose proof (take_digits_le (g :: t)).
    destruct (take_digits (g :: t)) as [[|? ?] ?]; simpl in *; lia.
Qed.

Lemma match_number_shorter (s : str) v r :
  match_number s = Some (v, r) -> (length r < length s)%nat.
Proof.
  unfold match_number.
  pose proof (scan_sign_le s) as Hs. destruct (scan_sign s) as [neg s1].
  destruct (scan_int_part s1) as [[ip r1]|] eqn:Hi; [|discriminate].
  apply scan_int_part_shorter in Hi.
  pose proof (scan_frac_le r1) as Hf. destruct (scan_frac r1) as [frac r2].
  pose proof (scan_exp_le r2) as He. destruct (scan_exp r2) as [ex r3].
  intros H. simpl in *.
  assert (r = r3) by (destruct frac, ex; congruence). subst r. lia.
Qed.

Lemma startswith_length (s p : str) :
  startswith s p = true -> (length p <= length s)%nat.
Proof.
  revert s; induction p as [|x p IH]; intros [|y s]; simpl; try lia; try discriminate.
  intros H. apply andb_true_iff in H as [_ H]. apply IH in H. lia.
Qed.

Lemma scan_atom_shorter (s : str) v r :
  scan_atom s = Some (v, r) -> (length r < length s)%nat.
Proof.
  unfold scan_atom.
  assert (Hskip : forall p n, startswith s p = true -> length p = n -> (0 < n)%nat ->
                  (length (skipn n s) < length s)%nat).
  { intros p n Hp Hn Hpos. apply startswith_length in Hp.
    rewrite length_skipn. lia. }
  destruct (startswith s NULL) eqn:E1.
  { intros [= <- <-]. exact (Hskip NULL 4%nat E1 eq_refl ltac:(lia)). }
  destruct (startswith s TRUE) eqn:E2.
  { intros [= <- <-]. exact (Hskip TRUE 4%nat E2 eq_refl ltac:(lia)). }
  destruct (startswith s FALSE) eqn:E3.
  { intros [= <- <-]. exact (Hskip FALSE 5%nat E3 eq_refl ltac:(lia)). }
  destruct (match_number s) as [[v' r']|] eqn:E4.
  { intros [= <- <-]. eapply match_number_shorter; eauto. }
  destruct (startswith s NAN) eqn:E5.
  { intros [= <- <-]. exact (Hskip NAN 3%nat E5 eq_refl ltac:(lia)). }
  destruct (startswith s INFINITY) eqn:E6.
  { intros [= <- <-]. exact (Hskip INFINITY 8%nat E6 eq_refl ltac:(lia)). }
  destruct (startswith s NEG_INFINITY) eqn:E7.
  { intros [= <- <-]. exact (Hskip NEG_INFINITY 9%nat E7 eq_refl ltac:(lia)). }
  discriminate.
Qed.

Lemma scan_shorter (f : nat) :
  (forall s v r, scan_once f s = Some (v, r) -> (length r < length s)%nat)
  /\ (forall s vs r, JSONArray f s = Some (vs, r) -> (length r < length s)%nat)
  /\ (forall s ps r, JSONObject f s = Some (ps, r) -> (length r < length s)%nat).
Proof.
  induction f as [|f (IHs & IHa & IHo)]; [repeat split; discriminate|].
  repeat split.
  - intros s v r H. destruct s as [|c s]; [discriminate|]. simpl in H.
    destruct (c =? 34).
    { destruct (scanstring s) as [[x r']|] eqn:E; [|discriminate].
      injection H as <- <-. apply scanstring_shorter in E. simpl. lia. }
    destruct (c =? 123).
    { pose proof (skip_ws_le s) as Hle.
      destruct (skip_ws s) as [|c1 r1]; [discriminate|].
      destruct (c1 =? 125). { injection H as <- <-. simpl in *. lia. }
      destruct (JSONObject f (c1 :: r1)) as [[ps r2]|] eqn:E; [|discriminate].
      injection H as <- <-. apply IHo in E. simpl in *. lia. }
    destruct (c =? 91).
    { pose proof (skip_ws_le s) as Hle.
      destruct (skip_ws s) as [|c1 r1]; [discriminate|].
      destruct (c1 =? 93). { injection H as <- <-. simpl in *. lia. }
      destruct (JSONArray f (c1 :: r1)) as [[ps r2]|] eqn:E; [|discriminate].
      injection H as <- <-. apply IHa in E. simpl in *. lia. }
    now apply scan_atom_shorter in H.
  - intros s vs r H. simpl in H.
    destruct (scan_once f s) as [[v r0]|] eqn:E; [|discriminate].
    apply IHs in E. pose proof (skip_ws_le r0) as Hle.
    destruct (skip_ws r0) as [|c r1]; [discriminate|].
    destruct (c =? 93). { injection H as <- <-. simpl in *. lia. }
    destruct (c =? 44); [|discriminate].
    pose proof (skip_ws_le r1) as Hle1.
    destruct (JSONArray f (skip_ws r1)) as [[vs' r2]|] eqn:E2; [|discriminate].
    injection H as <- <-. apply IHa in E2. simpl in *. lia.
  - intros s ps r H. destruct s as [|q s]; [discriminate|]. simpl in H.
    destruct (q =? 34); [|discriminate].
    destruct (scanstring s) as [[key r1]|] eqn:E; [|discriminate].
    apply scanstring_shorter in E. pose proof (skip_ws_le r1) as Hle1.
    destruct (skip_ws r1) as [|c r2]; [discriminate|].
    destruct (c =? 58); [|discriminate].
    pose proof (skip_ws_le r2) as Hle2.
    destruct (scan_once f (skip_ws r2)) as [[v r3]|] eqn:E3; [|discriminate].
    apply IHs in E3. pose proof (skip_ws_le r3) as Hle3.
    destruct (skip_ws r3) as [|c' r4]; [discriminate|].
    destruct (c' =? 125). { injection H as <- <-. simpl in *. lia. }
    destruct (c' =? 44); [|discriminate].
    pose proof (skip_ws_le r4) as Hle4.
    destruct (JSONObject f (skip_ws r4)) as [[ps' r5]|] eqn:E5; [|discriminate].
    injection H as <- <-. apply IHo in E5. simpl in *. lia.
Qed.

(** Fuel: more than twice the length of the text is enough. *)
Lemma scan_fuel (f : nat) :
  (forall f' s, (2 * length s < f)%nat -> (2 * length s < f')%nat ->
                scan_once f s = scan_once f' s)
  /\ (forall f' s, (2 * length s + 1 < f)%nat -> (2 * length s + 1 < f')%nat ->
                   JSONArray f s = JSONArray f' s)
  /\ (forall f' s, (2 * length s + 1 < f)%nat -> (2 * length s + 1 < f')%nat ->
                   JSONObject f s = JSONObject f' s).
Proof.
  induction f as [|f (IHs & IHa & IHo)]; [repeat split; intros; lia|].
  repeat split.
  - intros [|f'] s Hf Hf'; [lia|].
    destruct s as [|c s]; [reflexivity|]. simpl in Hf, Hf'. simpl.
    destruct (c =? 34); [reflexivity|].
    pose proof (skip_ws_le s) as Hle.
    destruct (c =? 123).
    { destruct (skip_ws s) as [|c1 r1]; [reflexivity|].
      destruct (c1 =? 125); [reflexivity|].
      rewrite (IHo f' (c1 :: r1)); [reflexivity| |]; simpl in *; lia. }
    destruct (c =? 91).
    { destruct (skip_ws s) as [|c1 r1]; [reflexivity|].
      destruct (c1 =? 93); [reflexivity|].
      rewrite (IHa f' (c1 :: r1)); [reflexivity| |]; simpl in *; lia. }
    reflexivity.
  - intros [|f'] s Hf Hf'; [lia|]. simpl.
    rewrite (IHs f' s) by lia.
    destruct (scan_once f' s) as [[v r0]|] eqn:E; [|reflexivity].
    apply (proj1 (scan_shorter f')) in E. pose proof (skip_ws_le r0) as Hle.
    destruct (skip_ws r0) as [|c r1]; [reflexivity|].
    destruct (c =? 93); [reflexivity|].
    destruct (c =? 44); [|reflexivity].
    pose proof (skip_ws_le r1) as Hle1.
    rewrite (IHa f' (skip_ws r1)); [reflexivity| |]; simpl in *; lia.
  - intros [|f'] s Hf Hf'; [lia|].
    destruct s as [|q s]; [reflexivity|]. simpl in Hf, Hf'. simpl.
    destruct (q =? 34); [|reflexivity].
    destruct (scanstring s) as [[key r1]|] eqn:E; [|reflexivity].
    apply scanstring_shorter in E. pose proof (skip_ws_le r1) as Hle1.
    destruct (skip_ws r1) as [|c r2]; [reflexivity|].
    destruct (c =? 58); [|reflexivity].
    pose proof (skip_ws_le r2) as Hle2.
    rewrite (IHs f' (skip_ws r2)) by (simpl in *; lia).
    destruct (scan_once f' (skip_ws r2)) as [[v r3]|] eqn:E3; [|reflexivity].
    apply (proj1 (scan_shorter f')) in E3. pose proof (skip_ws_le r3) as Hle3.
    destruct (skip_ws r3) as [|c' r4]; [reflexivity|].
    destruct (c' =? 125); [reflexivity|].
    destruct (c' =? 44); [|reflexivity].
    pose proof (skip_ws_le r4) as Hle4.
    rewrite (IHo f' (skip_ws r4)); [reflexivity| |]; simpl in *; lia.
Qed.

Lemma scan_once_fuel (f f' : nat) (s : str) :
  (2 * length s < f)%nat -> (2 * length s < f')%nat ->
  scan_once f s = scan_once f' s.
Proof. apply scan_fuel. Qed.

(** *** Integers *)

Lemma to_uint_no_leading_zero (p : positive) (d : Decimal.uint) :
  Pos.to_uint p <> Decimal.D0 d.
Proof.
  intros E.
  assert (Hn : Decimal.unorm (Pos.to_uint p) = Pos.to_uint p).
  { rewrite <- DecimalPos.Unsigned.to_of, DecimalPos.Unsigned.of_to. reflexivity. }
  rewrite E in Hn. unfold Decimal.unorm in Hn.
  destruct (Decimal.nzhead (Decimal.D0 d)) eqn:Hz; try discriminate.
  - injection Hn as <-. now apply (DecimalPos.Unsigned.to_uint_nonzero p).
  - now apply DecimalFacts.nzhead_nonzero in Hz.
Qed.

Lemma uint_chars_digits (d : Decimal.uint) : all_digits (uint_chars d).
Proof. induction d; simpl; constructor; auto. Qed.

Lemma chars_uint_chars (d : Decimal.uint) : chars_uint (uint_chars d) = d.
Proof. induction d; simpl; congruence. Qed.

Lemma take_digits_all (ds rest : str) :
  all_digits ds -> delimited rest -> take_digits (ds ++ rest) = (ds, rest).
Proof.
  intros Hds Hrest. induction Hds as [|c ds Hc _ IH]; simpl.
  - destruct rest as [|c r]; [reflexivity|]. simpl in Hrest.
    destruct Hrest as [-> | ->]; reflexivity.
  - rewrite Hc, IH. reflexivity.
Qed.

Lemma uint_chars_head (d : Decimal.uint) (Hd : d <> Decimal.Nil) :
  exists c r, uint_chars d = c :: r /\ is_digit c = true /\
              (c = 48 -> exists d', d = Decimal.D0 d').
Proof.
  destruct d; try contradiction; simpl; do 2 eexists;
    (split; [reflexivity|]); (split; [reflexivity|]);
    intros E; try discriminate E; eauto.
Qed.

Lemma scan_frac_delimited (rest : str) :
  delimited rest -> scan_frac rest = ([], rest).
Proof.
  destruct rest as [|c r]; [reflexivity|]. simpl.
  intros [-> | ->]; reflexivity.
Qed.

Lemma scan_exp_delimited (rest : str) :
  delimited rest -> scan_exp rest = ([], rest).
Proof.
  destruct rest as [|c r]; [reflexivity|]. simpl.
  intros [-> | ->]; reflexivity.
Qed.

Lemma match_number_int_repr (z : Z) (rest : str) :
  delimited rest ->
  match_number (int_repr z ++ rest) = Some (PInt z, rest).
Proof.
  intros Hrest.
  assert (G : forall (neg : bool) (d : Decimal.uint),
             d = Decimal.D0 Decimal.Nil \/ (exists p, d = Pos.to_uint p) ->
             match_number ((if neg then [45] else [] : str) ++ uint_chars d ++ rest)
             = Some (PInt (Z.of_int (if neg then Decimal.Neg d else Decimal.Pos d)), rest)).
  { intros neg d Hd. unfold match_number.
    assert (Hs : scan_sign ((if neg then [45] else [] : str) ++ uint_chars d ++ rest)
                 = (neg, uint_chars d ++ rest)).
    { destruct neg; [reflexivity|]. simpl.
      destruct Hd as [-> | [p ->]]; [reflexivity|].
      destruct (uint_chars_head (Pos.to_uint p) (DecimalPos.Unsigned.to_uint_nonnil p))
        as (c & r & -> & Hc & _).
      simpl. unfold is_digit in Hc. apply andb_true_iff in Hc as [H1 H2].
      apply N.leb_le in H1. destruct (N.eqb_spec c 45); [lia | reflexivity]. }
    rewrite Hs.
    assert (Hi : scan_int_part (uint_chars d ++ rest) = Some (uint_chars d, rest)).
    { destruct Hd as [-> | [p ->]]; [reflexivity|].
      destruct (uint_chars_head (Pos.to_uint p) (DecimalPos.Unsigned.to_uint_nonnil p))
        as (c & r & E & Hc & H0).
      pose proof (uint_chars_digits (Pos.to_uint p)) as Hall.
      rewrite E in *. simpl. rewrite Hc.
      destruct (N.eqb_spec c 48) as [->|_].
      - destruct (H0 eq_refl) as [d' Hd']. now apply to_uint_no_leading_zero in Hd'.
      - inversion Hall; subst. rewrite take_digits_all; auto. }
    rewrite Hi, (scan_frac_delimited _ Hrest), (scan_exp_delimited _ Hrest).
    unfold int_of. rewrite chars_uint_chars. reflexivity. }
  unfold int_repr. rewrite <- (DecimalZ.of_to z) at 2.
  destruct z as [|p|p]; simpl Z.to_int.
  - apply (G false). now left.
  - apply (G false). right; eauto.
  - exact (G true _ (or_intror (ex_intro _ p eq_refl))).
Qed.

(** *** Round trip *)

Lemma skip_ws_spaces (n : nat) (s : str) : skip_ws (repeat 32 n ++ s) = skip_ws s.
Proof. induction n; simpl; auto. Qed.

Lemma skip_ws_indent (n : nat) (s : str) : skip_ws (newline_indent n ++ s) = skip_ws s.
Proof. unfold newline_indent. simpl. apply skip_ws_spaces. Qed.

Lemma skip_ws_head (c : char) (s : str) : is_ws c = false -> skip_ws (c :: s) = c :: s.
Proof. intros H. simpl. now rewrite H. Qed.

Lemma int_repr_head (z : Z) :
  exists c r, int_repr z = c :: r /\ (is_digit c = true \/ c = 45).
Proof.
  unfold int_repr. destruct z as [|p|p]; simpl.
  - do 2 eexists; split; [reflexivity | now left].
  - destruct (uint_chars_head (Pos.to_uint p) (DecimalPos.Unsigned.to_uint_nonnil p))
      as (c & r & -> & Hc & _). eauto.
  - do 2 eexists; split; [reflexivity | now right].
Qed.

Lemma digit_opener (c : char) : is_digit c = true \/ c = 45 -> opener c.
Proof.
  unfold is_digit, opener, is_ws. intros [H | ->].
  - apply andb_true_iff in H as [H1 H2]. apply N.leb_le in H1, H2.
    repeat split; try lia.
    destruct (N.eqb_spec c 32), (N.eqb_spec c 9), (N.eqb_spec c 10), (N.eqb_spec c 13);
      try lia; reflexivity.
  - repeat split; try lia.
Qed.

(** *** Float lexemes *)

Lemma startswith_app_delimited (p l rest : str) :
  Forall (fun c => c <> 44 /\ c <> 10) p -> delimited rest ->
  startswith (l ++ rest) p = startswith l p.
Proof.
  intros Hp Hrest. revert l. induction Hp as [|x p [H1 H2] _ IH]; intros l.
  - reflexivity.
  - destruct l as [|y l].
    + simpl. destruct rest as [|c r]; [reflexivity|]. simpl in Hrest.
      destruct (N.eqb_spec x c) as [->|]; [|reflexivity].
      destruct Hrest; contradiction.
    + simpl. now rewrite IH.
Qed.

Lemma skipn_app_le {A} (n : nat) (l rest : list A) :
  (n <= length l)%nat -> skipn n (l ++ rest) = skipn n l ++ rest.
Proof.
  intros H. rewrite List.skipn_app.
  replace (n - length l)%nat with 0%nat by lia. reflexivity.
Qed.

Lemma take_digits_app_delimited (l rest : str) :
  delimited rest ->
  take_digits (l ++ rest) = (fst (take_digits l), snd (take_digits l) ++ rest).
Proof.
  intros Hrest. induction l as [|c l IH].
  - simpl. destruct rest as [|c r]; [reflexivity|]. simpl in Hrest.
    destruct Hrest as [-> | ->]; reflexivity.
  - simpl. destruct (is_digit c); [|reflexivity].
    rewrite IH. now destruct (take_digits l).
Qed.

Lemma scan_sign_app (l rest : str) :
  delimited rest ->
  scan_sign (l ++ rest) = (fst (scan_sign l), snd (scan_sign l) ++ rest).
Proof.
  intros Hrest. destruct l as [|c l].
  - simpl. destruct rest as [|c r]; [reflexivity|]. simpl in Hrest.
    destruct Hrest as [-> | ->]; reflexivity.
  - simpl. now destruct (c =? 45).
Qed.

Lemma scan_int_part_app (l rest : str) :
  delimited rest ->
  scan_int_part (l ++ rest)
  = match scan_int_part l with
    | Some (ip, r) => Some (ip, r ++ rest)
    | None => None
    end.
Proof.
  intros Hrest. destruct l as [|d l].
  - simpl. destruct rest as [|c r]; [reflexivity|]. simpl in Hrest.
    destruct Hrest as [-> | ->]; reflexivity.
  - simpl. destruct (is_digit d); [|reflexivity].
    destruct (d =? 48); [reflexivity|].
    rewrite (take_digits_app_delimited l rest Hrest). now destruct (take_digits l).
Qed.

Lemma scan_frac_app (l rest : str) :
  delimited rest ->
  scan_frac (l ++ rest) = (fst (scan_frac l), snd (scan_frac l) ++ rest).
Proof.
  intros Hrest. destruct l as [|p l].
  - simpl. destruct rest as [|c r]; [reflexivity|]. simpl in Hrest.
    destruct Hrest as [-> | ->]; reflexivity.
  - simpl. destruct (p =? 46); [|reflexivity].
    rewrite (take_digits_app_delimited l rest Hrest).
    destruct (take_digits l) as [[|f fs] r]; reflexivity.
Qed.

Lemma scan_exp_app (l rest : str) :
  delimited rest ->
  scan_exp (l ++ rest) = (fst (scan_exp l), snd (scan_exp l) ++ rest).
Proof.
  intros Hrest. destruct l as [|e l].
  - simpl. destruct rest as [|c r]; [reflexivity|]. simpl in Hrest.
    destruct Hrest as [-> | ->]; reflexivity.
  - cbn [scan_exp app]. destruct ((e =? 101) || (e =? 69)); [|reflexivity].
    destruct l as [|g t].
    + cbn [app]. destruct rest as [|c r]; [reflexivity|]. simpl in Hrest.
      destruct Hrest as [-> | ->]; reflexivity.
    + cbn [app]. destruct ((g =? 45) || (g =? 43)).
      * rewrite (take_digits_app_delimited t rest Hrest).
        destruct (take_digits t) as [[|f fs] r]; reflexivity.
      * change (g :: t ++ rest) with ((g :: t) ++ rest).
        rewrite (take_digits_app_delimited (g :: t) rest Hrest).
        destruct (take_digits (g :: t)) as [[|f fs] r]; reflexivity.
Qed.

Lemma match_number_app (l rest : str) :
  delimited rest ->
  match_number (l ++ rest)
  = match match_number l with
    | Some (v, r) => Some (v, r ++ rest)
    | None => None
    end.
Proof.
  intros Hrest. unfold match_number.
  rewrite (scan_sign_app l rest Hrest). destruct (scan_sign l) as [neg s1].
  cbn [fst snd]. rewrite (scan_int_part_app s1 rest Hrest).
  destruct (scan_int_part s1) as [[ip r1]|]; [|reflexivity].
  rewrite (scan_frac_app r1 rest Hrest). destruct (scan_frac r1) as [frac r2].
  cbn [fst snd]. rewrite (scan_exp_app r2 rest Hrest). destruct (scan_exp r2) as [ex r3].
  cbn [fst snd]. destruct frac, ex; reflexivity.
Qed.

Lemma letters_not_delimiters :
  Forall (fun p => Forall (fun c => c <> 44 /\ c <> 10) p)
    [NULL; TRUE; FALSE; NAN; INFINITY; NEG_INFINITY].
Proof. repeat constructor; discriminate. Qed.

Lemma scan_atom_app (l rest : str) :
  delimited rest ->
  scan_atom (l ++ rest)
  = match scan_atom l with
    | Some (v, r) => Some (v, r ++ rest)
    | None => None
    end.
Proof.
  intros Hrest. unfold scan_atom.
  pose proof letters_not_delimiters as HL.
  inversion HL as [|? ? H1 HL1]; subst. inversion HL1 as [|? ? H2 HL2]; subst.
  inversion HL2 as [|? ? H3 HL3]; subst. inversion HL3 as [|? ? H4 HL4]; subst.
  inversion HL4 as [|? ? H5 HL5]; subst. inversion HL5 as [|? ? H6 _]; subst.
  rewrite (startswith_app_delimited NULL l rest H1 Hrest).
  rewrite (startswith_app_delimited TRUE l rest H2 Hrest).
  rewrite (startswith_app_delimited FALSE l rest H3 Hrest).
  rewrite (startswith_app_delimited NAN l rest H4 Hrest).
  rewrite (startswith_app_delimited INFINITY l rest H5 Hrest).
  rewrite (startswith_app_delimited NEG_INFINITY l rest H6 Hrest).
  rewrite (match_number_app l rest Hrest).
  destruct (startswith l NULL) eqn:E1.
  { rewrite skipn_app_le; [reflexivity | exact (startswith_length _ _ E1)]. }
  destruct (startswith l TRUE) eqn:E2.
  { rewrite skipn_app_le; [reflexivity | exact (startswith_length _ _ E2)]. }
  destruct (startswith l FALSE) eqn:E3.
  { rewrite skipn_app_le; [reflexivity | exact (startswith_length _ _ E3)]. }
  destruct (match_number l) as [[v r]|]; [reflexivity|].
  destruct (startswith l NAN) eqn:E4.
  { rewrite skipn_app_le; [reflexivity | exact (startswith_length _ _ E4)]. }
  destruct (startswith l INFINITY) eqn:E5.
  { rewrite skipn_app_le; [reflexivity | exact (startswith_length _ _ E5)]. }
  destruct (startswith l NEG_INFINITY) eqn:E6.
  { rewrite skipn_app_le; [reflexivity | exact (startswith_length _ _ E6)]. }
  reflexivity.
Qed.

(** An atom never starts with a quote, a brace or a bracket. *)
Lemma scan_atom_head (c : char) (r : str) :
  scan_atom (c :: r) <> None -> c <> 34 /\ c <> 123 /\ c <> 91.
Proof.
  intros H. repeat split; intros ->; apply H; reflexivity.
Qed.

Lemma scan_once_atom (f : nat) (s : str) :
  scan_atom s <> None -> scan_once (S f) s = scan_atom s.
Proof.
  destruct s as [|c r]; [intros H; now contradiction H|].
  intros H. destruct (scan_atom_head c r H) as (H1 & H2 & H3).
  apply N.eqb_neq in H1, H2, H3.
  change (scan_once (S f) (c :: r))
    with (if c =? 34 then
            match scanstring r with
            | Some (x, r') => Some (PStr x, r')
            | None => None
            end
          else if c =? 123 then
            match skip_ws r with
            | [] => None
            | c1 :: r1 =>
                if c1 =? 125 then Some (PDict [], r1)
                else match JSONObject f (c1 :: r1) with
                     | Some (pairs, r2) => Some (PDict (dict_of_pairs pairs), r2)
                     | None => None
                     end
            end
          else if c =? 91 then
            match skip_ws r with
            | [] => None
            | c1 :: r1 =>
                if c1 =? 93 then Some (PList [], r1)
                else match JSONArray f (c1 :: r1) with
                     | Some (vs, r2) => Some (PList vs, r2)
                     | None => None
                     end
            end
          else scan_atom (c :: r)).
  now rewrite H1, H2, H3.
Qed.

Lemma float_lexeme_scan (l : str) :
  float_lexeme l = true -> scan_atom l = Some (PFloat l, []).
Proof.
  unfold float_lexeme.
  destruct (scan_atom l) as [[[] [|]]|]; try discriminate.
  intros H. apply str_eqb_eq in H. now subst.
Qed.

Lemma scan_once_float (f : nat) (l rest : str) :
  float_lexeme l = true -> delimited rest ->
  scan_once (S f) (l ++ rest) = Some (PFloat l, rest).
Proof.
  intros Hl Hrest. apply float_lexeme_scan in Hl.
  pose proof (scan_atom_app l rest Hrest) as Ha. rewrite Hl in Ha.
  rewrite scan_once_atom; [exact Ha | congruence].
Qed.

(** The first character of an atom. *)
Lemma scan_atom_opener (c : char) (r : str) :
  scan_atom (c :: r) <> None -> opener c.
Proof.
  intros H. unfold opener, is_ws.
  assert (G : forall x, In x [32; 9; 10; 13; 93; 125; 44] -> c <> x).
  { intros x Hx ->. apply H. simpl in Hx.
    repeat (destruct Hx as [<- | Hx]; [reflexivity|]). contradiction. }
  repeat split; try (apply G; simpl; tauto).
  destruct (N.eqb_spec c 32) as [E|_]; [now apply (G 32) in E; simpl; tauto|].
  destruct (N.eqb_spec c 9) as [E|_]; [now apply (G 9) in E; simpl; tauto|].
  destruct (N.eqb_spec c 10) as [E|_]; [now apply (G 10) in E; simpl; tauto|].
  destruct (N.eqb_spec c 13) as [E|_]; [now apply (G 13) in E; simpl; tauto|].
  reflexivity.
Qed.

Lemma dumps_head (v : pyval) (lvl : nat) :
  plain v = true -> exists c r, dumps lvl v = c :: r /\ opener c.
Proof.
  destruct v as [|[|]|z|l|s|[|x xs]|[|kv kvs]]; simpl; intros Hp;
    try (do 2 eexists; split; [reflexivity|]; repeat split; (reflexivity || lia)).
  - destruct (int_repr_head z) as (c & r & -> & Hc).
    do 2 eexists; split; [reflexivity|]. now apply digit_opener.
  - apply float_lexeme_scan in Hp. destruct l as [|c r]; [discriminate|].
    do 2 eexists; split; [reflexivity|]. apply (scan_atom_opener c r). congruence.
Qed.

Lemma startswith_head_neq (c x : char) (s p : str) :
  x <> c -> startswith (c :: s) (x :: p) = false.
Proof. intros H. simpl. apply N.eqb_neq in H. now rewrite H. Qed.

Lemma scan_once_int (f : nat) (z : Z) (rest : str) :
  delimited rest -> scan_once (S f) (int_repr z ++ rest) = Some (PInt z, rest).
Proof.
  intros Hrest. pose proof (match_number_int_repr z rest Hrest) as Hm.
  destruct (int_repr_head z) as (c & r & E & Hc). rewrite E in *.
  assert (Hcs : c <> 34 /\ c <> 123 /\ c <> 91 /\ c <> 110 /\ c <> 116 /\ c <> 102).
  { destruct Hc as [Hc | ->]; [|repeat split; lia].
    unfold is_digit in Hc. apply andb_true_iff in Hc as [H1 H2].
    apply N.leb_le in H1, H2. repeat split; lia. }
  destruct Hcs as (H1 & H2 & H3 & H4 & H5 & H6).
  change (scan_once (S f) ((c :: r) ++ rest))
    with (if c =? 34 then
            match scanstring (r ++ rest) with
            | Some (x, r') => Some (PStr x, r')
            | None => None
            end
          else if c =? 123 then
            match skip_ws (r ++ rest) with
            | [] => None
            | c1 :: r1 =>
                if c1 =? 125 then Some (PDict [], r1)
                else match JSONObject f (c1 :: r1) with
                     | Some (pairs, r2) => Some (PDict (dict_of_pairs pairs), r2)
                     | None => None
                     end
            end
          else if c =? 91 then
            match skip_ws (r ++ rest) with
            | [] => None
            | c1 :: r1 =>
                if c1 =? 93 then Some (PList [], r1)
                else match JSONArray f (c1 :: r1) with
                     | Some (vs, r2) => Some (PList vs, r2)
                     | None => None
                     end
            end
          else scan_atom ((c :: r) ++ rest)).
  apply N.eqb_neq in H1, H2, H3. rewrite H1, H2, H3.
  unfold scan_atom, NULL, TRUE, FALSE.
  rewrite <- app_comm_cons, !startswith_head_neq by congruence.
  rewrite app_comm_cons, Hm. reflexivity.
Qed.

Lemma unique_dict_set (d : items) (k : str) (v : pyval) :
  existsb (str_eqb k) (List.map fst d) = false ->
  dict_set d k v = d ++ [(k, v)].
Proof.
  induction d as [|[k' v'] d IH]; simpl; [reflexivity|].
  intros H. apply orb_false_iff in H as [Hk Hd].
  destruct (str_eqb k' k) eqn:E.
  - apply str_eqb_eq in E. subst. now rewrite str_eqb_refl in Hk.
  - now rewrite IH.
Qed.

Lemma existsb_app_false {A} (p : A -> bool) (l1 l2 : list A) :
  existsb p (l1 ++ l2) = false <-> existsb p l1 = false /\ existsb p l2 = false.
Proof. rewrite existsb_app. apply orb_false_iff. Qed.

Lemma dict_of_pairs_unique (d : items) :
  unique (List.map fst d) = true -> dict_of_pairs d = d.
Proof.
  unfold dict_of_pairs.
  assert (G : forall acc,
             unique (List.map fst d) = true ->
             (forall k, In k (List.map fst d) ->
                        existsb (str_eqb k) (List.map fst acc) = false) ->
             fold_left (fun d0 kv => dict_set d0 (fst kv) (snd kv)) d acc = acc ++ d).
  { induction d as [|[k v] d IH]; intros acc Hu Hacc; simpl.
    - now rewrite List.app_nil_r.
    - simpl in Hu. apply andb_true_iff in Hu as [Hk Hu].
      apply negb_true_iff in Hk.
      rewrite unique_dict_set by (apply Hacc; now left).
      rewrite IH; [now rewrite <- List.app_assoc | assumption |].
      intros k' Hin. rewrite List.map_app. apply existsb_app_false. split.
      + apply Hacc. now right.
      + simpl. rewrite orb_false_r. apply str_eqb_neq. intros ->.
        assert (Hex : existsb (str_eqb k) (List.map fst d) = true).
        { apply existsb_exists. exists k. split; [assumption | apply str_eqb_refl]. }
        congruence. }
  intros Hu. apply (G [] Hu). reflexivity.
Qed.

Lemma delimited_indent (lvl : nat) (s : str) : delimited (newline_indent lvl ++ s).
Proof. simpl. now right. Qed.

Lemma delimited_comma (s : str) : delimited (44 :: s).
Proof. simpl. now left. Qed.

Lemma more_items_cons_app {A} (lvl : nat) (item : A -> str) (y : A)
  (ys : list A) (tail : str) :
  more_items lvl item (y :: ys) ++ tail
  = 44 :: newline_indent lvl ++ item y ++ more_items lvl item ys ++ tail.
Proof.
  change (more_items lvl item (y :: ys))
    with (44 :: newline_indent lvl ++ item y ++ more_items lvl item ys).
  rewrite <- List.app_comm_cons, <- !List.app_assoc. reflexivity.
Qed.

Lemma JSONArray_last (f : nat) (x : pyval) (s tail r : str) :
  scan_once f s = Some (x, tail) -> skip_ws tail = 93 :: r ->
  JSONArray (S f) s = Some ([x], r).
Proof. intros H1 H2. simpl. rewrite H1, H2. reflexivity. Qed.

Lemma JSONArray_next (f : nat) (x : pyval) (s r : str) :
  scan_once f s = Some (x, 44 :: r) ->
  JSONArray (S f) s = match JSONArray f (skip_ws r) with
                      | Some (vs, r2) => Some (x :: vs, r2)
                      | None => None
                      end.
Proof. intros H1. simpl. rewrite H1. reflexivity. Qed.

Lemma skip_ws_item (lvl : nat) (v : pyval) (s : str) :
  plain v = true ->
  skip_ws (newline_indent lvl ++ dumps lvl v ++ s) = dumps lvl v ++ s.
Proof.
  intros Hp. rewrite skip_ws_indent.
  destruct (dumps_head v lvl Hp) as (c & r & -> & Hc & _).
  apply skip_ws_head, Hc.
Qed.

Lemma array_scans_back (lvl lvl' : nat) (rest : str) (xs : list pyval) :
  Forall scans_back xs -> forallb plain xs = true ->
  forall x, scans_back x -> plain x = true ->
  exists f0, forall f, (f0 <= f)%nat ->
    JSONArray f (dumps lvl x ++ more_items lvl (dumps lvl) xs
                   ++ newline_indent lvl' ++ 93 :: rest)
    = Some (x :: xs, rest).
Proof.
  intros Hall Hp.
  induction Hall as [|y ys Hy _ IH]; intros x Hx Hpx.
  - destruct (Hx Hpx lvl (newline_indent lvl' ++ 93 :: rest)
                (delimited_indent _ _)) as [f0 Hf0].
    exists (S f0). intros [|f] Hf; [lia|].
    apply JSONArray_last with (tail := newline_indent lvl' ++ 93 :: rest).
    + apply Hf0. lia.
    + rewrite skip_ws_indent. reflexivity.
  - simpl in Hp. apply andb_true_iff in Hp as [Hpy Hpys].
    destruct (IH Hpys y Hy Hpy) as [f1 Hf1].
    destruct (Hx Hpx lvl (44 :: newline_indent lvl ++ dumps lvl y
                            ++ more_items lvl (dumps lvl) ys
                            ++ newline_indent lvl' ++ 93 :: rest)
                (delimited_comma _)) as [f0 Hf0].
    exists (S (Nat.max f0 f1)). intros [|f] Hf; [lia|].
    rewrite more_items_cons_app.
    rewrite (JSONArray_next f x _ _ (Hf0 f ltac:(lia))).
    rewrite skip_ws_item by assumption.
    rewrite Hf1 by lia. reflexivity.
Qed.

Lemma JSONObject_last (f : nat) (k : str) (v : pyval) (s r1 r3 r : str) :
  scanstring s = Some (k, 58 :: r1) ->
  scan_once f (skip_ws r1) = Some (v, r3) ->
  skip_ws r3 = 125 :: r ->
  JSONObject (S f) (34 :: s) = Some ([(k, v)], r).
Proof. intros H1 H2 H3. simpl. rewrite H1. simpl. rewrite H2, H3. reflexivity. Qed.

Lemma JSONObject_next (f : nat) (k : str) (v : pyval) (s r1 r4 : str) :
  scanstring s = Some (k, 58 :: r1) ->
  scan_once f (skip_ws r1) = Some (v, 44 :: r4) ->
  JSONObject (S f) (34 :: s) = match JSONObject f (skip_ws r4) with
                               | Some (ps, r5) => Some ((k, v) :: ps, r5)
                               | None => None
                               end.
Proof. intros H1 H2. simpl. rewrite H1. simpl. rewrite H2. reflexivity. Qed.

Lemma dict_item_app (lvl : nat) (k : str) (v : pyval) (tail : str) :
  dict_item (dumps lvl) (k, v) ++ tail
  = 34 :: flat_map escape_char k ++ 34 :: 58 :: 32 :: dumps lvl v ++ tail.
Proof.
  unfold dict_item, encode_basestring. simpl.
  rewrite <- !List.app_assoc. reflexivity.
Qed.

Lemma skip_ws_value (lvl : nat) (v : pyval) (s : str) :
  plain v = true -> skip_ws (32 :: dumps lvl v ++ s) = dumps lvl v ++ s.
Proof.
  intros Hp. change (32 :: dumps lvl v ++ s) with (repeat 32 1 ++ dumps lvl v ++ s).
  rewrite skip_ws_spaces.
  destruct (dumps_head v lvl Hp) as (c & r & -> & Hc & _).
  apply skip_ws_head, Hc.
Qed.

Lemma object_scans_back (lvl lvl' : nat) (rest : str) (kvs : items) :
  Forall (fun kv => scans_back (snd kv)) kvs ->
  forallb (fun kv => plain (snd kv)) kvs = true ->
  forall kv, scans_back (snd kv) -> plain (snd kv) = true ->
  exists f0, forall f, (f0 <= f)%nat ->
    JSONObject f (dict_item (dumps lvl) kv
                    ++ more_items lvl (dict_item (dumps lvl)) kvs
                    ++ newline_indent lvl' ++ 125 :: rest)
    = Some (kv :: kvs, rest).
Proof.
  intros Hall Hp.
  induction Hall as [|[k' y] ys Hy _ IH]; intros [k x] Hx Hpx; simpl in Hx, Hpx.
  - destruct (Hx Hpx lvl (newline_indent lvl' ++ 125 :: rest)
                (delimited_indent _ _)) as [f0 Hf0].
    exists (S f0). intros [|f] Hf; [lia|].
    simpl more_items. rewrite dict_item_app.
    eapply JSONObject_last.
    + apply scanstring_encode.
    + rewrite skip_ws_value by assumption. apply Hf0. lia.
    + rewrite skip_ws_indent. reflexivity.
  - simpl in Hp. apply andb_true_iff in Hp as [Hpy Hpys].
    destruct (IH Hpys (k', y) Hy Hpy) as [f1 Hf1].
    destruct (Hx Hpx lvl (44 :: newline_indent lvl ++ dict_item (dumps lvl) (k', y)
                            ++ more_items lvl (dict_item (dumps lvl)) ys
                            ++ newline_indent lvl' ++ 125 :: rest)
                (delimited_comma _)) as [f0 Hf0].
    exists (S (Nat.max f0 f1)). intros [|f] Hf; [lia|].
    rewrite more_items_cons_app, (dict_item_app lvl k x).
    erewrite JSONObject_next;
      [| apply scanstring_encode
       | rewrite skip_ws_value by assumption; apply Hf0; lia ].
    rewrite skip_ws_indent.
    assert (Hq : skip_ws (dict_item (dumps lvl) (k', y)
                            ++ more_items lvl (dict_item (dumps lvl)) ys
                            ++ newline_indent lvl' ++ 125 :: rest)
                 = dict_item (dumps lvl) (k', y)
                     ++ more_items lvl (dict_item (dumps lvl)) ys
                     ++ newline_indent lvl' ++ 125 :: rest).
    { rewrite (dict_item_app lvl k' y). reflexivity. }
    rewrite Hq, Hf1 by lia. reflexivity.
Qed.

Lemma dumps_list_app (lvl : nat) (x : pyval) (xs : list pyval) (rest : str) :
  dumps lvl (PList (x :: xs)) ++ rest
  = 91 :: newline_indent (S lvl) ++ dumps (S lvl) x
       ++ more_items (S lvl) (dumps (S lvl)) xs ++ newline_indent lvl ++ 93 :: rest.
Proof.
  change (dumps lvl (PList (x :: xs)))
    with (91 :: newline_indent (S lvl) ++ dumps (S lvl) x
            ++ more_items (S lvl) (dumps (S lvl)) xs ++ newline_indent lvl ++ [93]).
  rewrite <- List.app_comm_cons, <- !List.app_assoc. reflexivity.
Qed.

Lemma dumps_dict_app (lvl : nat) (kv : str * pyval) (kvs : items) (rest : str) :
  dumps lvl (PDict (kv :: kvs)) ++ rest
  = 123 :: newline_indent (S lvl) ++ dict_item (dumps (S lvl)) kv
        ++ more_items (S lvl) (dict_item (dumps (S lvl))) kvs
        ++ newline_indent lvl ++ 125 :: rest.
Proof.
  change (dumps lvl (PDict (kv :: kvs)))
    with (123 :: newline_indent (S lvl) ++ dict_item (dumps (S lvl)) kv
            ++ more_items (S lvl) (dict_item (dumps (S lvl))) kvs
            ++ newline_indent lvl ++ [125]).
  rewrite <- List.app_comm_cons, <- !List.app_assoc. reflexivity.
Qed.

Lemma scan_once_array (f : nat) (s : str) (c : char) (r : str)
  (vs : list pyval) (r2 : str) :
  skip_ws s = c :: r -> c <> 93 -> JSONArray f (c :: r) = Some (vs, r2) ->
  scan_once (S f) (91 :: s) = Some (PList vs, r2).
Proof.
  intros H1 H2 H3. apply N.eqb_neq in H2. simpl. rewrite H1, H2, H3. reflexivity.
Qed.

Lemma scan_once_object (f : nat) (s : str) (c : char) (r : str)
  (ps : items) (r2 : str) :
  skip_ws s = c :: r -> c <> 125 -> JSONObject f (c :: r) = Some (ps, r2) ->
  scan_once (S f) (123 :: s) = Some (PDict (dict_of_pairs ps), r2).
Proof.
  intros H1 H2 H3. apply N.eqb_neq in H2.
  change (scan_once (S f) (123 :: s))
    with (match skip_ws s with
          | [] => None
          | c1 :: r1 =>
              if c1 =? 125 then Some (PDict [], r1)
              else match JSONObject f (c1 :: r1) with
                   | Some (pairs, r2) => Some (PDict (dict_of_pairs pairs), r2)
                   | None => None
                   end
          end).
  rewrite H1, H2, H3. reflexivity.
Qed.

Lemma scan_once_dumps (v : pyval) : scans_back v.
Proof.
  induction v as [|b|z|l|s|l IH|d IH] using pyval_ind; intros Hp lvl rest Hrest.
  - exists 1%nat. intros [|f] Hf; [lia | reflexivity].
  - exists 1%nat. intros [|f] Hf; [lia | destruct b; reflexivity].
  - exists 1%nat. intros [|f] Hf; [lia | now apply scan_once_int].
  - exists 1%nat. intros [|f] Hf; [lia | now apply scan_once_float].
  - exists 1%nat. intros [|f] Hf; [lia|].
    unfold dumps, encode_basestring. rewrite <- List.app_comm_cons, <- List.app_assoc.
    simpl. rewrite scanstring_encode. reflexivity.
  - destruct l as [|x xs].
    + exists 1%nat. intros [|f] Hf; [lia | reflexivity].
    + simpl in Hp. apply andb_true_iff in Hp as [Hpx Hpxs].
      inversion IH as [|? ? Hx Hxs]; subst.
      destruct (array_scans_back (S lvl) lvl rest xs Hxs Hpxs x Hx Hpx) as [f0 Hf0].
      exists (S f0). intros [|f] Hf; [lia|].
      destruct (dumps_head x (S lvl) Hpx) as (c & r & E & Hc & Hc93 & _).
      rewrite dumps_list_app.
      specialize (Hf0 f ltac:(lia)).
      eapply scan_once_array; [ | exact Hc93 | ].
      * rewrite skip_ws_item by assumption. rewrite E. reflexivity.
      * rewrite E in Hf0. exact Hf0.
  - destruct d as [|[k x] kvs].
    + exists 1%nat. intros [|f] Hf; [lia | reflexivity].
    + simpl in Hp. apply andb_true_iff in Hp as [Hu Hp].
      pose proof Hp as Hp'. apply andb_true_iff in Hp' as [Hpx Hpxs].
      inversion IH as [|? ? Hx Hxs]; subst.
      destruct (object_scans_back (S lvl) lvl rest kvs Hxs Hpxs (k, x) Hx Hpx)
        as [f0 Hf0].
      exists (S f0). intros [|f] Hf; [lia|].
      rewrite dumps_dict_app.
      specialize (Hf0 f ltac:(lia)).
      rewrite <- (dict_of_pairs_unique ((k, x) :: kvs) Hu) at 1.
      rewrite (dict_item_app (S lvl) k x) in *.
      eapply scan_once_object; [ | | exact Hf0 ]; [|lia].
      rewrite skip_ws_indent. reflexivity.
Qed.

Lemma skip_ws_dumps (v : pyval) (rest : str) :
  plain v = true -> skip_ws (dumps 0 v ++ rest) = dumps 0 v ++ rest.
Proof.
  intros Hp. destruct (dumps_head v 0 Hp) as (c & r & -> & Hc & _).
  apply skip_ws_head, Hc.
Qed.

(** [json.load] reads back what [json.dump] wrote. *)
Lemma json_loads_dumps (v : pyval) :
  plain v = true -> json_loads (json_dumps v) = Some v.
Proof.
  intros Hp. unfold json_loads, json_dumps.
  pose proof (skip_ws_dumps v [] Hp) as Hs. rewrite List.app_nil_r in Hs.
  rewrite Hs.
  destruct (scan_once_dumps v Hp 0%nat [] I) as [f0 Hf0].
  rewrite List.app_nil_r in Hf0.
  rewrite (scan_once_fuel _ (Nat.max f0 (2 * length (dumps 0 v) + 1))) by lia.
  rewrite Hf0 by lia. reflexivity.
Qed.

(** The fuel of [json_loads] is enough: any larger one gives the same
    result, so that [None] always stands for a text that is not JSON. *)
Lemma json_loads_fuel (s : str) (f : nat) :
  (2 * length s < f)%nat ->
  json_loads s
  = match scan_once f (skip_ws s) with
    | Some (v, r) => match skip_ws r with
                     | [] => Some v
                     | _ :: _ => None
                     end
    | None => None
    end.
Proof.
  intros Hf. unfold json_loads. pose proof (skip_ws_le s) as Hle.
  now rewrite (scan_once_fuel (2 * length s + 1) f (skip_ws s)) by lia.
Qed.

(** ** Facts about dictionaries *)

Lemma dict_mem_keys (d : items) (k : str) :
  dict_mem d k = existsb (str_eqb k) (List.map fst d).
Proof.
  unfold dict_mem. induction d as [|[k' v] d IH]; simpl; [reflexivity|].
  destruct (str_eqb k' k) eqn:E.
  - apply str_eqb_eq in E. subst. now rewrite str_eqb_refl.
  - rewrite IH. destruct (str_eqb k k') eqn:E'; [|reflexivity].
    apply str_eqb_eq in E'. subst. now rewrite str_eqb_refl in E.
Qed.

Lemma dict_get_set_same (d : items) (k : str) (v : pyval) :
  dict_get (dict_set d k v) k = Some v.
Proof.
  induction d as [|[k' v'] d IH]; simpl.
  - now rewrite str_eqb_refl.
  - destruct (str_eqb k' k) eqn:E; simpl; now rewrite E.
Qed.

Lemma dict_get_set_other (d : items) (k k' : str) (v : pyval) :
  k' <> k -> dict_get (dict_set d k v) k' = dict_get d k'.
Proof.
  intros Hk. induction d as [|[k0 v0] d IH]; simpl.
  - apply str_eqb_neq in Hk. destruct (str_eqb k k') eqn:E; [|reflexivity].
    apply str_eqb_eq in E. subst. now rewrite str_eqb_refl in Hk.
  - destruct (str_eqb k0 k) eqn:E; simpl; [|now rewrite IH].
    apply str_eqb_eq in E. subst k0.
    destruct (str_eqb k k') eqn:E'; [|reflexivity].
    apply str_eqb_eq in E'. congruence.
Qed.

Lemma dict_get_del_other (d : items) (k k' : str) :
  k' <> k -> dict_get (dict_del d k) k' = dict_get d k'.
Proof.
  intros Hk. induction d as [|[k0 v0] d IH]; simpl; [reflexivity|].
  destruct (str_eqb k0 k) eqn:E; simpl.
  - apply str_eqb_eq in E. subst.
    apply str_eqb_neq in Hk. destruct (str_eqb k k') eqn:E'; [|reflexivity].
    apply str_eqb_eq in E'. subst. now rewrite str_eqb_refl in Hk.
  - now rewrite IH.
Qed.

Lemma keys_dict_set (d : items) (k : str) (v : pyval) :
  List.map fst (dict_set d k v)
  = if dict_mem d k then List.map fst d else List.map fst d ++ [k].
Proof.
  unfold dict_mem. induction d as [|[k' v'] d IH]; simpl; [reflexivity|].
  destruct (str_eqb k' k) eqn:E; simpl; [reflexivity|].
  rewrite IH. now destruct (dict_get d k).
Qed.

Lemma unique_app_one (ks : list str) (k : str) :
  unique ks = true -> existsb (str_eqb k) ks = false -> unique (ks ++ [k]) = true.
Proof.
  induction ks as [|k0 ks IH]; simpl; [reflexivity|].
  intros Hu Hk. apply andb_true_iff in Hu as [H0 Hu].
  apply orb_false_iff in Hk as [Hk0 Hk].
  rewrite IH by assumption. rewrite andb_true_r.
  apply negb_true_iff in H0. apply negb_true_iff.
  rewrite existsb_app, H0. simpl. rewrite orb_false_r.
  apply str_eqb_neq. apply str_eqb_neq in Hk0. congruence.
Qed.

Lemma unique_dict_set_keys (d : items) (k : str) (v : pyval) :
  unique (List.map fst d) = true -> unique (List.map fst (dict_set d k v)) = true.
Proof.
  intros Hu. rewrite keys_dict_set. destruct (dict_mem d k) eqn:E; [assumption|].
  apply unique_app_one; [assumption|]. now rewrite <- dict_mem_keys.
Qed.

Lemma forallb_dict_set (p : pyval -> bool) (d : items) (k : str) (v : pyval) :
  forallb (fun kv => p (snd kv)) d = true -> p v = true ->
  forallb (fun kv => p (snd kv)) (dict_set d k v) = true.
Proof.
  intros Hd Hv. induction d as [|[k' v'] d IH]; simpl in *.
  - now rewrite Hv.
  - apply andb_true_iff in Hd as [H1 H2].
    destruct (str_eqb k' k); simpl; [now rewrite Hv | now rewrite H1, IH].
Qed.

Lemma plain_dict_set (d : items) (k : str) (v : pyval) :
  plain (PDict d) = true -> plain v = true -> plain (PDict (dict_set d k v)) = true.
Proof.
  simpl. intros Hd Hv. apply andb_true_iff in Hd as [Hu Hp].
  rewrite unique_dict_set_keys by assumption.
  now rewrite (forallb_dict_set plain).
Qed.

Lemma existsb_dict_del (d : items) (k k' : str) :
  existsb (str_eqb k') (List.map fst d) = false ->
  existsb (str_eqb k') (List.map fst (dict_del d k)) = false.
Proof.
  induction d as [|[k0 v0] d IH]; simpl; [reflexivity|].
  intros H. apply orb_false_iff in H as [H1 H2].
  destruct (str_eqb k0 k); simpl; [assumption|]. now rewrite H1, IH.
Qed.

Lemma unique_dict_del (d : items) (k : str) :
  unique (List.map fst d) = true -> unique (List.map fst (dict_del d k)) = true.
Proof.
  induction d as [|[k0 v0] d IH]; simpl; [reflexivity|].
  intros H. apply andb_true_iff in H as [H1 H2].
  destruct (str_eqb k0 k); simpl; [assumption|].
  rewrite IH by assumption. rewrite andb_true_r.
  apply negb_true_iff in H1. apply negb_true_iff. now apply existsb_dict_del.
Qed.

Lemma forallb_dict_del (p : str * pyval -> bool) (d : items) (k : str) :
  forallb p d = true -> forallb p (dict_del d k) = true.
Proof.
  induction d as [|[k0 v0] d IH]; simpl; [reflexivity|].
  intros H. apply andb_true_iff in H as [H1 H2].
  destruct (str_eqb k0 k); simpl; [assumption|]. now rewrite H1, IH.
Qed.

Lemma plain_dict_del (d : items) (k : str) :
  plain (PDict d) = true -> plain (PDict (dict_del d k)) = true.
Proof.
  simpl. intros Hd. apply andb_true_iff in Hd as [Hu Hp].
  now rewrite unique_dict_del, forallb_dict_del.
Qed.

Lemma dict_get_del_same (d : items) (k : str) :
  unique (List.map fst d) = true -> dict_get (dict_del d k) k = None.
Proof.
  induction d as [|[k0 v0] d IH]; simpl; [reflexivity|].
  intros H. apply andb_true_iff in H as [H1 H2].
  destruct (str_eqb k0 k) eqn:E; simpl.
  - apply str_eqb_eq in E. subst. apply negb_true_iff in H1.
    rewrite <- dict_mem_keys in H1. unfold dict_mem in H1.
    now destruct (dict_get d k).
  - rewrite E. now apply IH.
Qed.

Lemma dict_del_absent (d : items) (k : str) :
  dict_mem d k = false -> dict_del d k = d.
Proof.
  unfold dict_mem. induction d as [|[k0 v0] d IH]; simpl; [reflexivity|].
  destruct (str_eqb k0 k); [discriminate|]. intros H. now rewrite IH.
Qed.

(** ** What the parser returns *)

Lemma take_digits_digits (s : str) : all_digits (fst (take_digits s)).
Proof.
  induction s as [|c s IH]; simpl; [constructor|].
  destruct (is_digit c) eqn:E; [|constructor].
  destruct (take_digits s). simpl in *. now constructor.
Qed.

Lemma take_digits_prefix (ds tail : str) :
  all_digits ds -> stops tail -> take_digits (ds ++ tail) = (ds, tail).
Proof.
  intros Hds Ht. induction Hds as [|c ds Hc _ IH]; cbn [app take_digits].
  - destruct tail as [|c r]; [reflexivity|]. cbn [stops take_digits] in *.
    now rewrite Ht.
  - now rewrite Hc, IH.
Qed.

Lemma digit_not_sign (c : char) :
  is_digit c = true -> (c =? 45) || (c =? 43) = false.
Proof.
  unfold is_digit. intros H. apply andb_true_iff in H as [H1 H2].
  apply N.leb_le in H1, H2.
  destruct (N.eqb_spec c 45), (N.eqb_spec c 43); try lia; reflexivity.
Qed.

Lemma scan_exp_rescan (s : str) :
  scan_exp (fst (scan_exp s)) = (fst (scan_exp s), [])
  /\ stops (fst (scan_exp s))
  /\ match fst (scan_exp s) with [] => True | c :: _ => c <> 46 end.
Proof.
  destruct s as [|e r]; [repeat split|]. cbn [scan_exp].
  destruct ((e =? 101) || (e =? 69)) eqn:He; [|repeat split].
  assert (Hstop : is_digit e = false /\ e <> 46).
  { apply orb_true_iff in He as [He | He]; apply N.eqb_eq in He; subst; split;
      (reflexivity || discriminate). }
  set (p := match r with
            | [] => ([], r)
            | g :: t => if (g =? 45) || (g =? 43) then ([g], t) else ([], r)
            end).
  assert (Hsg : fst p = [] \/ exists g, fst p = [g] /\ (g =? 45) || (g =? 43) = true).
  { subst p. destruct r as [|g t]; [now left|].
    destruct ((g =? 45) || (g =? 43)) eqn:Hg;
      [right; exists g; split; [reflexivity | exact Hg] | now left]. }
  destruct p as [sg r'']. cbn [fst] in Hsg.
  pose proof (take_digits_digits r'') as Hes.
  destruct (take_digits r'') as [[|c es] r3]; [repeat split|].
  cbn [fst] in *. split; [|split; [exact (proj1 Hstop) | exact (proj2 Hstop)]].
  cbn [scan_exp]. rewrite He.
  destruct Hsg as [-> | (g & -> & Hg)].
  - cbn [app]. inversion Hes as [|? ? Hc Hes']; subst.
    rewrite (digit_not_sign c Hc).
    pose proof (take_digits_prefix (c :: es) [] Hes I) as Ht.
    rewrite List.app_nil_r in Ht. rewrite Ht. reflexivity.
  - cbn [app]. rewrite Hg.
    pose proof (take_digits_prefix (c :: es) [] Hes I) as Ht.
    rewrite List.app_nil_r in Ht. rewrite Ht. reflexivity.
Qed.

Lemma scan_frac_rescan (s ex : str) :
  stops ex -> match ex with [] => True | c :: _ => c <> 46 end ->
  scan_frac (fst (scan_frac s) ++ ex) = (fst (scan_frac s), ex)
  /\ stops (fst (scan_frac s) ++ ex).
Proof.
  intros Hex Hdot.
  assert (Hnil : scan_frac ex = ([], ex)).
  { destruct ex as [|c r]; [reflexivity|]. simpl.
    apply N.eqb_neq in Hdot. now rewrite Hdot. }
  destruct s as [|p r]; [split; [exact Hnil | exact Hex]|]. cbn [scan_frac].
  destruct (N.eqb_spec p 46) as [->|_]; [|split; [exact Hnil | exact Hex]].
  pose proof (take_digits_digits r) as Hfs.
  destruct (take_digits r) as [[|c fs] r']; [split; [exact Hnil | exact Hex]|].
  cbn [fst] in *. split; [|reflexivity].
  cbn [app scan_frac]. change (46 =? 46) with true. cbv iota.
  change (c :: fs ++ ex) with ((c :: fs) ++ ex).
  rewrite (take_digits_prefix (c :: fs) ex Hfs Hex). reflexivity.
Qed.

Lemma scan_int_part_rescan (s ip r tail : str) :
  scan_int_part s = Some (ip, r) -> stops tail ->
  scan_int_part (ip ++ tail) = Some (ip, tail)
  /\ exists d ds, ip = d :: ds /\ is_digit d = true.
Proof.
  destruct s as [|d s]; [discriminate|]. cbn [scan_int_part].
  destruct (is_digit d) eqn:Hd; [|discriminate].
  destruct (d =? 48) eqn:H0.
  - intros [= <- <-] Ht. split; [|eauto].
    cbn [app scan_int_part]. now rewrite Hd, H0.
  - pose proof (take_digits_digits s) as Hds.
    destruct (take_digits s) as [ds r']. intros [= <- <-] Ht. cbn [fst] in Hds.
    split; [|eauto].
    cbn [app scan_int_part]. rewrite Hd, H0.
    now rewrite (take_digits_prefix ds tail Hds Ht).
Qed.

Lemma scan_sign_rescan (neg : bool) (d : char) (l : str) :
  is_digit d = true ->
  scan_sign ((if neg then [45] else []) ++ d :: l) = (neg, d :: l).
Proof.
  intros Hd. destruct neg; [reflexivity|]. cbn [app scan_sign].
  unfold is_digit in Hd. apply andb_true_iff in Hd as [H1 H2].
  apply N.leb_le in H1. destruct (N.eqb_spec d 45); [lia | reflexivity].
Qed.

(** A number that is read as a [float] is held as the text of a literal. *)
Lemma match_number_float_literal (s t r : str) :
  match_number s = Some (PFloat t, r) ->
  exists l, t = float_text l /\ float_literal l = true.
Proof.
  unfold match_number at 1.
  destruct (scan_sign s) as [neg s1].
  destruct (scan_int_part s1) as [[ip r1]|] eqn:Hi; [|discriminate].
  destruct (scan_exp_rescan (snd (scan_frac r1))) as (Hex & Hstop & Hdot).
  destruct (scan_frac_rescan r1 (fst (scan_exp (snd (scan_frac r1)))) Hstop Hdot)
    as (Hfrac & Hstop').
  destruct (scan_int_part_rescan s1 ip r1 _ Hi Hstop') as (Hip & d & ds & -> & Hd).
  destruct (scan_frac r1) as [frac r2]. cbn [fst snd] in *.
  destruct (scan_exp r2) as [ex r3]. cbn [fst snd] in *.
  intros H.
  assert (Hl : t = float_text ((if neg then [45] else []) ++ (d :: ds) ++ frac ++ ex)
               /\ (frac <> [] \/ ex <> [])).
  { destruct frac, ex; try discriminate; injection H as <- _;
      (split; [reflexivity|]); (now left) || (now right). }
  destruct Hl as [-> Hne].
  eexists. split; [reflexivity|].
  unfold float_literal, match_number.
  change ((d :: ds) ++ frac ++ ex) with (d :: ds ++ frac ++ ex).
  rewrite (scan_sign_rescan neg d (ds ++ frac ++ ex) Hd).
  change (d :: ds ++ frac ++ ex) with ((d :: ds) ++ frac ++ ex).
  rewrite Hip, Hfrac, Hex.
  destruct frac, ex; try reflexivity. destruct Hne; contradiction.
Qed.

Lemma scan_sign_split (s : str) :
  s = (if fst (scan_sign s) then [45] else []) ++ snd (scan_sign s).
Proof.
  destruct s as [|c r]; [reflexivity|]. cbn [scan_sign].
  destruct (N.eqb_spec c 45) as [->|_]; reflexivity.
Qed.

Lemma scan_int_part_split (s ip r : str) :
  scan_int_part s = Some (ip, r) -> s = ip ++ r.
Proof.
  destruct s as [|d s]; [discriminate|]. cbn [scan_int_part].
  destruct (is_digit d); [|discriminate].
  destruct (d =? 48); [now intros [= <- <-]|].
  pose proof (take_digits_app s) as H. destruct (take_digits s) as [ds r'].
  intros [= <- <-]. cbn [fst snd] in H. cbn [app]. now f_equal.
Qed.

Lemma scan_frac_split (s : str) : s = fst (scan_frac s) ++ snd (scan_frac s).
Proof.
  destruct s as [|p r]; [reflexivity|]. cbn [scan_frac].
  destruct (p =? 46); [|reflexivity].
  pose proof (take_digits_app r) as H.
  destruct (take_digits r) as [[|c fs] r']; [reflexivity|].
  cbn [fst snd] in *. cbn [app]. now f_equal.
Qed.

Lemma scan_exp_split (s : str) : s = fst (scan_exp s) ++ snd (scan_exp s).
Proof.
  destruct s as [|e r]; [reflexivity|]. cbn [scan_exp].
  destruct ((e =? 101) || (e =? 69)); [|reflexivity].
  destruct r as [|g t].
  - reflexivity.
  - destruct ((g =? 45) || (g =? 43)).
    + pose proof (take_digits_app t) as H.
      destruct (take_digits t) as [[|c es] r']; [reflexivity|].
      cbn [fst snd] in *. cbn [app]. now do 2 f_equal.
    + pose proof (take_digits_app (g :: t)) as H.
      destruct (take_digits (g :: t)) as [[|c es] r']; [reflexivity|].
      cbn [fst snd] in *. cbn [app]. now f_equal.
Qed.

(** A text that is read whole as a [float] is held as its own text. *)
Lemma match_number_float_whole (l t : str) :
  match_number l = Some (PFloat t, []) -> t = float_text l.
Proof.
  unfold match_number.
  pose proof (scan_sign_split l) as H0. destruct (scan_sign l) as [neg s1].
  destruct (scan_int_part s1) as [[ip r1]|] eqn:Hi; [|discriminate].
  apply scan_int_part_split in Hi.
  pose proof (scan_frac_split r1) as H2. destruct (scan_frac r1) as [frac r2].
  pose proof (scan_exp_split r2) as H3. destruct (scan_exp r2) as [ex r3].
  cbn [fst snd] in *. intros H.
  assert (E : r3 = [] /\ t = float_text ((if neg then [45] else []) ++ ip ++ frac ++ ex)).
  { destruct frac, ex; try discriminate; injection H as Ht Hr; now split. }
  destruct E as [-> ->]. f_equal.
  rewrite H0, Hi, H2, H3. now rewrite List.app_nil_r.
Qed.

Lemma match_number_head (s : str) (v : pyval) (r : str) :
  match_number s = Some (v, r) ->
  exists c t, s = c :: t /\ (is_digit c = true \/ c = 45).
Proof.
  unfold match_number. destruct s as [|c t]; [discriminate|].
  intros H. exists c, t. split; [reflexivity|].
  cbn [scan_sign] in H. destruct (N.eqb_spec c 45) as [->|_]; [now right|].
  cbn [scan_int_part] in H. destruct (is_digit c); [now left | discriminate].
Qed.

Lemma scan_atom_number (s : str) :
  match_number s <> None -> scan_atom s = match_number s.
Proof.
  intros H. destruct (match_number s) as [[v r]|] eqn:E; [|contradiction].
  destruct (match_number_head s v r E) as (c & t & -> & Hc).
  assert (Hcs : c <> 110 /\ c <> 116 /\ c <> 102).
  { destruct Hc as [Hc | ->]; [|repeat split; lia].
    unfold is_digit in Hc. apply andb_true_iff in Hc as [H1 H2].
    apply N.leb_le in H1, H2. repeat split; lia. }
  destruct Hcs as (H1 & H2 & H3).
  unfold scan_atom, NULL, TRUE, FALSE.
  rewrite !startswith_head_neq by congruence. now rewrite E.
Qed.

Lemma match_number_kind (s : str) (v : pyval) (r : str) :
  match_number s = Some (v, r) ->
  (exists z, v = PInt z) \/ (exists l, v = PFloat l).
Proof.
  unfold match_number. destruct (scan_sign s) as [neg s1].
  destruct (scan_int_part s1) as [[ip r1]|]; [|discriminate].
  destruct (scan_frac r1) as [frac r2]. destruct (scan_exp r2) as [ex r3].
  destruct frac, ex; intros [= <- _]; eauto.
Qed.

Lemma scan_atom_plain (F : float_round_trip) (s : str) (v : pyval) (r : str) :
  scan_atom s = Some (v, r) -> plain v = true.
Proof.
  unfold scan_atom.
  destruct (startswith s NULL); [now intros [= <- _]|].
  destruct (startswith s TRUE); [now intros [= <- _]|].
  destruct (startswith s FALSE); [now intros [= <- _]|].
  destruct (match_number s) as [[v' r']|] eqn:E.
  - intros [= <- _].
    destruct (match_number_kind s v' r' E) as [[z ->] | [l ->]]; [reflexivity|].
    apply match_number_float_literal in E as (l' & -> & Hl).
    cbn [plain]. now apply F.
  - destruct (startswith s NAN); [now intros [= <- _]|].
    destruct (startswith s INFINITY); [now intros [= <- _]|].
    destruct (startswith s NEG_INFINITY); [now intros [= <- _]|].
    discriminate.
Qed.

Lemma plain_dict_of_pairs (ps : items) :
  forallb (fun kv => plain (snd kv)) ps = true ->
  plain (PDict (dict_of_pairs ps)) = true.
Proof.
  unfold dict_of_pairs.
  assert (G : forall acc, plain (PDict acc) = true ->
             forallb (fun kv => plain (snd kv)) ps = true ->
             plain (PDict (fold_left (fun d kv => dict_set d (fst kv) (snd kv)) ps acc))
             = true).
  { induction ps as [|[k v] ps IH]; intros acc Hacc Hps; [exact Hacc|].
    cbn [forallb snd] in Hps. apply andb_true_iff in Hps as [Hv Hps].
    cbn [fold_left fst snd]. apply IH; [|exact Hps].
    now apply plain_dict_set. }
  apply G. reflexivity.
Qed.

Lemma scan_plain (F : float_round_trip) (f : nat) :
  (forall s v r, scan_once f s = Some (v, r) -> plain v = true)
  /\ (forall s vs r, JSONArray f s = Some (vs, r) -> forallb plain vs = true)
  /\ (forall s ps r, JSONObject f s = Some (ps, r) ->
                     forallb (fun kv => plain (snd kv)) ps = true).
Proof.
  induction f as [|f (IHs & IHa & IHo)]; [repeat split; discriminate|].
  repeat split.
  - intros s v r H. destruct s as [|c s]; [discriminate|]. simpl in H.
    destruct (c =? 34).
    { destruct (scanstring s) as [[x r']|]; [|discriminate]. now injection H as <- _. }
    destruct (c =? 123).
    { destruct (skip_ws s) as [|c1 r1]; [discriminate|].
      destruct (c1 =? 125); [now injection H as <- _|].
      destruct (JSONObject f (c1 :: r1)) as [[ps r2]|] eqn:E; [|discriminate].
      injection H as <- _. apply plain_dict_of_pairs. now apply IHo in E. }
    destruct (c =? 91).
    { destruct (skip_ws s) as [|c1 r1]; [discriminate|].
      destruct (c1 =? 93); [now injection H as <- _|].
      destruct (JSONArray f (c1 :: r1)) as [[vs r2]|] eqn:E; [|discriminate].
      injection H as <- _. apply IHa in E. exact E. }
    now apply (scan_atom_plain F) in H.
  - intros s vs r H. simpl in H.
    destruct (scan_once f s) as [[v r0]|] eqn:E; [|discriminate].
    apply IHs in E.
    destruct (skip_ws r0) as [|c r1]; [discriminate|].
    destruct (c =? 93). { injection H as <- _. cbn [forallb]. now rewrite E. }
    destruct (c =? 44); [|discriminate].
    destruct (JSONArray f (skip_ws r1)) as [[vs' r2]|] eqn:E2; [|discriminate].
    injection H as <- _. apply IHa in E2. cbn [forallb]. now rewrite E, E2.
  - intros s ps r H. destruct s as [|q s]; [discriminate|]. simpl in H.
    destruct (q =? 34); [|discriminate].
    destruct (scanstring s) as [[key r1]|]; [|discriminate].
    destruct (skip_ws r1) as [|c r2]; [discriminate|].
    destruct (c =? 58); [|discriminate].
    destruct (scan_once f (skip_ws r2)) as [[v r3]|] eqn:E3; [|discriminate].
    apply IHs in E3.
    destruct (skip_ws r3) as [|c' r4]; [discriminate|].
    destruct (c' =? 125). { injection H as <- _. cbn [forallb snd]. now rewrite E3. }
    destruct (c' =? 44); [|discriminate].
    destruct (JSONObject f (skip_ws r4)) as [[ps' r5]|] eqn:E5; [|discriminate].
    injection H as <- _. apply IHo in E5. cbn [forallb snd]. now rewrite E3, E5.
Qed.

(** Whatever [json.load] returns, [json.dump] writes so that [json.load]
    reads it back. *)
Lemma json_loads_plain (F : float_round_trip) (s : str) (v : pyval) :
  json_loads s = Some v -> plain v = true.
Proof.
  unfold json_loads.
  destruct (scan_once _ _) as [[v' r]|] eqn:E; [|discriminate].
  destruct (skip_ws r); [|discriminate]. intros [= <-].
  now apply (proj1 (scan_plain F _)) in E.
Qed.

(** *** A text that goes on

    What the parser reads at the head of a text it reads at the head of
    every text that goes on from it, when the value is a string, a list
    or a dict, or when a separator follows. *)

Lemma skip_ws_ext (s x : str) (c : char) (r : str) :
  skip_ws s = c :: r -> skip_ws (s ++ x) = c :: r ++ x.
Proof.
  induction s as [|h s IH]; [discriminate|]. cbn [skip_ws app].
  destruct (is_ws h); [exact IH|]. now intros [= <- <-].
Qed.

Lemma skip_ws_bounded (s : str) (c : char) (r : str) :
  skip_ws s = c :: r -> c = 44 \/ c = 93 \/ c = 125 -> bounded s.
Proof.
  destruct s as [|h s]; [discriminate|]. cbn [skip_ws bounded].
  destruct (is_ws h); [now left|]. intros [= <- <-] H. now right.
Qed.

Lemma bounded_stops (r : str) :
  bounded r ->
  exists c t, r = c :: t /\ is_digit c = false /\ c <> 46 /\ c <> 101 /\ c <> 69
              /\ c <> 45 /\ c <> 43.
Proof.
  destruct r as [|c t]; [contradiction|]. intros H. exists c, t.
  split; [reflexivity|].
  assert (G : In c [32; 9; 10; 13; 44; 93; 125]).
  { destruct H as [H | [-> | [-> | ->]]]; cbn; try tauto.
    unfold is_ws in H. repeat (apply orb_true_iff in H as [H | H]);
      apply N.eqb_eq in H; subst; cbn; tauto. }
  cbn in G. repeat (destruct G as [<- | G]; [repeat split; discriminate|]).
  contradiction.
Qed.

Lemma take_digits_ext (s x : str) (ds : str) (c : char) (t : str) :
  take_digits s = (ds, c :: t) -> take_digits (s ++ x) = (ds, (c :: t) ++ x).
Proof.
  revert ds. induction s as [|h s IH]; intros ds; [discriminate|].
  cbn [take_digits app]. destruct (is_digit h).
  - destruct (take_digits s) as [ds' r'] eqn:E. intros [= <- ->].
    now rewrite (IH ds' eq_refl).
  - now intros [= <- <- <-].
Qed.

Lemma take_digits_rest (s : str) : stops (snd (take_digits s)).
Proof.
  induction s as [|h s IH]; [exact I|]. cbn [take_digits].
  destruct (is_digit h) eqn:E; [|exact E].
  now destruct (take_digits s).
Qed.

Lemma scan_exp_ext (s x ex r : str) :
  scan_exp s = (ex, r) -> bounded r -> scan_exp (s ++ x) = (ex, r ++ x).
Proof.
  intros H Hb. destruct (bounded_stops r Hb) as (c & t & -> & Hd & _ & He1 & He2 & _).
  destruct s as [|e s]; [discriminate|].
  assert (Hsame : (e =? 101) || (e =? 69) = true ->
                  forall u, ([], e :: u) = (ex, c :: t) -> False).
  { intros E u Hu. injection Hu as _ Hc _. subst c.
    apply orb_true_iff in E as [E | E]; apply N.eqb_eq in E; congruence. }
  destruct s as [|g s'].
  - cbn [app]. cbn [scan_exp] in H. cbn [scan_exp].
    destruct ((e =? 101) || (e =? 69)) eqn:E.
    + cbn in H. now apply (Hsame eq_refl) in H.
    + now injection H as <- <- <-.
  - cbn [app]. cbn [scan_exp] in H |- *.
    destruct ((e =? 101) || (e =? 69)) eqn:E; [|now injection H as <- <- <-].
    destruct ((g =? 45) || (g =? 43)).
    + destruct (take_digits s') as [[|d es] r''] eqn:Et;
        [now apply (Hsame eq_refl) in H|].
      injection H as <- ->.
      now rewrite (take_digits_ext s' x _ _ _ Et).
    + change (g :: s' ++ x) with ((g :: s') ++ x).
      destruct (take_digits (g :: s')) as [[|d es] r''] eqn:Et;
        [now apply (Hsame eq_refl) in H|].
      injection H as <- ->.
      now rewrite (take_digits_ext (g :: s') x _ _ _ Et).
Qed.

(** What precedes an exponent that stops at a separator. *)
Lemma scan_exp_before (s ex r : str) :
  scan_exp s = (ex, r) -> bounded r ->
  exists c t, s = c :: t /\ is_digit c = false /\ c <> 46.
Proof.
  intros H Hb. destruct (bounded_stops r Hb) as (c & t & -> & Hd & H46 & _).
  pose proof (scan_exp_split s) as Hs. rewrite H in Hs. cbn [fst snd] in Hs.
  destruct ex as [|e ex']; [exists c, t; now subst|].
  destruct s as [|e0 s0]; [discriminate|].
  exists e0, s0. split; [reflexivity|].
  cbn [scan_exp] in H. destruct ((e0 =? 101) || (e0 =? 69)) eqn:E; [|discriminate].
  apply orb_true_iff in E as [E | E]; apply N.eqb_eq in E; subst; split;
    (reflexivity || discriminate).
Qed.

Lemma scan_frac_ext (s x frac r : str) :
  scan_frac s = (frac, r) ->
  (exists c t, r = c :: t /\ is_digit c = false /\ c <> 46) ->
  scan_frac (s ++ x) = (frac, r ++ x).
Proof.
  intros H (c & t & -> & Hd & H46).
  destruct s as [|p s]; [discriminate|]. cbn [scan_frac app] in *.
  destruct (N.eqb_spec p 46) as [->|Hp].
  - destruct (take_digits s) as [[|d fs] r'] eqn:Et.
    + injection H as _ Hc _. congruence.
    + injection H as <- ->. now rewrite (take_digits_ext s x _ _ _ Et).
  - now injection H as <- <- <-.
Qed.

Lemma scan_frac_before (s frac r : str) :
  scan_frac s = (frac, r) ->
  (exists c t, r = c :: t /\ is_digit c = false /\ c <> 46) ->
  exists c t, s = c :: t /\ is_digit c = false.
Proof.
  intros H (c & t & -> & Hd & _).
  pose proof (scan_frac_split s) as Hs. rewrite H in Hs. cbn [fst snd] in Hs.
  destruct frac as [|p frac']; [exists c, t; now subst|].
  destruct s as [|p0 s0]; [discriminate|].
  exists p0, s0. split; [reflexivity|].
  cbn [scan_frac] in H. destruct (N.eqb_spec p0 46) as [->|_]; [reflexivity | discriminate].
Qed.

Lemma scan_int_part_ext (s x ip r : str) :
  scan_int_part s = Some (ip, r) ->
  (exists c t, r = c :: t /\ is_digit c = false) ->
  scan_int_part (s ++ x) = Some (ip, r ++ x).
Proof.
  intros H (c & t & -> & Hd).
  destruct s as [|d s]; [discriminate|]. cbn [scan_int_part app] in *.
  destruct (is_digit d); [|discriminate].
  destruct (d =? 48); [now injection H as <- ->|].
  destruct (take_digits s) as [ds r'] eqn:Et. injection H as <- ->.
  now rewrite (take_digits_ext s x _ _ _ Et).
Qed.

Lemma scan_sign_ext (s x : str) (neg : bool) (c : char) (t : str) :
  scan_sign s = (neg, c :: t) -> scan_sign (s ++ x) = (neg, (c :: t) ++ x).
Proof.
  destruct s as [|h s]; [discriminate|]. cbn [scan_sign app].
  destruct (h =? 45); [now intros [= <- ->] | now intros [= <- <- <-]].
Qed.

Lemma match_number_ext (s x : str) (v : pyval) (r : str) :
  match_number s = Some (v, r) -> bounded r ->
  match_number (s ++ x) = Some (v, r ++ x).
Proof.
  unfold match_number. intros H Hb.
  destruct (scan_sign s) as [neg s1] eqn:E0.
  destruct (scan_int_part s1) as [[ip r1]|] eqn:E1; [|discriminate].
  destruct (scan_frac r1) as [frac r2] eqn:E2.
  destruct (scan_exp r2) as [ex r3] eqn:E3.
  assert (Hr : r3 = r) by (destruct frac, ex; congruence). subst r3.
  pose proof (scan_exp_before _ _ _ E3 Hb) as B2.
  pose proof (scan_frac_before _ _ _ E2 B2) as B1.
  assert (B0 : exists c t, s1 = c :: t).
  { destruct s1 as [|c t]; [discriminate | eauto]. }
  destruct B0 as (c0 & t0 & ->).
  rewrite (scan_sign_ext s x _ _ _ E0).
  rewrite (scan_int_part_ext _ x _ _ E1 B1).
  rewrite (scan_frac_ext _ x _ _ E2 B2), (scan_exp_ext _ x _ _ E3 Hb).
  destruct frac, ex; injection H as <-; reflexivity.
Qed.

Lemma startswith_ext (s p x : str) :
  startswith s p = true -> startswith (s ++ x) p = true.
Proof.
  revert s. induction p as [|c p IH]; intros s; [reflexivity|].
  destruct s as [|h s]; [discriminate|]. cbn [startswith app].
  intros H. apply andb_true_iff in H as [H1 H2]. now rewrite H1, IH.
Qed.

Lemma scan_atom_atom (s : str) (v : pyval) (r : str) :
  scan_atom s = Some (v, r) -> atom v = true.
Proof.
  unfold scan_atom.
  destruct (startswith s NULL); [now intros [= <- _]|].
  destruct (startswith s TRUE); [now intros [= <- _]|].
  destruct (startswith s FALSE); [now intros [= <- _]|].
  destruct (match_number s) as [[v' r']|] eqn:E.
  - intros [= <- _].
    now destruct (match_number_kind s v' r' E) as [[z ->] | [l ->]].
  - destruct (startswith s NAN); [now intros [= <- _]|].
    destruct (startswith s INFINITY); [now intros [= <- _]|].
    destruct (startswith s NEG_INFINITY); [now intros [= <- _]|].
    discriminate.
Qed.

Lemma match_number_no_digit (c : char) (s : str) :
  is_digit c = false -> c <> 45 -> match_number (c :: s) = None.
Proof.
  intros Hd Hc. unfold match_number. cbn [scan_sign].
  apply N.eqb_neq in Hc. rewrite Hc. cbn [scan_int_part]. now rewrite Hd.
Qed.

Lemma startswith_head (c p0 : char) (s p : str) :
  startswith (c :: s) (p0 :: p) = true -> c = p0.
Proof.
  cbn [startswith]. intros H. apply andb_true_iff in H as [H _].
  apply N.eqb_eq in H. now subst.
Qed.

Lemma startswith_clash (s x : str) (p0 q0 : char) (p q : str) :
  startswith s (p0 :: p) = true -> p0 <> q0 ->
  startswith (s ++ x) (q0 :: q) = false.
Proof.
  destruct s as [|c s]; [discriminate|]. intros H Hne.
  apply startswith_head in H. subst c. cbn [app].
  apply startswith_head_neq. congruence.
Qed.

Lemma match_number_clash (s x : str) (p0 : char) (p : str) :
  startswith s (p0 :: p) = true -> is_digit p0 = false -> p0 <> 45 ->
  match_number (s ++ x) = None.
Proof.
  destruct s as [|c s]; [discriminate|]. intros H Hd Hne.
  apply startswith_head in H. subst c. cbn [app].
  now apply match_number_no_digit.
Qed.

Lemma match_number_neg_infinity (s x : str) :
  startswith s NEG_INFINITY = true -> match_number (s ++ x) = None.
Proof.
  destruct s as [|c [|c' s]]; [discriminate| |].
  { cbn. intros H. apply andb_true_iff in H as [_ H]. discriminate. }
  intros H.
  pose proof (startswith_head c 45 (c' :: s)
                [73; 110; 102; 105; 110; 105; 116; 121] H) as Ea.
  subst c.
  assert (Eb : c' = 73).
  { apply (startswith_head c' 73 s [110; 102; 105; 110; 105; 116; 121]).
    cbn [startswith NEG_INFINITY] in H. unfold NEG_INFINITY in H.
    cbn [startswith] in H. apply andb_true_iff in H as [_ H]. exact H. }
  subst c'. reflexivity.
Qed.

Lemma scan_atom_ext (s x : str) (v : pyval) (r : str) :
  scan_atom s = Some (v, r) -> bounded r ->
  scan_atom (s ++ x) = Some (v, r ++ x).
Proof.
  intros H Hb. unfold scan_atom in *.
  destruct (startswith s NULL) eqn:E1.
  { rewrite (startswith_ext _ _ x E1). injection H as <- <-.
    now rewrite skipn_app_le by exact (startswith_length _ _ E1). }
  destruct (startswith s TRUE) eqn:E2.
  { assert (G1 : startswith (s ++ x) NULL = false)
      by exact (startswith_clash s x 116 110 [114; 117; 101] [117; 108; 108] E2
                  ltac:(discriminate)).
    rewrite G1, (startswith_ext _ _ x E2). injection H as <- <-.
    now rewrite skipn_app_le by exact (startswith_length _ _ E2). }
  destruct (startswith s FALSE) eqn:E3.
  { assert (G1 : startswith (s ++ x) NULL = false)
      by exact (startswith_clash s x 102 110 [97; 108; 115; 101] [117; 108; 108] E3
                  ltac:(discriminate)).
    assert (G2 : startswith (s ++ x) TRUE = false)
      by exact (startswith_clash s x 102 116 [97; 108; 115; 101] [114; 117; 101] E3
                  ltac:(discriminate)).
    rewrite G1, G2, (startswith_ext _ _ x E3). injection H as <- <-.
    now rewrite skipn_app_le by exact (startswith_length _ _ E3). }
  destruct (match_number s) as [[v' r']|] eqn:E.
  { injection H as <- <-.
    destruct (match_number_head s v' r' E) as (c & t & -> & Hc).
    assert (Hcs : c <> 110 /\ c <> 116 /\ c <> 102).
    { destruct Hc as [Hc | ->]; [|repeat split; lia].
      unfold is_digit in Hc. apply andb_true_iff in Hc as [H1 H2].
      apply N.leb_le in H1, H2. repeat split; lia. }
    destruct Hcs as (H1 & H2 & H3).
    rewrite (match_number_ext _ x _ _ E Hb).
    cbn [app]. unfold NULL, TRUE, FALSE.
    now rewrite !startswith_head_neq by congruence. }
  assert (Hother : forall p0 p,
            startswith s (p0 :: p) = true -> p0 <> 110 -> p0 <> 116 -> p0 <> 102 ->
            startswith (s ++ x) NULL = false /\ startswith (s ++ x) TRUE = false
            /\ startswith (s ++ x) FALSE = false).
  { intros p0 p Hp H1 H2 H3. repeat split.
    - exact (startswith_clash s x p0 110 p [117; 108; 108] Hp H1).
    - exact (startswith_clash s x p0 116 p [114; 117; 101] Hp H2).
    - exact (startswith_clash s x p0 102 p [97; 108; 115; 101] Hp H3). }
  destruct (startswith s NAN) eqn:E4.
  { destruct (Hother 78 [97; 78] E4) as (G1 & G2 & G3); try discriminate.
    assert (G4 : match_number (s ++ x) = None)
      by exact (match_number_clash s x 78 [97; 78] E4 eq_refl ltac:(discriminate)).
    rewrite G1, G2, G3, G4, (startswith_ext _ _ x E4). injection H as <- <-.
    now rewrite skipn_app_le by exact (startswith_length _ _ E4). }
  destruct (startswith s INFINITY) eqn:E5.
  { destruct (Hother 73 [110; 102; 105; 110; 105; 116; 121] E5) as (G1 & G2 & G3);
      try discriminate.
    assert (G4 : match_number (s ++ x) = None)
      by exact (match_number_clash s x 73 [110; 102; 105; 110; 105; 116; 121] E5
                  eq_refl ltac:(discriminate)).
    assert (G5 : startswith (s ++ x) NAN = false)
      by exact (startswith_clash s x 73 78 [110; 102; 105; 110; 105; 116; 121]
                  [97; 78] E5 ltac:(discriminate)).
    rewrite G1, G2, G3, G4, G5, (startswith_ext _ _ x E5). injection H as <- <-.
    now rewrite skipn_app_le by exact (startswith_length _ _ E5). }
  destruct (startswith s NEG_INFINITY) eqn:E6; [|discriminate].
  destruct (Hother 45 [73; 110; 102; 105; 110; 105; 116; 121] E6) as (G1 & G2 & G3);
    try discriminate.
  assert (G5 : startswith (s ++ x) NAN = false)
    by exact (startswith_clash s x 45 78 [73; 110; 102; 105; 110; 105; 116; 121]
                [97; 78] E6 ltac:(discriminate)).
  assert (G6 : startswith (s ++ x) INFINITY = false)
    by exact (startswith_clash s x 45 73 [73; 110; 102; 105; 110; 105; 116; 121]
                [110; 102; 105; 110; 105; 116; 121] E6 ltac:(discriminate)).
  rewrite G1, G2, G3, (match_number_neg_infinity s x E6), G5, G6,
    (startswith_ext _ _ x E6).
  injection H as <- <-.
  now rewrite skipn_app_le by exact (startswith_length _ _ E6).
Qed.

Lemma scanstring_ext (s y x r : str) :
  scanstring s = Some (x, r) -> scanstring (s ++ y) = Some (x, r ++ y).
Proof.
  assert (G : forall n s, (length s <= n)%nat -> forall x r,
             scanstring s = Some (x, r) -> scanstring (s ++ y) = Some (x, r ++ y));
    [|now apply (G (length s))].
  clear s x r. intros n.
  induction n as [|n IH]; intros s Hle x r H.
  - destruct s; [discriminate | simpl in Hle; lia].
  - assert (IH' : forall s' c x r, (length s' <= n)%nat ->
              cons_char c (scanstring s') = Some (x, r) ->
              cons_char c (scanstring (s' ++ y)) = Some (x, r ++ y)).
    { intros s' c x' r' Hs' Hc. destruct (scanstring s') as [[x'' r'']|] eqn:E;
        [|discriminate].
      cbn in Hc. injection Hc as <- <-. now rewrite (IH s' Hs' _ _ E). }
    destruct s as [|c s]; [discriminate|]. simpl in Hle.
    cbn [app]. cbn [scanstring] in H |- *.
    destruct (c =? 34). { now injection H as <- <-. }
    destruct (c =? 92).
    + destruct s as [|e r1]; [discriminate|]. cbn [app].
      destruct (e =? 117).
      * destruct r1 as [|h1 [|h2 [|h3 [|h4 r2]]]]; try discriminate.
        simpl in Hle. cbn [app].
        destruct (hex4 h1 h2 h3 h4) as [uni|]; [|discriminate].
        destruct (is_high_surrogate uni).
        -- destruct r2 as [|b [|u r3]].
           ++ discriminate.
           ++ cbn [app].
              assert (Hb : b = 34).
              { cbn [scanstring cons_char] in H.
                destruct (N.eqb_spec b 34) as [->|_]; [reflexivity|].
                destruct (b =? 92); [discriminate|].
                destruct (b <? 32); discriminate. }
              subst b.
              assert (E : cons_char uni (scanstring (34 :: y)) = Some (x, r ++ y)).
              { apply (IH' [34]); [simpl; lia | exact H]. }
              destruct y as [|u' y']; [exact E|]. exact E.
           ++ cbn [app]. destruct ((b =? 92) && (u =? 117)).
              ** destruct r3 as [|g1 [|g2 [|g3 [|g4 r4]]]]; try discriminate.
                 simpl in Hle. cbn [app].
                 destruct (hex4 g1 g2 g3 g4) as [uni2|]; [|discriminate].
                 destruct (is_low_surrogate uni2).
                 --- apply IH'; [simpl in *; lia | exact H].
                 --- apply (IH' (b :: u :: g1 :: g2 :: g3 :: g4 :: r4));
                       [simpl in *; lia | exact H].
              ** apply (IH' (b :: u :: r3)); [simpl in *; lia | exact H].
        -- apply IH'; [simpl in *; lia | exact H].
      * destruct (backslash e); [|discriminate].
        apply IH'; [simpl in *; lia | exact H].
    + destruct (c <? 32); [discriminate|].
      apply IH'; [simpl in *; lia | exact H].
Qed.

Lemma scan_ext (f : nat) :
  (forall s v r x, scan_once f s = Some (v, r) -> (atom v = true -> bounded r) ->
                   scan_once f (s ++ x) = Some (v, r ++ x))
  /\ (forall s vs r x, JSONArray f s = Some (vs, r) ->
                       JSONArray f (s ++ x) = Some (vs, r ++ x))
  /\ (forall s ps r x, JSONObject f s = Some (ps, r) ->
                       JSONObject f (s ++ x) = Some (ps, r ++ x)).
Proof.
  induction f as [|f (IHs & IHa & IHo)]; [repeat split; discriminate|].
  assert (Hnil_a : forall s vs r, JSONArray f s = Some (vs, r) -> s <> []).
  { intros s vs r H ->. destruct f as [|[|f']]; discriminate. }
  assert (Hnil_o : forall s ps r, JSONObject f s = Some (ps, r) -> s <> []).
  { intros s ps r H ->. destruct f; discriminate. }
  repeat split.
  - intros s v r x H Hb. destruct s as [|c s]; [discriminate|].
    cbn [app]. cbn [scan_once] in H |- *.
    destruct (c =? 34).
    { destruct (scanstring s) as [[k r']|] eqn:E; [|discriminate].
      injection H as <- <-. now rewrite (scanstring_ext s x _ _ E). }
    destruct (c =? 123).
    { destruct (skip_ws s) as [|c1 r1] eqn:Ew; [discriminate|].
      rewrite (skip_ws_ext s x _ _ Ew).
      destruct (c1 =? 125); [now injection H as <- <-|].
      destruct (JSONObject f (c1 :: r1)) as [[ps r2]|] eqn:E; [|discriminate].
      injection H as <- <-.
      change (c1 :: r1 ++ x) with ((c1 :: r1) ++ x). now rewrite (IHo _ _ _ x E). }
    destruct (c =? 91).
    { destruct (skip_ws s) as [|c1 r1] eqn:Ew; [discriminate|].
      rewrite (skip_ws_ext s x _ _ Ew).
      destruct (c1 =? 93); [now injection H as <- <-|].
      destruct (JSONArray f (c1 :: r1)) as [[vs r2]|] eqn:E; [|discriminate].
      injection H as <- <-.
      change (c1 :: r1 ++ x) with ((c1 :: r1) ++ x). now rewrite (IHa _ _ _ x E). }
    change (c :: s ++ x) with ((c :: s) ++ x).
    apply scan_atom_ext; [exact H|]. apply Hb. now apply scan_atom_atom in H.
  - intros s vs r x H. cbn [JSONArray] in H |- *.
    destruct (scan_once f s) as [[v r0]|] eqn:E; [|discriminate].
    destruct (skip_ws r0) as [|c r1] eqn:Ew; [discriminate|].
    assert (Hc : c = 93 \/ c = 44).
    { destruct (N.eqb_spec c 93); [now left|].
      destruct (N.eqb_spec c 44); [now right | discriminate]. }
    rewrite (IHs s v r0 x E)
      by (intros _; apply (skip_ws_bounded _ _ _ Ew); tauto).
    rewrite (skip_ws_ext r0 x _ _ Ew).
    destruct (c =? 93); [now injection H as <- <-|].
    destruct (c =? 44); [|discriminate].
    destruct (JSONArray f (skip_ws r1)) as [[vs' r2]|] eqn:E2; [|discriminate].
    injection H as <- <-.
    destruct (skip_ws r1) as [|c' t'] eqn:Ew1; [now apply Hnil_a in E2|].
    rewrite (skip_ws_ext r1 x _ _ Ew1).
    change (c' :: t' ++ x) with ((c' :: t') ++ x). now rewrite (IHa _ _ _ x E2).
  - intros s ps r x H. destruct s as [|q s]; [discriminate|].
    cbn [app]. cbn [JSONObject] in H |- *.
    destruct (q =? 34); [|discriminate].
    destruct (scanstring s) as [[key r1]|] eqn:E; [|discriminate].
    rewrite (scanstring_ext s x _ _ E).
    destruct (skip_ws r1) as [|c r2] eqn:Ew1; [discriminate|].
    rewrite (skip_ws_ext r1 x _ _ Ew1).
    destruct (c =? 58); [|discriminate].
    destruct (scan_once f (skip_ws r2)) as [[v r3]|] eqn:E3; [|discriminate].
    destruct (skip_ws r2) as [|c2 t2] eqn:Ew2;
      [destruct f; discriminate|].
    rewrite (skip_ws_ext r2 x _ _ Ew2).
    destruct (skip_ws r3) as [|c' r4] eqn:Ew3; [discriminate|].
    assert (Hc : c' = 125 \/ c' = 44).
    { destruct (N.eqb_spec c' 125); [now left|].
      destruct (N.eqb_spec c' 44); [now right | discriminate]. }
    change (c2 :: t2 ++ x) with ((c2 :: t2) ++ x).
    rewrite (IHs _ v r3 x E3)
      by (intros _; apply (skip_ws_bounded _ _ _ Ew3); tauto).
    rewrite (skip_ws_ext r3 x _ _ Ew3).
    destruct (c' =? 125); [now injection H as <- <-|].
    destruct (c' =? 44); [|discriminate].
    destruct (JSONObject f (skip_ws r4)) as [[ps' r5]|] eqn:E5; [|discriminate].
    injection H as <- <-.
    destruct (skip_ws r4) as [|c4 t4] eqn:Ew4; [now apply Hnil_o in E5|].
    rewrite (skip_ws_ext r4 x _ _ Ew4).
    change (c4 :: t4 ++ x) with ((c4 :: t4) ++ x). now rewrite (IHo _ _ _ x E5).
Qed.

(** A list or a dict that is written only in part cannot be loaded: no
    beginning of its text that is not all of it is valid JSON. *)
Lemma cut_short_not_json (v : pyval) (text : str) :
  plain v = true -> atom v = false -> cut_short text (json_dumps v) ->
  json_loads text = None.
Proof.
  intros Hp Ha (rest & Hrest & Hd).
  destruct (json_loads text) as [v'|] eqn:E; [exfalso | reflexivity].
  destruct (scan_once_dumps v Hp 0%nat [] I) as [f0 Hf0].
  rewrite List.app_nil_r in Hf0. fold (json_dumps v) in Hf0.
  set (F := Nat.max f0 (2 * length (json_dumps v) + 1)).
  rewrite (json_loads_fuel text F) in E
    by (subst F; rewrite Hd, length_app; lia).
  destruct (dumps_head v 0 Hp) as (c & t & Hhead & Hopen).
  fold (json_dumps v) in Hhead.
  destruct text as [|c' text'].
  - destruct F; discriminate.
  - assert (c' = c) by (rewrite Hhead in Hd; now injection Hd). subst c'.
    rewrite skip_ws_head in E by apply Hopen.
    destruct (scan_once F (c :: text')) as [[v1 r]|] eqn:Es; [|discriminate].
    assert (Hclosed : atom v1 = false).
    { assert (Hc : c = 91 \/ c = 123).
      { destruct v as [| | | | |[|y ys]|[|kv kvs]]; try discriminate;
          cbn in Hhead; injection Hhead as <- _; tauto. }
      destruct F as [|F']; [discriminate|]. cbn [scan_once] in Es.
      destruct Hc as [-> | ->]; cbn in Es.
      - destruct (skip_ws text') as [|c1 r1]; [discriminate|].
        destruct (c1 =? 93); [now injection Es as <- _|].
        destruct (JSONArray F' (c1 :: r1)) as [[vs r2]|]; [|discriminate].
        now injection Es as <- _.
      - destruct (skip_ws text') as [|c1 r1]; [discriminate|].
        destruct (c1 =? 125); [now injection Es as <- _|].
        destruct (JSONObject F' (c1 :: r1)) as [[ps r2]|]; [|discriminate].
        now injection Es as <- _. }
    pose proof (proj1 (scan_ext F) _ _ _ rest Es) as Hext.
    rewrite <- Hd, Hf0 in Hext by (subst F; lia).
    specialize (Hext ltac:(congruence)).
    injection Hext as _ Hr. symmetry in Hr. apply app_eq_nil in Hr as [_ Hr].
    contradiction.
Qed.

(** ** Facts about the chunks [json.dump] writes *)

Lemma encodable_app (a b : str) :
  encodable (a ++ b) = encodable a && encodable b.
Proof. apply forallb_app. Qed.

Lemma encodable_repeat (c : char) (n : nat) :
  surrogate c = false -> encodable (repeat c n) = true.
Proof. intros H. induction n; [reflexivity|]. simpl. now rewrite H. Qed.

Lemma encodable_newline_indent (lvl : nat) : encodable (newline_indent lvl) = true.
Proof. unfold newline_indent. simpl. now apply encodable_repeat. Qed.

Lemma surrogate_low (c : char) : c < 55296 -> surrogate c = false.
Proof.
  intros H. unfold surrogate. apply andb_false_iff. left. apply N.leb_gt. exact H.
Qed.

Lemma hexdigit_low (n : N) : n < 32 -> hexdigit n < 55296.
Proof. unfold hexdigit. intros H. destruct (n <? 10); lia. Qed.

Lemma encodable_escape_char (c : char) :
  encodable (escape_char c) = negb (surrogate c).
Proof.
  unfold escape_char.
  repeat match goal with
         | |- context [?a =? ?b] =>
             destruct (N.eqb_spec a b) as [->|_]; [reflexivity|]
         end.
  destruct (N.ltb_spec c 32) as [Hc|_]; [|simpl; now rewrite andb_true_r].
  rewrite (surrogate_low c) by lia.
  assert (H1 : c / 16 < 32).
  { apply N.Div0.div_lt_upper_bound. lia. }
  assert (H2 : c mod 16 < 32).
  { pose proof (N.mod_upper_bound c 16). lia. }
  cbn [encodable forallb].
  rewrite (surrogate_low _ (hexdigit_low _ H1)), (surrogate_low _ (hexdigit_low _ H2)).
  reflexivity.
Qed.

Lemma encodable_encode_basestring (s : str) :
  encodable (encode_basestring s) = encodable s.
Proof.
  unfold encode_basestring.
  change (34 :: flat_map escape_char s ++ [34])
    with ([34] ++ flat_map escape_char s ++ [34]).
  rewrite !encodable_app. cbn [encodable forallb]. change (surrogate 34) with false.
  cbn [negb andb]. rewrite andb_true_r.
  induction s as [|c r IH]; [reflexivity|].
  cbn [flat_map]. rewrite encodable_app, encodable_escape_char, IH. reflexivity.
Qed.

Lemma encodable_uint_chars (d : Decimal.uint) : encodable (uint_chars d) = true.
Proof. induction d; simpl; auto. Qed.

Lemma encodable_int_repr (z : Z) : encodable (int_repr z) = true.
Proof.
  unfold int_repr. destruct (Z.to_int z); [|simpl]; apply encodable_uint_chars.
Qed.

(** The chunks, one after the other, are the text of the value. *)
Lemma concat_iterencode (v : pyval) :
  forall lvl, concat (iterencode lvl v) = dumps lvl v.
Proof.
  induction v as [|b|z|l|s|l IH|d IH] using pyval_ind; intros lvl;
    try (cbn [iterencode concat]; now rewrite List.app_nil_r).
  - destruct l as [|x xs]; [reflexivity|].
    inversion IH as [|? ? Hx Hxs]; subst.
    cbn [iterencode dumps]. rewrite !concat_app.
    assert (Hitem : forall buf y, (forall lvl, concat (iterencode lvl y) = dumps lvl y) ->
              concat (if atom y then [buf ++ dumps (S lvl) y]
                      else buf :: iterencode (S lvl) y)
              = buf ++ dumps (S lvl) y).
    { intros buf y Hy. destruct (atom y); cbn [concat].
      - now rewrite List.app_nil_r.
      - now rewrite Hy. }
    etransitivity.
    { apply (f_equal2 (@app char));
        [exact (Hitem (91 :: newline_indent (S lvl)) x Hx) | reflexivity]. }
    cbn [concat]. rewrite List.app_nil_r.
    cbn [app]. f_equal. rewrite <- !List.app_assoc. do 2 f_equal.
    f_equal.
    clear Hx IH. induction Hxs as [|y ys Hy _ IHys]; [reflexivity|].
    cbn [flat_map more_items]. rewrite concat_app, IHys.
    etransitivity.
    { apply (f_equal2 (@app char));
        [exact (Hitem (44 :: newline_indent (S lvl)) y Hy) | reflexivity]. }
    cbn [app]. now rewrite <- List.app_assoc.
  - destruct d as [|kv kvs]; [reflexivity|].
    inversion IH as [|? ? Hx Hxs]; subst.
    cbn [iterencode dumps]. rewrite !concat_app. cbn [concat app].
    rewrite List.app_nil_r, Hx. unfold dict_item at 1.
    f_equal. rewrite <- !List.app_assoc. do 4 f_equal.
    f_equal.
    clear Hx IH. induction Hxs as [|y ys Hy _ IHys]; [reflexivity|].
    cbn [flat_map more_items]. rewrite concat_app, IHys.
    cbn [concat app]. rewrite Hy. unfold dict_item at 2.
    cbn [app]. now rewrite <- !List.app_assoc.
Qed.

(** Every chunk can be encoded exactly when the value is clean. *)
Lemma encodable_iterencode (v : pyval) :
  forall lvl, forallb encodable (iterencode lvl v) = clean v.
Proof.
  induction v as [|b|z|l|s|l IH|d IH] using pyval_ind; intros lvl;
    try (cbn [iterencode forallb dumps clean]; rewrite andb_true_r).
  - reflexivity.
  - now destruct b.
  - apply encodable_int_repr.
  - reflexivity.
  - apply encodable_encode_basestring.
  - destruct l as [|x xs]; [reflexivity|].
    inversion IH as [|? ? Hx Hxs]; subst.
    assert (Hdumps : forall y lvl, atom y = true -> encodable (dumps lvl y) = clean y).
    { intros [] lvl' Hy; try discriminate; cbn [dumps clean]; try reflexivity.
      - now destruct b.
      - apply encodable_int_repr.
      - apply encodable_encode_basestring. }
    assert (Hitem : forall c y, surrogate c = false ->
              (forall lvl, forallb encodable (iterencode lvl y) = clean y) ->
              forallb encodable
                (if atom y then [c :: newline_indent (S lvl) ++ dumps (S lvl) y]
                 else (c :: newline_indent (S lvl)) :: iterencode (S lvl) y)
              = clean y).
    { intros c y Hc Hy. destruct (atom y) eqn:Ha; cbn [forallb].
      - rewrite andb_true_r.
        change (c :: newline_indent (S lvl) ++ dumps (S lvl) y)
          with ((c :: newline_indent (S lvl)) ++ dumps (S lvl) y).
        rewrite encodable_app. cbn [encodable forallb]. rewrite Hc.
        change (forallb (fun c0 => negb (surrogate c0)) (newline_indent (S lvl)))
          with (encodable (newline_indent (S lvl))).
        rewrite encodable_newline_indent. cbn [negb andb]. now apply Hdumps.
      - cbn [encodable forallb]. rewrite Hc.
        change (forallb (fun c0 => negb (surrogate c0)) (newline_indent (S lvl)))
          with (encodable (newline_indent (S lvl))).
        rewrite encodable_newline_indent. cbn [negb andb]. apply Hy. }
    cbn [iterencode clean forallb]. rewrite !forallb_app.
    apply (f_equal2 andb); [exact (Hitem 91 x eq_refl Hx)|].
    cbn [forallb]. rewrite encodable_newline_indent. cbn [encodable forallb].
    change (surrogate 93) with false. cbn [negb andb]. rewrite andb_true_r.
    clear Hx IH. induction Hxs as [|y ys Hy _ IHys]; [reflexivity|].
    cbn [flat_map forallb]. rewrite forallb_app, IHys.
    apply (f_equal2 andb); [exact (Hitem 44 y eq_refl Hy) | reflexivity].
  - destruct d as [|kv kvs]; [reflexivity|].
    inversion IH as [|? ? Hx Hxs]; subst.
    cbn [iterencode clean forallb]. rewrite !forallb_app.
    cbn [forallb app]. rewrite encodable_newline_indent, encodable_encode_basestring.
    rewrite Hx, encodable_newline_indent.
    change (encodable [123]) with true. change (encodable [125]) with true.
    change (encodable [58; 32]) with true. cbn [andb].
    rewrite !andb_true_r. rewrite <- andb_assoc. do 2 f_equal.
    clear Hx IH. induction Hxs as [|y ys Hy _ IHys]; [reflexivity|].
    cbn [flat_map]. rewrite forallb_app, IHys. cbn [app forallb].
    rewrite Hy, encodable_encode_basestring.
    change (encodable [58; 32]) with true.
    change (encodable (44 :: newline_indent (S lvl)))
      with (negb (surrogate 44) && encodable (newline_indent (S lvl))).
    rewrite encodable_newline_indent. change (surrogate 44) with false.
    cbn [negb andb]. reflexivity.
Qed.

Lemma write_all (chunks : list str) :
  forallb encodable chunks = true -> write chunks = (concat chunks, true).
Proof.
  induction chunks as [|c r IH]; [reflexivity|]. cbn [forallb write concat].
  intros H. apply andb_true_iff in H as [Hc Hr]. now rewrite Hc, (IH Hr).
Qed.

(** A chunk that cannot be encoded stops the write before the end of the
    text. *)
Lemma write_stops (chunks : list str) :
  forallb encodable chunks = false ->
  exists text, write chunks = (text, false) /\ cut_short text (concat chunks)
               /\ encodable text = true.
Proof.
  induction chunks as [|c r IH]; [discriminate|]. cbn [forallb write concat].
  destruct (encodable c) eqn:Hc.
  - intros Hr. destruct (IH Hr) as (text & -> & (rest & Hne & E) & Ht).
    exists (c ++ text). split; [reflexivity|]. split.
    + exists rest. split; [exact Hne|]. now rewrite E, List.app_assoc.
    + now rewrite encodable_app, Hc, Ht.
  - intros _. exists []. split; [reflexivity|]. split; [|reflexivity].
    exists (c ++ concat r). split; [|reflexivity].
    destruct c; [discriminate Hc | discriminate].
Qed.

(** ** Facts about clean values *)

Lemma clean_dict_set (d : items) (k : str) (v : pyval) :
  clean (PDict d) = true -> encodable k = true -> clean v = true ->
  clean (PDict (dict_set d k v)) = true.
Proof.
  cbn [clean]. intros Hd Hk Hv. induction d as [|[k' v'] d IH]; cbn [dict_set forallb fst snd].
  - now rewrite Hk, Hv.
  - cbn [forallb fst snd] in Hd. apply andb_true_iff in Hd as [H1 H2].
    apply andb_true_iff in H1 as [Hk' Hv'].
    destruct (str_eqb k' k); cbn [forallb fst snd].
    + now rewrite Hk', Hv, H2.
    + now rewrite Hk', Hv', IH.
Qed.

Lemma clean_dict_del (d : items) (k : str) :
  clean (PDict d) = true -> clean (PDict (dict_del d k)) = true.
Proof. cbn [clean]. apply forallb_dict_del. Qed.

Lemma clean_dict_get (d : items) (k : str) (v : pyval) :
  clean (PDict d) = true -> dict_get d k = Some v -> clean v = true.
Proof.
  cbn [clean]. induction d as [|[k' v'] d IH]; [discriminate|].
  cbn [forallb dict_get fst snd]. intros H Hg.
  apply andb_true_iff in H as [H1 H2]. apply andb_true_iff in H1 as [_ Hv'].
  destruct (str_eqb k' k); [now injection Hg as <- | now apply IH].
Qed.

Lemma encodable_incl (s s' : str) :
  (forall c, In c s' -> In c s) -> encodable s = true -> encodable s' = true.
Proof.
  unfold encodable. rewrite !forallb_forall. intros Hin H c Hc. apply H. now apply Hin.
Qed.

(** ** Facts about the world *)

(** A clean value is written whole. *)
Lemma save_clean (v : pyval) (w : world) :
  clean v = true -> save_dictionary v w = (Val tt, written v w).
Proof.
  intros H. unfold save_dictionary, written, json_dumps.
  rewrite write_all by now rewrite encodable_iterencode.
  now rewrite concat_iterencode.
Qed.

(** A value that is not clean is written up to the chunk that holds the
    first surrogate, and the write raises. *)
Lemma save_unclean (v : pyval) (w : world) :
  clean v = false ->
  exists text,
    save_dictionary v w
    = (Exn UnicodeEncodeError,
       {| file := Some text; user := user w; sent := sent w |})
    /\ cut_short text (json_dumps v).
Proof.
  intros H. unfold save_dictionary, json_dumps.
  destruct (write_stops (iterencode 0 v)) as (text & E & Hcut & _).
  { now rewrite encodable_iterencode. }
  rewrite E. exists text. split; [reflexivity|]. now rewrite <- concat_iterencode.
Qed.

(** A file that holds a beginning of the text of a list or a dict, and
    not all of it, does not load: [json.load] raises. *)
Lemma load_cut_short (v : pyval) (text : str) (w : world) :
  plain v = true -> atom v = false -> cut_short text (json_dumps v) ->
  file w = Some text -> load_dictionary w = (Exn JSONDecodeError, w).
Proof.
  intros Hp Ha Hcut Hf. unfold load_dictionary. rewrite Hf.
  now rewrite (cut_short_not_json v text Hp Ha Hcut).
Qed.

Lemma bind_val {A B} (m : M A) (k : A -> M B) (w w' : world) (a : A) :
  m w = (Val a, w') -> bind m k w = k a w'.
Proof. intros H. unfold bind. now rewrite H. Qed.

Lemma bind_exn {A B} (m : M A) (k : A -> M B) (w w' : world) (e : exn) :
  m w = (Exn e, w') -> bind m k w = (Exn e, w').
Proof. intros H. unfold bind. now rewrite H. Qed.

Lemma bind_eval {A B} (a : A) (k : A -> M B) (w : world) :
  bind (eval (Val a)) k w = k a w.
Proof. reflexivity. Qed.

Lemma bind_reply {B} (r : reply) (k : unit -> M B) (w : world) :
  bind (reply_text r) k w = k tt (send r w).
Proof. reflexivity. Qed.

Lemma load_written (v : pyval) (w : world) :
  plain v = true -> load_dictionary (written v w) = (Val v, written v w).
Proof.
  intros Hp. unfold load_dictionary, written. simpl.
  now rewrite json_loads_dumps.
Qed.

Lemma load_send (r : reply) (w : world) :
  fst (load_dictionary (send r w)) = fst (load_dictionary w).
Proof.
  unfold load_dictionary, send. simpl.
  destruct (file w) as [text|]; [|reflexivity]. now destruct (json_loads text).
Qed.

Lemma load_file (w w' : world) :
  file w' = file w -> fst (load_dictionary w') = fst (load_dictionary w).
Proof.
  unfold load_dictionary. intros ->.
  destruct (file w) as [text|]; [|reflexivity]. now destruct (json_loads text).
Qed.

Lemma load_unchanged (w : world) : snd (load_dictionary w) = w.
Proof.
  unfold load_dictionary.
  destruct (file w) as [text|]; [|reflexivity]. now destruct (json_loads text).
Qed.

Lemma load_at (w w' : world) (v : pyval) :
  load_dictionary w = (Val v, w) -> file w' = file w ->
  load_dictionary w' = (Val v, w').
Proof.
  intros H E. pose proof (load_file w w' E) as H1. pose proof (load_unchanged w') as H2.
  rewrite H in H1. simpl in H1. destruct (load_dictionary w'). simpl in *. congruence.
Qed.

Lemma load_plain (F : float_round_trip) (w w' : world) (v : pyval) :
  load_dictionary w = (Val v, w') -> plain v = true.
Proof.
  unfold load_dictionary. destruct (file w) as [text|].
  - destruct (json_loads text) as [v'|] eqn:E; [|discriminate].
    intros [= <- _]. now apply (json_loads_plain F) in E.
  - now intros [= <- _].
Qed.

(** What was loaded can be saved and loaded again. *)
Lemma save_loaded (F : float_round_trip) (w : world) (v : pyval) :
  load_dictionary w = (Val v, w) ->
  load_dictionary (written v w) = (Val v, written v w).
Proof. intros H. apply load_written. now apply (load_plain F w w). Qed.

Lemma is_admin_In (ADMIN_IDS : list Z) (user_id : Z) :
  is_admin ADMIN_IDS user_id = true <-> In user_id ADMIN_IDS.
Proof.
  unfold is_admin. rewrite existsb_exists. split.
  - intros (x & Hx & E). apply Z.eqb_eq in E. now subst.
  - intros H. exists user_id. split; [assumption | apply Z.eqb_refl].
Qed.

(** ** Facts about [strip], [split] and the example lines *)

Lemma rstrip_lstrip (s : str) : rstrip (lstrip s) = lstrip (rstrip s).
Proof.
  induction s as [|c r IH]; [reflexivity|]. simpl.
  destruct (isspace c) eqn:Hc.
  - rewrite IH. destruct (rstrip r) as [|c' r']; [reflexivity|].
    simpl. now rewrite Hc.
  - simpl. destruct (rstrip r) as [|c' r']; simpl; now rewrite Hc.
Qed.

Lemma strip_rstrip_nil (s : str) : rstrip s = [] -> strip s = [].
Proof. intros H. unfold strip. now rewrite rstrip_lstrip, H. Qed.

Lemma strip_rstrip_eq (s s' : str) : rstrip s = rstrip s' -> strip s = strip s'.
Proof. intros H. unfold strip. now rewrite !rstrip_lstrip, H. Qed.

Lemma strip_space_cons (c : char) (s : str) :
  isspace c = true -> strip (c :: s) = strip s.
Proof. intros H. unfold strip. simpl. now rewrite H. Qed.

Lemma lstrip_idem (s : str) : lstrip (lstrip s) = lstrip s.
Proof.
  induction s as [|c r IH]; [reflexivity|]. simpl.
  destruct (isspace c) eqn:Hc; [exact IH|]. simpl. now rewrite Hc.
Qed.

Lemma rstrip_idem (s : str) : rstrip (rstrip s) = rstrip s.
Proof.
  induction s as [|c r IH]; [reflexivity|]. simpl.
  destruct (rstrip r) as [|c' r'] eqn:E.
  - destruct (isspace c) eqn:Hc; [reflexivity|]. simpl. now rewrite Hc.
  - simpl. simpl in IH. now rewrite IH.
Qed.

Lemma strip_idem (s : str) : strip (strip s) = strip s.
Proof.
  unfold strip. rewrite (rstrip_lstrip (rstrip (lstrip s))), rstrip_idem.
  now rewrite <- rstrip_lstrip, lstrip_idem.
Qed.

Lemma split_nonempty (sep : char) (s : str) : split sep s <> [].
Proof.
  destruct s as [|c r]; simpl; [discriminate|].
  destruct (c =? sep); [discriminate|]. destruct (split sep r); discriminate.
Qed.

Lemma split_cons (sep c : char) (r : str) :
  split sep (c :: r)
  = if c =? sep then [] :: split sep r
    else (c :: hd [] (split sep r)) :: tl (split sep r).
Proof.
  simpl. destruct (c =? sep); [reflexivity|].
  pose proof (split_nonempty sep r). now destruct (split sep r).
Qed.

Lemma lines_examples_cons (w w' : str) (ws ws' : list str) :
  strip w = strip w' -> lines_examples ws = lines_examples ws' ->
  lines_examples (w :: ws) = lines_examples (w' :: ws').
Proof.
  unfold lines_examples. cbn [filter]. intros E H. rewrite E.
  destruct (nonempty (strip w')); cbn [List.map]; rewrite ?E; now rewrite H.
Qed.

Lemma lines_examples_blank (w : str) (ws : list str) :
  strip w = [] -> lines_examples (w :: ws) = lines_examples ws.
Proof. unfold lines_examples. cbn [filter]. now intros ->. Qed.

Lemma example_lines_lstrip (s : str) :
  example_lines (lstrip s) = example_lines s.
Proof.
  change (lines_examples (split NEWLINE (lstrip s)) = lines_examples (split NEWLINE s)).
  induction s as [|c r IH]; [reflexivity|].
  cbn [lstrip]. destruct (isspace c) eqn:Hc; [|reflexivity].
  rewrite IH, (split_cons NEWLINE c r).
  pose proof (split_nonempty NEWLINE r) as Hne.
  destruct (split NEWLINE r) as [|w ws]; [contradiction|]. cbn [hd tl].
  destruct (c =? NEWLINE).
  - symmetry. now apply lines_examples_blank.
  - apply lines_examples_cons; [|reflexivity]. symmetry. now apply strip_space_cons.
Qed.

Lemma isspace_newline : isspace NEWLINE = true.
Proof. reflexivity. Qed.

Lemma rstrip_cons (c : char) (s s' : str) :
  rstrip s = rstrip s' -> rstrip (c :: s) = rstrip (c :: s').
Proof. simpl. now intros ->. Qed.

Lemma split_rstrip (s : str) :
  rstrip (hd [] (split NEWLINE (rstrip s))) = rstrip (hd [] (split NEWLINE s))
  /\ lines_examples (tl (split NEWLINE (rstrip s)))
     = lines_examples (tl (split NEWLINE s)).
Proof.
  induction s as [|c r [IH1 IH2]]; [split; reflexivity|].
  rewrite (split_cons NEWLINE c r).
  pose proof (split_nonempty NEWLINE r) as Hne.
  pose proof (split_nonempty NEWLINE (rstrip r)) as Hne'.
  destruct (split NEWLINE r) as [|w2 ws2]; [contradiction|].
  cbn [hd tl] in *.
  cbn [rstrip]. destruct (rstrip r) as [|c' r'] eqn:Er.
  - (* everything after [c] is whitespace *)
    cbn in IH1, IH2. symmetry in IH1.
    destruct (isspace c) eqn:Hc.
    + cbn [split hd tl].
      destruct (N.eqb_spec c NEWLINE) as [->|Hn]; cbn [hd tl].
      * split; [reflexivity|].
        transitivity (lines_examples ws2); [exact IH2|].
        symmetry. apply lines_examples_blank. now apply strip_rstrip_nil.
      * split; [|exact IH2]. cbn [rstrip]. now rewrite IH1, Hc.
    + assert (Hn : (c =? NEWLINE) = false).
      { destruct (N.eqb_spec c NEWLINE) as [->|]; [|reflexivity].
        now rewrite isspace_newline in Hc. }
      rewrite Hn. cbn [split]. rewrite Hn. cbn [hd tl].
      split; [|exact IH2]. cbn [rstrip]. now rewrite IH1, Hc.
  - rewrite (split_cons NEWLINE c (c' :: r')).
    destruct (split NEWLINE (c' :: r')) as [|w1 ws1]; [contradiction|].
    cbn [hd tl] in *.
    destruct (c =? NEWLINE); cbn [hd tl].
    + split; [reflexivity|].
      apply lines_examples_cons; [now apply strip_rstrip_eq | exact IH2].
    + split; [now apply rstrip_cons | exact IH2].
Qed.

Lemma example_lines_rstrip (s : str) :
  example_lines (rstrip s) = example_lines s.
Proof.
  change (lines_examples (split NEWLINE (rstrip s)) = lines_examples (split NEWLINE s)).
  destruct (split_rstrip s) as [H1 H2].
  pose proof (split_nonempty NEWLINE s) as Hne.
  pose proof (split_nonempty NEWLINE (rstrip s)) as Hne'.
  destruct (split NEWLINE s) as [|w2 ws2]; [contradiction|].
  destruct (split NEWLINE (rstrip s)) as [|w1 ws1]; [contradiction|].
  apply lines_examples_cons; [now apply strip_rstrip_eq | exact H2].
Qed.

(** Stripping the whole message first, as [receive_examples] does, does
    not change the examples read from its lines. *)
Lemma example_lines_strip (s : str) : example_lines (strip s) = example_lines s.
Proof. unfold strip. now rewrite example_lines_rstrip, example_lines_lstrip. Qed.

Lemma example_lines_blank (s : str) :
  Forall (fun line => strip line = []) (split NEWLINE s) -> example_lines s = [].
Proof.
  unfold example_lines. induction 1 as [|w ws Hw _ IH]; [reflexivity|].
  simpl. now rewrite Hw.
Qed.

Lemma split_free (sep : char) (s : str) : ~ In sep s -> split sep s = [s].
Proof.
  induction s as [|c r IH]; [reflexivity|]. intros H.
  rewrite split_cons. destruct (N.eqb_spec c sep) as [->|_].
  - exfalso. apply H. now left.
  - rewrite IH; [reflexivity|]. intros Hin. apply H. now right.
Qed.

Lemma In_lstrip (c : char) (s : str) : In c (lstrip s) -> In c s.
Proof.
  induction s as [|x r IH]; [easy|]. simpl.
  destruct (isspace x); [|easy]. intros H. right. now apply IH.
Qed.

Lemma In_rstrip (c : char) (s : str) : In c (rstrip s) -> In c s.
Proof.
  induction s as [|x r IH]; [easy|]. cbn [rstrip].
  destruct (rstrip r) as [|y r'].
  - destruct (isspace x); [easy|]. intros [-> | []]. now left.
  - intros [-> | H]; [now left|]. right. now apply IH.
Qed.

Lemma In_strip (c : char) (s : str) : In c (strip s) -> In c s.
Proof. intros H. now apply In_lstrip, In_rstrip. Qed.

Lemma split_app_sep (sep : char) (w rest : str) :
  ~ In sep w -> split sep (w ++ sep :: rest) = w :: split sep rest.
Proof.
  induction w as [|c w IH]; intros H.
  - cbn [app]. rewrite split_cons. now rewrite N.eqb_refl.
  - cbn [app]. rewrite split_cons.
    destruct (N.eqb_spec c sep) as [->|_]; [exfalso; apply H; now left|].
    rewrite IH; [reflexivity|]. intros Hin. apply H. now right.
Qed.

Lemma join_cons (sep w w' : str) (ws : list str) :
  join sep (w :: w' :: ws) = w ++ sep ++ join sep (w' :: ws).
Proof. reflexivity. Qed.

Lemma split_join (sep : char) (ls : list str) :
  ls <> [] -> Forall (fun l => ~ In sep l) ls -> split sep (join [sep] ls) = ls.
Proof.
  intros Hne H. induction H as [|w ws Hw Hws IH]; [contradiction|].
  destruct ws as [|w' ws].
  - cbn [join]. now apply split_free.
  - rewrite join_cons. cbn [app]. rewrite split_app_sep by assumption.
    f_equal. apply IH. discriminate.
Qed.

Lemma split_no_sep (sep : char) (s : str) :
  Forall (fun l => ~ In sep l) (split sep s).
Proof.
  induction s as [|c r IH]; [constructor; [easy | constructor]|].
  rewrite split_cons. destruct (N.eqb_spec c sep) as [->|Hc].
  - constructor; [easy | assumption].
  - pose proof (split_nonempty sep r) as Hne.
    destruct (split sep r) as [|w ws]; [contradiction|].
    cbn [hd tl]. inversion IH as [|? ? Hw Hws]; subst.
    constructor; [|assumption].
    intros [E | Hin]; [now apply Hc | now apply Hw].
Qed.

Lemma nonempty_true (s : str) : nonempty s = true <-> s <> [].
Proof. destruct s; cbn; split; congruence. Qed.

(** The examples of a message, from its lines. *)
Lemma example_lines_join (lines : list str) :
  Forall (fun line => ~ In NEWLINE line) lines ->
  example_lines (join [NEWLINE] lines) = lines_examples lines.
Proof.
  intros H. unfold example_lines. fold (lines_examples (split NEWLINE (join [NEWLINE] lines))).
  destruct lines as [|l ls]; [reflexivity|].
  now rewrite split_join.
Qed.

Lemma encodable_strip (s : str) : encodable s = true -> encodable (strip s) = true.
Proof. apply encodable_incl. intros c. apply In_strip. Qed.

Lemma In_split (sep : char) (s l : str) (c : char) :
  In l (split sep s) -> In c l -> In c s.
Proof.
  revert l. induction s as [|x r IH]; intros l.
  - cbn. intros [<- | []] [].
  - rewrite split_cons. destruct (x =? sep).
    + intros [<- | Hl] Hc; [destruct Hc|]. right. now apply (IH l).
    + pose proof (split_nonempty sep r) as Hne.
      destruct (split sep r) as [|w ws]; [contradiction|]. cbn [hd tl].
      intros [<- | Hl] Hc.
      * destruct Hc as [-> | Hc]; [now left|].
        right. apply (IH w); [now left | assumption].
      * right. apply (IH l); [now right | assumption].
Qed.

Lemma encodable_example_lines (text : str) :
  encodable text = true -> forallb encodable (example_lines text) = true.
Proof.
  intros H. apply forallb_forall. intros ex Hin. unfold example_lines in Hin.
  apply in_map_iff in Hin as (l & <- & Hl). apply filter_In in Hl as [Hl _].
  apply encodable_strip. apply (encodable_incl text); [|exact H].
  intros c. now apply (In_split NEWLINE text l).
Qed.

Lemma In_replace_from (old : str) (skip : nat) (s : str) (c : char) :
  In c (replace_from old [] skip s) -> In c s.
Proof.
  revert skip. induction s as [|x r IH]; intros skip.
  - cbn. now destruct old.
  - cbn [replace_from]. destruct skip as [|k].
    + destruct (startswith (x :: r) old).
      * cbn [app]. destruct old.
        -- intros [-> | H]; [now left | right; now apply (IH 0%nat)].
        -- intros H. right. now apply (IH _ H).
      * intros [-> | H]; [now left | right; now apply (IH 0%nat)].
    + intros H. right. now apply (IH k).
Qed.

Lemma encodable_replace (s old : str) :
  encodable s = true -> encodable (replace s old []) = true.
Proof. apply encodable_incl. intros c. apply In_replace_from. Qed.

Lemma clean_committed (m : str) (examples : list str) :
  encodable m = true -> forallb encodable examples = true ->
  clean (committed m examples) = true.
Proof.
  intros Hm He. unfold committed, entry_value.
  cbn [clean forallb fst snd entry_meaning entry_examples].
  change (encodable MEANING_KEY) with true. change (encodable EXAMPLES_KEY) with true.
  rewrite Hm. cbn [andb]. rewrite andb_true_r.
  induction examples as [|ex exs IH]; [reflexivity|].
  cbn [forallb] in He. apply andb_true_iff in He as [H1 H2].
  cbn [List.map forallb clean]. now rewrite H1, IH.
Qed.

Lemma lower_latin1_clean : lower_clean lower_latin1.
Proof.
  intros s. unfold lower_latin1, encodable. rewrite !forallb_forall.
  intros H c Hc. apply in_map_iff in Hc as (x & <- & Hx). specialize (H x Hx).
  unfold lower_cp.
  destruct ((65 <=? x) && (x <=? 90) || (192 <=? x) && (x <=? 222) && negb (x =? 215))
    eqn:E; [|exact H].
  rewrite surrogate_low; [reflexivity|].
  apply orb_true_iff in E as [E | E].
  - apply andb_true_iff in E as [_ E]. apply N.leb_le in E. lia.
  - apply andb_true_iff in E as [E _]. apply andb_true_iff in E as [_ E].
    apply N.leb_le in E. lia.
Qed.

Lemma replace_absent (old : str) (s : str) :
  old <> [] -> contains s old = false -> replace_from old [] 0 s = s.
Proof.
  intros Hold. induction s as [|c r IH]; simpl.
  - now destruct old.
  - intros H. apply orb_false_iff in H as [H1 H2].
    change (match old with
            | [] => true
            | x :: p' => (x =? c) && startswith r p'
            end) with (startswith (c :: r) old) in *.
    rewrite H1. now rewrite IH.
Qed.

Lemma skip_replace (old new : str) (p s : str) :
  replace_from old new (length p) (p ++ s) = replace_from old new 0 s.
Proof.
  induction p as [|c p IH]; [reflexivity|]. simpl. exact IH.
Qed.

(** The callback data of the update button gives the word back when the
    word does not contain [update_]. *)
Lemma replace_update_prefix (word : str) :
  contains word UPDATE_ = false -> replace (UPDATE_ ++ word) UPDATE_ [] = word.
Proof.
  intros H. unfold replace.
  change (replace_from UPDATE_ [] 0 (UPDATE_ ++ word))
    with (replace_from UPDATE_ [] (length (tl UPDATE_)) (tl UPDATE_ ++ word)).
  rewrite skip_replace. apply replace_absent; [discriminate | exact H].
Qed.

Lemma forallb_map_snd (p : pyval -> bool) (d : items) :
  forallb (fun kv => p (snd kv)) d = forallb p (List.map snd d).
Proof.
  induction d as [|kv d IH]; [reflexivity|].
  cbn [List.map forallb]. now rewrite IH.
Qed.

Lemma plain_strs (l : list str) : forallb plain (List.map PStr l) = true.
Proof. induction l; simpl; auto. Qed.

Lemma plain_entry_value (e : entry) : plain (entry_value e) = true.
Proof.
  unfold entry_value.
  change (plain (PDict [(MEANING_KEY, PStr (entry_meaning e));
                        (EXAMPLES_KEY, PList (List.map PStr (entry_examples e)))]))
    with (unique [MEANING_KEY; EXAMPLES_KEY]
          && (true && (forallb plain (List.map PStr (entry_examples e)) && true))).
  now rewrite plain_strs.
Qed.

Lemma plain_mapping_value (m : mapping) :
  unique (List.map fst m) = true -> plain (mapping_value m) = true.
Proof.
  intros Hu. unfold mapping_value.
  change (unique (List.map fst (List.map (fun te => (fst te, entry_value (snd te))) m))
          && forallb (fun kv => plain (snd kv))
               (List.map (fun te => (fst te, entry_value (snd te))) m) = true).
  assert (Hk : List.map fst (List.map (fun te => (fst te, entry_value (snd te))) m)
               = List.map fst m).
  { clear Hu. induction m as [|[t e] m IH]; simpl; congruence. }
  rewrite Hk, Hu. clear Hk Hu.
  induction m as [|[t e] m IH]; [reflexivity|].
  cbn [List.map forallb fst snd andb]. rewrite plain_entry_value. exact IH.
Qed.

Lemma entry_view_value (e : entry) :
  entry_view (entry_value e)
  = Some (PStr (entry_meaning e), List.map PStr (entry_examples e)).
Proof. reflexivity. Qed.

Lemma py_len_iter (x : pyval) (l : list pyval) :
  py_iter x = Val l -> py_len x = Val (length l).
Proof.
  destruct x; simpl; try discriminate; intros [= <-];
    now rewrite ?List.length_map.
Qed.

Lemma sum_examples_readable (values : list pyval) :
  forallb readable values = true ->
  sum_examples values = Val (list_sum (List.map examples_count values)).
Proof.
  induction values as [|data values IH]; simpl; [reflexivity|].
  intros H. apply andb_true_iff in H as [Hd Hv].
  unfold readable, examples_count in *. unfold entry_view in *.
  destruct (py_getitem data EXAMPLES_KEY) as [exs|]; [|discriminate].
  destruct (py_iter exs) as [examples|] eqn:Hi; [|discriminate].
  destruct (py_getitem data MEANING_KEY); [|discriminate].
  rewrite (py_len_iter _ _ Hi), IH by assumption. reflexivity.
Qed.

(* ================================================================== *)
(** ** Properties of the store, the dialogue and the search *)

Section Properties.

(** [str.lower] and [ADMIN_IDS] are parameters, as in the handlers. *)
Variable lower : str -> str.
Variable ADMIN_IDS : list Z.


(** C7, as the code has it.  A mapping from terms to entries none of whose
    texts holds a surrogate is written whole, and loaded back it is as it
    was: [load_dictionary] returns the very [dict] that [save_dictionary]
    was given, with every term, its meaning and its examples in order.  A
    mapping that holds a surrogate in a term, a meaning or an example is
    not saved: [save_dictionary] raises [UnicodeEncodeError] and leaves in
    the file a beginning of the text that is not all of it, from which
    [load_dictionary] loads nothing: it raises [JSONDecodeError]. *)
Theorem save_then_load (m : mapping) (w : world) :
  unique (List.map fst m) = true ->
  let saved := save_dictionary (mapping_value m) w in
  (clean (mapping_value m) = true ->
   fst saved = Val tt
   /\ file (snd saved) = Some (json_dumps (mapping_value m))
   /\ load_dictionary (snd saved) = (Val (mapping_value m), snd saved)
   /\ forall term e, In (term, e) m ->
        py_getitem (mapping_value m) term = Val (entry_value e))
  /\ (clean (mapping_value m) = false ->
      fst saved = Exn UnicodeEncodeError
      /\ load_dictionary (snd saved) = (Exn JSONDecodeError, snd saved)
      /\ exists text,
           file (snd saved) = Some text
           /\ cut_short text (json_dumps (mapping_value m))).
Proof.
  intros Hu saved. subst saved. split; intros Hc.
  - rewrite (save_clean _ w Hc). cbn [fst snd].
    split; [reflexivity|]. split; [reflexivity|]. split.
    + apply (load_written (mapping_value m) w). now apply plain_mapping_value.
    + intros term e Hin. unfold mapping_value, py_getitem. clear Hc.
      induction m as [|[t0 e0] m IH]; [contradiction|].
      simpl in Hu. apply andb_true_iff in Hu as [H0 Hu]. simpl.
      destruct (str_eqb t0 term) eqn:E.
      * apply str_eqb_eq in E. subst. destruct Hin as [[= ->] | Hin]; [reflexivity|].
        apply negb_true_iff in H0.
        assert (Hex : existsb (str_eqb term) (List.map fst m) = true).
        { apply existsb_exists. exists term. split; [|apply str_eqb_refl].
          apply in_map_iff. now exists (term, e). }
        congruence.
      * destruct Hin as [[= -> ->] | Hin]; [now rewrite str_eqb_refl in E|].
        now apply IH.
  - destruct (save_unclean _ w Hc) as (text & -> & Hcut). cbn [fst snd file].
    split; [reflexivity|]. split; [|now exists text].
    apply (load_cut_short (mapping_value m) text); [|reflexivity|exact Hcut|reflexivity].
    now apply plain_mapping_value.
Qed.


(** The commit step, run in a world whose file loads as the dict [d], when
    the dict to write is clean. *)
Lemma receive_examples_run (text word m : str) (w : world) (d : items) :
  load_dictionary w = (Val (PDict d), w) ->
  new_word (user w) = Some word -> meaning (user w) = Some m ->
  clean (PDict (dict_set d word (committed m (example_lines text)))) = true ->
  receive_examples text w
  = (Val END,
     send (WordAdded word m (example_lines text))
       (cleared (written (PDict (dict_set d word (committed m (example_lines text)))) w))).
Proof.
  intros Hl Hn Hm Hc. unfold receive_examples. rewrite example_lines_strip.
  rewrite (bind_val _ _ w w word) by (unfold get_user_data; now rewrite Hn).
  rewrite (bind_val _ _ w w m) by (unfold get_user_data; now rewrite Hm).
  rewrite (bind_val _ _ _ _ _ Hl).
  cbn [py_setitem]. rewrite bind_eval.
  rewrite (bind_val _ _ _ _ _ (save_clean _ w Hc)).
  reflexivity.
Qed.

(** The commit step when the dict to write is not clean: the write stops
    short and raises; the user data stays and nothing is sent. *)
Lemma receive_examples_stops (text word m : str) (w : world) (d : items) :
  load_dictionary w = (Val (PDict d), w) ->
  new_word (user w) = Some word -> meaning (user w) = Some m ->
  clean (PDict (dict_set d word (committed m (example_lines text)))) = false ->
  exists cut,
    receive_examples text w
    = (Exn UnicodeEncodeError,
       {| file := Some cut; user := user w; sent := sent w |})
    /\ cut_short cut
         (json_dumps (PDict (dict_set d word (committed m (example_lines text))))).
Proof.
  intros Hl Hn Hm Hc. unfold receive_examples. rewrite example_lines_strip.
  rewrite (bind_val _ _ w w word) by (unfold get_user_data; now rewrite Hn).
  rewrite (bind_val _ _ w w m) by (unfold get_user_data; now rewrite Hm).
  rewrite (bind_val _ _ _ _ _ Hl).
  cbn [py_setitem]. rewrite bind_eval.
  destruct (save_unclean _ w Hc) as (cut & Hs & Hcut).
  exists cut. split; [|exact Hcut].
  now rewrite (bind_exn _ _ _ _ _ Hs).
Qed.

(** C3, as the code has it.  In the state [EXAMPLE], with a pending term
    and a pending meaning, a message made of the lines [lines] yields one
    example for every line that is not blank, in order, with the
    whitespace around it removed; lines that are all blank yield no
    example.  When no text of the dict to write holds a surrogate, the
    entry made of the pending meaning and these examples is stored under
    the pending term and the file is written; the user data is cleared,
    the conversation ends and the reply reports the word added.
    Otherwise the write raises [UnicodeEncodeError]: the file is left with
    a beginning of the text that is not all of it, which no longer loads
    ([load_dictionary] raises [JSONDecodeError]), the user data and the
    state [EXAMPLE] stay and no reply is sent. *)
Theorem receive_examples_commits (user_id : Z) (lines : list str) (word m : str)
  (b : bot) (d : items) :
  float_round_trip ->
  conversation b = Some EXAMPLE ->
  load_dictionary (state b) = (Val (PDict d), state b) ->
  new_word (user (state b)) = Some word ->
  meaning (user (state b)) = Some m ->
  Forall (fun line => ~ In NEWLINE line) lines ->
  let text := join [NEWLINE] lines in
  let examples := List.map strip (filter (fun line => nonempty (strip line)) lines) in
  let d' := dict_set d word (committed m examples) in
  exists b',
    add_word_handler lower ADMIN_IDS user_id (Text text) b = Some b'
    /\ (clean (PDict d') = true ->
        conversation b' = None
        /\ user (state b') = no_user_data
        /\ file (state b') = Some (json_dumps (PDict d'))
        /\ load_dictionary (state b') = (Val (PDict d'), state b')
        /\ sent (state b') = sent (state b) ++ [WordAdded word m examples])
    /\ (clean (PDict d') = false ->
        conversation b' = Some EXAMPLE
        /\ user (state b') = user (state b)
        /\ sent (state b') = sent (state b)
        /\ load_dictionary (state b') = (Exn JSONDecodeError, state b')
        /\ exists cut,
             file (state b') = Some cut /\ cut_short cut (json_dumps (PDict d')))
    /\ (Forall (fun line => strip line = []) lines -> examples = []).
Proof.
  intros F Hc Hl Hn Hm Hlines text examples d'.
  pose proof (load_plain F _ _ _ Hl) as Hp.
  assert (He : example_lines text = examples) by now apply example_lines_join.
  assert (Hblank : Forall (fun line => strip line = []) lines -> examples = []).
  { subst examples. clear. induction 1 as [|l ls Hl _ IH]; [reflexivity|].
    cbn [filter]. now rewrite Hl. }
  unfold add_word_handler. rewrite Hc. cbn [conversation_handler].
  destruct (clean (PDict d')) eqn:Hd.
  - rewrite (receive_examples_run text word m (state b) d Hl Hn Hm)
      by (rewrite He; exact Hd).
    rewrite He. fold d'.
    eexists. split; [reflexivity|]. cbn [conversation state next_state].
    split; [|split; [discriminate | exact Hblank]].
    intros _. repeat split.
    apply (load_at (written (PDict d') (state b))); [|reflexivity].
    apply load_written. apply plain_dict_set; [assumption|].
    apply plain_entry_value.
  - destruct (receive_examples_stops text word m (state b) d Hl Hn Hm)
      as (cut & Hr & Hcut); [rewrite He; exact Hd|].
    rewrite He in Hcut. fold d' in Hcut. rewrite Hr.
    eexists. split; [reflexivity|]. cbn [conversation state next_state].
    split; [discriminate|]. split; [|exact Hblank].
    intros _. split; [reflexivity|]. split; [reflexivity|]. split; [reflexivity|].
    split; [|now exists cut].
    apply (load_cut_short (PDict d') cut); [|reflexivity|exact Hcut|reflexivity].
    apply plain_dict_set; [assumption | apply plain_entry_value].
Qed.

(** [delete_word] on a word the dictionary holds, when what is left of the
    dictionary is clean. *)
Lemma delete_word_present (user_id : Z) (a : str) (args : list str)
  (w : world) (d : items) :
  In user_id ADMIN_IDS ->
  load_dictionary w = (Val (PDict d), w) ->
  let word := lower (join SPACE (a :: args)) in
  dict_mem d word = true ->
  clean (PDict (dict_del d word)) = true ->
  delete_word lower ADMIN_IDS user_id (a :: args) w
  = (Val tt, send (Deleted word) (written (PDict (dict_del d word)) w)).
Proof.
  intros Ha Hl word Hm Hc. apply is_admin_In in Ha.
  unfold delete_word. rewrite Ha. cbn [negb].
  rewrite (bind_val _ _ _ _ _ Hl).
  cbn [py_contains]. rewrite bind_eval. fold word. rewrite Hm.
  cbn [py_delitem]. rewrite Hm, bind_eval.
  rewrite (bind_val _ _ _ _ _ (save_clean _ w Hc)). reflexivity.
Qed.

(** [delete_word] on a word the dictionary holds, when what is left of the
    dictionary is not clean: the write stops short and raises, and no
    reply is sent. *)
Lemma delete_word_stops (user_id : Z) (a : str) (args : list str)
  (w : world) (d : items) :
  In user_id ADMIN_IDS ->
  load_dictionary w = (Val (PDict d), w) ->
  let word := lower (join SPACE (a :: args)) in
  dict_mem d word = true ->
  clean (PDict (dict_del d word)) = false ->
  exists cut,
    delete_word lower ADMIN_IDS user_id (a :: args) w
    = (Exn UnicodeEncodeError,
       {| file := Some cut; user := user w; sent := sent w |})
    /\ cut_short cut (json_dumps (PDict (dict_del d word))).
Proof.
  intros Ha Hl word Hm Hc. apply is_admin_In in Ha.
  unfold delete_word. rewrite Ha. cbn [negb].
  rewrite (bind_val _ _ _ _ _ Hl).
  cbn [py_contains]. rewrite bind_eval. fold word. rewrite Hm.
  cbn [py_delitem]. rewrite Hm, bind_eval.
  destruct (save_unclean _ w Hc) as (cut & Hs & Hcut).
  exists cut. split; [|exact Hcut].
  now rewrite (bind_exn _ _ _ _ _ Hs).
Qed.

(** [delete_word] on a word the dictionary does not hold. *)
Lemma delete_word_absent (user_id : Z) (a : str) (args : list str)
  (w : world) (d : items) :
  In user_id ADMIN_IDS ->
  load_dictionary w = (Val (PDict d), w) ->
  let word := lower (join SPACE (a :: args)) in
  dict_mem d word = false ->
  delete_word lower ADMIN_IDS user_id (a :: args) w
  = (Val tt, send (DeleteNotFound word) w).
Proof.
  intros Ha Hl word Hm. apply is_admin_In in Ha.
  unfold delete_word. rewrite Ha. cbn [negb].
  rewrite (bind_val _ _ _ _ _ Hl).
  cbn [py_contains]. rewrite bind_eval. fold word. rewrite Hm. reflexivity.
Qed.

(** What [delete_word] does with respect to the word it looks up, the
    lower-cased join of its arguments: a word that is present is removed,
    and when what is left is clean the file is written and the reply
    reports the deletion, after which the word is no longer in the
    dictionary loaded from the file; a word that is absent leaves the file
    as it is and the reply reports that it was not found. *)
Lemma delete_word_outcomes (F : float_round_trip) (user_id : Z) (a : str)
  (args : list str) (w : world) (d : items) :
  In user_id ADMIN_IDS ->
  load_dictionary w = (Val (PDict d), w) ->
  let word := lower (join SPACE (a :: args)) in
  let w' := snd (delete_word lower ADMIN_IDS user_id (a :: args) w) in
  (dict_mem d word = true -> clean (PDict (dict_del d word)) = true ->
   sent w' = sent w ++ [Deleted word]
   /\ file w' = Some (json_dumps (PDict (dict_del d word)))
   /\ load_dictionary w' = (Val (PDict (dict_del d word)), w')
   /\ py_contains (PDict (dict_del d word)) word = Val false)
  /\ (dict_mem d word = false ->
      sent w' = sent w ++ [DeleteNotFound word] /\ file w' = file w).
Proof.
  intros Ha Hl word w'. pose proof (load_plain F _ _ _ Hl) as Hp.
  split; [intros Hm Hc | intros Hm]; subst w'.
  - rewrite (delete_word_present user_id a args w d Ha Hl Hm Hc).
    cbn [snd]. repeat split.
    + apply (load_at (written (PDict (dict_del d word)) w)); [|reflexivity].
      apply load_written. now apply plain_dict_del.
    + cbn [py_contains]. unfold dict_mem.
      rewrite dict_get_del_same; [reflexivity|].
      simpl in Hp. now apply andb_true_iff in Hp as [Hu _].
  - rewrite (delete_word_absent user_id a args w d Ha Hl Hm). split; reflexivity.
Qed.

(** C10, as the code has it.  The commit step changes no entry but the
    one of the pending term, and [delete_word] changes no entry but the
    one of the word it looks up: for every other key the [dict] to write
    holds what the [dict] loaded before held.  When no text of the dict
    to write holds a surrogate, the file is written with it and the
    [dict] loaded back from the file is that same [dict]; otherwise the
    write raises and the file is left with a beginning of the text that
    is not all of it, from which nothing loads any more, the other
    entries included: [load_dictionary] raises [JSONDecodeError].  A
    [delete_word] of a word that is absent leaves the file as it is. *)
Theorem store_mutations_frame (w : world) (d : items) (k : str) :
  float_round_trip ->
  load_dictionary w = (Val (PDict d), w) ->
  (forall text word m,
     new_word (user w) = Some word -> meaning (user w) = Some m -> k <> word ->
     let d' := dict_set d word (committed m (example_lines text)) in
     let w' := snd (receive_examples text w) in
     dict_get d' k = dict_get d k
     /\ (clean (PDict d') = true ->
         file w' = Some (json_dumps (PDict d'))
         /\ load_dictionary w' = (Val (PDict d'), w'))
     /\ (clean (PDict d') = false ->
         load_dictionary w' = (Exn JSONDecodeError, w')
         /\ exists cut, file w' = Some cut /\ cut_short cut (json_dumps (PDict d'))))
  /\ (forall user_id a args,
        In user_id ADMIN_IDS ->
        let word := lower (join SPACE (a :: args)) in
        k <> word ->
        let d' := dict_del d word in
        let w' := snd (delete_word lower ADMIN_IDS user_id (a :: args) w) in
        dict_get d' k = dict_get d k
        /\ (dict_mem d word = true -> clean (PDict d') = true ->
            file w' = Some (json_dumps (PDict d'))
            /\ load_dictionary w' = (Val (PDict d'), w'))
        /\ (dict_mem d word = true -> clean (PDict d') = false ->
            load_dictionary w' = (Exn JSONDecodeError, w')
            /\ exists cut, file w' = Some cut /\ cut_short cut (json_dumps (PDict d')))
        /\ (dict_mem d word = false ->
            d' = d /\ file w' = file w /\ load_dictionary w' = (Val (PDict d), w'))).
Proof.
  intros F Hl. pose proof (load_plain F _ _ _ Hl) as Hp. split.
  - intros text word m Hn Hm Hk d' w'. subst w'.
    split; [now apply dict_get_set_other|]. split; intros Hc.
    + rewrite (receive_examples_run text word m w d Hl Hn Hm Hc). cbn [snd].
      split; [reflexivity|].
      apply (load_at (written (PDict d') w)); [|reflexivity].
      apply load_written. apply plain_dict_set; [assumption|].
      apply plain_entry_value.
    + destruct (receive_examples_stops text word m w d Hl Hn Hm Hc)
        as (cut & -> & Hcut).
      cbn [snd file]. split; [|now exists cut].
      apply (load_cut_short (PDict d') cut); [|reflexivity|exact Hcut|reflexivity].
      apply plain_dict_set; [assumption | apply plain_entry_value].
  - intros user_id a args Ha word Hk d' w'.
    split; [now apply dict_get_del_other|].
    destruct (delete_word_outcomes F user_id a args w d Ha Hl) as [Hpres Habs].
    fold word in Hpres, Habs. fold w' in Hpres, Habs.
    split; [|split].
    + intros Hm Hc. destruct (Hpres Hm Hc) as (_ & Hf & Hl' & _). now split.
    + intros Hm Hc.
      destruct (delete_word_stops user_id a args w d Ha Hl Hm Hc) as (cut & E & Hcut).
      subst w'. fold word in E. rewrite E. cbn [snd file]. split; [|now exists cut].
      apply (load_cut_short (PDict d') cut); [|reflexivity|exact Hcut|reflexivity].
      now apply plain_dict_del.
    + intros Hm. destruct (Habs Hm) as (_ & Hf).
      split; [|split; [exact Hf | now apply (load_at w)]].
      subst d'. unfold dict_mem in Hm. clear -Hm.
      induction d as [|[k' v'] d IH]; [reflexivity|].
      cbn [dict_get dict_del] in *. destruct (str_eqb k' word); [discriminate|].
      now rewrite IH.
Qed.

(** ** The term-collection step and the buttons *)

Lemma receive_word_new (text : str) (w : world) (d : items) :
  load_dictionary w = (Val (PDict d), w) ->
  let word := lower (strip text) in
  dict_mem d word = false ->
  receive_word lower text w
  = (Val (Goto MEANING), send (AskMeaning word) (with_new_word word w)).
Proof.
  intros Hl word Hm. unfold receive_word. fold word.
  rewrite (bind_val _ _ w (with_new_word word w) tt) by reflexivity.
  rewrite (bind_val _ _ _ _ _ (load_at w (with_new_word word w) _ Hl eq_refl)).
  cbn [py_contains]. rewrite bind_eval, Hm. reflexivity.
Qed.

Lemma receive_word_collision (text : str) (w : world) (d : items)
  (data current : pyval) :
  load_dictionary w = (Val (PDict d), w) ->
  let word := lower (strip text) in
  dict_get d word = Some data ->
  py_getitem data MEANING_KEY = Val current ->
  receive_word lower text w
  = (Val (Goto WORD),
     send (WordExists word current [UPDATE_ ++ word; CANCEL_ADD])
       (with_new_word word w)).
Proof.
  intros Hl word Hg Hc. unfold receive_word. fold word.
  rewrite (bind_val _ _ w (with_new_word word w) tt) by reflexivity.
  rewrite (bind_val _ _ _ _ _ (load_at w (with_new_word word w) _ Hl eq_refl)).
  cbn [py_contains]. unfold dict_mem. rewrite Hg, bind_eval. cbv iota.
  cbn [py_getitem]. rewrite Hg, bind_eval, Hc, bind_eval. reflexivity.
Qed.

Lemma startswith_app (p s : str) : startswith (p ++ s) p = true.
Proof. induction p as [|c p IH]; simpl; [reflexivity|]. now rewrite N.eqb_refl. Qed.

Lemma button_update (word : str) (w : world) :
  button_callback (UPDATE_ ++ word) w
  = (Val (Goto MEANING),
     send (Updating (replace (UPDATE_ ++ word) UPDATE_ []))
       (with_new_word (replace (UPDATE_ ++ word) UPDATE_ []) w)).
Proof. unfold button_callback. rewrite startswith_app. reflexivity. Qed.

Lemma button_cancel (w : world) :
  button_callback CANCEL_ADD w = (Val END, send Cancelled (cleared w)).
Proof. reflexivity. Qed.

Lemma receive_meaning_run (text : str) (w : world) :
  receive_meaning text w
  = (Val (Goto EXAMPLE), send AskExamples (with_meaning (strip text) w)).
Proof. reflexivity. Qed.

(** What holds of the collision step whatever the term: the prompt with
    its two buttons is sent and the state stays [WORD]; the cancel button
    ends the conversation, clears the user data and leaves the file as it
    is; the update button leads to [MEANING], and the pending term is the
    one that collided when it does not contain [update_]. *)
Lemma collision_choices (user_id : Z) (text : str) (b : bot) (d : items) :
  conversation b = Some WORD -> stored (state b) d ->
  let word := lower (strip text) in
  dict_mem d word = true ->
  exists current b1,
    add_word_handler lower ADMIN_IDS user_id (Text text) b = Some b1
    /\ conversation b1 = Some WORD
    /\ file (state b1) = file (state b)
    /\ sent (state b1)
       = sent (state b) ++ [WordExists word current [UPDATE_ ++ word; CANCEL_ADD]]
    /\ (exists b2,
          add_word_handler lower ADMIN_IDS user_id (Callback CANCEL_ADD) b1 = Some b2
          /\ conversation b2 = None
          /\ user (state b2) = no_user_data
          /\ file (state b2) = file (state b))
    /\ (exists b2,
          add_word_handler lower ADMIN_IDS user_id (Callback (UPDATE_ ++ word)) b1
          = Some b2
          /\ conversation b2 = Some MEANING
          /\ file (state b2) = file (state b)
          /\ (contains word UPDATE_ = false ->
              new_word (user (state b2)) = Some word)).
Proof.
  intros Hc [Hl Hs] word Hm.
  unfold dict_mem in Hm. destruct (dict_get d word) as [data|] eqn:Hg; [|discriminate].
  assert (Hr : readable data = true).
  { pose proof Hs as Hr. unfold is_store in Hr.
    clear -Hr Hg. induction d as [|[k v] d IH]; [discriminate|].
    simpl in Hg, Hr. apply andb_true_iff in Hr as [H1 H2].
    destruct (str_eqb k word); [now injection Hg as <- | now apply IH]. }
  unfold readable, entry_view in Hr.
  destruct (py_getitem data EXAMPLES_KEY) as [exs|]; [|discriminate].
  destruct (py_iter exs); [|discriminate].
  destruct (py_getitem data MEANING_KEY) as [current|] eqn:Hcur; [|discriminate].
  exists current. eexists. split.
  { unfold add_word_handler. rewrite Hc. cbn [conversation_handler].
    rewrite (receive_word_collision text (state b) d data current Hl Hg Hcur).
    reflexivity. }
  cbn [conversation state next_state].
  split; [reflexivity|]. split; [reflexivity|]. split; [reflexivity|]. split.
  - eexists. split; [reflexivity|]. repeat split.
  - eexists. split.
    { unfold add_word_handler. cbn [conversation conversation_handler state].
      rewrite button_update. reflexivity. }
    cbn [conversation state next_state]. repeat split.
    intros Hu. unfold send, with_new_word. cbn [state user new_word].
    now rewrite replace_update_prefix.
Qed.

(** ** Loading *)

Lemma load_corrupt (w : world) (text : str) :
  file w = Some text -> json_loads text = None ->
  load_dictionary w = (Exn JSONDecodeError, w).
Proof. intros Hf Hj. unfold load_dictionary. now rewrite Hf, Hj. Qed.

(** C9, as the code has it.  Without a file [load_dictionary] returns the
    empty [dict].  A file whose text is valid JSON is returned as parsed,
    whatever its shape.  A file whose text is not valid JSON makes
    [load_dictionary] raise [JSONDecodeError]; no handler catches it: term
    collection, commit, delete, stats and search end in that exception,
    send no reply and leave the file as it is. *)
Theorem load_dictionary_outcomes (w : world) :
  (file w = None -> load_dictionary w = (Val (PDict []), w))
  /\ (forall text v,
        file w = Some text -> json_loads text = Some v ->
        load_dictionary w = (Val v, w))
  /\ (forall text,
        file w = Some text -> json_loads text = None ->
        load_dictionary w = (Exn JSONDecodeError, w)
        /\ (forall t,
              receive_word lower t w
              = (Exn JSONDecodeError, with_new_word (lower (strip t)) w))
        /\ (forall t word m,
              new_word (user w) = Some word -> meaning (user w) = Some m ->
              receive_examples t w = (Exn JSONDecodeError, w))
        /\ (forall user_id a args,
              In user_id ADMIN_IDS ->
              delete_word lower ADMIN_IDS user_id (a :: args) w
              = (Exn JSONDecodeError, w))
        /\ (forall user_id,
              In user_id ADMIN_IDS ->
              stats ADMIN_IDS user_id w = (Exn JSONDecodeError, w))
        /\ (forall t, search_words lower t w = (Exn JSONDecodeError, w))).
Proof.
  split; [|split].
  - intros Hf. unfold load_dictionary. now rewrite Hf.
  - intros text v Hf Hj. unfold load_dictionary. now rewrite Hf, Hj.
  - intros text Hf Hj. pose proof (load_corrupt w text Hf Hj) as Hl.
    split; [exact Hl|]. repeat split.
    + intros t. unfold receive_word.
      rewrite (bind_val _ _ w (with_new_word (lower (strip t)) w) tt) by reflexivity.
      apply bind_exn. now apply (load_corrupt _ text).
    + intros t word m Hn Hm. unfold receive_examples.
      rewrite (bind_val _ _ w w word) by (unfold get_user_data; now rewrite Hn).
      rewrite (bind_val _ _ w w m) by (unfold get_user_data; now rewrite Hm).
      now apply bind_exn.
    + intros user_id a args Ha. apply is_admin_In in Ha.
      unfold delete_word. rewrite Ha. cbn [negb]. now apply bind_exn.
    + intros user_id Ha. apply is_admin_In in Ha.
      unfold stats. rewrite Ha. cbn [negb]. now apply bind_exn.
    + intros t. unfold search_words. now apply bind_exn.
Qed.

(** ** Searching *)

Lemma dict_get_readable (d : items) (word : str) (data : pyval) :
  forallb (fun kv => readable (snd kv)) d = true ->
  dict_get d word = Some data -> readable data = true.
Proof.
  induction d as [|[k v] d IH]; [discriminate|].
  cbn [forallb dict_get snd]. intros Hr Hg. apply andb_true_iff in Hr as [H1 H2].
  destruct (str_eqb k word); [now injection Hg as <- | now apply IH].
Qed.

Lemma search_loop_store (d : items) (words : list str) :
  forallb (fun kv => readable (snd kv)) d = true ->
  search_loop (PDict d) words = Val (matches d words, unmatched d words).
Proof.
  intros Hr. induction words as [|word words IH]; [reflexivity|].
  cbn [search_loop py_contains py_getitem matches unmatched flat_map filter].
  unfold dict_mem. destruct (dict_get d word) as [data|] eqn:Hg.
  - pose proof (dict_get_readable d word data Hr Hg) as Hd.
    unfold readable in Hd. destruct (entry_view data) as [[m examples]|] eqn:Hv;
      [|discriminate].
    unfold entry_view in Hv.
    destruct (py_getitem data EXAMPLES_KEY) as [exs|]; [|discriminate].
    destruct (py_iter exs) as [examples'|]; [|discriminate].
    destruct (py_getitem data MEANING_KEY) as [m'|]; [|discriminate].
    injection Hv as -> ->. rewrite IH. reflexivity.
  - rewrite IH. reflexivity.
Qed.

(** C2, as the code has it.  [search_words] strips the message, splits it
    on commas, and strips and lower-cases every piece; every piece is
    looked up, a piece that repeats as often as it repeats and an empty
    piece as the empty word; the entries found are returned in the order
    of the pieces and so are the pieces not found.  On an empty store the
    answer is that the dictionary is empty. *)
Theorem search_words_resolves (text : str) (w : world) (d : items) :
  stored w d ->
  exists w',
    search_words lower text w = (Val tt, w')
    /\ file w' = file w /\ user w' = user w
    /\ (d = [] -> sent w' = sent w ++ [DictionaryEmpty])
    /\ (d <> [] -> sent w' = sent w ++ search_replies d (tokens lower text)).
Proof.
  intros [Hl Hr]. unfold is_store in Hr.
  unfold search_words. rewrite (bind_val _ _ _ _ _ Hl). fold (tokens lower text).
  destruct d as [|kv d].
  - eexists. split; [reflexivity|]. repeat split. intros H. now contradiction H.
  - cbn [py_truthy negb]. rewrite (search_loop_store _ _ Hr), bind_eval.
    unfold search_replies.
    destruct (matches (kv :: d) (tokens lower text)) as [|r rs];
      destruct (unmatched (kv :: d) (tokens lower text)) as [|u us];
      (eexists; split; [reflexivity|]; repeat split; try discriminate;
       intros _; cbn; now rewrite <- ?List.app_assoc, ?List.app_nil_r).
Qed.

(** ** The add dialogue followed by a search *)

Lemma tokens_comma_free (text : str) :
  comma_free text -> tokens lower text = [lower (strip text)].
Proof.
  intros H. unfold tokens. rewrite split_free.
  - cbn [List.map]. now rewrite strip_idem.
  - intros Hin. apply H. now apply In_strip.
Qed.

(** The loop of [search_words] on the word a commit has just stored,
    whatever the word: the entry committed is found. *)
Lemma lookup_after_commit (word m : str) (examples : list str) (d : items) :
  search_loop (PDict (dict_set d word (committed m examples))) [word]
  = Val ([(word, PStr m, List.map PStr examples)], []).
Proof.
  cbn [search_loop py_contains py_getitem]. unfold dict_mem.
  rewrite dict_get_set_same. reflexivity.
Qed.

(** A search for one word, in a world whose file was written by a commit
    of that word. *)
Lemma search_after_commit (text word m : str) (examples : list str)
  (w : world) (d : items) :
  plain (PDict d) = true ->
  file w = Some (json_dumps (PDict (dict_set d word (committed m examples)))) ->
  comma_free text -> lower (strip text) = word ->
  search_words lower text w
  = (Val tt, send (Results [(word, PStr m, List.map PStr examples)]) w).
Proof.
  intros Hp Hf Hc Hw.
  set (d' := dict_set d word (committed m examples)) in *.
  assert (Hl : load_dictionary w = (Val (PDict d'), w)).
  { apply (load_at (written (PDict d') w)); [|now rewrite Hf].
    apply load_written. apply plain_dict_set; [assumption | apply plain_entry_value]. }
  unfold search_words. rewrite (bind_val _ _ _ _ _ Hl).
  fold (tokens lower text). rewrite (tokens_comma_free text Hc), Hw.
  assert (Ht : py_truthy (PDict d') = true).
  { subst d'. destruct d as [|[k v] d]; [reflexivity|]. cbn [dict_set].
    now destruct (str_eqb k word). }
  rewrite Ht. cbn [negb].
  subst d'. rewrite lookup_after_commit, bind_eval. reflexivity.
Qed.

(** The add dialogue, from the state [WORD] to the commit. *)
Lemma dialogue_commits (user_id : Z) (t m e : str) (b : bot) (d : items) :
  conversation b = Some WORD -> stored (state b) d ->
  let word := lower (strip t) in
  (dict_mem d word = true -> contains word UPDATE_ = false) ->
  clean (PDict (dict_set d word (committed (strip m) (example_lines e)))) = true ->
  exists b',
    run lower ADMIN_IDS user_id (dialogue lower d t m e) b = Some b'
    /\ conversation b' = None
    /\ user (state b') = no_user_data
    /\ file (state b')
       = Some (json_dumps
                 (PDict (dict_set d word (committed (strip m) (example_lines e))))).
Proof.
  intros Hc [Hl Hs] word Hu Hclean.
  assert (Hcommit : forall b2,
             conversation b2 = Some MEANING ->
             file (state b2) = file (state b) ->
             new_word (user (state b2)) = Some word ->
             exists b',
               run lower ADMIN_IDS user_id [Text m; Text e] b2 = Some b'
               /\ conversation b' = None
               /\ user (state b') = no_user_data
               /\ file (state b')
                  = Some (json_dumps
                            (PDict (dict_set d word
                                      (committed (strip m) (example_lines e)))))).
  { intros b2 Hc2 Hf2 Hn2. cbn [run].
    unfold add_word_handler at 1. rewrite Hc2. cbn [conversation_handler].
    rewrite receive_meaning_run. cbn [next_state].
    unfold add_word_handler at 1. cbn [conversation conversation_handler state].
    erewrite (receive_examples_run e word (strip m) _ d);
      [ | apply (load_at (state b)); [exact Hl | exact Hf2] | exact Hn2 | reflexivity
        | exact Hclean ].
    eexists. split; [reflexivity|]. repeat split. }
  unfold dialogue. fold word.
  destruct (dict_mem d word) eqn:Hm.
  - destruct (collision_choices user_id t b d Hc (conj Hl Hs) Hm)
      as (current & b1 & H1 & Hc1 & Hf1 & _ & _ & (b2 & H2 & Hc2 & Hf2 & Hn2)).
    fold word in H2, Hn2.
    destruct (Hcommit b2 Hc2 Hf2 (Hn2 (Hu eq_refl))) as (b' & Hr & Hb').
    exists b'. split; [|exact Hb'].
    cbn [run]. rewrite H1, H2. exact Hr.
  - destruct (Hcommit {| state := send (AskMeaning word) (with_new_word word (state b));
                         conversation := Some MEANING |}
                eq_refl eq_refl eq_refl) as (b' & Hr & Hb').
    exists b'. split; [|exact Hb'].
    cbn [run]. unfold add_word_handler at 1. rewrite Hc. cbn [conversation_handler].
    rewrite (receive_word_new t (state b) d Hl Hm). cbn [next_state]. exact Hr.
Qed.

(** C1, as the code has it.  When no text of the dict to write holds a
    surrogate, the add dialogue for a term ends in the commit, and after
    it a search whose text contains no comma and equals the term up to
    case and surrounding whitespace returns the meaning and the examples
    committed.  For a term that was already in the store the dialogue goes
    through the update button, and the statement is for terms that do not
    contain [update_]. *)
Theorem upsert_then_get (user_id : Z) (t m e t' : str) (b : bot) (d : items) :
  float_round_trip ->
  conversation b = Some WORD -> stored (state b) d ->
  let word := lower (strip t) in
  (dict_mem d word = true -> contains word UPDATE_ = false) ->
  clean (PDict (dict_set d word (committed (strip m) (example_lines e)))) = true ->
  comma_free t' -> lower (strip t') = word ->
  exists b',
    run lower ADMIN_IDS user_id (dialogue lower d t m e) b = Some b'
    /\ conversation b' = None
    /\ search_words lower t' (state b')
       = (Val tt,
          send (Results [(word, PStr (strip m), List.map PStr (example_lines e))])
            (state b')).
Proof.
  intros F Hc Hst word Hu Hclean Hfree Heq.
  destruct (dialogue_commits user_id t m e b d Hc Hst Hu Hclean)
    as (b' & Hr & Hc' & _ & Hf).
  exists b'. split; [exact Hr|]. split; [exact Hc'|].
  destruct Hst as [Hl _]. pose proof (load_plain F _ _ _ Hl) as Hp.
  now apply (search_after_commit t' word (strip m) (example_lines e) (state b') d).
Qed.

Lemma receive_word_stays (text : str) (w : world) :
  next_state (Some WORD) (fst (receive_word lower text w)) <> None.
Proof.
  unfold receive_word, bind, set_new_word, reply_text, ret, eval.
  destruct (load_dictionary _) as [[v|e] w1]; [|discriminate].
  destruct (py_contains v _) as [[|]|]; try discriminate.
  destruct (py_getitem v _) as [entry|]; [|discriminate].
  destruct (py_getitem entry _); discriminate.
Qed.

Lemma receive_examples_clears (text : str) (w : world) :
  next_state (Some EXAMPLE) (fst (receive_examples text w)) = None ->
  user (snd (receive_examples text w)) = no_user_data.
Proof.
  unfold receive_examples, bind, get_user_data, save_dictionary,
    clear_user_data, reply_text, ret, eval.
  destruct (new_word _); [|discriminate].
  destruct (meaning _); [|discriminate].
  destruct (load_dictionary _) as [[v|e] w1]; [|discriminate].
  destruct (py_setitem v _ _) as [v'|]; [|discriminate].
  destruct (write (iterencode 0 v')) as [cut [|]]; [reflexivity | discriminate].
Qed.

Lemma button_callback_clears (c : conv_state) (data : str) (w : world) :
  next_state (Some c) (fst (button_callback data w)) = None ->
  user (snd (button_callback data w)) = no_user_data.
Proof.
  unfold button_callback.
  destruct (startswith data UPDATE_); [discriminate|].
  destruct (str_eqb data CANCEL_ADD); [reflexivity | discriminate].
Qed.

(** The conversation handler keeps user data from being pending outside
    a conversation: it is cleared on every way out. *)
Lemma add_word_handler_idle_clean (user_id : Z) (u : update) (b b' : bot) :
  idle_clean b ->
  add_word_handler lower ADMIN_IDS user_id u b = Some b' -> idle_clean b'.
Proof.
  unfold idle_clean, add_word_handler. intros Hb.
  destruct (conversation b) as [c|] eqn:Hc.
  - destruct u as [name args|text|data].
    + assert (E : conversation_handler lower ADMIN_IDS user_id (Some c) (Command name args)
                  = if str_eqb name CANCEL then Some cancel_add else None)
        by now destruct c.
      rewrite E. destruct (str_eqb name CANCEL); [|discriminate].
      intros [= <-]. reflexivity.
    + destruct c; cbn [conversation_handler].
      * pose proof (receive_word_stays text (state b)) as H.
        destruct (receive_word lower text (state b)) as [r w'].
        intros [= <-]. cbn [conversation state fst] in *. intros Hn. contradiction.
      * intros [= <-]. discriminate.
      * pose proof (receive_examples_clears text (state b)) as H.
        destruct (receive_examples text (state b)) as [r w'].
        intros [= <-]. cbn [conversation state fst snd] in *. exact H.
    + assert (E : exists h,
                 conversation_handler lower ADMIN_IDS user_id (Some c) (Callback data)
                 = h /\ (h = None \/ h = Some (button_callback data))).
      { destruct c; cbn [conversation_handler]; eexists; split; try reflexivity;
          try (now right); destruct (matches_cancel_add data); auto. }
      destruct E as (h & -> & [-> | ->]); [discriminate|].
      pose proof (button_callback_clears c data (state b)) as H.
      destruct (button_callback data (state b)) as [r w'].
      intros [= <-]. cbn [conversation state fst snd] in *. exact H.
  - destruct u as [name args|text|data]; cbn [conversation_handler]; try discriminate.
    destruct (str_eqb name ADD); [|discriminate].
    unfold add_word_start.
    destruct (is_admin ADMIN_IDS user_id); intros [= <-];
      cbn [conversation state next_state negb]; [discriminate|].
    intros _. now apply Hb.
Qed.

End Properties.

(* ================================================================== *)
(** ** Properties of the application *)

(** ** Facts about [sorted] and [chunks] *)

Lemma str_ltb_irrefl (a : str) : str_ltb a a = false.
Proof.
  induction a as [|x a IH]; [reflexivity|].
  cbn [str_ltb]. now rewrite N.ltb_irrefl, N.eqb_refl, IH.
Qed.

Lemma str_ltb_cons (x y : char) (a b : str) :
  str_ltb (x :: a) (y :: b) = (x <? y) || ((x =? y) && str_ltb a b).
Proof. reflexivity. Qed.

Lemma str_ltb_cons_false (x y : char) (a b : str) :
  str_ltb (x :: a) (y :: b) = false <-> y < x \/ (x = y /\ str_ltb a b = false).
Proof.
  rewrite str_ltb_cons, orb_false_iff, andb_false_iff, N.ltb_ge, N.eqb_neq.
  split.
  - intros [H1 [H2 | H2]]; [left; lia|].
    destruct (N.eq_dec x y); [now right | left; lia].
  - intros [H | [-> H]]; (split; [lia|]); [left; lia | now right].
Qed.

(** [a <= b] on strings, read as "not [b < a]", is transitive. *)
Lemma str_le_trans (a b c : str) :
  str_ltb b a = false -> str_ltb c b = false -> str_ltb c a = false.
Proof.
  revert b c. induction a as [|x a IH]; intros b c Hab Hbc.
  - destruct c; reflexivity.
  - destruct b as [|y b]; [discriminate Hab|].
    destruct c as [|z c]; [discriminate Hbc|].
    apply str_ltb_cons_false in Hab, Hbc. apply str_ltb_cons_false.
    destruct Hab as [Hab | [-> Hab]], Hbc as [Hbc | [-> Hbc]];
      try (left; lia); try (now left).
    right. split; [reflexivity | now apply (IH b c)].
Qed.

Lemma str_ltb_asym (a b : str) : str_ltb a b = true -> str_ltb b a = false.
Proof.
  revert b. induction a as [|x a IH]; intros [|y b] H; try reflexivity;
    try discriminate H.
  rewrite str_ltb_cons in H. apply str_ltb_cons_false.
  apply orb_true_iff in H as [H | H].
  - apply N.ltb_lt in H. now left.
  - apply andb_true_iff in H as [E H]. apply N.eqb_eq in E. subst.
    right. split; [reflexivity | now apply IH].
Qed.

Lemma insort_perm (w : str) (l : list str) : Permutation (insort w l) (w :: l).
Proof.
  induction l as [|x l IH]; [apply Permutation_refl|].
  cbn [insort]. destruct (str_ltb x w); [|apply Permutation_refl].
  eapply perm_trans; [apply perm_skip, IH | apply perm_swap].
Qed.

Lemma sorted_perm (l : list str) : Permutation (sorted l) l.
Proof.
  induction l as [|w l IH]; [apply perm_nil|].
  cbn [sorted fold_right]. fold (sorted l).
  eapply perm_trans; [apply insort_perm | now apply perm_skip].
Qed.

Lemma insort_sorted (w : str) (l : list str) :
  StronglySorted (fun a b => str_ltb b a = false) l ->
  StronglySorted (fun a b => str_ltb b a = false) (insort w l).
Proof.
  induction 1 as [|x l Hs IH Hx]; cbn [insort].
  - constructor; constructor.
  - destruct (str_ltb x w) eqn:E.
    + constructor; [assumption|].
      apply (Permutation_Forall (Permutation_sym (insort_perm w l))).
      constructor; [now apply str_ltb_asym | assumption].
    + constructor; [now constructor|].
      constructor; [assumption|].
      apply (Forall_impl _ (fun b Hb => str_le_trans w x b E Hb) Hx).
Qed.

Lemma sorted_sorted (l : list str) :
  StronglySorted (fun a b => str_ltb b a = false) (sorted l).
Proof.
  induction l as [|w l IH]; [constructor|].
  cbn [sorted fold_right]. fold (sorted l). now apply insort_sorted.
Qed.

Lemma sorted_length (l : list str) : length (sorted l) = length l.
Proof. apply Permutation_length, sorted_perm. Qed.

Section Chunks.

Local Open Scope nat_scope.

Lemma chunks_from (A : Type) (l : list A) (n k : nat) :
  length l - 50 * k <= n ->
  concat (List.map (fun i => slice l i (i + 50)) (range_from n (50 * k) (length l) 50))
  = skipn (50 * k) l.
Proof.
  revert k. induction n as [|n IH]; intros k Hn; cbn [range_from].
  - cbn. symmetry. apply skipn_all2. lia.
  - destruct (50 * k <? length l) eqn:E.
    + apply Nat.ltb_lt in E. cbn [List.map concat].
      replace (50 * k + 50) with (50 * S k) by lia.
      rewrite IH by lia. unfold slice.
      replace (50 * S k - 50 * k) with 50 by lia.
      replace (50 * S k) with (50 + 50 * k) by lia.
      rewrite <- skipn_skipn. apply firstn_skipn.
    + apply Nat.ltb_ge in E. cbn. symmetry. apply skipn_all2. lia.
Qed.

(** The chunks, one after the other, are the words. *)
Lemma chunks_concat (words : list str) : concat (chunks words) = words.
Proof.
  unfold chunks, range. rewrite Nat.sub_0_r.
  apply (chunks_from str words (length words) 0). lia.
Qed.

Lemma range_from_bounds (n start stop step : nat) :
  Forall (fun i => i < stop) (range_from n start stop step).
Proof.
  revert start. induction n as [|n IH]; intros start; cbn [range_from];
    [constructor|].
  destruct (start <? stop) eqn:E; [|constructor].
  apply Nat.ltb_lt in E. constructor; [assumption | apply IH].
Qed.

(** Every chunk holds at least one word and at most fifty. *)
Lemma chunks_sizes (words : list str) :
  Forall (fun chunk => 1 <= length chunk <= 50) (chunks words).
Proof.
  unfold chunks. apply Forall_map.
  apply (Forall_impl _ (P := fun i => i < length words));
    [|apply range_from_bounds].
  intros i Hi. unfold slice. rewrite length_firstn, length_skipn. lia.
Qed.

Lemma range_from_length (n k stop : nat) :
  stop - 50 * k <= n ->
  length (range_from n (50 * k) stop 50) = (stop - 50 * k + 49) / 50.
Proof.
  revert k. induction n as [|n IH]; intros k Hn; cbn [range_from].
  - replace (stop - 50 * k) with 0 by lia. reflexivity.
  - destruct (50 * k <? stop) eqn:E.
    + apply Nat.ltb_lt in E. cbn [length].
      replace (50 * k + 50) with (50 * S k) by lia. rewrite IH by lia.
      destruct (le_lt_dec (50 * S k) stop) as [Hle | Hlt].
      * replace (stop - 50 * k + 49) with ((stop - 50 * S k + 49) + 1 * 50) by lia.
        rewrite Nat.div_add by lia. lia.
      * replace (stop - 50 * S k) with 0 by lia.
        assert (H1 : (stop - 50 * k + 49) / 50 = 1).
        { symmetry. apply (Nat.div_unique _ 50 1 (stop - 50 * k - 1)); lia. }
        rewrite H1. reflexivity.
    + apply Nat.ltb_ge in E. replace (stop - 50 * k) with 0 by lia. reflexivity.
Qed.

(** The number of chunks: the number of words over fifty, rounded up. *)
Lemma chunks_length (words : list str) :
  length (chunks words) = (length words + 49) / 50.
Proof.
  unfold chunks, range. rewrite length_map, Nat.sub_0_r.
  pose proof (range_from_length (length words) 0 (length words)) as H.
  change (50 * 0) with 0 in H. rewrite Nat.sub_0_r in H. apply H. lia.
Qed.

End Chunks.

(** ** What the handlers leave as it is *)

Lemma preserves_bind {X A B} (f : world -> X) (m : M A) (k : A -> M B) :
  preserves f m -> (forall a, preserves f (k a)) -> preserves f (bind m k).
Proof.
  intros Hm Hk w. unfold bind. specialize (Hm w).
  destruct (m w) as [[a|e] w']; cbn [snd] in *; [|exact Hm].
  now rewrite Hk.
Qed.

Lemma preserves_load {X} (f : world -> X) : preserves f load_dictionary.
Proof. intros w. now rewrite load_unchanged. Qed.

Lemma preserves_get {X} (f : world -> X) (field : user_data -> option str) :
  preserves f (get_user_data field).
Proof. intros w. unfold get_user_data. now destruct (field (user w)). Qed.

Lemma save_keeps_user (v : pyval) : preserves user (save_dictionary v).
Proof. intros w. unfold save_dictionary. now destruct (write _). Qed.

Lemma save_keeps_sent (v : pyval) : preserves sent (save_dictionary v).
Proof. intros w. unfold save_dictionary. now destruct (write _). Qed.

Ltac frame :=
  repeat first
    [ apply preserves_bind; [|intros ?]
    | apply preserves_load
    | apply preserves_get
    | apply save_keeps_user
    | apply save_keeps_sent
    | (intros ?; reflexivity)
    | match goal with
      | |- preserves _ (if ?b then _ else _) => destruct b
      | |- preserves _ (match ?x with _ => _ end) => destruct x
      | |- preserves _ (let (_, _) := ?x in _) => destruct x
      end ].

Lemma search_words_reads (lower : str -> str) (text : str) :
  preserves file (search_words lower text) /\ preserves user (search_words lower text).
Proof. unfold search_words. split; frame. Qed.

Lemma stats_reads (ADMIN_IDS : list Z) (user_id : Z) :
  preserves file (stats ADMIN_IDS user_id) /\ preserves user (stats ADMIN_IDS user_id).
Proof. unfold stats. split; frame. Qed.

Lemma delete_word_keeps_user (lower : str -> str) (ADMIN_IDS : list Z)
  (user_id : Z) (args : list str) :
  preserves user (delete_word lower ADMIN_IDS user_id args).
Proof. unfold delete_word. frame. Qed.

Lemma add_word_start_reads (ADMIN_IDS : list Z) (user_id : Z) :
  preserves file (add_word_start ADMIN_IDS user_id)
  /\ preserves user (add_word_start ADMIN_IDS user_id).
Proof. unfold add_word_start. split; frame. Qed.

Lemma receive_word_keeps_file (lower : str -> str) (text : str) :
  preserves file (receive_word lower text).
Proof. unfold receive_word. frame. Qed.

Lemma receive_meaning_keeps_file (text : str) : preserves file (receive_meaning text).
Proof. unfold receive_meaning. frame. Qed.

Lemma cancel_add_keeps_file : preserves file cancel_add.
Proof. unfold cancel_add. frame. Qed.

Lemma button_callback_keeps_file (data : str) : preserves file (button_callback data).
Proof. unfold button_callback, cancel_add. frame. Qed.

(** The same for the chat. *)

Lemma keeps_bind {X A B} (f : chat -> X) (m : Chat A) (k : A -> Chat B) :
  keeps f m -> (forall a, keeps f (k a)) -> keeps f (bind_chat m k).
Proof.
  intros Hm Hk c. unfold bind_chat. specialize (Hm c).
  destruct (m c) as [[a|e] c']; cbn [snd] in *; [|exact Hm].
  now rewrite Hk.
Qed.

Lemma lift_keeps_disk {A} (m : M A) : preserves file m -> keeps disk (lift m).
Proof.
  intros H c. unfold lift. specialize (H (as_world c)).
  destruct (m (as_world c)) as [r w]. exact H.
Qed.

Lemma lift_keeps_data {A} (m : M A) : preserves user m -> keeps data (lift m).
Proof.
  intros H c. unfold lift. specialize (H (as_world c)).
  destruct (m (as_world c)) as [r w]. exact H.
Qed.

Lemma for_each_posts {A} (f : nat * A -> post) (l : list (nat * A)) (c : chat) :
  for_each (fun x => reply_post (f x)) l c = (Val tt, posting (List.map f l) c).
Proof.
  revert c. induction l as [|x l IH]; intros c; cbn [for_each List.map].
  - unfold posting. rewrite List.app_nil_r. now destruct c.
  - unfold bind_chat, reply_post. rewrite IH. unfold posting. cbn [disk data log].
    now rewrite <- List.app_assoc.
Qed.

Ltac chat_frame :=
  repeat first
    [ apply keeps_bind; [|intros ?]
    | apply lift_keeps_disk; frame
    | apply lift_keeps_data; frame
    | (intros ?; reflexivity)
    | match goal with
      | |- keeps _ (if ?b then _ else _) => destruct b
      | |- keeps _ (match ?x with _ => _ end) => destruct x
      end ].

Lemma for_each_keeps {X A} (g : chat -> X) (f : nat * A -> post) (l : list (nat * A)) :
  (forall p c, g (posting p c) = g c) ->
  keeps g (for_each (fun x => reply_post (f x)) l).
Proof. intros H c. rewrite for_each_posts. apply H. Qed.

Lemma list_words_reads (ADMIN_IDS : list Z) (user_id : Z) :
  keeps disk (list_words ADMIN_IDS user_id) /\ keeps data (list_words ADMIN_IDS user_id).
Proof.
  unfold list_words. split.
  - destruct (negb _); [chat_frame|].
    apply keeps_bind; [chat_frame|]. intros dictionary.
    destruct (negb _); [chat_frame|].
    apply keeps_bind; [chat_frame|]. intros keys. cbv zeta.
    destruct (_ <? _)%nat; [|chat_frame].
    apply for_each_keeps. intros p c. reflexivity.
  - destruct (negb _); [chat_frame|].
    apply keeps_bind; [chat_frame|]. intros dictionary.
    destruct (negb _); [chat_frame|].
    apply keeps_bind; [chat_frame|]. intros keys. cbv zeta.
    destruct (_ <? _)%nat; [|chat_frame].
    apply for_each_keeps. intros p c. reflexivity.
Qed.

Lemma backup_reads (ADMIN_IDS : list Z) (user_id : Z) :
  keeps disk (backup ADMIN_IDS user_id) /\ keeps data (backup ADMIN_IDS user_id).
Proof. unfold backup, read_file. split; chat_frame. Qed.

Lemma start_reads (ADMIN_IDS : list Z) (user_id : Z) (first_name : str) :
  keeps disk (start ADMIN_IDS user_id first_name)
  /\ keeps data (start ADMIN_IDS user_id first_name).
Proof. unfold start. split; chat_frame. Qed.

(** ** How the application routes an update *)

Lemma serve_talk {A} (next : res A -> option conv_state) (m : Chat A) (a : application) :
  talk (serve next m a) = snd (m (talk a)).
Proof. unfold serve. now destruct (m (talk a)). Qed.

Lemma serve_stage {A} (next : res A -> option conv_state) (m : Chat A) (a : application) :
  stage (serve next m a) = next (fst (m (talk a))).
Proof. unfold serve. now destruct (m (talk a)). Qed.

Lemma serve_keeps {X A} (f : chat -> X) (next : res A -> option conv_state)
  (m : Chat A) (a : application) :
  keeps f m -> f (talk (serve next m a)) = f (talk a).
Proof. intros H. rewrite serve_talk. apply H. Qed.

Lemma lift_fst {A} (m : M A) (c : chat) : fst (lift m c) = fst (m (as_world c)).
Proof. unfold lift. now destruct (m (as_world c)). Qed.

Lemma lift_disk {A} (m : M A) (c : chat) :
  disk (snd (lift m c)) = file (snd (m (as_world c))).
Proof. unfold lift. now destruct (m (as_world c)). Qed.

Lemma lift_data {A} (m : M A) (c : chat) :
  data (snd (lift m c)) = user (snd (m (as_world c))).
Proof. unfold lift. now destruct (m (as_world c)). Qed.

Lemma lift_log {A} (m : M A) (c : chat) :
  log (snd (lift m c)) = log c ++ List.map Plain (sent (snd (m (as_world c)))).
Proof. unfold lift. now destruct (m (as_world c)). Qed.

Section Routing.

Variable lower : str -> str.
Variable ADMIN_IDS : list Z.

(** The callback the conversation handler has for a command. *)
Lemma conversation_handler_command (user_id : Z) (current : option conv_state)
  (name : str) (args : list str) :
  conversation_handler lower ADMIN_IDS user_id current (Command name args)
  = match current with
    | None => if str_eqb name ADD then Some (add_word_start ADMIN_IDS user_id) else None
    | Some _ => if str_eqb name CANCEL then Some cancel_add else None
    end.
Proof. destruct current as [[| |]|]; reflexivity. Qed.

(** The callback the conversation handler has for the press of a
    button. *)
Lemma conversation_handler_callback (user_id : Z) (current : option conv_state)
  (data : str) :
  conversation_handler lower ADMIN_IDS user_id current (Callback data)
  = match current with
    | None => None
    | Some WORD => Some (button_callback data)
    | Some _ => if matches_cancel_add data then Some (button_callback data) else None
    end.
Proof. destruct current as [[| |]|]; reflexivity. Qed.

(** The handlers of [main] on one update, spelled out. *)
Lemma process_update_route (user_id : Z) (first_name : str) (u : update) (a : application) :
  process_update (handlers lower ADMIN_IDS user_id first_name) u a
  = match u with
    | Command name args =>
        if str_eqb name START
        then serve (fun _ => stage a) (start ADMIN_IDS user_id first_name) a
        else
          match conversation_handler lower ADMIN_IDS user_id (stage a) u with
          | Some callback => serve (next_state (stage a)) (lift callback) a
          | None =>
              if str_eqb name DELETE
              then serve (fun _ => stage a)
                         (lift (delete_word lower ADMIN_IDS user_id args)) a
              else if str_eqb name LIST
              then serve (fun _ => stage a) (list_words ADMIN_IDS user_id) a
              else if str_eqb name STATS
              then serve (fun _ => stage a) (lift (stats ADMIN_IDS user_id)) a
              else if str_eqb name BACKUP
              then serve (fun _ => stage a) (backup ADMIN_IDS user_id) a
              else a
          end
    | Text text =>
        match conversation_handler lower ADMIN_IDS user_id (stage a) u with
        | Some callback => serve (next_state (stage a)) (lift callback) a
        | None => serve (fun _ => stage a) (lift (search_words lower text)) a
        end
    | Callback data =>
        match conversation_handler lower ADMIN_IDS user_id (stage a) u with
        | Some callback => serve (next_state (stage a)) (lift callback) a
        | None => a
        end
    end.
Proof.
  unfold handlers. cbn [process_update].
  unfold command_handler, message_handler, conversation_of_main.
  destruct u as [name args|text|data].
  - destruct (str_eqb name START); [reflexivity|].
    destruct (conversation_handler _ _ _ _ _); [reflexivity|].
    destruct (str_eqb name DELETE); [reflexivity|].
    destruct (str_eqb name LIST); [reflexivity|].
    destruct (str_eqb name STATS); [reflexivity|].
    destruct (str_eqb name BACKUP); reflexivity.
  - destruct (conversation_handler _ _ _ _ _); reflexivity.
  - destruct (conversation_handler _ _ _ _ _); reflexivity.
Qed.

End Routing.

(** ** The application *)

Section Application_Properties.

Variable lower : str -> str.
Variable ADMIN_IDS : list Z.

Lemma not_admin (user_id : Z) :
  ~ In user_id ADMIN_IDS -> is_admin ADMIN_IDS user_id = false.
Proof.
  intros H. destruct (is_admin ADMIN_IDS user_id) eqn:E; [|reflexivity].
  now apply is_admin_In in E.
Qed.

Lemma delete_word_keeps_file_unless_admin (user_id : Z) (args : list str) :
  is_admin ADMIN_IDS user_id = false ->
  preserves file (delete_word lower ADMIN_IDS user_id args).
Proof. intros H w. unfold delete_word. now rewrite H. Qed.

(** What the callbacks of the dialogue leave of the user data, and where
    they lead. *)

Lemma add_word_start_next (user_id : Z) (w : world) :
  next_state None (fst (add_word_start ADMIN_IDS user_id w))
  = if is_admin ADMIN_IDS user_id then Some WORD else None.
Proof. unfold add_word_start. now destruct (is_admin ADMIN_IDS user_id). Qed.

Lemma receive_word_next (text : str) (w : world) :
  let r := receive_word lower text w in
  (next_state (Some WORD) (fst r) = Some WORD
   \/ next_state (Some WORD) (fst r) = Some MEANING)
  /\ new_word (user (snd r)) = Some (lower (strip text))
  /\ meaning (user (snd r)) = meaning (user w).
Proof.
  cbv zeta. split.
  - unfold receive_word, bind, set_new_word, reply_text, ret, eval.
    destruct (load_dictionary _) as [[v|e] w1]; [|now left].
    destruct (py_contains v _) as [[|]|]; try (now left); try (now right).
    destruct (py_getitem v _) as [entry|]; [|now left].
    destruct (py_getitem entry _); now left.
  - assert (H : forall word,
               preserves user
                 (dictionary <- load_dictionary ;;
                  found <- eval (py_contains dictionary word) ;;
                  if found : bool then
                    entry <- eval (py_getitem dictionary word) ;;
                    current <- eval (py_getitem entry MEANING_KEY) ;;
                    reply_text (WordExists word current [UPDATE_ ++ word; CANCEL_ADD]) ;;;
                    ret (Goto WORD)
                  else
                    reply_text (AskMeaning word) ;;;
                    ret (Goto MEANING))) by (intros word; frame).
    unfold receive_word.
    change (bind (set_new_word ?word) ?k w) with (k tt (with_new_word word w)).
    cbv beta. rewrite (H (lower (strip text)) (with_new_word _ w)). split; reflexivity.
Qed.

Lemma button_callback_next (current : conv_state) (data : str) (w : world) :
  let r := button_callback data w in
  (next_state (Some current) (fst r) = Some MEANING
   /\ new_word (user (snd r)) <> None /\ meaning (user (snd r)) = meaning (user w))
  \/ (next_state (Some current) (fst r) = None /\ user (snd r) = no_user_data)
  \/ (next_state (Some current) (fst r) = Some current /\ user (snd r) = user w).
Proof.
  cbv zeta. unfold button_callback.
  destruct (startswith data UPDATE_).
  - left. repeat split. discriminate.
  - destruct (str_eqb data CANCEL_ADD).
    + right. left. split; reflexivity.
    + right. right. split; reflexivity.
Qed.

Lemma receive_examples_next (text : str) (w : world) :
  let r := receive_examples text w in
  (next_state (Some EXAMPLE) (fst r) = None /\ user (snd r) = no_user_data)
  \/ (next_state (Some EXAMPLE) (fst r) = Some EXAMPLE /\ user (snd r) = user w).
Proof.
  cbv zeta. unfold receive_examples, bind, get_user_data, save_dictionary,
    clear_user_data, reply_text, ret, eval.
  destruct (new_word _); [|now right].
  destruct (meaning _); [|now right].
  pose proof (load_unchanged w) as Hl.
  destruct (load_dictionary w) as [[v|e] w1]; cbn [snd] in Hl; subst w1; [|now right].
  destruct (py_setitem v _ _) as [v'|]; [|now right].
  destruct (write (iterencode 0 v')) as [cut [|]]; [now left | now right].
Qed.

Lemma receive_examples_no_key_error (text : str) (w : world) :
  new_word (user w) <> None -> meaning (user w) <> None ->
  fst (receive_examples text w) <> Exn KeyError.
Proof.
  intros Hn Hm. unfold receive_examples, bind, get_user_data, save_dictionary,
    clear_user_data, reply_text, ret, eval.
  destruct (new_word _); [|contradiction].
  destruct (meaning _); [|contradiction].
  unfold load_dictionary.
  destruct (file w) as [content|].
  - destruct (json_loads content) as [v|]; [|discriminate].
    destruct v; try discriminate.
    cbn [py_setitem]. destruct (write _) as [cut [|]]; discriminate.
  - cbn [py_setitem]. destruct (write _) as [cut [|]]; discriminate.
Qed.

Lemma serve_lift_stage {A} (next : res A -> option conv_state) (m : M A) (a : application) :
  stage (serve next (lift m) a) = next (fst (m (as_world (talk a)))).
Proof. now rewrite serve_stage, lift_fst. Qed.

Lemma serve_lift_data {A} (next : res A -> option conv_state) (m : M A) (a : application) :
  data (talk (serve next (lift m) a)) = user (snd (m (as_world (talk a)))).
Proof. now rewrite serve_talk, lift_data. Qed.

Lemma serve_lift_disk {A} (next : res A -> option conv_state) (m : M A) (a : application) :
  disk (talk (serve next (lift m) a)) = file (snd (m (as_world (talk a)))).
Proof. now rewrite serve_talk, lift_disk. Qed.

Lemma pending_serve_same (current : option conv_state) (m : Chat unit) (a : application) :
  keeps data m -> pending current (data (talk a)) ->
  pending_ok (serve (fun _ => current) m a).
Proof.
  intros Hm Ha. unfold pending_ok. now rewrite serve_stage, (serve_keeps data).
Qed.

Lemma pending_serve_cancel (current : conv_state) (a : application) :
  pending_ok (serve (next_state (Some current)) (lift cancel_add) a).
Proof. unfold pending_ok. rewrite serve_lift_stage, serve_lift_data. reflexivity. Qed.

Lemma pending_serve_button (current : conv_state) (pressed : str) (a : application) :
  pending (Some current) (data (talk a)) ->
  pending_ok (serve (next_state (Some current)) (lift (button_callback pressed)) a).
Proof.
  intros Ha. unfold pending_ok. rewrite serve_lift_stage, serve_lift_data.
  destruct (button_callback_next current pressed (as_world (talk a)))
    as [(-> & Hn & _) | [(-> & ->) | (-> & ->)]].
  - exact Hn.
  - reflexivity.
  - exact Ha.
Qed.

(** One update keeps the user data the stage relies on. *)
Lemma process_update_pending (user_id : Z) (first_name : str) (u : update) (a : application) :
  pending_ok a ->
  pending_ok (process_update (handlers lower ADMIN_IDS user_id first_name) u a).
Proof.
  intros Ha. rewrite process_update_route.
  assert (Ha' : pending (stage a) (data (talk a))) by exact Ha.
  destruct u as [name args|text|data].
  - destruct (str_eqb name START); [apply pending_serve_same; [apply start_reads | exact Ha']|].
    rewrite conversation_handler_command.
    assert (Hrest : forall current, pending current (data (talk a)) -> pending_ok a ->
      pending_ok
        (if str_eqb name DELETE
         then serve (fun _ => current)
                (lift (delete_word lower ADMIN_IDS user_id args)) a
         else if str_eqb name LIST
         then serve (fun _ => current) (list_words ADMIN_IDS user_id) a
         else if str_eqb name STATS
         then serve (fun _ => current) (lift (stats ADMIN_IDS user_id)) a
         else if str_eqb name BACKUP
         then serve (fun _ => current) (backup ADMIN_IDS user_id) a
         else a)).
    { intros current Hc Hpa.
      destruct (str_eqb name DELETE).
      { apply pending_serve_same; [|exact Hc].
        apply lift_keeps_data, delete_word_keeps_user. }
      destruct (str_eqb name LIST);
        [apply pending_serve_same; [apply list_words_reads | exact Hc]|].
      destruct (str_eqb name STATS).
      { apply pending_serve_same; [|exact Hc]. apply lift_keeps_data, stats_reads. }
      destruct (str_eqb name BACKUP);
        [apply pending_serve_same; [apply backup_reads | exact Hc] | exact Hpa]. }
    destruct (stage a) as [current|] eqn:Hs.
    + destruct (str_eqb name CANCEL); [apply pending_serve_cancel|].
      now apply Hrest.
    + destruct (str_eqb name ADD); [|now apply Hrest].
      unfold pending_ok. rewrite serve_lift_stage, serve_lift_data.
      rewrite add_word_start_next.
      destruct (is_admin ADMIN_IDS user_id); [exact I|].
      rewrite (proj2 (add_word_start_reads ADMIN_IDS user_id)). exact Ha'.
  - destruct (stage a) as [[| |]|] eqn:Hs; cbn [conversation_handler].
    + unfold pending_ok. rewrite serve_lift_stage, serve_lift_data.
      destruct (receive_word_next text (as_world (talk a))) as ([-> | ->] & Hn & _).
      * exact I.
      * cbn [pending]. now rewrite Hn.
    + unfold pending_ok. rewrite serve_lift_stage, serve_lift_data.
      cbn. split; [exact Ha' | discriminate].
    + unfold pending_ok. rewrite serve_lift_stage, serve_lift_data.
      destruct (receive_examples_next text (as_world (talk a)))
        as [(-> & ->) | (-> & ->)]; [reflexivity | exact Ha'].
    + apply pending_serve_same; [|exact Ha'].
      apply lift_keeps_data, search_words_reads.
  - rewrite conversation_handler_callback.
    destruct (stage a) as [[| |]|] eqn:Hs; try exact Ha.
    + now apply pending_serve_button.
    + destruct (matches_cancel_add data); [|exact Ha].
      now apply pending_serve_button.
    + destruct (matches_cancel_add data); [|exact Ha].
      now apply pending_serve_button.
Qed.

(** X1. Whatever updates one user sends, in whatever order, the user data
    is what the stage of the dialogue relies on: nothing is pending outside
    the dialogue, the term is there from [MEANING] on and the meaning in
    [EXAMPLE]; so the commit step never fails on a missing key of
    [user_data]. *)
Theorem dialogue_data_invariant (user_id : Z) (first_name : str)
  (updates : list update) (a : application) :
  pending_ok a ->
  let a' := polling lower ADMIN_IDS user_id first_name updates a in
  pending_ok a'
  /\ (stage a' = Some EXAMPLE ->
      forall text, fst (receive_examples text (as_world (talk a'))) <> Exn KeyError).
Proof.
  intros Ha a'.
  assert (H : pending_ok a').
  { subst a'. unfold polling. revert a Ha.
    induction updates as [|u us IH]; intros a Ha; [exact Ha|].
    cbn [fold_left]. apply IH. now apply process_update_pending. }
  split; [exact H|]. intros Hs text. unfold pending_ok in H. rewrite Hs in H.
  destruct H as [Hn Hm]. now apply receive_examples_no_key_error.
Qed.

Lemma serve_same_idle (m : Chat unit) (a : application) :
  keeps disk m -> keeps data m ->
  let a' := serve (fun _ => None) m a in
  disk (talk a') = disk (talk a) /\ data (talk a') = data (talk a) /\ stage a' = None.
Proof.
  intros H1 H2 a'. subst a'.
  now rewrite serve_stage, (serve_keeps disk), (serve_keeps data).
Qed.

(** One update of a user who is not an admin, outside the dialogue. *)
Lemma process_update_non_admin (user_id : Z) (first_name : str) (u : update) (a : application) :
  ~ In user_id ADMIN_IDS -> stage a = None ->
  let a' := process_update (handlers lower ADMIN_IDS user_id first_name) u a in
  disk (talk a') = disk (talk a) /\ data (talk a') = data (talk a) /\ stage a' = None.
Proof.
  intros Hu Hs a'. subst a'. apply not_admin in Hu. rewrite process_update_route.
  destruct u as [name args|text|data].
  - rewrite conversation_handler_command, Hs.
    destruct (str_eqb name START); [apply serve_same_idle; apply start_reads|].
    destruct (str_eqb name ADD).
    + rewrite serve_lift_stage, serve_lift_data, serve_lift_disk.
      rewrite add_word_start_next, Hu.
      rewrite (proj1 (add_word_start_reads ADMIN_IDS user_id)).
      rewrite (proj2 (add_word_start_reads ADMIN_IDS user_id)).
      repeat split.
    + destruct (str_eqb name DELETE).
      { apply serve_same_idle; [apply lift_keeps_disk | apply lift_keeps_data].
        - now apply delete_word_keeps_file_unless_admin.
        - apply delete_word_keeps_user. }
      destruct (str_eqb name LIST); [apply serve_same_idle; apply list_words_reads|].
      destruct (str_eqb name STATS).
      { apply serve_same_idle; [apply lift_keeps_disk | apply lift_keeps_data];
          apply stats_reads. }
      destruct (str_eqb name BACKUP); [apply serve_same_idle; apply backup_reads|].
      now repeat split.
  - rewrite Hs. cbn [conversation_handler].
    apply serve_same_idle; [apply lift_keeps_disk | apply lift_keeps_data];
      apply search_words_reads.
  - rewrite conversation_handler_callback, Hs. now repeat split.
Qed.

(** X2. A user who is not an admin changes nothing: whatever updates they
    send from outside the dialogue, the file and the user data stay as they
    are and no dialogue opens. *)
Theorem non_admin_changes_nothing (user_id : Z) (first_name : str)
  (updates : list update) (a : application) :
  ~ In user_id ADMIN_IDS -> stage a = None ->
  let a' := polling lower ADMIN_IDS user_id first_name updates a in
  disk (talk a') = disk (talk a) /\ data (talk a') = data (talk a) /\ stage a' = None.
Proof.
  intros Hu. unfold polling. revert a.
  induction updates as [|u us IH]; intros a Hs; [now repeat split|].
  cbn [fold_left].
  destruct (process_update_non_admin user_id first_name u a Hu Hs) as (H1 & H2 & H3).
  destruct (IH _ H3) as (H4 & H5 & H6).
  cbv zeta. rewrite H4, H5, H1, H2. now repeat split.
Qed.

(** X3. The file is written by two steps only: the commit of the dialogue,
    a text message in the stage [EXAMPLE], and the command [/delete] of an
    admin.  Every other update, in every stage, leaves the file as it
    is. *)
Theorem file_written_by_commit_or_delete (user_id : Z) (first_name : str)
  (u : update) (a : application) :
  disk (talk (process_update (handlers lower ADMIN_IDS user_id first_name) u a))
  <> disk (talk a) ->
  (stage a = Some EXAMPLE /\ exists text, u = Text text)
  \/ (exists args, u = Command DELETE args /\ In user_id ADMIN_IDS).
Proof.
  rewrite process_update_route. intros H.
  assert (Hsame : forall (A : Type) (next : res A -> option conv_state) (m : Chat A),
            keeps disk m -> disk (talk (serve next m a)) = disk (talk a)).
  { intros A next m Hm. now apply serve_keeps. }
  destruct u as [name args|text|data].
  - destruct (str_eqb name START); [contradict H; apply Hsame, start_reads|].
    rewrite conversation_handler_command in H.
    assert (Hrest :
      disk (talk (if str_eqb name DELETE
                  then serve (fun _ => stage a)
                         (lift (delete_word lower ADMIN_IDS user_id args)) a
                  else if str_eqb name LIST
                  then serve (fun _ => stage a) (list_words ADMIN_IDS user_id) a
                  else if str_eqb name STATS
                  then serve (fun _ => stage a) (lift (stats ADMIN_IDS user_id)) a
                  else if str_eqb name BACKUP
                  then serve (fun _ => stage a) (backup ADMIN_IDS user_id) a
                  else a)) <> disk (talk a) ->
      exists args0, Command name args = Command DELETE args0 /\ In user_id ADMIN_IDS).
    { clear H. intros H. destruct (str_eqb name DELETE) eqn:E.
      - apply str_eqb_eq in E. subst name. exists args. split; [reflexivity|].
        destruct (is_admin ADMIN_IDS user_id) eqn:Ea; [now apply is_admin_In|].
        contradict H. apply Hsame, lift_keeps_disk.
        now apply delete_word_keeps_file_unless_admin.
      - destruct (str_eqb name LIST); [contradict H; apply Hsame, list_words_reads|].
        destruct (str_eqb name STATS);
          [contradict H; apply Hsame, lift_keeps_disk, stats_reads|].
        destruct (str_eqb name BACKUP); [contradict H; apply Hsame, backup_reads|].
        now contradict H. }
    destruct (stage a) as [current|].
    + destruct (str_eqb name CANCEL); [|right; now apply Hrest].
      contradict H. apply Hsame, lift_keeps_disk, cancel_add_keeps_file.
    + destruct (str_eqb name ADD); [|right; now apply Hrest].
      contradict H. apply Hsame, lift_keeps_disk, add_word_start_reads.
  - destruct (stage a) as [[| |]|]; cbn [conversation_handler] in H.
    + contradict H. apply Hsame, lift_keeps_disk, receive_word_keeps_file.
    + contradict H. apply Hsame, lift_keeps_disk, receive_meaning_keeps_file.
    + left. split; [reflexivity | now exists text].
    + contradict H. apply Hsame, lift_keeps_disk, search_words_reads.
  - rewrite conversation_handler_callback in H.
    destruct (stage a) as [[| |]|]; try (now contradict H);
      try (destruct (matches_cancel_add data); [|now contradict H]);
      contradict H; apply Hsame, lift_keeps_disk, button_callback_keeps_file.
Qed.

(** X4. The commands [/start], [/delete], [/list], [/stats] and [/backup]
    are served in every stage of the dialogue: the conversation handler
    has no callback for them, so the callback of the command runs on the
    chat, and an exception it raises goes to the error handler.  They
    leave the dialogue as it is: the stage, the pending term and the
    pending meaning. *)
Theorem commands_keep_dialogue (user_id : Z) (first_name : str)
  (args : list str) (a : application) :
  let process := process_update (handlers lower ADMIN_IDS user_id first_name) in
  let served (callback : Chat unit) := serve (fun _ => stage a) callback a in
  process (Command START args) a = served (start ADMIN_IDS user_id first_name)
  /\ process (Command DELETE args) a
     = served (lift (delete_word lower ADMIN_IDS user_id args))
  /\ process (Command LIST args) a = served (list_words ADMIN_IDS user_id)
  /\ process (Command STATS args) a = served (lift (stats ADMIN_IDS user_id))
  /\ process (Command BACKUP args) a = served (backup ADMIN_IDS user_id)
  /\ forall name, In name [START; DELETE; LIST; STATS; BACKUP] ->
       stage (process (Command name args) a) = stage a
       /\ data (talk (process (Command name args) a)) = data (talk a).
Proof.
  cbv zeta.
  assert (H1 : process_update (handlers lower ADMIN_IDS user_id first_name)
                 (Command START args) a
               = serve (fun _ => stage a) (start ADMIN_IDS user_id first_name) a).
  { now rewrite process_update_route. }
  assert (H2 : process_update (handlers lower ADMIN_IDS user_id first_name)
                 (Command DELETE args) a
               = serve (fun _ => stage a)
                   (lift (delete_word lower ADMIN_IDS user_id args)) a).
  { rewrite process_update_route, conversation_handler_command.
    change (str_eqb DELETE START) with false. change (str_eqb DELETE ADD) with false.
    change (str_eqb DELETE CANCEL) with false. change (str_eqb DELETE DELETE) with true.
    cbv iota. now destruct (stage a). }
  assert (H3 : process_update (handlers lower ADMIN_IDS user_id first_name)
                 (Command LIST args) a
               = serve (fun _ => stage a) (list_words ADMIN_IDS user_id) a).
  { rewrite process_update_route, conversation_handler_command.
    change (str_eqb LIST START) with false. change (str_eqb LIST ADD) with false.
    change (str_eqb LIST CANCEL) with false. change (str_eqb LIST DELETE) with false.
    change (str_eqb LIST LIST) with true.
    cbv iota. now destruct (stage a). }
  assert (H4 : process_update (handlers lower ADMIN_IDS user_id first_name)
                 (Command STATS args) a
               = serve (fun _ => stage a) (lift (stats ADMIN_IDS user_id)) a).
  { rewrite process_update_route, conversation_handler_command.
    change (str_eqb STATS START) with false. change (str_eqb STATS ADD) with false.
    change (str_eqb STATS CANCEL) with false. change (str_eqb STATS DELETE) with false.
    change (str_eqb STATS LIST) with false. change (str_eqb STATS STATS) with true.
    cbv iota. now destruct (stage a). }
  assert (H5 : process_update (handlers lower ADMIN_IDS user_id first_name)
                 (Command BACKUP args) a
               = serve (fun _ => stage a) (backup ADMIN_IDS user_id) a).
  { rewrite process_update_route, conversation_handler_command.
    change (str_eqb BACKUP START) with false. change (str_eqb BACKUP ADD) with false.
    change (str_eqb BACKUP CANCEL) with false. change (str_eqb BACKUP DELETE) with false.
    change (str_eqb BACKUP LIST) with false. change (str_eqb BACKUP STATS) with false.
    change (str_eqb BACKUP BACKUP) with true.
    cbv iota. now destruct (stage a). }
  repeat (split; [assumption|]).
  assert (Hsame : forall m : Chat unit, keeps data m ->
            stage (serve (fun _ => stage a) m a) = stage a
            /\ data (talk (serve (fun _ => stage a) m a)) = data (talk a)).
  { intros m Hm. now rewrite serve_stage, (serve_keeps data). }
  intros name Hn. cbn [In] in Hn.
  destruct Hn as [<- | [<- | [<- | [<- | [<- | []]]]]].
  - rewrite H1. apply Hsame, start_reads.
  - rewrite H2. apply Hsame, lift_keeps_data, delete_word_keeps_user.
  - rewrite H3. apply Hsame, list_words_reads.
  - rewrite H4. apply Hsame, lift_keeps_data, stats_reads.
  - rewrite H5. apply Hsame, backup_reads.
Qed.

(** X5. Updates that no handler takes change nothing and get no answer:
    outside the dialogue, the command [/cancel] and the press of any
    button; inside it, the command [/add]; in the stages [MEANING] and
    [EXAMPLE], the press of any button but the cancel button, the update
    button of an earlier prompt included. *)
Theorem stale_updates_ignored (user_id : Z) (first_name : str) (a : application) :
  let process := process_update (handlers lower ADMIN_IDS user_id first_name) in
  (stage a = None ->
   forall args data,
     process (Command CANCEL args) a = a /\ process (Callback data) a = a)
  /\ (stage a <> None -> forall args, process (Command ADD args) a = a)
  /\ (stage a = Some MEANING \/ stage a = Some EXAMPLE ->
      forall data, matches_cancel_add data = false -> process (Callback data) a = a).
Proof.
  cbv zeta. repeat split.
  - rewrite process_update_route, conversation_handler_command, H. reflexivity.
  - rewrite process_update_route, conversation_handler_callback, H. reflexivity.
  - intros Hs args. rewrite process_update_route, conversation_handler_command.
    destruct (stage a); [reflexivity | contradiction].
  - intros Hs data Hd.
    rewrite process_update_route, conversation_handler_callback.
    destruct Hs as [-> | ->]; now rewrite Hd.
Qed.

(** X6. In every stage of the dialogue the command [/cancel] and the
    cancel button end it: the user data is cleared, the file is left as it
    is, the cancellation is reported and nothing is logged. *)
Theorem cancel_ends_dialogue (user_id : Z) (first_name : str)
  (current : conv_state) (u : update) (a : application) :
  stage a = Some current ->
  (exists args, u = Command CANCEL args) \/ u = Callback CANCEL_ADD ->
  let a' := process_update (handlers lower ADMIN_IDS user_id first_name) u a in
  stage a' = None
  /\ data (talk a') = no_user_data
  /\ disk (talk a') = disk (talk a)
  /\ log (talk a') = log (talk a) ++ [Plain Cancelled]
  /\ logged a' = logged a.
Proof.
  intros Hs Hu a'. subst a'. rewrite process_update_route.
  assert (H : forall next : res handler_ret -> option conv_state,
            next (Val END) = None ->
            let a' := serve next (lift cancel_add) a in
            stage a' = None /\ data (talk a') = no_user_data
            /\ disk (talk a') = disk (talk a)
            /\ log (talk a') = log (talk a) ++ [Plain Cancelled]
            /\ logged a' = logged a).
  { intros next Hn. cbv zeta. unfold serve, lift, cancel_add. cbn. now rewrite Hn. }
  destruct Hu as [[args ->] | ->].
  - change (str_eqb CANCEL START) with false. cbv iota.
    rewrite conversation_handler_command, Hs.
    change (str_eqb CANCEL CANCEL) with true. cbv iota. now apply H.
  - rewrite conversation_handler_callback, Hs.
    change (matches_cancel_add CANCEL_ADD) with true.
    assert (E : button_callback CANCEL_ADD = cancel_add) by reflexivity.
    destruct current; cbv iota; rewrite E; now apply H.
Qed.

End Application_Properties.

(** ** The word list, the backup and the store *)

Lemma lift_pure {A} (m : M A) (r : res A) (c : chat) :
  m (as_world c) = (r, as_world c) -> lift m c = (r, c).
Proof.
  intros H. unfold lift. rewrite H. cbn [as_world file user sent List.map].
  rewrite List.app_nil_r. now destruct c.
Qed.

Lemma lift_run {A} (m : M A) (r : res A) (c : chat) (w : world) :
  m (as_world c) = (r, w) ->
  lift m c = (r, {| disk := file w; data := user w;
                    log := log c ++ List.map Plain (sent w) |}).
Proof. intros H. unfold lift. now rewrite H. Qed.

Lemma bind_chat_val {A B} (m : Chat A) (k : A -> Chat B) (c c' : chat) (a : A) :
  m c = (Val a, c') -> bind_chat m k c = k a c'.
Proof. intros H. unfold bind_chat. now rewrite H. Qed.

Lemma dict_del_set_new (d : items) (k : str) (v : pyval) :
  dict_mem d k = false -> dict_del (dict_set d k v) k = d.
Proof.
  unfold dict_mem. induction d as [|[k' v'] d IH]; cbn [dict_get dict_set dict_del].
  - now rewrite str_eqb_refl.
  - destruct (str_eqb k' k) eqn:E; [discriminate|].
    intros H. cbn [dict_del]. rewrite E. now rewrite IH.
Qed.

Lemma dict_mem_set (d : items) (k : str) (v : pyval) :
  dict_mem (dict_set d k v) k = true.
Proof. unfold dict_mem. now rewrite dict_get_set_same. Qed.

Section Store_Properties.

Variable lower : str -> str.
Variable ADMIN_IDS : list Z.

(** [list_words] for an admin, on a file that loads as a dict. *)
Lemma list_words_run (user_id : Z) (c : chat) (d : items) :
  In user_id ADMIN_IDS -> holds c d ->
  let words := sorted (List.map fst d) in
  list_words ADMIN_IDS user_id c
  = (Val tt,
     posting (match d with
              | [] => [NoWords]
              | _ :: _ =>
                  if (4000 <? length (words_message words))%nat
                  then numbered (chunks words)
                  else [Words words]
              end) c).
Proof.
  intros Ha Hd words. apply is_admin_In in Ha.
  unfold list_words. rewrite Ha. cbn [negb].
  rewrite (bind_chat_val _ _ c c (PDict d)) by now apply lift_pure.
  destruct d as [|kv d']; [reflexivity|].
  cbn [py_truthy negb].
  rewrite (bind_chat_val _ _ c c (List.map fst (kv :: d'))) by now apply lift_pure.
  cbv zeta. fold words.
  destruct (4000 <? length (words_message words))%nat; [|reflexivity].
  now rewrite for_each_posts.
Qed.

(** X7. [/list] of an admin, when the file loads as a dict, lists every key
    of the dict once, in ascending order of code points: in one message
    when the text is at most 4000 characters long, otherwise in parts of at
    most fifty words, which taken one after the other are the sorted words
    and are numbered from one.  An empty dict is answered by the notice
    that the dictionary is empty.  Nothing else is sent and neither the
    file nor the user data change. *)
Theorem list_words_lists_keys (user_id : Z) (c : chat) (d : items) :
  In user_id ADMIN_IDS -> holds c d ->
  let words := sorted (List.map fst d) in
  Permutation words (List.map fst d)
  /\ StronglySorted str_le words
  /\ exists posts,
       list_words ADMIN_IDS user_id c = (Val tt, posting posts c)
       /\ (d = [] -> posts = [NoWords])
       /\ (d <> [] -> (length (words_message words) <= 4000)%nat ->
           posts = [Words words])
       /\ (d <> [] -> (4000 < length (words_message words))%nat ->
           exists parts,
             concat parts = words
             /\ Forall (fun part => (1 <= length part <= 50)%nat) parts
             /\ length parts = ((length d + 49) / 50)%nat
             /\ posts = numbered parts).
Proof.
  intros Ha Hd words.
  split; [apply sorted_perm|]. split; [apply sorted_sorted|].
  eexists. split; [exact (list_words_run user_id c d Ha Hd)|]. fold words.
  split; [intros E; now rewrite E|]. split.
  - intros Hne Hlen. destruct d; [contradiction|].
    apply Nat.ltb_ge in Hlen. now rewrite Hlen.
  - intros Hne Hlen. destruct d as [|kv d']; [contradiction|].
    apply Nat.ltb_lt in Hlen. rewrite Hlen.
    exists (chunks words). split; [apply chunks_concat|].
    split; [apply chunks_sizes|]. split; [|reflexivity].
    rewrite chunks_length. unfold words. now rewrite sorted_length, length_map.
Qed.

(** X8. The commit of the dialogue followed by [/backup], when no text of
    the dict to write holds a surrogate: the document sent is the file as
    the commit wrote it, and it parses to the dict that was loaded with
    the pending term bound to the new entry. *)
Theorem backup_after_commit (user_id : Z) (text word m : str) (c : chat) (d : items) :
  float_round_trip ->
  In user_id ADMIN_IDS -> holds c d ->
  new_word (data c) = Some word -> meaning (data c) = Some m ->
  let d' := dict_set d word (committed m (example_lines text)) in
  clean (PDict d') = true ->
  let c1 := snd (lift (receive_examples text) c) in
  exists content,
    disk c1 = Some content
    /\ backup ADMIN_IDS user_id c1 = (Val tt, posting [Document content] c1)
    /\ json_loads content = Some (PDict d').
Proof.
  intros F Ha Hd Hn Hm d' Hc c1. apply is_admin_In in Ha.
  pose proof (load_plain F _ _ _ Hd) as Hp.
  assert (Hdisk : disk c1 = Some (json_dumps (PDict d'))).
  { subst c1. rewrite lift_disk.
    now rewrite (receive_examples_run text word m (as_world c) d Hd Hn Hm Hc). }
  exists (json_dumps (PDict d')). split; [exact Hdisk|]. split.
  - unfold backup. rewrite Ha. cbn [negb]. unfold bind_chat, read_file.
    now rewrite Hdisk.
  - apply json_loads_dumps. apply plain_dict_set; [assumption|].
    apply plain_entry_value.
Qed.

(** X9. Adding a new word and deleting it again gives the store back, when
    no text of the dict the commit writes holds a surrogate: the file then
    holds the dict that was loaded before the commit, as [save_dictionary]
    writes it. *)
Theorem add_then_delete (user_id : Z) (text word m a : str) (args : list str)
  (w : world) (d : items) :
  float_round_trip ->
  In user_id ADMIN_IDS ->
  load_dictionary w = (Val (PDict d), w) ->
  new_word (user w) = Some word -> meaning (user w) = Some m ->
  dict_mem d word = false ->
  lower (join SPACE (a :: args)) = word ->
  clean (PDict (dict_set d word (committed m (example_lines text)))) = true ->
  let w1 := snd (receive_examples text w) in
  let w2 := snd (delete_word lower ADMIN_IDS user_id (a :: args) w1) in
  file w2 = Some (json_dumps (PDict d))
  /\ load_dictionary w2 = (Val (PDict d), w2)
  /\ sent w2 = sent w ++ [WordAdded word m (example_lines text); Deleted word].
Proof.
  intros F Ha Hl Hn Hm Hnew Hword Hc w1 w2.
  pose proof (load_plain F _ _ _ Hl) as Hp.
  set (d' := dict_set d word (committed m (example_lines text))) in *.
  assert (Hd : dict_del d' word = d) by (subst d'; now rewrite dict_del_set_new).
  assert (Hw1 : w1 = send (WordAdded word m (example_lines text))
                       (cleared (written (PDict d') w))).
  { subst w1. now rewrite (receive_examples_run text word m w d Hl Hn Hm Hc). }
  assert (Hl1 : load_dictionary w1 = (Val (PDict d'), w1)).
  { apply (load_at (written (PDict d') w)); [|now rewrite Hw1].
    apply load_written. apply plain_dict_set; [assumption|].
    apply plain_entry_value. }
  assert (Hw2 : w2 = send (Deleted word) (written (PDict d) w1)).
  { subst w2.
    rewrite (delete_word_present lower ADMIN_IDS user_id a args w1 d' Ha Hl1);
      rewrite Hword.
    - cbn [snd]. now rewrite Hd.
    - apply dict_mem_set.
    - now apply clean_dict_del. }
  split; [now rewrite Hw2|]. split.
  - apply (load_at (written (PDict d) w1)); [|now rewrite Hw2].
    now apply load_written.
  - rewrite Hw2, Hw1. cbn [send written cleared sent].
    now rewrite <- List.app_assoc.
Qed.

(** X10. Deleting a word a second time finds it no longer, when no text of
    what is left of the dict holds a surrogate: the second [/delete]
    reports that the word is not in the dictionary and does not write the
    file. *)
Theorem delete_twice (user_id : Z) (a : str) (args : list str) (w : world) (d : items) :
  float_round_trip ->
  In user_id ADMIN_IDS ->
  load_dictionary w = (Val (PDict d), w) ->
  let word := lower (join SPACE (a :: args)) in
  dict_mem d word = true ->
  clean (PDict (dict_del d word)) = true ->
  let w1 := snd (delete_word lower ADMIN_IDS user_id (a :: args) w) in
  delete_word lower ADMIN_IDS user_id (a :: args) w1
  = (Val tt, send (DeleteNotFound word) w1)
  /\ sent w1 = sent w ++ [Deleted word].
Proof.
  intros F Ha Hl word Hm Hc w1.
  pose proof (load_plain F _ _ _ Hl) as Hp.
  assert (Hw1 : w1 = send (Deleted word) (written (PDict (dict_del d word)) w)).
  { subst w1.
    now rewrite (delete_word_present lower ADMIN_IDS user_id a args w d Ha Hl Hm Hc). }
  split; [|now rewrite Hw1].
  apply (delete_word_absent lower ADMIN_IDS user_id a args w1 (dict_del d word) Ha).
  - apply (load_at (written (PDict (dict_del d word)) w)); [|now rewrite Hw1].
    apply load_written. now apply plain_dict_del.
  - fold word. unfold dict_mem. rewrite dict_get_del_same; [reflexivity|].
    cbn [plain] in Hp. now apply andb_true_iff in Hp as [Hu _].
Qed.

(** X11. A commit adds no second binding for a term: the keys of the dict
    to write are those loaded, in their order, with the pending term at
    the end when it is new, and they are pairwise different; when no text
    of that dict holds a surrogate it is the dict loaded after the
    commit. *)
Theorem commit_keeps_word_order (text word m : str) (w : world) (d : items) :
  float_round_trip ->
  load_dictionary w = (Val (PDict d), w) ->
  new_word (user w) = Some word -> meaning (user w) = Some m ->
  let d' := dict_set d word (committed m (example_lines text)) in
  let w' := snd (receive_examples text w) in
  List.map fst d'
  = (if dict_mem d word then List.map fst d else List.map fst d ++ [word])
  /\ unique (List.map fst d') = true
  /\ (clean (PDict d') = true -> load_dictionary w' = (Val (PDict d'), w')).
Proof.
  intros F Hl Hn Hm d' w'. pose proof (load_plain F _ _ _ Hl) as Hp.
  split; [apply keys_dict_set|]. split.
  - apply unique_dict_set_keys. cbn [plain] in Hp.
    now apply andb_true_iff in Hp as [Hu _].
  - intros Hc. subst w'.
    rewrite (receive_examples_run text word m w d Hl Hn Hm Hc). cbn [snd].
    apply (load_at (written (PDict d') w)); [|reflexivity].
    apply load_written. apply plain_dict_set; [assumption|].
    apply plain_entry_value.
Qed.

(** X12. What [load_dictionary] returns, when none of its texts holds a
    surrogate, [save_dictionary] writes so that [load_dictionary] returns
    it again, and a second save writes the same file; this holds of every
    such file that is valid JSON, whatever its shape. *)
Theorem rewrite_is_stable (w : world) (v : pyval) :
  float_round_trip ->
  load_dictionary w = (Val v, w) ->
  clean v = true ->
  let w1 := snd (save_dictionary v w) in
  fst (save_dictionary v w) = Val tt
  /\ load_dictionary w1 = (Val v, w1)
  /\ file w1 = Some (json_dumps v)
  /\ save_dictionary v w1 = (Val tt, w1).
Proof.
  intros F Hl Hc w1. subst w1. rewrite !(save_clean v) by exact Hc. cbn [fst snd].
  split; [reflexivity|]. split; [|split; reflexivity].
  apply load_written. now apply (load_plain F w w).
Qed.

End Store_Properties.

(** ** The examples of an entry *)

Lemma example_lines_kept (ls : list str) :
  Forall (fun ex => ex <> [] /\ strip ex = ex /\ ~ In NEWLINE ex) ls ->
  example_lines (join [NEWLINE] ls) = ls.
Proof.
  intros H. unfold example_lines. destruct ls as [|l ls]; [reflexivity|].
  rewrite split_join; [|discriminate|].
  - induction H as [|w ws (Hne & Hs & _) _ IH]; [reflexivity|].
    cbn [filter]. rewrite Hs. apply nonempty_true in Hne. rewrite Hne.
    cbn [List.map]. now rewrite Hs, IH.
  - apply (Forall_impl _ (P := fun ex => ex <> [] /\ strip ex = ex /\ ~ In NEWLINE ex));
      [|assumption].
    now intros ex (_ & _ & Hn).
Qed.

(** X13. The examples a commit stores are lines with something on them:
    none is empty, none has whitespace at either end and none holds a line
    break.  Sent again, one per line, they are read as the same
    examples. *)
Theorem examples_are_clean_lines (text : str) :
  let examples := example_lines (strip text) in
  Forall (fun ex => ex <> [] /\ strip ex = ex /\ ~ In NEWLINE ex) examples
  /\ example_lines (strip (join [NEWLINE] examples)) = examples.
Proof.
  cbv zeta. rewrite !example_lines_strip.
  assert (H : Forall (fun ex => ex <> [] /\ strip ex = ex /\ ~ In NEWLINE ex)
                (example_lines text)).
  { unfold example_lines. apply Forall_forall. intros ex Hin.
    apply in_map_iff in Hin as (l & <- & Hl).
    apply filter_In in Hl as [Hl Hne]. apply nonempty_true in Hne.
    split; [assumption|]. split; [apply strip_idem|].
    intros Hn. apply In_strip in Hn.
    pose proof (split_no_sep NEWLINE text) as Hs.
    rewrite Forall_forall in Hs. now apply (Hs l). }
  split; [exact H | now apply example_lines_kept].
Qed.

(** ** The admin identifiers *)

Lemma uint_chars_plain (d : Decimal.uint) :
  Forall (fun c => isspace c = false /\ c <> COMMA) (uint_chars d).
Proof.
  induction d; cbn [uint_chars]; constructor; try assumption;
    (split; [reflexivity | discriminate]).
Qed.

Lemma int_repr_plain (z : Z) :
  Forall (fun c => isspace c = false /\ c <> COMMA) (int_repr z).
Proof.
  unfold int_repr. destruct (Z.to_int z); [apply uint_chars_plain|].
  constructor; [split; [reflexivity | discriminate] | apply uint_chars_plain].
Qed.

Lemma int_repr_nonempty (z : Z) : int_repr z <> [].
Proof.
  unfold int_repr. destruct z; cbn [Z.to_int]; try discriminate.
  - pose proof (DecimalPos.Unsigned.to_uint_nonnil p) as H.
    destruct (Pos.to_uint p); [contradiction | discriminate..].
Qed.

Lemma lstrip_blank (l s : str) : blank l -> lstrip (l ++ s) = lstrip s.
Proof. induction 1 as [|c l Hc _ IH]; [reflexivity|]. cbn. now rewrite Hc. Qed.

Lemma rstrip_blank_nil (r : str) : blank r -> rstrip r = [].
Proof. induction 1 as [|c r Hc _ IH]; [reflexivity|]. cbn. now rewrite IH, Hc. Qed.

Lemma rstrip_app_blank (s r : str) : blank r -> rstrip (s ++ r) = rstrip s.
Proof.
  intros Hr. induction s as [|c s IH].
  - cbn [app]. rewrite rstrip_blank_nil by assumption. reflexivity.
  - cbn [app rstrip]. now rewrite IH.
Qed.

Lemma lstrip_solid (s : str) :
  Forall (fun c => isspace c = false) s -> lstrip s = s.
Proof. destruct 1 as [|c s Hc _]; [reflexivity|]. cbn. now rewrite Hc. Qed.

Lemma rstrip_solid (s : str) :
  Forall (fun c => isspace c = false) s -> rstrip s = s.
Proof.
  induction 1 as [|c s Hc _ IH]; [reflexivity|]. cbn [rstrip]. rewrite IH.
  destruct s; [now rewrite Hc | reflexivity].
Qed.

Lemma strip_padded (l s r : str) :
  blank l -> blank r -> Forall (fun c => isspace c = false) s ->
  strip (l ++ s ++ r) = s.
Proof.
  intros Hl Hr Hs. unfold strip. rewrite rstrip_lstrip.
  rewrite List.app_assoc, rstrip_app_blank by assumption.
  rewrite <- rstrip_lstrip, lstrip_blank by assumption.
  now rewrite lstrip_solid, rstrip_solid.
Qed.

Lemma int_lstrip_solid (s : str) :
  Forall (fun c => isspace c = false) s -> int_lstrip s = s.
Proof.
  destruct 1 as [|c s Hc _]; [reflexivity|]. cbn. unfold int_space. now rewrite Hc.
Qed.

Lemma int_rstrip_solid (s : str) :
  Forall (fun c => isspace c = false) s -> int_rstrip s = s.
Proof.
  induction 1 as [|c s Hc _ IH]; [reflexivity|]. cbn [int_rstrip]. rewrite IH.
  destruct s; [unfold int_space; now rewrite Hc | reflexivity].
Qed.

Section Int_Properties.

Variable todecimal : char -> option N.

Lemma digits_value_digit (acc : Z) (after_digit : bool) (c : char) (r : str) (k : N) :
  (c =? 95) = false -> digit_value todecimal c = Some k ->
  digits_value todecimal acc after_digit (c :: r)
  = digits_value todecimal (10 * acc + Z.of_N k) true r.
Proof. intros H1 H2. cbn [digits_value]. now rewrite H1, H2. Qed.

(** The digits that [int.__repr__] writes are read back. *)
Lemma digits_value_uint (d d' : Decimal.uint) :
  digits_value todecimal (Z.of_N (DecimalPos.Unsigned.of_lu d')) true (uint_chars d)
  = Some (Z.of_N (DecimalPos.Unsigned.of_lu (Decimal.revapp d d'))).
Proof.
  revert d'. induction d; intros d'; cbn [uint_chars Decimal.revapp];
    [ reflexivity
    | rewrite (digits_value_digit _ _ 48 _ 0) by reflexivity
    | rewrite (digits_value_digit _ _ 49 _ 1) by reflexivity
    | rewrite (digits_value_digit _ _ 50 _ 2) by reflexivity
    | rewrite (digits_value_digit _ _ 51 _ 3) by reflexivity
    | rewrite (digits_value_digit _ _ 52 _ 4) by reflexivity
    | rewrite (digits_value_digit _ _ 53 _ 5) by reflexivity
    | rewrite (digits_value_digit _ _ 54 _ 6) by reflexivity
    | rewrite (digits_value_digit _ _ 55 _ 7) by reflexivity
    | rewrite (digits_value_digit _ _ 56 _ 8) by reflexivity
    | rewrite (digits_value_digit _ _ 57 _ 9) by reflexivity ];
    rewrite <- IHd; f_equal; cbn [DecimalPos.Unsigned.of_lu]; lia.
Qed.

Lemma digits_value_start (c : char) (r : str) :
  is_digit c = true ->
  digits_value todecimal 0 false (c :: r) = digits_value todecimal 0 true (c :: r).
Proof.
  intros H. cbn [digits_value].
  assert (E : (c =? 95) = false).
  { unfold is_digit in H. apply andb_true_iff in H as [H1 H2].
    apply N.leb_le in H2. apply N.eqb_neq. lia. }
  now rewrite E.
Qed.

Lemma digits_value_first (d : Decimal.uint) :
  d <> Decimal.Nil ->
  digits_value todecimal 0 false (uint_chars d) = Some (Z.of_N (Pos.of_uint d)).
Proof.
  intros Hd. rewrite DecimalPos.Unsigned.of_uint_alt. unfold Decimal.rev.
  rewrite <- (digits_value_uint d Decimal.Nil).
  destruct (uint_chars_head d Hd) as (c & r & E & Hc & _). rewrite E.
  now apply digits_value_start.
Qed.

Lemma py_int_repr (z : Z) : py_int todecimal (int_repr z) = Some z.
Proof.
  assert (Hs : Forall (fun c => isspace c = false) (int_repr z)).
  { apply (Forall_impl _ (P := fun c => isspace c = false /\ c <> COMMA));
      [now intros c [H _] | apply int_repr_plain]. }
  unfold py_int. rewrite int_lstrip_solid, int_rstrip_solid by assumption.
  unfold int_repr. destruct z as [|p|p]; cbn [Z.to_int].
  - reflexivity.
  - pose proof (DecimalPos.Unsigned.to_uint_nonnil p) as Hn.
    pose proof (digits_value_first (Pos.to_uint p) Hn) as H.
    rewrite DecimalPos.Unsigned.of_to in H.
    destruct (uint_chars_head (Pos.to_uint p) Hn) as (c & r & E & Hc & _).
    rewrite E in *. unfold is_digit in Hc. apply andb_true_iff in Hc as [H1 H2].
    apply N.leb_le in H1, H2.
    assert (E1 : (c =? 45) = false) by (apply N.eqb_neq; lia).
    assert (E2 : (c =? 43) = false) by (apply N.eqb_neq; lia).
    now rewrite E1, E2.
  - pose proof (DecimalPos.Unsigned.to_uint_nonnil p) as Hn.
    pose proof (digits_value_first (Pos.to_uint p) Hn) as H.
    rewrite DecimalPos.Unsigned.of_to in H.
    change (45 :: uint_chars (Pos.to_uint p)) with ([45] ++ uint_chars (Pos.to_uint p)).
    cbn [app]. change (45 =? 45) with true. cbv iota. now rewrite H.
Qed.

Lemma piece_text_strip (p : piece) :
  blank (before p) -> blank (after p) ->
  strip (piece_text p) = match ident p with Some z => int_repr z | None => [] end.
Proof.
  intros Hb Ha. unfold piece_text. apply strip_padded; try assumption.
  destruct (ident p); [|constructor].
  apply (Forall_impl _ (P := fun c => isspace c = false /\ c <> COMMA));
    [now intros c [H _] | apply int_repr_plain].
Qed.

Lemma blank_no_comma (s : str) : blank s -> ~ In COMMA s.
Proof.
  intros H Hin. unfold blank in H. rewrite Forall_forall in H.
  apply H in Hin. discriminate Hin.
Qed.

Lemma piece_text_no_comma (p : piece) :
  blank (before p) -> blank (after p) -> ~ In COMMA (piece_text p).
Proof.
  intros Hb Ha Hin. unfold piece_text in Hin.
  apply in_app_or in Hin as [Hin | Hin]; [now apply (blank_no_comma (before p))|].
  apply in_app_or in Hin as [Hin | Hin]; [|now apply (blank_no_comma (after p))].
  destruct (ident p); [|easy].
  pose proof (int_repr_plain z) as H. rewrite Forall_forall in H.
  now apply H in Hin.
Qed.

Lemma int_each_pieces (pieces : list piece) :
  Forall (fun p => blank (before p) /\ blank (after p)) pieces ->
  int_each todecimal
    (filter (fun id => nonempty (strip id)) (List.map piece_text pieces))
  = Some (flat_map piece_ids pieces).
Proof.
  induction 1 as [|p ps [Hb Ha] _ IH]; [reflexivity|].
  pose proof (piece_text_strip p Hb Ha) as Hs.
  cbn [List.map filter flat_map]. unfold piece_ids at 1. rewrite Hs.
  destruct (ident p) as [z|].
  - pose proof (int_repr_nonempty z) as Hz. apply nonempty_true in Hz. rewrite Hz.
    cbn [int_each]. now rewrite Hs, py_int_repr, IH.
  - cbn [nonempty app]. exact IH.
Qed.

Lemma admin_ids_pieces (pieces : list piece) :
  pieces <> [] ->
  Forall (fun p => blank (before p) /\ blank (after p)) pieces ->
  admin_ids todecimal (join [COMMA] (List.map piece_text pieces))
  = Some (flat_map piece_ids pieces).
Proof.
  intros Hne H. unfold admin_ids. rewrite split_join.
  - now apply int_each_pieces.
  - destruct pieces; [contradiction | discriminate].
  - apply Forall_map. apply (Forall_impl _ (P := fun p => blank (before p) /\ blank (after p)));
      [|assumption].
    intros p [Hb Ha]. now apply piece_text_no_comma.
Qed.

(** X14. [main] reads the admins from the variable [ADMIN_IDS] piece by
    piece: with a token set, for pieces between commas that are each an
    identifier written in decimal, or nothing, with any whitespace around,
    the bot runs with the identifiers in their order; the empty pieces are
    passed over. *)
Theorem main_reads_admin_ids (token : str) (pieces : list piece) :
  token <> [] -> pieces <> [] ->
  Forall (fun p => blank (before p) /\ blank (after p)) pieces ->
  main todecimal (Some token) (Some (join [COMMA] (List.map piece_text pieces)))
  = Running (flat_map piece_ids pieces).
Proof.
  intros Ht Hne H. pose proof (admin_ids_pieces pieces Hne H) as Hids.
  unfold main. destruct token as [|c token]; [contradiction|].
  destruct (join [COMMA] (List.map piece_text pieces)) as [|c' text] eqn:E.
  - cbn in Hids. now injection Hids as <-.
  - now rewrite Hids.
Qed.

End Int_Properties.

(** ** A dialogue through the application *)

Lemma serve_lift_run {A} (next : res A -> option conv_state) (h : M A)
  (a : application) (r : res A) (w : world) :
  h (as_world (talk a)) = (r, w) ->
  serve next (lift h) a
  = {| talk := {| disk := file w; data := user w;
                  log := log (talk a) ++ List.map Plain (sent w) |};
       stage := next r;
       logged := error_handler r (logged a) |}.
Proof. intros H. unfold serve. now rewrite (lift_run _ _ _ _ H). Qed.

Section Dialogue_Properties.

Variable lower : str -> str.
Variable ADMIN_IDS : list Z.

(** X15. An admin who adds a new word and then asks for the list finds the
    word in it, when no text of the dict to write holds a surrogate: from
    outside the dialogue, [/add], the term, the meaning, the examples and
    [/list] are answered by the prompts, the report of the word added and
    the list of the keys of the file with the new term, sorted; the
    dialogue is over and nothing is logged. *)
Theorem added_word_is_listed (user_id : Z) (first_name t m e : str)
  (a : application) (d : items) :
  float_round_trip ->
  In user_id ADMIN_IDS -> stage a = None -> holds (talk a) d ->
  let word := lower (strip t) in
  dict_mem d word = false ->
  clean (PDict (dict_set d word (committed (strip m) (example_lines e)))) = true ->
  let words := sorted (List.map fst d ++ [word]) in
  let a' := polling lower ADMIN_IDS user_id first_name
              [Command ADD []; Text t; Text m; Text e; Command LIST []] a in
  stage a' = None
  /\ logged a' = logged a
  /\ In word words
  /\ log (talk a')
     = log (talk a)
       ++ [Plain AskWord; Plain (AskMeaning word); Plain AskExamples;
           Plain (WordAdded word (strip m) (example_lines e))]
       ++ (if (4000 <? length (words_message words))%nat
           then numbered (chunks words)
           else [Words words]).
Proof.
  intros F Ha Hs Hd word Hnew Hclean words a'.
  pose proof (load_plain F _ _ _ Hd) as Hp.
  pose proof Ha as Hadmin. apply is_admin_In in Hadmin.
  set (ex := example_lines e) in *.
  set (d' := dict_set d word (committed (strip m) ex)) in *.
  set (hs := handlers lower ADMIN_IDS user_id first_name).
  (* /add *)
  set (a1 := {| talk := {| disk := disk (talk a); data := data (talk a);
                           log := log (talk a) ++ [Plain AskWord] |};
                stage := Some WORD; logged := logged a |}).
  assert (H1 : process_update hs (Command ADD []) a = a1).
  { subst hs. rewrite process_update_route.
    change (str_eqb ADD START) with false. cbv iota.
    rewrite conversation_handler_command, Hs.
    change (str_eqb ADD ADD) with true. cbv iota.
    rewrite (serve_lift_run _ _ _ (Val (Goto WORD))
               (send AskWord (as_world (talk a)))); [reflexivity|].
    unfold add_word_start. now rewrite Hadmin. }
  (* the term *)
  set (a2 := {| talk := {| disk := disk (talk a);
                           data := {| new_word := Some word;
                                      meaning := meaning (data (talk a)) |};
                           log := (log (talk a) ++ [Plain AskWord])
                                  ++ [Plain (AskMeaning word)] |};
                stage := Some MEANING; logged := logged a |}).
  assert (H2 : process_update hs (Text t) a1 = a2).
  { subst hs. rewrite process_update_route. cbn [stage a1 conversation_handler].
    rewrite (serve_lift_run _ _ _ (Val (Goto MEANING))
               (send (AskMeaning word) (with_new_word word (as_world (talk a1)))));
      [reflexivity|].
    now apply (receive_word_new lower t (as_world (talk a1)) d). }
  (* the meaning *)
  set (a3 := {| talk := {| disk := disk (talk a);
                           data := {| new_word := Some word; meaning := Some (strip m) |};
                           log := ((log (talk a) ++ [Plain AskWord])
                                   ++ [Plain (AskMeaning word)])
                                  ++ [Plain AskExamples] |};
                stage := Some EXAMPLE; logged := logged a |}).
  assert (H3 : process_update hs (Text m) a2 = a3).
  { subst hs. rewrite process_update_route. cbn [stage a2 conversation_handler].
    now rewrite (serve_lift_run _ _ _ _ _ (receive_meaning_run m (as_world (talk a2)))). }
  (* the examples *)
  set (a4 := {| talk := {| disk := Some (json_dumps (PDict d'));
                           data := no_user_data;
                           log := (((log (talk a) ++ [Plain AskWord])
                                    ++ [Plain (AskMeaning word)])
                                   ++ [Plain AskExamples])
                                  ++ [Plain (WordAdded word (strip m) ex)] |};
                stage := None; logged := logged a |}).
  assert (H4 : process_update hs (Text e) a3 = a4).
  { subst hs. rewrite process_update_route. cbn [stage a3 conversation_handler].
    rewrite (serve_lift_run _ _ _ _ _
               (receive_examples_run e word (strip m) (as_world (talk a3)) d
                  (load_at _ (as_world (talk a3)) _ Hd eq_refl) eq_refl eq_refl
                  Hclean)).
    reflexivity. }
  (* /list *)
  assert (Hd4 : holds (talk a4) d').
  { unfold holds.
    apply (load_written (PDict d')
             {| file := None; user := no_user_data; sent := [] |}).
    apply plain_dict_set; [assumption | apply plain_entry_value]. }
  assert (Hkeys : List.map fst d' = List.map fst d ++ [word]).
  { subst d'. now rewrite keys_dict_set, Hnew. }
  assert (H5 : process_update hs (Command LIST []) a4
               = serve (fun _ => None) (list_words ADMIN_IDS user_id) a4).
  { subst hs. rewrite process_update_route.
    change (str_eqb LIST START) with false. cbv iota.
    rewrite conversation_handler_command. cbn [stage a4].
    change (str_eqb LIST ADD) with false. change (str_eqb LIST DELETE) with false.
    change (str_eqb LIST LIST) with true. reflexivity. }
  assert (E : a' = serve (fun _ => None) (list_words ADMIN_IDS user_id) a4).
  { subst a'. unfold polling. cbn [fold_left]. fold hs.
    now rewrite H1, H2, H3, H4, H5. }
  rewrite E. unfold serve.
  rewrite (list_words_run ADMIN_IDS user_id (talk a4) d' Ha Hd4).
  rewrite Hkeys. fold words.
  cbn [stage logged error_handler talk posting log a4].
  split; [reflexivity|]. split; [reflexivity|]. split.
  - apply (Permutation_in _ (Permutation_sym (sorted_perm _))).
    apply in_or_app. right. now left.
  - assert (Hne : d' <> []).
    { intros E'. rewrite E' in Hkeys. destruct (List.map fst d); discriminate. }
    destruct d' as [|kv rest]; [contradiction|].
    rewrite <- !List.app_assoc. reflexivity.
Qed.

End Dialogue_Properties.

(** ** Over a store no handler raises *)

Lemma stored_at (w w' : world) (d : items) :
  stored w d -> file w' = file w -> stored w' d.
Proof. intros [Hl Hs] E. split; [now apply (load_at w) | assumption]. Qed.

Lemma stored_written (w : world) (d : items) :
  plain (PDict d) = true -> is_store d = true -> stored (written (PDict d) w) d.
Proof. intros Hp Hs. split; [now apply load_written | assumption]. Qed.

Lemma readable_committed (m : str) (examples : list str) :
  readable (committed m examples) = true.
Proof. reflexivity. Qed.

Lemma calm_at {A} (m : M A) (w w' : world) (x : A) (d : items) :
  m w = (Val x, w') -> stored w d -> clean (PDict d) = true ->
  file w' = file w -> calm m w.
Proof.
  intros H Hs Hc E. exists x, w', d.
  split; [assumption|]. split; [now apply (stored_at w) | assumption].
Qed.

Lemma clean_data_fields (u : user_data) :
  clean_data u = true ->
  (forall word, new_word u = Some word -> encodable word = true)
  /\ (forall m, meaning u = Some m -> encodable m = true).
Proof.
  unfold clean_data. intros H. apply andb_true_iff in H as [H1 H2].
  split; [intros word E; now rewrite E in H1 | intros m E; now rewrite E in H2].
Qed.

(** The dict the commit step writes is clean when the dict loaded, the
    user data and the message are. *)
Lemma clean_commit (text word m : str) (u : user_data) (d : items) :
  clean (PDict d) = true -> clean_data u = true -> encodable text = true ->
  new_word u = Some word -> meaning u = Some m ->
  clean (PDict (dict_set d word (committed m (example_lines text)))) = true.
Proof.
  intros Hd Hu Ht Hn Hm. apply clean_data_fields in Hu as [Hw Hmm].
  apply clean_dict_set; [assumption | now apply Hw|].
  apply clean_committed; [now apply Hmm | now apply encodable_example_lines].
Qed.

(** What the callbacks of the dialogue make of clean user data. *)

Lemma button_callback_clean_data (pressed : str) (w : world) :
  encodable pressed = true -> clean_data (user w) = true ->
  clean_data (user (snd (button_callback pressed w))) = true.
Proof.
  intros Hp Hu. unfold button_callback.
  destruct (startswith pressed UPDATE_).
  - cbn. unfold clean_data in *. cbn [new_word meaning].
    apply andb_true_iff in Hu as [_ Hm]. rewrite Hm.
    now rewrite encodable_replace.
  - destruct (str_eqb pressed CANCEL_ADD); [reflexivity | exact Hu].
Qed.

Lemma receive_meaning_clean_data (text : str) (w : world) :
  encodable text = true -> clean_data (user w) = true ->
  clean_data (user (snd (receive_meaning text w))) = true.
Proof.
  intros Ht Hu. rewrite receive_meaning_run. cbn [snd]. unfold clean_data in *.
  cbn [send with_meaning user new_word meaning].
  apply andb_true_iff in Hu as [Hn _]. rewrite Hn.
  now rewrite encodable_strip.
Qed.

Section Calm.

Variable lower : str -> str.
Variable ADMIN_IDS : list Z.

Lemma receive_word_clean_data (text : str) (w : world) :
  lower_clean lower ->
  encodable text = true -> clean_data (user w) = true ->
  clean_data (user (snd (receive_word lower text w))) = true.
Proof.
  intros L Ht Hu.
  destruct (receive_word_next lower text w) as (_ & Hn & Hm).
  unfold clean_data in *. rewrite Hn, Hm.
  apply andb_true_iff in Hu as [_ Hu]. rewrite Hu.
  now rewrite L by now apply encodable_strip.
Qed.

Lemma receive_examples_clean_data (text : str) (w : world) :
  clean_data (user w) = true ->
  clean_data (user (snd (receive_examples text w))) = true.
Proof.
  intros Hu.
  now destruct (receive_examples_next text w) as [(_ & ->) | (_ & ->)].
Qed.

(** One update with clean texts keeps the user data clean. *)
Lemma process_update_clean_data (user_id : Z) (first_name : str) (u : update)
  (a : application) :
  lower_clean lower ->
  clean_update u = true -> clean_data (data (talk a)) = true ->
  clean_data
    (data (talk (process_update (handlers lower ADMIN_IDS user_id first_name) u a)))
  = true.
Proof.
  intros L Hu Ha. rewrite process_update_route.
  assert (Hsame : forall (A : Type) (next : res A -> option conv_state) (m : Chat A),
            keeps data m -> clean_data (data (talk (serve next m a))) = true).
  { intros A next m Hm. now rewrite (serve_keeps data). }
  destruct u as [name args|text|pressed]; cbn [clean_update] in Hu.
  - destruct (str_eqb name START); [apply Hsame, start_reads|].
    rewrite conversation_handler_command.
    assert (Hrest : forall current,
      clean_data
        (data (talk (if str_eqb name DELETE
                     then serve (fun _ => current)
                            (lift (delete_word lower ADMIN_IDS user_id args)) a
                     else if str_eqb name LIST
                     then serve (fun _ => current) (list_words ADMIN_IDS user_id) a
                     else if str_eqb name STATS
                     then serve (fun _ => current) (lift (stats ADMIN_IDS user_id)) a
                     else if str_eqb name BACKUP
                     then serve (fun _ => current) (backup ADMIN_IDS user_id) a
                     else a))) = true).
    { intros current.
      destruct (str_eqb name DELETE);
        [apply Hsame, lift_keeps_data, delete_word_keeps_user|].
      destruct (str_eqb name LIST); [apply Hsame, list_words_reads|].
      destruct (str_eqb name STATS); [apply Hsame, lift_keeps_data, stats_reads|].
      destruct (str_eqb name BACKUP); [apply Hsame, backup_reads | exact Ha]. }
    destruct (stage a) as [current|].
    + destruct (str_eqb name CANCEL); [|apply Hrest].
      now rewrite serve_lift_data.
    + destruct (str_eqb name ADD); [|apply Hrest].
      apply Hsame, lift_keeps_data, add_word_start_reads.
  - destruct (stage a) as [[| |]|]; cbn [conversation_handler].
    + rewrite serve_lift_data. now apply receive_word_clean_data.
    + rewrite serve_lift_data. now apply receive_meaning_clean_data.
    + rewrite serve_lift_data. now apply receive_examples_clean_data.
    + apply Hsame, lift_keeps_data, search_words_reads.
  - rewrite conversation_handler_callback.
    destruct (stage a) as [[| |]|]; try exact Ha;
      try (destruct (matches_cancel_add pressed); [|exact Ha]);
      rewrite serve_lift_data; now apply button_callback_clean_data.
Qed.

Lemma add_word_start_calm (user_id : Z) (w : world) (d : items) :
  stored w d -> clean (PDict d) = true -> calm (add_word_start ADMIN_IDS user_id) w.
Proof.
  intros Hs Hc. unfold add_word_start.
  destruct (is_admin ADMIN_IDS user_id); cbn [negb];
    eapply calm_at; try reflexivity; eassumption.
Qed.

Lemma receive_word_calm (text : str) (w : world) (d : items) :
  stored w d -> clean (PDict d) = true -> calm (receive_word lower text) w.
Proof.
  intros Hs Hcl. pose proof Hs as [Hl Hr].
  destruct (dict_get d (lower (strip text))) as [data|] eqn:Hg.
  - pose proof (dict_get_readable d _ data Hr Hg) as Hd.
    unfold readable, entry_view in Hd.
    destruct (py_getitem data EXAMPLES_KEY) as [exs|]; [|discriminate].
    destruct (py_iter exs); [|discriminate].
    destruct (py_getitem data MEANING_KEY) as [current|] eqn:Hc; [|discriminate].
    eapply calm_at; [|eassumption|eassumption|].
    + now apply (receive_word_collision lower text w d data current).
    + reflexivity.
  - eapply calm_at; [|eassumption|eassumption|].
    + apply (receive_word_new lower text w d Hl). unfold dict_mem. now rewrite Hg.
    + reflexivity.
Qed.

Lemma receive_meaning_calm (text : str) (w : world) (d : items) :
  stored w d -> clean (PDict d) = true -> calm (receive_meaning text) w.
Proof.
  intros Hs Hc.
  eapply calm_at; [apply receive_meaning_run | eassumption | eassumption | reflexivity].
Qed.

Lemma cancel_add_calm (w : world) (d : items) :
  stored w d -> clean (PDict d) = true -> calm cancel_add w.
Proof.
  intros Hs Hc. eapply calm_at; [reflexivity | eassumption | eassumption | reflexivity].
Qed.

Lemma button_callback_calm (pressed : str) (w : world) (d : items) :
  stored w d -> clean (PDict d) = true -> calm (button_callback pressed) w.
Proof.
  intros Hs Hc. unfold button_callback.
  destruct (startswith pressed UPDATE_);
    [eapply calm_at; [reflexivity | eassumption | eassumption | reflexivity]|].
  destruct (str_eqb pressed CANCEL_ADD);
    eapply calm_at; try reflexivity; eassumption.
Qed.

Lemma receive_examples_calm (F : float_round_trip) (text : str) (w : world) (d : items) :
  stored w d -> clean (PDict d) = true ->
  clean_data (user w) = true -> encodable text = true ->
  new_word (user w) <> None -> meaning (user w) <> None ->
  calm (receive_examples text) w.
Proof.
  intros [Hl Hr] Hc Hu Ht Hn Hm.
  destruct (new_word (user w)) as [word|] eqn:En; [|contradiction].
  destruct (meaning (user w)) as [m|] eqn:Em; [|contradiction].
  pose proof (load_plain F _ _ _ Hl) as Hp.
  pose proof (clean_commit text word m (user w) d Hc Hu Ht En Em) as Hc'.
  do 3 eexists. split; [now apply (receive_examples_run text word m w d)|].
  split; [|exact Hc'].
  apply (stored_at (written (PDict (dict_set d word (committed m (example_lines text)))) w));
    [|reflexivity].
  apply stored_written.
  - apply plain_dict_set; [assumption | apply plain_entry_value].
  - unfold is_store. apply (forallb_dict_set readable); [exact Hr | reflexivity].
Qed.

Lemma delete_word_calm (F : float_round_trip) (user_id : Z) (args : list str)
  (w : world) (d : items) :
  stored w d -> clean (PDict d) = true ->
  calm (delete_word lower ADMIN_IDS user_id args) w.
Proof.
  intros Hs Hc. pose proof Hs as [Hl Hr].
  destruct (is_admin ADMIN_IDS user_id) eqn:Ea.
  - apply is_admin_In in Ea. destruct args as [|a args].
    + eapply calm_at; [|eassumption|eassumption|].
      * unfold delete_word. apply is_admin_In in Ea. rewrite Ea. reflexivity.
      * reflexivity.
    + destruct (dict_mem d (lower (join SPACE (a :: args)))) eqn:Hm.
      * pose proof (load_plain F _ _ _ Hl) as Hp.
        pose proof (clean_dict_del d (lower (join SPACE (a :: args))) Hc) as Hc'.
        do 3 eexists.
        split; [now apply (delete_word_present lower ADMIN_IDS user_id a args w d)|].
        split; [|exact Hc'].
        apply (stored_at (written (PDict (dict_del d (lower (join SPACE (a :: args))))) w));
          [|reflexivity].
        apply stored_written; [now apply plain_dict_del|].
        unfold is_store. now apply forallb_dict_del.
      * eapply calm_at; [|eassumption|eassumption|].
        -- now apply (delete_word_absent lower ADMIN_IDS user_id a args w d).
        -- reflexivity.
  - eapply calm_at; [|eassumption|eassumption|].
    + unfold delete_word. rewrite Ea. reflexivity.
    + reflexivity.
Qed.

Lemma stats_calm (user_id : Z) (w : world) (d : items) :
  stored w d -> clean (PDict d) = true -> calm (stats ADMIN_IDS user_id) w.
Proof.
  intros Hs Hc. pose proof Hs as [Hl Hr].
  unfold calm, stats. destruct (is_admin ADMIN_IDS user_id); cbn [negb].
  - rewrite (bind_val _ _ _ _ _ Hl).
    cbn [py_len py_values]. rewrite !bind_eval.
    rewrite sum_examples_readable by (unfold is_store in Hr; now rewrite <- forallb_map_snd).
    rewrite bind_eval.
    exists tt. eexists. exists d. split; [reflexivity|].
    split; [now apply (stored_at w) | assumption].
  - exists tt. eexists. exists d. split; [reflexivity|].
    split; [now apply (stored_at w) | assumption].
Qed.

Lemma search_words_calm (text : str) (w : world) (d : items) :
  stored w d -> clean (PDict d) = true -> calm (search_words lower text) w.
Proof.
  intros Hs Hc. pose proof Hs as [Hl Hr]. unfold is_store in Hr.
  unfold calm, search_words. rewrite (bind_val _ _ _ _ _ Hl).
  destruct d as [|kv d].
  - exists tt. eexists. exists []. split; [reflexivity|].
    split; [now apply (stored_at w) | reflexivity].
  - cbn [py_truthy negb]. rewrite (search_loop_store _ _ Hr), bind_eval.
    destruct (matches (kv :: d) _) as [|r rs];
      destruct (unmatched (kv :: d) _) as [|u us];
      (exists tt; eexists; exists (kv :: d); split; [reflexivity|];
       split; [now apply (stored_at w) | assumption]).
Qed.

(** The same in the chat. *)

Lemma lift_quiet {A} (m : M A) (c : chat) : calm m (as_world c) -> quiet (lift m) c.
Proof.
  intros (x & w' & d' & Hm & Hs & Hc). do 2 eexists.
  split; [now apply (lift_run m (Val x) c w')|].
  exists d'. split; [now apply (stored_at w') | assumption].
Qed.

Lemma quiet_posting {A} (m : Chat A) (c : chat) (x : A) (posts : list post) :
  m c = (Val x, posting posts c) -> sound c -> quiet m c.
Proof.
  intros H (d & Hs & Hc). exists x, (posting posts c). split; [assumption|].
  exists d. split; [now apply (stored_at (as_world c)) | assumption].
Qed.

Lemma start_quiet (user_id : Z) (first_name : str) (c : chat) :
  sound c -> quiet (start ADMIN_IDS user_id first_name) c.
Proof.
  apply (quiet_posting _ _ tt [Welcome first_name (is_admin ADMIN_IDS user_id)]).
  reflexivity.
Qed.

Lemma backup_quiet (user_id : Z) (c : chat) :
  sound c -> quiet (backup ADMIN_IDS user_id) c.
Proof.
  intros Hs. unfold backup. destruct (is_admin ADMIN_IDS user_id); cbn [negb].
  - apply (quiet_posting _ _ tt
             [match disk c with Some content => Document content | None => NoFile end]);
      [|assumption].
    unfold bind_chat, read_file. now destruct (disk c).
  - apply lift_quiet. destruct Hs as (d & Hs & Hc).
    eapply calm_at; [reflexivity | eassumption | eassumption | reflexivity].
Qed.

Lemma list_words_quiet (user_id : Z) (c : chat) :
  sound c -> quiet (list_words ADMIN_IDS user_id) c.
Proof.
  intros Hs. destruct (is_admin ADMIN_IDS user_id) eqn:Ea.
  - apply is_admin_In in Ea. destruct Hs as (d & Hd & Hc).
    eapply quiet_posting; [|now exists d].
    apply (list_words_run ADMIN_IDS user_id c d Ea). now destruct Hd.
  - unfold list_words. rewrite Ea. cbn [negb]. apply lift_quiet.
    destruct Hs as (d & Hs & Hc).
    eapply calm_at; [reflexivity | eassumption | eassumption | reflexivity].
Qed.

Lemma serve_quiet {A} (next : res A -> option conv_state) (m : Chat A)
  (a : application) :
  quiet m (talk a) ->
  sound (talk (serve next m a)) /\ logged (serve next m a) = logged a.
Proof. intros (x & c' & Hm & Hs). unfold serve. rewrite Hm. now split. Qed.

(** One update with clean texts, over a clean store and with the clean
    user data the stage relies on. *)
Lemma process_update_quiet (F : float_round_trip) (user_id : Z) (first_name : str)
  (u : update) (a : application) :
  pending_ok a -> sound (talk a) -> clean_data (data (talk a)) = true ->
  clean_update u = true ->
  let a' := process_update (handlers lower ADMIN_IDS user_id first_name) u a in
  sound (talk a') /\ logged a' = logged a.
Proof.
  intros Hp Hs Hdata Hu a'. subst a'. rewrite process_update_route.
  assert (Hlift : forall (A : Type) (next : res A -> option conv_state) (m : M A),
            calm m (as_world (talk a)) ->
            sound (talk (serve next (lift m) a))
            /\ logged (serve next (lift m) a) = logged a).
  { intros A next m Hm. now apply serve_quiet, lift_quiet. }
  pose proof Hs as (d & Hd & Hc).
  destruct u as [name args|text|pressed]; cbn [clean_update] in Hu.
  - destruct (str_eqb name START); [now apply serve_quiet, start_quiet|].
    rewrite conversation_handler_command.
    assert (Hrest : forall current,
      let a' := if str_eqb name DELETE
                then serve (fun _ => current)
                       (lift (delete_word lower ADMIN_IDS user_id args)) a
                else if str_eqb name LIST
                then serve (fun _ => current) (list_words ADMIN_IDS user_id) a
                else if str_eqb name STATS
                then serve (fun _ => current) (lift (stats ADMIN_IDS user_id)) a
                else if str_eqb name BACKUP
                then serve (fun _ => current) (backup ADMIN_IDS user_id) a
                else a in
      sound (talk a') /\ logged a' = logged a).
    { intros current. cbv zeta.
      destruct (str_eqb name DELETE); [now apply Hlift, (delete_word_calm F _ _ _ d)|].
      destruct (str_eqb name LIST); [now apply serve_quiet, list_words_quiet|].
      destruct (str_eqb name STATS); [now apply Hlift, (stats_calm _ _ d)|].
      destruct (str_eqb name BACKUP); [now apply serve_quiet, backup_quiet|].
      now split. }
    destruct (stage a) as [current|].
    + destruct (str_eqb name CANCEL); [now apply Hlift, (cancel_add_calm _ d)|].
      apply Hrest.
    + destruct (str_eqb name ADD); [now apply Hlift, (add_word_start_calm _ _ d)|].
      apply Hrest.
  - unfold pending_ok in Hp.
    destruct (stage a) as [[| |]|]; cbn [conversation_handler].
    + now apply Hlift, (receive_word_calm _ _ d).
    + now apply Hlift, (receive_meaning_calm _ _ d).
    + destruct Hp as [Hn Hm]. now apply Hlift, (receive_examples_calm F _ _ d).
    + now apply Hlift, (search_words_calm _ _ d).
  - rewrite conversation_handler_callback.
    destruct (stage a) as [[| |]|]; try (now split);
      try (destruct (matches_cancel_add pressed); [|now split]);
      now apply Hlift, (button_callback_calm _ _ d).
Qed.

(** X16. Over a file that loads as a store, a dict whose entries all have a
    meaning and examples, no handler ever raises as long as no text holds
    a surrogate, in the store, in the user data or in the updates:
    whatever such updates one user sends, starting from user data that
    fits the stage, nothing is logged by [error_handler], and the file
    still loads as such a store. *)
Theorem no_exception_over_a_store (user_id : Z) (first_name : str)
  (updates : list update) (a : application) :
  float_round_trip -> lower_clean lower ->
  pending_ok a -> sound (talk a) -> clean_data (data (talk a)) = true ->
  Forall (fun u => clean_update u = true) updates ->
  let a' := polling lower ADMIN_IDS user_id first_name updates a in
  logged a' = logged a /\ sound (talk a') /\ pending_ok a'
  /\ clean_data (data (talk a')) = true.
Proof.
  intros F L. unfold polling. revert a.
  induction updates as [|u us IH]; intros a Hp Hs Hd Hus; [now repeat split|].
  inversion Hus as [|? ? Hu Hus']; subst.
  cbn [fold_left].
  destruct (process_update_quiet F user_id first_name u a Hp Hs Hd Hu) as [Hs' Hl].
  pose proof (process_update_pending lower ADMIN_IDS user_id first_name u a Hp) as Hp'.
  pose proof (process_update_clean_data user_id first_name u a L Hu Hd) as Hd'.
  destruct (IH _ Hp' Hs' Hd' Hus') as (H1 & H2 & H3 & H4).
  cbv zeta. rewrite H1, Hl. now repeat split.
Qed.

End Calm.

(** ** What is written to the file *)

(** The commit step goes through, or raises before it writes and changes
    nothing, or raises while it writes. *)
Lemma receive_examples_cases (text : str) (w : world) :
  (exists e, receive_examples text w = (Exn e, w))
  \/ (exists word m d,
        new_word (user w) = Some word /\ meaning (user w) = Some m
        /\ load_dictionary w = (Val (PDict d), w)
        /\ let d' := dict_set d word (committed m (example_lines text)) in
           (clean (PDict d') = true
            /\ receive_examples text w
               = (Val END,
                  send (WordAdded word m (example_lines text))
                    (cleared (written (PDict d') w))))
           \/ (clean (PDict d') = false
               /\ exists cut,
                    receive_examples text w
                    = (Exn UnicodeEncodeError,
                       {| file := Some cut; user := user w; sent := sent w |})
                    /\ cut_short cut (json_dumps (PDict d')))).
Proof.
  destruct (new_word (user w)) as [word|] eqn:En.
  - destruct (meaning (user w)) as [m|] eqn:Em.
    + pose proof (load_unchanged w) as Hw.
      destruct (load_dictionary w) as [[v|e] w1] eqn:Hl; cbn [snd] in Hw; subst w1.
      * destruct v;
          try (left; exists TypeError; unfold receive_examples;
               rewrite (bind_val _ _ w w word) by (unfold get_user_data; now rewrite En);
               rewrite (bind_val _ _ w w m) by (unfold get_user_data; now rewrite Em);
               rewrite (bind_val _ _ _ _ _ Hl); reflexivity).
        right. exists word, m, d. repeat (split; [assumption || reflexivity|]).
        cbv zeta.
        destruct (clean (PDict (dict_set d word (committed m (example_lines text)))))
          eqn:Hc.
        -- left. split; [reflexivity|]. now apply receive_examples_run.
        -- right. split; [reflexivity|]. now apply receive_examples_stops.
      * left. exists e. unfold receive_examples.
        rewrite (bind_val _ _ w w word) by (unfold get_user_data; now rewrite En).
        rewrite (bind_val _ _ w w m) by (unfold get_user_data; now rewrite Em).
        now rewrite (bind_exn _ _ _ _ _ Hl).
    + left. exists KeyError. unfold receive_examples.
      rewrite (bind_val _ _ w w word) by (unfold get_user_data; now rewrite En).
      apply bind_exn. unfold get_user_data. now rewrite Em.
  - left. exists KeyError. unfold receive_examples.
    apply bind_exn. unfold get_user_data. now rewrite En.
Qed.

Lemma loadable_load (w : world) :
  loadable (file w) ->
  exists v, load_dictionary w = (Val v, w) /\ clean v = true.
Proof.
  unfold loadable, load_dictionary. destruct (file w) as [text|].
  - intros (v & -> & Hc). now exists v.
  - intros _. now exists (PDict []).
Qed.

Lemma loadable_written (v : pyval) :
  plain v = true -> clean v = true -> loadable (Some (json_dumps v)).
Proof. intros Hp Hc. exists v. split; [now apply json_loads_dumps | assumption]. Qed.

(** The commit step with clean texts leaves a file that loads. *)
Lemma receive_examples_loadable (F : float_round_trip) (text : str) (w : world) :
  clean_data (user w) = true -> encodable text = true ->
  loadable (file w) -> loadable (file (snd (receive_examples text w))).
Proof.
  intros Hu Ht Hf.
  destruct (receive_examples_cases text w)
    as [(e & ->) | (word & m & d & Hn & Hm & Hl & Hcases)]; [exact Hf|].
  destruct (loadable_load w Hf) as (v & Hl' & Hc).
  rewrite Hl in Hl'. injection Hl' as <-.
  pose proof (clean_commit text word m (user w) d Hc Hu Ht Hn Hm) as Hc'.
  cbv zeta in Hcases. destruct Hcases as [(_ & ->) | (Hno & _)]; [|congruence].
  cbn [snd send cleared written file]. apply loadable_written; [|exact Hc'].
  apply plain_dict_set; [now apply (load_plain F w w) | apply plain_entry_value].
Qed.

Section Writes.

Variable lower : str -> str.
Variable ADMIN_IDS : list Z.

(** [delete_word] leaves the file as it is, or finds the word in the dict
    it loaded and writes what is left. *)
Lemma delete_word_cases (user_id : Z) (args : list str) (w : world) :
  file (snd (delete_word lower ADMIN_IDS user_id args w)) = file w
  \/ (exists d,
        load_dictionary w = (Val (PDict d), w)
        /\ let word := lower (join SPACE args) in
           let d' := dict_del d word in
           (clean (PDict d') = true
            /\ delete_word lower ADMIN_IDS user_id args w
               = (Val tt, send (Deleted word) (written (PDict d') w)))
           \/ (clean (PDict d') = false
               /\ exists cut,
                    delete_word lower ADMIN_IDS user_id args w
                    = (Exn UnicodeEncodeError,
                       {| file := Some cut; user := user w; sent := sent w |})
                    /\ cut_short cut (json_dumps (PDict d')))).
Proof.
  destruct (is_admin ADMIN_IDS user_id) eqn:Ea;
    [|left; unfold delete_word; now rewrite Ea].
  apply is_admin_In in Ea.
  destruct args as [|a args];
    [left; unfold delete_word; now destruct (negb (is_admin ADMIN_IDS user_id))|].
  pose proof (load_unchanged w) as Hw.
  destruct (load_dictionary w) as [[v|e] w1] eqn:Hl; cbn [snd] in Hw; subst w1.
  - destruct v as [|b|z|l|s|l|d];
      try (left; unfold delete_word; apply is_admin_In in Ea; rewrite Ea; cbn [negb];
           rewrite (bind_val _ _ _ _ _ Hl); unfold bind, eval;
           destruct (py_contains _ _) as [[|]|]; reflexivity).
    destruct (dict_mem d (lower (join SPACE (a :: args)))) eqn:Hm.
    + right. exists d. split; [reflexivity|]. cbv zeta.
      destruct (clean (PDict (dict_del d (lower (join SPACE (a :: args)))))) eqn:Hc.
      * left. split; [reflexivity|]. now apply delete_word_present.
      * right. split; [reflexivity|]. now apply delete_word_stops.
    + left. now rewrite (delete_word_absent lower ADMIN_IDS user_id a args w d Ea Hl Hm).
  - left. unfold delete_word. apply is_admin_In in Ea. rewrite Ea. cbn [negb].
    now rewrite (bind_exn _ _ _ _ _ Hl).
Qed.

Lemma delete_word_loadable (F : float_round_trip) (user_id : Z) (args : list str)
  (w : world) :
  loadable (file w) ->
  loadable (file (snd (delete_word lower ADMIN_IDS user_id args w))).
Proof.
  intros Hf.
  destruct (delete_word_cases user_id args w) as [-> | (d & Hl & Hcases)]; [exact Hf|].
  destruct (loadable_load w Hf) as (v & Hl' & Hc).
  rewrite Hl in Hl'. injection Hl' as <-.
  pose proof (clean_dict_del d (lower (join SPACE args)) Hc) as Hc'.
  cbv zeta in Hcases. destruct Hcases as [(_ & ->) | (Hno & _)]; [|congruence].
  cbn [snd send written file]. apply loadable_written; [|exact Hc'].
  apply plain_dict_del. now apply (load_plain F w w).
Qed.

(** One update leaves the file as it is, or writes it in the commit step
    or in [delete_word]. *)
Lemma process_update_disk (user_id : Z) (first_name : str) (u : update)
  (a : application) :
  let a' := process_update (handlers lower ADMIN_IDS user_id first_name) u a in
  disk (talk a') = disk (talk a)
  \/ (exists text,
        u = Text text
        /\ disk (talk a') = file (snd (receive_examples text (as_world (talk a)))))
  \/ (exists args,
        disk (talk a')
        = file (snd (delete_word lower ADMIN_IDS user_id args (as_world (talk a))))).
Proof.
  cbv zeta. rewrite process_update_route.
  assert (Hsame : forall (A : Type) (next : res A -> option conv_state) (m : Chat A),
            keeps disk m -> disk (talk (serve next m a)) = disk (talk a)).
  { intros A next m Hm. now apply serve_keeps. }
  destruct u as [name args|text|pressed].
  - destruct (str_eqb name START); [left; apply Hsame, start_reads|].
    rewrite conversation_handler_command.
    assert (Hrest : forall current,
      let a' := if str_eqb name DELETE
                then serve (fun _ => current)
                       (lift (delete_word lower ADMIN_IDS user_id args)) a
                else if str_eqb name LIST
                then serve (fun _ => current) (list_words ADMIN_IDS user_id) a
                else if str_eqb name STATS
                then serve (fun _ => current) (lift (stats ADMIN_IDS user_id)) a
                else if str_eqb name BACKUP
                then serve (fun _ => current) (backup ADMIN_IDS user_id) a
                else a in
      disk (talk a') = disk (talk a)
      \/ (exists text,
            Command name args = Text text
            /\ disk (talk a') = file (snd (receive_examples text (as_world (talk a)))))
      \/ (exists args0,
            disk (talk a')
            = file (snd (delete_word lower ADMIN_IDS user_id args0 (as_world (talk a)))))).
    { intros current. cbv zeta.
      destruct (str_eqb name DELETE).
      { right. right. exists args. now rewrite serve_lift_disk. }
      destruct (str_eqb name LIST); [left; apply Hsame, list_words_reads|].
      destruct (str_eqb name STATS); [left; apply Hsame, lift_keeps_disk, stats_reads|].
      destruct (str_eqb name BACKUP); [left; apply Hsame, backup_reads|].
      now left. }
    destruct (stage a) as [current|].
    + destruct (str_eqb name CANCEL); [|apply Hrest].
      left. apply Hsame, lift_keeps_disk, cancel_add_keeps_file.
    + destruct (str_eqb name ADD); [|apply Hrest].
      left. apply Hsame, lift_keeps_disk, add_word_start_reads.
  - destruct (stage a) as [[| |]|]; cbn [conversation_handler].
    + left. apply Hsame, lift_keeps_disk, receive_word_keeps_file.
    + left. apply Hsame, lift_keeps_disk, receive_meaning_keeps_file.
    + right. left. exists text. split; [reflexivity|]. now rewrite serve_lift_disk.
    + left. apply Hsame, lift_keeps_disk, search_words_reads.
  - rewrite conversation_handler_callback.
    destruct (stage a) as [[| |]|]; try (now left);
      try (destruct (matches_cancel_add pressed); [|now left]);
      left; apply Hsame, lift_keeps_disk, button_callback_keeps_file.
Qed.

(** One update leaves the file as it is, or loads it before it writes. *)
Lemma process_update_file (user_id : Z) (first_name : str) (u : update)
  (a : application) :
  let a' := process_update (handlers lower ADMIN_IDS user_id first_name) u a in
  disk (talk a') = disk (talk a)
  \/ exists v, fst (load_dictionary (as_world (talk a))) = Val v.
Proof.
  cbv zeta.
  destruct (process_update_disk user_id first_name u a)
    as [E | [(text & _ & ->) | (args & ->)]]; [now left| |].
  - destruct (receive_examples_cases text (as_world (talk a)))
      as [(e & ->) | (word & m & d & _ & _ & Hl & _)]; [now left|].
    right. exists (PDict d). now rewrite Hl.
  - destruct (delete_word_cases user_id args (as_world (talk a)))
      as [-> | (d & Hl & _)]; [now left|].
    right. exists (PDict d). now rewrite Hl.
Qed.

(** One update with clean texts leaves a file that loads. *)
Lemma process_update_loadable (F : float_round_trip) (user_id : Z)
  (first_name : str) (u : update) (a : application) :
  clean_update u = true -> clean_data (data (talk a)) = true ->
  loadable (disk (talk a)) ->
  loadable
    (disk (talk (process_update (handlers lower ADMIN_IDS user_id first_name) u a))).
Proof.
  intros Hu Hd Hf.
  destruct (process_update_disk user_id first_name u a)
    as [-> | [(text & -> & ->) | (args & ->)]]; [exact Hf| |].
  - now apply receive_examples_loadable.
  - now apply delete_word_loadable.
Qed.

(** X17. The bot keeps its file readable as long as no text holds a
    surrogate: when the file is absent or holds valid JSON, whatever its
    shape, and neither what it loads to nor the user data nor the updates
    hold a surrogate, the same is true after any such updates of one
    user. *)
Theorem file_stays_loadable (user_id : Z) (first_name : str)
  (updates : list update) (a : application) :
  float_round_trip -> lower_clean lower ->
  loadable (disk (talk a)) -> clean_data (data (talk a)) = true ->
  Forall (fun u => clean_update u = true) updates ->
  let a' := polling lower ADMIN_IDS user_id first_name updates a in
  loadable (disk (talk a')) /\ clean_data (data (talk a')) = true.
Proof.
  intros F L. unfold polling. revert a.
  induction updates as [|u us IH]; intros a Hf Hd Hus; [now split|].
  inversion Hus as [|? ? Hu Hus']; subst.
  cbn [fold_left]. apply IH; [| |exact Hus'].
  - now apply process_update_loadable.
  - now apply process_update_clean_data.
Qed.

(** X18. The bot never writes over a file it cannot read: when the text of
    the file is not valid JSON, the file stays as it is whatever updates
    one user sends, commits and deletions included. *)
Theorem corrupt_file_is_never_rewritten (user_id : Z) (first_name : str)
  (updates : list update) (a : application) (text : str) :
  disk (talk a) = Some text -> json_loads text = None ->
  disk (talk (polling lower ADMIN_IDS user_id first_name updates a)) = Some text.
Proof.
  unfold polling. revert a.
  induction updates as [|u us IH]; intros a Hd Hj; [exact Hd|].
  cbn [fold_left]. apply IH; [|exact Hj].
  destruct (process_update_file user_id first_name u a) as [E | (v & Hl)];
    [now rewrite E|].
  rewrite (load_corrupt (as_world (talk a)) text Hd Hj) in Hl. discriminate Hl.
Qed.

End Writes.

(** ** The stages of the dialogue and the commit *)

Lemma may_follow_refl (current : option conv_state) : may_follow current current = true.
Proof. now destruct current as [[| |]|]. Qed.

Lemma matches_cancel_add_not_update (pressed : str) :
  matches_cancel_add pressed = true -> startswith pressed UPDATE_ = false.
Proof.
  unfold matches_cancel_add. intros H. apply orb_true_iff in H as [H | H];
    apply str_eqb_eq in H; subst; reflexivity.
Qed.

Lemma dict_set_new (d : items) (k : str) (v : pyval) :
  dict_mem d k = false -> dict_set d k v = d ++ [(k, v)].
Proof.
  unfold dict_mem. induction d as [|[k' v'] d IH]; cbn [dict_get dict_set app];
    [reflexivity|].
  destruct (str_eqb k' k); [discriminate|]. intros H. now rewrite IH.
Qed.

Lemma total_examples_set (d : items) (word : str) (v : pyval) :
  unique (List.map fst d) = true ->
  (total_examples (dict_set d word v) + examples_of d word
   = total_examples d + examples_count v)%nat.
Proof.
  unfold total_examples, examples_of.
  induction d as [|[k v'] d IH]; intros Hu.
  - cbn [dict_set dict_get List.map list_sum fold_right snd]. lia.
  - cbn [List.map fst unique] in Hu. apply andb_true_iff in Hu as [Hk Hu].
    cbn [dict_set dict_get]. destruct (str_eqb k word) eqn:E.
    + cbn [List.map list_sum fold_right snd]. lia.
    + cbn [List.map list_sum fold_right snd]. specialize (IH Hu). unfold list_sum in IH. lia.
Qed.

Lemma length_dict_set (d : items) (word : str) (v : pyval) :
  length (dict_set d word v)
  = (length d + if dict_mem d word then 0 else 1)%nat.
Proof.
  rewrite <- (length_map fst), keys_dict_set.
  destruct (dict_mem d word); rewrite ?length_app, length_map; cbn; lia.
Qed.

Section Stage_Properties.

Variable lower : str -> str.
Variable ADMIN_IDS : list Z.

(** [stats] of an admin over a store. *)
Lemma stats_run (user_id : Z) (w : world) (d : items) :
  In user_id ADMIN_IDS -> stored w d ->
  exists avg : Q,
    stats ADMIN_IDS user_id w
    = (Val tt, send (Stats (length d) (total_examples d) avg) w).
Proof.
  intros Ha [Hl Hr]. apply is_admin_In in Ha.
  unfold stats. rewrite Ha. cbn [negb].
  rewrite (bind_val _ _ _ _ _ Hl).
  cbn [py_len py_values]. rewrite !bind_eval.
  assert (Hsum : sum_examples (List.map snd d) = Val (total_examples d)).
  { rewrite sum_examples_readable.
    - unfold total_examples. now rewrite List.map_map.
    - unfold is_store in Hr. now rewrite <- forallb_map_snd. }
  rewrite Hsum, bind_eval. eexists. reflexivity.
Qed.

(** X19. The counts of [/stats] follow a commit: over a store, after the
    commit of a term with its examples, when no text of the dict to write
    holds a surrogate, the number of words is one more when the term is
    new and the same when it is not, and the number of examples is the
    one before, less the examples the term had, plus the examples
    committed. *)
Theorem stats_after_commit (user_id : Z) (text word m : str) (w : world) (d : items) :
  float_round_trip ->
  In user_id ADMIN_IDS -> stored w d ->
  new_word (user w) = Some word -> meaning (user w) = Some m ->
  clean (PDict (dict_set d word (committed m (example_lines text)))) = true ->
  let w1 := snd (receive_examples text w) in
  exists (total_words total : nat) (avg : Q),
    stats ADMIN_IDS user_id w1 = (Val tt, send (Stats total_words total avg) w1)
    /\ total_words = (length d + if dict_mem d word then 0 else 1)%nat
    /\ (total + examples_of d word
        = total_examples d + length (example_lines text))%nat.
Proof.
  intros F Ha [Hl Hr] Hn Hm Hc w1.
  pose proof (load_plain F _ _ _ Hl) as Hp.
  set (d' := dict_set d word (committed m (example_lines text))) in *.
  assert (Hs1 : stored w1 d').
  { apply (stored_at (written (PDict d') w)).
    - apply stored_written.
      + apply plain_dict_set; [assumption | apply plain_entry_value].
      + unfold is_store. apply (forallb_dict_set readable); [exact Hr | reflexivity].
    - subst w1. now rewrite (receive_examples_run text word m w d Hl Hn Hm Hc). }
  destruct (stats_run user_id w1 d' Ha Hs1) as [avg Hrun].
  exists (length d'), (total_examples d'), avg. split; [exact Hrun|]. split.
  - apply length_dict_set.
  - subst d'. rewrite total_examples_set.
    + unfold committed, examples_count. cbn. now rewrite length_map.
    + cbn [plain] in Hp. now apply andb_true_iff in Hp as [Hu _].
Qed.

(** X20. The dialogue moves by its stages only: outside it an update
    leaves it closed or opens it at [WORD]; from [WORD] it stays, goes on
    to [MEANING] or ends; from [MEANING] it stays, goes on to [EXAMPLE] or
    ends; from [EXAMPLE] it stays or ends.  No update skips a stage or
    goes back. *)
Theorem stage_transitions (user_id : Z) (first_name : str) (u : update)
  (a : application) :
  may_follow (stage a)
    (stage (process_update (handlers lower ADMIN_IDS user_id first_name) u a))
  = true.
Proof.
  rewrite process_update_route.
  destruct u as [name args|text|pressed].
  - destruct (str_eqb name START); [rewrite serve_stage; apply may_follow_refl|].
    rewrite conversation_handler_command.
    destruct (stage a) as [current|] eqn:Hs.
    + destruct (str_eqb name CANCEL).
      * rewrite serve_lift_stage. now destruct current.
      * destruct (str_eqb name DELETE); [rewrite serve_stage; apply may_follow_refl|].
        destruct (str_eqb name LIST); [rewrite serve_stage; apply may_follow_refl|].
        destruct (str_eqb name STATS); [rewrite serve_stage; apply may_follow_refl|].
        destruct (str_eqb name BACKUP); [rewrite serve_stage; apply may_follow_refl|].
        rewrite Hs. apply may_follow_refl.
    + destruct (str_eqb name ADD).
      * rewrite serve_lift_stage, add_word_start_next.
        now destruct (is_admin ADMIN_IDS user_id).
      * destruct (str_eqb name DELETE); [rewrite serve_stage; reflexivity|].
        destruct (str_eqb name LIST); [rewrite serve_stage; reflexivity|].
        destruct (str_eqb name STATS); [rewrite serve_stage; reflexivity|].
        destruct (str_eqb name BACKUP); [rewrite serve_stage; reflexivity|].
        now rewrite Hs.
  - destruct (stage a) as [[| |]|] eqn:Hs; cbn [conversation_handler].
    + rewrite serve_lift_stage.
      now destruct (receive_word_next lower text (as_world (talk a))) as ([-> | ->] & _).
    + rewrite serve_lift_stage. reflexivity.
    + rewrite serve_lift_stage.
      now destruct (receive_examples_next text (as_world (talk a)))
        as [(-> & _) | (-> & _)].
    + rewrite serve_stage. reflexivity.
  - rewrite conversation_handler_callback.
    destruct (stage a) as [[| |]|] eqn:Hs; try (rewrite Hs; reflexivity).
    + rewrite serve_lift_stage.
      now destruct (button_callback_next WORD pressed (as_world (talk a)))
        as [(-> & _) | [(-> & _) | (-> & _)]].
    + destruct (matches_cancel_add pressed) eqn:Hc; [|now rewrite Hs].
      rewrite serve_lift_stage. unfold button_callback.
      rewrite (matches_cancel_add_not_update pressed Hc).
      now destruct (str_eqb pressed CANCEL_ADD).
    + destruct (matches_cancel_add pressed) eqn:Hc; [|now rewrite Hs].
      rewrite serve_lift_stage. unfold button_callback.
      rewrite (matches_cancel_add_not_update pressed Hc).
      now destruct (str_eqb pressed CANCEL_ADD).
Qed.

(** X21. The three outcomes of the commit.  A text message in the stage
    [EXAMPLE] either commits: the entry is written to the file, the user
    data is cleared, the dialogue ends, the word-added report is sent and
    nothing is logged; or it raises before it writes: the exception is
    logged and the chat is as before, file, user data and messages, and
    the dialogue stays in [EXAMPLE]; or it raises while it writes, when a
    text of the dict to write holds a surrogate: [UnicodeEncodeError] is
    logged, the file is left with a beginning of the text that is not all
    of it, the user data and the messages are as before and the dialogue
    stays in [EXAMPLE]; when floats are written as they are read, that
    file no longer loads: [load_dictionary] raises [JSONDecodeError]. *)
Theorem commit_outcomes (user_id : Z) (first_name text : str) (a : application) :
  stage a = Some EXAMPLE ->
  let a' := process_update (handlers lower ADMIN_IDS user_id first_name) (Text text) a in
  (exists word m d,
     new_word (data (talk a)) = Some word /\ meaning (data (talk a)) = Some m
     /\ holds (talk a) d
     /\ clean (PDict (dict_set d word (committed m (example_lines text)))) = true
     /\ stage a' = None
     /\ data (talk a') = no_user_data
     /\ disk (talk a')
        = Some (json_dumps (PDict (dict_set d word
                                     (committed m (example_lines text)))))
     /\ log (talk a') = log (talk a) ++ [Plain (WordAdded word m (example_lines text))]
     /\ logged a' = logged a)
  \/ (exists e,
        stage a' = Some EXAMPLE /\ talk a' = talk a /\ logged a' = logged a ++ [e])
  \/ (exists word m d cut,
        new_word (data (talk a)) = Some word /\ meaning (data (talk a)) = Some m
        /\ holds (talk a) d
        /\ clean (PDict (dict_set d word (committed m (example_lines text)))) = false
        /\ stage a' = Some EXAMPLE
        /\ data (talk a') = data (talk a)
        /\ disk (talk a') = Some cut
        /\ cut_short cut
             (json_dumps (PDict (dict_set d word
                                   (committed m (example_lines text)))))
        /\ log (talk a') = log (talk a)
        /\ logged a' = logged a ++ [UnicodeEncodeError]
        /\ (float_round_trip ->
            load_dictionary (as_world (talk a'))
            = (Exn JSONDecodeError, as_world (talk a')))).
Proof.
  intros Hs a'. subst a'. rewrite process_update_route, Hs.
  cbn [conversation_handler].
  destruct (receive_examples_cases text (as_world (talk a)))
    as [(e & Hrun) | (word & m & d & Hn & Hm & Hl & Hcases)].
  - right. left. exists e. rewrite (serve_lift_run _ _ _ _ _ Hrun).
    cbn [stage talk logged next_state error_handler as_world file user sent List.map].
    rewrite List.app_nil_r. repeat split. now destruct (talk a).
  - cbv zeta in Hcases. destruct Hcases as [(Hc & Hrun) | (Hc & cut & Hrun & Hcut)].
    + left. exists word, m, d.
      rewrite (serve_lift_run _ _ _ _ _ Hrun). now repeat split.
    + right. right. exists word, m, d, cut.
      rewrite (serve_lift_run _ _ _ _ _ Hrun).
      cbn [stage talk logged next_state error_handler as_world file user sent
           List.map disk data log].
      rewrite List.app_nil_r.
      repeat (split; [assumption || reflexivity|]).
      intros F.
      apply (load_cut_short
               (PDict (dict_set d word (committed m (example_lines text)))) cut);
        [|reflexivity|exact Hcut|reflexivity].
      apply plain_dict_set; [|apply plain_entry_value].
      exact (load_plain F _ _ _ Hl).
Qed.

End Stage_Properties.

End Bot.

(* ================================================================== *)
(** ** Concrete runs *)

Local Open Scope N_scope.

(** [repr_kept] reads back what it writes. *)
Lemma repr_kept_round_trip : float_round_trip repr_kept.
Proof.
  intros l H. unfold float_literal in H.
  destruct (match_number repr_kept l) as [[v r]|] eqn:E; [|discriminate].
  destruct v; try discriminate. destruct r; [|discriminate].
  pose proof (match_number_float_whole repr_kept l _ E) as Ht. unfold repr_kept in Ht.
  subst text. unfold repr_kept at 2, float_lexeme.
  rewrite scan_atom_number by congruence. rewrite E. apply str_eqb_refl.
Qed.


(** The text [json.dump] writes for a store of one entry, with two spaces
    of indentation per level. *)
Example json_dumps_layout :
  json_dumps (PDict [(CAT, committed (lit "pet") [lit "Meow."; lit "Purr."])])
  = lit "{" ++ NL
    ++ lit "  " ++ quoted CAT ++ lit ": {" ++ NL
    ++ lit "    " ++ quoted MEANING_KEY ++ lit ": " ++ quoted (lit "pet") ++ lit "," ++ NL
    ++ lit "    " ++ quoted EXAMPLES_KEY ++ lit ": [" ++ NL
    ++ lit "      " ++ quoted (lit "Meow.") ++ lit "," ++ NL
    ++ lit "      " ++ quoted (lit "Purr.") ++ NL
    ++ lit "    ]" ++ NL
    ++ lit "  }" ++ NL
    ++ lit "}".
Proof. vm_compute. reflexivity. Qed.

(** A text with escapes, numbers, a repeated key and whitespace, read by
    [json.loads]: the later value of the key stays, at the place of the
    first. *)
Example json_loads_sample :
  json_loads repr_kept (lit " {" ++ quoted (lit "a") ++ lit ": [1, -20, 1.5, true, null], "
              ++ quoted (lit "b\n\u00e9") ++ lit " : {}, "
              ++ quoted (lit "a") ++ lit ": " ++ quoted (lit "x") ++ lit "} ")
  = Some (PDict [(lit "a", PStr (lit "x")); ([98; 10; 233], PDict [])]).
Proof. vm_compute. reflexivity. Qed.

(** Texts that are not JSON. *)
Example json_loads_rejects :
  json_loads repr_kept (lit "{") = None
  /\ json_loads repr_kept (lit "[1,]") = None
  /\ json_loads repr_kept (lit "01") = None
  /\ json_loads repr_kept (lit "{} {}") = None
  /\ json_loads repr_kept [] = None.
Proof. repeat split; vm_compute; reflexivity. Qed.

(** The example of the specification: the store holds [cat] and [dog]
    and the query is [Cat, fox, DOG]. *)
Example resolve_cat_fox_dog :
  snd (search_words repr_kept lower_latin1 (lit "Cat, fox, DOG") (world_holding cat_dog))
  = send (NotFound [FOX])
      (send (Results [(CAT, PStr (lit "a small pet"), [PStr (lit "The cat sleeps.")]);
                      (DOG, PStr (lit "a loyal pet"),
                       [PStr (lit "The dog barks."); PStr (lit "A dog runs.")])])
         (world_holding cat_dog)).
Proof. vm_compute. reflexivity. Qed.

(** The dialogue of the specification: the new term [happy]. *)
Example dialogue_happy :
  run repr_kept lower_latin1 ADMINS 42
    [Command ADD []; Text (lit "happy"); Text (lit "feeling joy");
     Text (lit "She felt happy." ++ [NEWLINE] ++ lit "He is happy too.")]
    {| state := world_of_file None; conversation := None |}
  = Some {| state :=
              {| file := Some (json_dumps
                                 (PDict [(lit "happy",
                                          committed (lit "feeling joy")
                                            [lit "She felt happy."; lit "He is happy too."])]));
                 user := no_user_data;
                 sent := [AskWord; AskMeaning (lit "happy"); AskExamples;
                          WordAdded (lit "happy") (lit "feeling joy")
                            [lit "She felt happy."; lit "He is happy too."]] |};
            conversation := None |}.
Proof. vm_compute. reflexivity. Qed.

(** C1 fails for a term that contains a comma.  The add dialogue stores
    the term [a,b]; a search for the very same text looks up [a] and [b]
    and finds neither. *)
Lemma comma_term_not_found :
  exists b1,
    run repr_kept lower_latin1 ADMINS 42
      (dialogue lower_latin1 [] (lit "a,b") (lit "m") (lit "e"))
      (awaiting_word (world_of_file None)) = Some b1
    /\ fst (load_dictionary repr_kept (state b1))
       = Val (PDict [(lit "a,b", committed (lit "m") [lit "e"])])
    /\ lower_latin1 (strip (lit "a,b")) = lit "a,b"
    /\ snd (search_words repr_kept lower_latin1 (lit "a,b") (state b1))
       = send (NotFound [lit "a"; lit "b"]) (state b1)
    /\ snd (search_words repr_kept lower_latin1 (lit "a,b") (state b1))
       <> send (Results [(lit "a,b", PStr (lit "m"), [PStr (lit "e")])]) (state b1).
Proof.
  eexists. split; [vm_compute; reflexivity|].
  split; [vm_compute; reflexivity|].
  split; [vm_compute; reflexivity|].
  split; [vm_compute; reflexivity|].
  vm_compute. discriminate.
Qed.

(** C2 fails on a repeated and on an empty token.  With [cat] and [dog] in
    the store, the query [cat, cat,,fox] returns the entry of [cat] twice
    and reports the empty word and [fox] as not found, where the tokens of
    the specification would give one entry and [fox] alone. *)
Lemma repeated_and_empty_tokens_kept :
  snd (search_words repr_kept lower_latin1 (lit "cat, cat,,fox") (world_holding cat_dog))
  = send (NotFound [[]; FOX])
      (send (Results [(CAT, PStr (lit "a small pet"), [PStr (lit "The cat sleeps.")]);
                      (CAT, PStr (lit "a small pet"), [PStr (lit "The cat sleeps.")])])
         (world_holding cat_dog))
  /\ tokens_spec lower_latin1 (lit "cat, cat,,fox") = [CAT; FOX]
  /\ search_replies cat_dog (tokens_spec lower_latin1 (lit "cat, cat,,fox"))
     = [Results [(CAT, PStr (lit "a small pet"), [PStr (lit "The cat sleeps.")])];
        NotFound [FOX]].
Proof. repeat split; vm_compute; reflexivity. Qed.

(** C9 fails on a file that holds valid JSON of another shape:
    [load_dictionary] returns the list, it reports no failure. *)
Lemma load_returns_a_list :
  load_dictionary repr_kept (world_of_file (Some (lit "[1]")))
  = (Val (PList [PInt 1]), world_of_file (Some (lit "[1]")))
  /\ forall d, PList [PInt 1] <> PDict d.
Proof. split; [vm_compute; reflexivity | discriminate]. Qed.

(** C7 fails for a mapping that holds a lone surrogate, such as the one
    [load_dictionary] returns for the file [half_pair_file]: saved over a
    file that held [cat] and [dog], it makes [save_dictionary] raise
    [UnicodeEncodeError]; the file is left with the text up to the
    meaning of [cat], and [load_dictionary] then raises
    [JSONDecodeError] instead of returning the mapping. *)
Lemma lone_surrogate_not_saved :
  let m := [(CAT, {| entry_meaning := HALF_PAIR; entry_examples := [] |});
            (DOG, {| entry_meaning := lit "a loyal pet"; entry_examples := [] |})] in
  let saved := save_dictionary (mapping_value m) (world_holding cat_dog) in
  unique (List.map fst m) = true
  /\ load_dictionary repr_kept (world_of_file (Some half_pair_file))
     = (Val (mapping_value m), world_of_file (Some half_pair_file))
  /\ fst saved = Exn UnicodeEncodeError
  /\ file (snd saved)
     = Some (lit "{" ++ NL ++ lit "  " ++ quoted CAT ++ lit ": {" ++ NL
             ++ lit "    " ++ quoted MEANING_KEY ++ lit ": ")
  /\ load_dictionary repr_kept (snd saved) = (Exn JSONDecodeError, snd saved).
Proof. repeat split; vm_compute; reflexivity. Qed.

(** C3 fails over a file that holds a lone surrogate.  With the term [fox]
    and its meaning pending over the file [half_pair_file], the examples
    message [A fox.] is taken by the step of the state [EXAMPLE], but
    nothing is committed and no completion is returned: the write of the
    dict raises [UnicodeEncodeError], the session stays open in
    [EXAMPLE] with its user data, no reply is sent, and the file is left
    with a text that [load_dictionary] rejects. *)
Lemma commit_stops_at_a_surrogate :
  exists b',
    add_word_handler repr_kept lower_latin1 ADMINS 42 (Text (lit "A fox."))
      fox_pending_half_pair = Some b'
    /\ fst (receive_examples repr_kept (lit "A fox.") (state fox_pending_half_pair))
       = Exn UnicodeEncodeError
    /\ conversation b' = Some EXAMPLE
    /\ user (state b') = user (state fox_pending_half_pair)
    /\ sent (state b') = []
    /\ file (state b')
       = Some (lit "{" ++ NL ++ lit "  " ++ quoted CAT ++ lit ": {" ++ NL
               ++ lit "    " ++ quoted MEANING_KEY ++ lit ": ")
    /\ load_dictionary repr_kept (state b') = (Exn JSONDecodeError, state b').
Proof.
  eexists. split; [vm_compute; reflexivity|].
  repeat split; vm_compute; reflexivity.
Qed.

(** C10 fails over a file that holds a lone surrogate.  The file
    [half_pair_file] holds [cat] and [dog]; the admin deletes [dog].  The
    entry of [cat], whose term differs, is not left as it was in the
    file: the write of what is left raises [UnicodeEncodeError], the file
    ends before the meaning of [cat], and [load_dictionary] no longer
    returns any entry. *)
Lemma delete_loses_the_other_entry :
  let w := world_of_file (Some half_pair_file) in
  let deleted := delete_word repr_kept lower_latin1 ADMINS 42 [DOG] w in
  load_dictionary repr_kept w = (Val (PDict half_pair), w)
  /\ CAT <> lower_latin1 (join SPACE [DOG])
  /\ dict_get half_pair CAT = Some (committed HALF_PAIR [])
  /\ fst deleted = Exn UnicodeEncodeError
  /\ file (snd deleted)
     = Some (lit "{" ++ NL ++ lit "  " ++ quoted CAT ++ lit ": {" ++ NL
             ++ lit "    " ++ quoted MEANING_KEY ++ lit ": ")
  /\ load_dictionary repr_kept (snd deleted) = (Exn JSONDecodeError, snd deleted).
Proof.
  repeat split; try (vm_compute; reflexivity). vm_compute. discriminate.
Qed.

(** C4 at the term [update_x].  The term is in the store; the admin
    submits it, is shown the prompt and presses the update button, whose
    callback data is [update_update_x].  The conversation moves to
    [MEANING], but the pending term is [x], not [update_x]: [replace]
    removed both occurrences of [update_]. *)
Theorem update_button_loses_term :
  let d := [(lit "update_x", cat_entry)] in
  exists b1 b2,
    add_word_handler repr_kept lower_latin1 ADMINS 42 (Text (lit "update_x"))
      (awaiting_word (world_holding d)) = Some b1
    /\ conversation b1 = Some WORD
    /\ sent (state b1)
       = [WordExists (lit "update_x") (PStr (lit "a small pet"))
            [lit "update_update_x"; lit "cancel_add"]]
    /\ add_word_handler repr_kept lower_latin1 ADMINS 42 (Callback (lit "update_update_x")) b1
       = Some b2
    /\ conversation b2 = Some MEANING
    /\ new_word (user (state b2)) = Some (lit "x")
    /\ lit "x" <> lit "update_x".
Proof.
  do 2 eexists. split; [vm_compute; reflexivity|].
  split; [reflexivity|]. split; [vm_compute; reflexivity|].
  split; [vm_compute; reflexivity|].
  split; [reflexivity|]. split; [vm_compute; reflexivity|].
  vm_compute. discriminate.
Qed.

(** C5 at the term [ice  cream], written with two spaces.  The add
    dialogue stores it under that key and a search finds it.  The command
    [/delete ice  cream] reaches [delete_word] with the arguments [ice] and
    [cream], which it joins with one space: the word looked up is
    [ice cream], the reply says it was not found and the entry stays. *)
Theorem delete_misses_inner_whitespace :
  exists b1,
    run repr_kept lower_latin1 ADMINS 42
      (dialogue lower_latin1 [] (lit "ice  cream") (lit "frozen dessert") (lit "Yum."))
      (awaiting_word (world_of_file None)) = Some b1
    /\ fst (load_dictionary repr_kept (state b1))
       = Val (PDict [(lit "ice  cream", committed (lit "frozen dessert") [lit "Yum."])])
    /\ lower_latin1 (strip (lit "ice  cream")) = lit "ice  cream"
    /\ command_args (lit "/delete ice  cream") = [lit "ice"; lit "cream"]
    /\ delete_word repr_kept lower_latin1 ADMINS 42 (command_args (lit "/delete ice  cream"))
         (state b1)
       = (Val tt, send (DeleteNotFound (lit "ice cream")) (state b1))
    /\ snd (search_words repr_kept lower_latin1 (lit "ice  cream")
              (snd (delete_word repr_kept lower_latin1 ADMINS 42
                      (command_args (lit "/delete ice  cream")) (state b1))))
       = send (Results [(lit "ice  cream", PStr (lit "frozen dessert"),
                         [PStr (lit "Yum.")])])
           (send (DeleteNotFound (lit "ice cream")) (state b1)).
Proof.
  eexists. split; [vm_compute; reflexivity|].
  repeat split; vm_compute; reflexivity.
Qed.

(** *** The theorems applied *)


Lemma save_then_load_witness :
  let m := [(CAT, {| entry_meaning := lit "a small pet";
                     entry_examples := [lit "The cat sleeps."] |})] in
  let saved := save_dictionary (mapping_value m) (world_of_file None) in
  fst saved = Val tt
  /\ load_dictionary repr_kept (snd saved) = (Val (mapping_value m), snd saved).
Proof.
  intros m saved.
  destruct (save_then_load repr_kept m (world_of_file None)) as [Hsaved _].
  - reflexivity.
  - destruct (Hsaved eq_refl) as (H1 & _ & H3 & _). split; [exact H1 | exact H3].
Defined.


Lemma receive_examples_commits_witness :
  exists b',
    add_word_handler repr_kept lower_latin1 ADMINS 42
      (Text (lit " A fox." ++ NL ++ lit "  " ++ NL ++ lit "It runs. ")) fox_pending
    = Some b'
    /\ conversation b' = None
    /\ user (state b') = no_user_data
    /\ load_dictionary repr_kept (state b')
       = (Val (PDict (cat_dog
                      ++ [(FOX, committed (lit "a wild animal")
                                  [lit "A fox."; lit "It runs."])])),
          state b')
    /\ sent (state b')
       = [WordAdded FOX (lit "a wild animal") [lit "A fox."; lit "It runs."]].
Proof.
  destruct (receive_examples_commits repr_kept lower_latin1 ADMINS 42
              [lit " A fox."; lit "  "; lit "It runs. "] FOX
              (lit "a wild animal") fox_pending cat_dog)
    as (b' & H1 & Hclean & _).
  - exact repr_kept_round_trip.
  - reflexivity.
  - vm_compute. reflexivity.
  - reflexivity.
  - reflexivity.
  - repeat constructor; unfold NEWLINE; cbn; lia.
  - destruct (Hclean eq_refl) as (H2 & H3 & _ & H5 & H6).
    exists b'. split; [exact H1|]. split; [exact H2|]. split; [exact H3|].
    split; [exact H5 | exact H6].
Defined.

Lemma store_mutations_frame_witness :
  (let d' := dict_set cat_dog FOX (committed (lit "a wild animal") [lit "A fox."]) in
   let w' := snd (receive_examples repr_kept (lit "A fox.") (state fox_pending)) in
   dict_get d' CAT = Some cat_entry
   /\ file w' = Some (json_dumps (PDict d'))
   /\ load_dictionary repr_kept w' = (Val (PDict d'), w'))
  /\ (let d' := dict_del cat_dog DOG in
      let w' := snd (delete_word repr_kept lower_latin1 ADMINS 42 [lit "DOG"]
                       (state fox_pending)) in
      dict_get d' CAT = Some cat_entry
      /\ file w' = Some (json_dumps (PDict d'))
      /\ load_dictionary repr_kept w' = (Val (PDict d'), w')).
Proof.
  destruct (store_mutations_frame repr_kept lower_latin1 ADMINS (state fox_pending)
              cat_dog CAT)
    as [Hup Hdel].
  - exact repr_kept_round_trip.
  - vm_compute. reflexivity.
  - split.
    + destruct (Hup (lit "A fox.") FOX (lit "a wild animal")) as (H1 & H2 & _).
      * reflexivity.
      * reflexivity.
      * discriminate.
      * destruct (H2 eq_refl) as [H3 H4].
        split; [exact H1|]. split; [exact H3 | exact H4].
    + destruct (Hdel 42%Z (lit "DOG") []) as (H1 & H2 & _).
      * unfold ADMINS. simpl. lia.
      * discriminate.
      * destruct (H2 eq_refl eq_refl) as [H3 H4].
        split; [exact H1|]. split; [exact H3 | exact H4].
Defined.

Lemma load_dictionary_outcomes_witness :
  load_dictionary repr_kept (world_of_file None) = (Val (PDict []), world_of_file None)
  /\ load_dictionary repr_kept (world_of_file (Some (lit "[1]")))
     = (Val (PList [PInt 1]), world_of_file (Some (lit "[1]")))
  /\ load_dictionary repr_kept (world_of_file (Some (lit "{")))
     = (Exn JSONDecodeError, world_of_file (Some (lit "{")))
  /\ search_words repr_kept lower_latin1 CAT (world_of_file (Some (lit "{")))
     = (Exn JSONDecodeError, world_of_file (Some (lit "{"))).
Proof.
  split; [|split].
  - apply (load_dictionary_outcomes repr_kept lower_latin1 ADMINS (world_of_file None)).
    reflexivity.
  - apply (proj1 (proj2 (load_dictionary_outcomes repr_kept lower_latin1 ADMINS
                           (world_of_file (Some (lit "[1]")))))
             (lit "[1]") (PList [PInt 1])).
    + reflexivity.
    + vm_compute. reflexivity.
  - destruct (proj2 (proj2 (load_dictionary_outcomes repr_kept lower_latin1 ADMINS
                              (world_of_file (Some (lit "{")))))
                (lit "{")) as (H1 & _ & _ & _ & _ & H6).
    + reflexivity.
    + vm_compute. reflexivity.
    + split; [exact H1 | apply H6].
Defined.

Lemma search_words_resolves_witness :
  exists w',
    search_words repr_kept lower_latin1 (lit "Cat, fox, DOG") (world_holding cat_dog) = (Val tt, w')
    /\ sent w'
       = search_replies cat_dog (tokens lower_latin1 (lit "Cat, fox, DOG")).
Proof.
  destruct (search_words_resolves repr_kept lower_latin1 (lit "Cat, fox, DOG")
              (world_holding cat_dog) cat_dog) as (w' & H1 & _ & _ & _ & H5).
  - split; [vm_compute; reflexivity | reflexivity].
  - exists w'. split; [exact H1|]. apply H5. discriminate.
Defined.

Lemma upsert_then_get_witness :
  exists b',
    run repr_kept lower_latin1 ADMINS 42
      (dialogue lower_latin1 cat_dog (lit " Cat ") (lit "a house pet") (lit "Meow."))
      (awaiting_word (world_holding cat_dog)) = Some b'
    /\ conversation b' = None
    /\ search_words repr_kept lower_latin1 (lit "CAT  ") (state b')
       = (Val tt,
          send (Results [(CAT, PStr (lit "a house pet"), [PStr (lit "Meow.")])])
            (state b')).
Proof.
  apply (upsert_then_get repr_kept lower_latin1 ADMINS 42 (lit " Cat ")
           (lit "a house pet") (lit "Meow.") (lit "CAT  ")
           (awaiting_word (world_holding cat_dog)) cat_dog).
  - exact repr_kept_round_trip.
  - reflexivity.
  - split; [vm_compute; reflexivity | reflexivity].
  - intros _. reflexivity.
  - reflexivity.
  - unfold comma_free, COMMA. cbn. lia.
  - reflexivity.
Defined.

(** *** The other handlers on concrete inputs *)

(** [sorted] orders by code points: the empty string first, capitals
    before small letters, letters with accents last. *)
Example sorted_by_code_points :
  sorted [lit "b"; lit "a"; lit "ab"; []; lit "B"; [233]; lit "a"]
  = [[]; lit "B"; lit "a"; lit "a"; lit "ab"; lit "b"; [233]].
Proof. vm_compute. reflexivity. Qed.

(** The text [list_words] measures for two words. *)
Example words_message_text :
  words_message [CAT; DOG]
  = [128218; 32; 42] ++ lit "Dictionary Words (2 total)*" ++ [10; 10]
    ++ [8226; 32] ++ lit "cat" ++ [10] ++ [8226; 32] ++ lit "dog".
Proof. vm_compute. reflexivity. Qed.

(** A hundred and twenty words make three parts. *)
Example chunks_of_120 :
  List.map (@length str) (chunks (repeat CAT 120)) = [50; 50; 20]%nat.
Proof. vm_compute. reflexivity. Qed.

(** [int] on texts: whitespace around, a sign, single underscores between
    digits and leading zeros are read; an empty text, a lone sign, an
    underscore at either end or doubled, and a space after the sign are
    not. *)
Example py_int_samples :
  List.map (py_int no_other_digits)
    [lit " 5 "; lit "+5"; lit "-0"; lit "1_0"; lit "007";
     []; lit "+"; lit "_1"; lit "1_"; lit "1__0"; lit "- 1"; lit "0x10"]
  = [Some 5%Z; Some 5%Z; Some 0%Z; Some 10%Z; Some 7%Z;
     None; None; None; None; None; None; None].
Proof. vm_compute. reflexivity. Qed.

(** [main] without a token, without admins, and with an identifier that is
    not a number. *)
Example main_samples :
  main no_other_digits None (Some (lit "42")) = NoToken
  /\ main no_other_digits (Some (lit "t")) None = Running []
  /\ main no_other_digits (Some (lit "t")) (Some (lit "42,x")) = ValueError.
Proof. repeat split; vm_compute; reflexivity. Qed.

(** *** The theorems about the application applied *)

Lemma dialogue_data_invariant_witness :
  let a' := polling repr_kept lower_latin1 ADMINS 42 ANN
              [Command ADD []; Text FOX; Text (lit "a wild animal")] (fresh None) in
  pending_ok a'
  /\ (stage a' = Some EXAMPLE ->
      forall text, fst (receive_examples repr_kept text (as_world (talk a'))) <> Exn KeyError).
Proof.
  apply (dialogue_data_invariant repr_kept lower_latin1 ADMINS 42 ANN
           [Command ADD []; Text FOX; Text (lit "a wild animal")] (fresh None)).
  reflexivity.
Defined.

Lemma non_admin_changes_nothing_witness :
  let a := serving (chat_holding cat_dog) None in
  let a' := polling repr_kept lower_latin1 ADMINS 7 ANN
              [Command ADD []; Text CAT; Command DELETE [CAT]] a in
  disk (talk a') = disk (talk a) /\ data (talk a') = data (talk a) /\ stage a' = None.
Proof.
  apply (non_admin_changes_nothing repr_kept lower_latin1 ADMINS 7 ANN
           [Command ADD []; Text CAT; Command DELETE [CAT]]
           (serving (chat_holding cat_dog) None)).
  - unfold ADMINS. simpl. lia.
  - reflexivity.
Defined.

Lemma file_written_by_commit_or_delete_witness :
  (stage (serving fox_chat (Some EXAMPLE)) = Some EXAMPLE
   /\ exists text, Text (lit "A fox.") = Text text)
  \/ (exists args, Text (lit "A fox.") = Command DELETE args /\ In 42%Z ADMINS).
Proof.
  apply (file_written_by_commit_or_delete repr_kept lower_latin1 ADMINS 42 ANN
           (Text (lit "A fox.")) (serving fox_chat (Some EXAMPLE))).
  vm_compute. discriminate.
Defined.

Lemma commands_keep_dialogue_witness :
  let a := serving fox_chat (Some EXAMPLE) in
  let a' := process_update (handlers repr_kept lower_latin1 ADMINS 42 ANN)
              (Command STATS []) a in
  a' = serve (fun _ => Some EXAMPLE) (lift (stats repr_kept ADMINS 42)) a
  /\ stage a' = stage a /\ data (talk a') = data (talk a).
Proof.
  destruct (commands_keep_dialogue repr_kept lower_latin1 ADMINS 42 ANN []
              (serving fox_chat (Some EXAMPLE)))
    as (_ & _ & _ & H4 & _ & Hsame).
  split; [exact H4|]. apply (Hsame STATS). simpl. tauto.
Defined.

Lemma stale_updates_ignored_witness :
  process_update (handlers repr_kept lower_latin1 ADMINS 42 ANN) (Command CANCEL []) (fresh None)
  = fresh None
  /\ process_update (handlers repr_kept lower_latin1 ADMINS 42 ANN) (Callback CANCEL_ADD) (fresh None)
     = fresh None.
Proof.
  apply (proj1 (stale_updates_ignored repr_kept lower_latin1 ADMINS 42 ANN (fresh None))).
  reflexivity.
Defined.

Lemma cancel_ends_dialogue_witness :
  let a := serving fox_chat (Some EXAMPLE) in
  let a' := process_update (handlers repr_kept lower_latin1 ADMINS 42 ANN) (Callback CANCEL_ADD) a in
  stage a' = None
  /\ data (talk a') = no_user_data
  /\ disk (talk a') = disk (talk a)
  /\ log (talk a') = log (talk a) ++ [Plain Cancelled]
  /\ logged a' = logged a.
Proof.
  apply (cancel_ends_dialogue repr_kept lower_latin1 ADMINS 42 ANN EXAMPLE (Callback CANCEL_ADD)
           (serving fox_chat (Some EXAMPLE))).
  - reflexivity.
  - right. reflexivity.
Defined.

Lemma list_words_lists_keys_witness :
  list_words repr_kept ADMINS 42 (chat_holding cat_dog)
  = (Val tt, posting [Words [CAT; DOG]] (chat_holding cat_dog)).
Proof.
  destruct (list_words_lists_keys repr_kept ADMINS 42 (chat_holding cat_dog) cat_dog)
    as (_ & _ & posts & Hrun & _ & Hshort & _).
  - unfold ADMINS. simpl. lia.
  - unfold holds. vm_compute. reflexivity.
  - rewrite Hrun, Hshort; [reflexivity | discriminate |].
    apply Nat.leb_le. vm_compute. reflexivity.
Defined.

Lemma backup_after_commit_witness :
  let c1 := snd (lift (receive_examples repr_kept (lit "A fox.")) fox_chat) in
  exists content,
    disk c1 = Some content
    /\ backup ADMINS 42 c1 = (Val tt, posting [Document content] c1)
    /\ json_loads repr_kept content
       = Some (PDict (dict_set cat_dog FOX
                        (committed (lit "a wild animal") (example_lines (lit "A fox."))))).
Proof.
  apply (backup_after_commit repr_kept ADMINS 42 (lit "A fox.") FOX (lit "a wild animal")
           fox_chat cat_dog).
  - exact repr_kept_round_trip.
  - unfold ADMINS. simpl. lia.
  - unfold holds. vm_compute. reflexivity.
  - reflexivity.
  - reflexivity.
  - reflexivity.
Defined.

Lemma add_then_delete_witness :
  let w1 := snd (receive_examples repr_kept (lit "A fox.") (state fox_pending)) in
  let w2 := snd (delete_word repr_kept lower_latin1 ADMINS 42 [lit "FOX"] w1) in
  file w2 = Some (json_dumps (PDict cat_dog))
  /\ load_dictionary repr_kept w2 = (Val (PDict cat_dog), w2)
  /\ sent w2
     = sent (state fox_pending)
       ++ [WordAdded FOX (lit "a wild animal") (example_lines (lit "A fox."));
           Deleted FOX].
Proof.
  apply (add_then_delete repr_kept lower_latin1 ADMINS 42 (lit "A fox.") FOX
           (lit "a wild animal") (lit "FOX") [] (state fox_pending) cat_dog).
  - exact repr_kept_round_trip.
  - unfold ADMINS. simpl. lia.
  - vm_compute. reflexivity.
  - reflexivity.
  - reflexivity.
  - reflexivity.
  - reflexivity.
  - reflexivity.
Defined.

Lemma delete_twice_witness :
  let w1 := snd (delete_word repr_kept lower_latin1 ADMINS 42 [lit "Dog"]
                   (world_holding cat_dog)) in
  delete_word repr_kept lower_latin1 ADMINS 42 [lit "Dog"] w1
  = (Val tt, send (DeleteNotFound DOG) w1)
  /\ sent w1 = sent (world_holding cat_dog) ++ [Deleted DOG].
Proof.
  apply (delete_twice repr_kept lower_latin1 ADMINS 42 (lit "Dog") []
           (world_holding cat_dog) cat_dog).
  - exact repr_kept_round_trip.
  - unfold ADMINS. simpl. lia.
  - vm_compute. reflexivity.
  - reflexivity.
  - reflexivity.
Defined.

Lemma commit_keeps_word_order_witness :
  let d' := dict_set cat_dog FOX (committed (lit "a wild animal") [lit "A fox."]) in
  let w' := snd (receive_examples repr_kept (lit "A fox.") (state fox_pending)) in
  List.map fst d' = [CAT; DOG; FOX]
  /\ unique (List.map fst d') = true
  /\ load_dictionary repr_kept w' = (Val (PDict d'), w').
Proof.
  destruct (commit_keeps_word_order repr_kept (lit "A fox.") FOX (lit "a wild animal")
              (state fox_pending) cat_dog) as (H1 & H2 & H3).
  - exact repr_kept_round_trip.
  - vm_compute. reflexivity.
  - reflexivity.
  - reflexivity.
  - split; [exact H1|]. split; [exact H2 | exact (H3 eq_refl)].
Defined.

Lemma rewrite_is_stable_witness :
  let w := world_of_file (Some (lit "[1,  2.5, {}]")) in
  let v := PList [PInt 1; PFloat (lit "2.5"); PDict []] in
  let w1 := snd (save_dictionary v w) in
  fst (save_dictionary v w) = Val tt
  /\ load_dictionary repr_kept w1 = (Val v, w1)
  /\ file w1 = Some (json_dumps v)
  /\ save_dictionary v w1 = (Val tt, w1).
Proof.
  apply (rewrite_is_stable repr_kept (world_of_file (Some (lit "[1,  2.5, {}]")))
           (PList [PInt 1; PFloat (lit "2.5"); PDict []])).
  - exact repr_kept_round_trip.
  - vm_compute. reflexivity.
  - reflexivity.
Defined.

Lemma main_reads_admin_ids_witness :
  main no_other_digits (Some (lit "t")) (Some (lit " 42, ,7")) = Running [42%Z; 7%Z].
Proof.
  apply (main_reads_admin_ids no_other_digits (lit "t") pieces_42_7).
  - discriminate.
  - discriminate.
  - repeat constructor.
Defined.

Lemma added_word_is_listed_witness :
  let a := serving (chat_holding cat_dog) None in
  let a' := polling repr_kept lower_latin1 ADMINS 42 ANN
              [Command ADD []; Text (lit " Fox "); Text (lit "a wild animal");
               Text (lit "A fox."); Command LIST []] a in
  stage a' = None
  /\ logged a' = []
  /\ log (talk a')
     = [Plain AskWord; Plain (AskMeaning FOX); Plain AskExamples;
        Plain (WordAdded FOX (lit "a wild animal") [lit "A fox."]);
        Words [CAT; DOG; FOX]].
Proof.
  destruct (added_word_is_listed repr_kept lower_latin1 ADMINS 42 ANN (lit " Fox ")
              (lit "a wild animal") (lit "A fox.")
              (serving (chat_holding cat_dog) None) cat_dog)
    as (H1 & H2 & _ & H4).
  - exact repr_kept_round_trip.
  - unfold ADMINS. simpl. lia.
  - reflexivity.
  - unfold holds. vm_compute. reflexivity.
  - reflexivity.
  - reflexivity.
  - split; [exact H1|]. split; [exact H2|]. rewrite H4. vm_compute. reflexivity.
Defined.

Lemma no_exception_over_a_store_witness :
  let a := serving (chat_holding cat_dog) None in
  let a' := polling repr_kept lower_latin1 ADMINS 42 ANN
              [Command ADD []; Text CAT; Callback (UPDATE_ ++ CAT);
               Text (lit "a house pet"); Text (lit "Meow."); Text (lit "cat, fox");
               Command STATS []; Command DELETE [DOG]; Command LIST []] a in
  logged a' = logged a /\ sound repr_kept (talk a') /\ pending_ok a'
  /\ clean_data (data (talk a')) = true.
Proof.
  apply (no_exception_over_a_store repr_kept lower_latin1 ADMINS 42 ANN
           [Command ADD []; Text CAT; Callback (UPDATE_ ++ CAT);
            Text (lit "a house pet"); Text (lit "Meow."); Text (lit "cat, fox");
            Command STATS []; Command DELETE [DOG]; Command LIST []]
           (serving (chat_holding cat_dog) None)).
  - exact repr_kept_round_trip.
  - exact lower_latin1_clean.
  - reflexivity.
  - exists cat_dog. split; [split; [vm_compute; reflexivity | reflexivity] | reflexivity].
  - reflexivity.
  - repeat constructor.
Defined.

Lemma file_stays_loadable_witness :
  let a' := polling repr_kept lower_latin1 ADMINS 42 ANN
              [Command ADD []; Text FOX; Text (lit "a wild animal"); Text (lit "A fox.");
               Command DELETE [CAT]]
              (fresh (Some (lit "{}"))) in
  loadable repr_kept (disk (talk a')) /\ clean_data (data (talk a')) = true.
Proof.
  apply (file_stays_loadable repr_kept lower_latin1 ADMINS 42 ANN
           [Command ADD []; Text FOX; Text (lit "a wild animal"); Text (lit "A fox.");
            Command DELETE [CAT]]
           (fresh (Some (lit "{}")))).
  - exact repr_kept_round_trip.
  - exact lower_latin1_clean.
  - exists (PDict []). split; [vm_compute; reflexivity | reflexivity].
  - reflexivity.
  - repeat constructor.
Defined.

Lemma corrupt_file_is_never_rewritten_witness :
  disk (talk (polling repr_kept lower_latin1 ADMINS 42 ANN
                [Command ADD []; Text CAT; Command DELETE [CAT]]
                (fresh (Some (lit "{")))))
  = Some (lit "{").
Proof.
  apply (corrupt_file_is_never_rewritten repr_kept lower_latin1 ADMINS 42 ANN
           [Command ADD []; Text CAT; Command DELETE [CAT]]
           (fresh (Some (lit "{"))) (lit "{")).
  - reflexivity.
  - vm_compute. reflexivity.
Defined.

Lemma stats_after_commit_witness :
  let w1 := snd (receive_examples repr_kept (lit "A fox.") (state fox_pending)) in
  exists (total_words total : nat) (avg : Q),
    stats repr_kept ADMINS 42 w1 = (Val tt, send (Stats total_words total avg) w1)
    /\ total_words = (length cat_dog + if dict_mem cat_dog FOX then 0 else 1)%nat
    /\ (total + examples_of cat_dog FOX
        = total_examples cat_dog + length (example_lines (lit "A fox.")))%nat.
Proof.
  apply (stats_after_commit repr_kept ADMINS 42 (lit "A fox.") FOX (lit "a wild animal")
           (state fox_pending) cat_dog).
  - exact repr_kept_round_trip.
  - unfold ADMINS. simpl. lia.
  - split; [vm_compute; reflexivity | reflexivity].
  - reflexivity.
  - reflexivity.
  - reflexivity.
Defined.

Lemma commit_outcomes_witness :
  let a := serving fox_chat (Some EXAMPLE) in
  let a' := process_update (handlers repr_kept lower_latin1 ADMINS 42 ANN)
              (Text (lit "A fox.")) a in
  stage a' = None
  /\ data (talk a') = no_user_data
  /\ disk (talk a')
     = Some (json_dumps (PDict (cat_dog
                                ++ [(FOX, committed (lit "a wild animal") [lit "A fox."])])))
  /\ logged a' = [].
Proof.
  intros a a'.
  destruct (commit_outcomes repr_kept lower_latin1 ADMINS 42 ANN (lit "A fox.")
              (serving fox_chat (Some EXAMPLE)))
    as [(word & m & d & Hn & Hm & Hd & _ & H1 & H2 & H3 & _ & H5)
       | [(e & H1 & _) | (word & m & d & cut & _ & _ & _ & _ & H1 & _)]].
  - reflexivity.
  - split; [exact H1|]. split; [exact H2|]. split; [|exact H5].
    injection Hn as <-. injection Hm as <-.
    unfold holds in Hd. vm_compute in Hd. injection Hd as <-. exact H3.
  - vm_compute in H1. discriminate H1.
  - vm_compute in H1. discriminate H1.
Defined.
